(** * The livery / group selection window of company_gui.cpp

    A shallow embedding of [SelectCompanyLiveryWindow] (src/company_gui.cpp,
    lines 621-1119): the group-hierarchy flattener ([AddChildren],
    [BuildGroupList]), the row/selection handling ([SetRows], [OnClick],
    [OnInvalidateData]), the colour dropdown ([ShowColourDropDownMenu]) and the
    commit of a colour ([OnDropdownSelect]).

    Integers of the C++ code are [Z]; fixed-width fields have their
    wrap-around written out where the code can reach it.  Pointers to pool
    items are represented by the pool item itself. *)

From Stdlib Require Import ZArith List Bool Lia String Ascii Permutation Sorted.
Import ListNotations.
Open Scope Z_scope.

(** ** Enumerations and sentinels

    The enum declarations live in headers (livery.h, group_type.h,
    vehicle_type.h, gfx_type.h) that are not part of company_gui.cpp; the
    values below are the ones company_gui.cpp relies on. *)

(** Modelled from the spec: [LiveryScheme] (livery.h); "Scheme 0 is the
    DEFAULT scheme".  [LS_END] is the length of the table [_livery_class]
    declared in company_gui.cpp as [_livery_class[LS_END]]. *)
Definition LS_BEGIN : Z := 0.
Definition LS_DEFAULT : Z := 0.
Definition LS_END : Z := 23.

(** Modelled from the spec: [LiveryClass] (livery.h), the scheme classes
    {OTHER, RAIL, ROAD, SHIP, AIRCRAFT} followed by the group classes
    {GROUP_RAIL, GROUP_ROAD, GROUP_SHIP, GROUP_AIRCRAFT}. *)
Definition LC_OTHER : Z := 0.
Definition LC_RAIL : Z := 1.
Definition LC_ROAD : Z := 2.
Definition LC_SHIP : Z := 3.
Definition LC_AIRCRAFT : Z := 4.
Definition LC_GROUP_RAIL : Z := 5.
Definition LC_GROUP_ROAD : Z := 6.
Definition LC_GROUP_SHIP : Z := 7.
Definition LC_GROUP_AIRCRAFT : Z := 8.

(** Modelled from the spec: [VehicleType] (vehicle_type.h). *)
Definition VEH_TRAIN : Z := 0.
Definition VEH_ROAD : Z := 1.
Definition VEH_SHIP : Z := 2.
Definition VEH_AIRCRAFT : Z := 3.

(** Modelled from the spec: the ROOT / NONE sentinel of [GroupID]
    (group_type.h), a 16-bit id outside the range of pool indices. *)
Definition INVALID_GROUP : Z := 65535.

(** Modelled from the spec: [Colours] (gfx_type.h).  [COLOUR_END] is the
    length of [_colour_dropdown] in company_gui.cpp; [INVALID_COLOUR] is the
    reserved default sentinel. *)
Definition COLOUR_END : Z := 16.
Definition INVALID_COLOUR : Z := 255.

(** Association of liveries to livery classes (company_gui.cpp:577). *)
Definition _livery_class : list Z :=
  [ LC_OTHER;
    LC_RAIL; LC_RAIL; LC_RAIL; LC_RAIL; LC_RAIL; LC_RAIL; LC_RAIL; LC_RAIL;
    LC_RAIL; LC_RAIL; LC_RAIL; LC_RAIL; LC_RAIL;
    LC_ROAD; LC_ROAD;
    LC_SHIP; LC_SHIP;
    LC_AIRCRAFT; LC_AIRCRAFT; LC_AIRCRAFT;
    LC_ROAD; LC_ROAD ].

(** [_livery_class[scheme]]; the index is always below [LS_END] in the code. *)
Definition livery_class_of (scheme : Z) : Z :=
  nth (Z.to_nat scheme) _livery_class (-1).

(** ** Bit helpers (core/bitmath_func.hpp), on a 32-bit unsigned word *)

Definition uint32 (x : Z) : Z := x mod 2 ^ 32.
Definition byte (x : Z) : Z := x mod 2 ^ 8.

Definition HasBit (x y : Z) : bool := Z.testbit x y.
Definition SetBit (x y : Z) : Z := uint32 (Z.lor x (Z.shiftl 1 y)).
Definition ClrBit (x y : Z) : Z := uint32 (Z.ldiff x (Z.shiftl 1 y)).
Definition ToggleBit (x y : Z) : Z := uint32 (Z.lxor x (Z.shiftl 1 y)).

(** ** Game state read by the window *)

(** Modelled from the spec: [Livery] (livery.h), "a pair of colour indices
    plus flags indicating whether each colour is explicitly set". *)
Record Livery := mkLivery {
  in_use : Z;     (* bit 0: colour1 set, bit 1: colour2 set *)
  colour1 : Z;
  colour2 : Z
}.

Module Group.
(** Modelled from the spec: [Group] (group.h), the GroupRecord with
    "identity id, parent (id or ROOT sentinel), owner, vehicleType,
    livery". *)
Record t := mk {
  index : Z;         (* GroupID, the slot of the group in its pool *)
  parent : Z;        (* GroupID of the parent, or INVALID_GROUP *)
  owner : Z;         (* CompanyID *)
  vehicle_type : Z;  (* VehicleType *)
  livery : Livery
}.
End Group.

Module Company.
(** Modelled from the spec: [Company] (company_base.h), as far as the
    window reads it: the id, the company colour, and the SchemeLivery of
    each scheme. *)
Record t := mk {
  index : Z;             (* CompanyID *)
  colour : Z;            (* company colour *)
  livery : Z -> Livery   (* livery[LS_END], indexed by scheme *)
}.
End Company.

(** Everything outside the window that its methods read. *)
Record Game := mkGame {
  groups_pool : list Group.t;       (* Group::Iterate(), in pool order *)
  companies_pool : list Company.t;  (* Company::Iterate() *)
  _local_company : Z;
  _ctrl_pressed : bool;
  used_liveries : Z;                (* _loaded_newgrf_features.used_liveries *)
  liveries_shown : Z -> bool;
      (* _settings_client.gui.liveries == LIT_ALL ||
         (... == LIT_COMPANY && window_number == _local_company) *)
  GetString_GROUP_NAME : Z -> string;
      (* the text GetString(buf, STR_GROUP_NAME, lastof(buf)) leaves in the
         64-byte buffer for the group id put in SetDParam(0, _) *)
  strnatcmp : string -> string -> Z
      (* strnatcmp (string.cpp), which compares with the collator of the
         current language; not part of company_gui.cpp *)
}.

(** [Group::Get], [Group::IsValidID], [Company::Get]: pool lookups by id.
    [None] for an id with no pool item (the C++ [Get] must not be called
    on such an id). *)
Definition Group_GetIfValid (pool : list Group.t) (id : Z) : option Group.t :=
  find (fun g => Group.index g =? id) pool.

Definition Group_IsValidID (pool : list Group.t) (id : Z) : bool :=
  match Group_GetIfValid pool id with Some _ => true | None => false end.

Definition Company_GetIfValid (pool : list Company.t) (id : Z)
  : option Company.t :=
  find (fun c => Company.index c =? id) pool.

(** A pool hands out each id once, and never the sentinel. *)
Definition pool_ok (pool : list Group.t) : Prop :=
  NoDup (map Group.index pool) /\ ~ In INVALID_GROUP (map Group.index pool).

Fixpoint nodupb (l : list Z) : bool :=
  match l with
  | [] => true
  | x :: l' => negb (existsb (Z.eqb x) l') && nodupb l'
  end.

Definition pool_okb (pool : list Group.t) : bool :=
  nodupb (map Group.index pool)
  && negb (existsb (Z.eqb INVALID_GROUP) (map Group.index pool)).

(** ** The window *)

Record SelectCompanyLiveryWindow := mkWindow {
  sel : Z;                  (* uint32: scheme bitmask or selected GroupID *)
  livery_class : Z;         (* LiveryClass *)
  rows : Z;                 (* uint *)
  groups : list Group.t;    (* GUIGroupList *)
  indents : list Z;         (* std::vector<int> *)
  need_rebuild : bool;      (* groups.NeedRebuild() *)
  window_number : Z         (* the company shown by the window *)
}.

Definition set_sel (w : SelectCompanyLiveryWindow) (s : Z) :=
  mkWindow s (livery_class w) (rows w) (groups w) (indents w)
           (need_rebuild w) (window_number w).

Definition set_livery_class (w : SelectCompanyLiveryWindow) (lc : Z) :=
  mkWindow (sel w) lc (rows w) (groups w) (indents w)
           (need_rebuild w) (window_number w).

Definition set_rows (w : SelectCompanyLiveryWindow) (r : Z) :=
  mkWindow (sel w) (livery_class w) r (groups w) (indents w)
           (need_rebuild w) (window_number w).

Definition set_need_rebuild (w : SelectCompanyLiveryWindow) (b : bool) :=
  mkWindow (sel w) (livery_class w) (rows w) (groups w) (indents w)
           b (window_number w).

(** [groups.clear(); indents.clear();] *)
Definition clear_lists (w : SelectCompanyLiveryWindow) :=
  mkWindow (sel w) (livery_class w) (rows w) [] []
           (need_rebuild w) (window_number w).

(** [groups.push_back(g); indents.push_back(indent);] *)
Definition push_back (w : SelectCompanyLiveryWindow) (g : Group.t) (indent : Z) :=
  mkWindow (sel w) (livery_class w) (rows w)
           (groups w ++ [g]) (indents w ++ [indent])
           (need_rebuild w) (window_number w).

(** A range-for loop whose body may fail to return. *)
Fixpoint for_each {A S : Type} (l : list A) (body : A -> S -> option S) (s : S)
  : option S :=
  match l with
  | [] => Some s
  | x :: l' =>
      match body x s with
      | Some s' => for_each l' body s'
      | None => None
      end
  end.

(** ** AddChildren (company_gui.cpp:683)

    The recursion of the C++ function is not structural.  [fuel] bounds the
    depth of the recursion; [None] means the depth bound was reached, which
    is how a recursion that does not return shows up in the model. *)
Fixpoint AddChildren (fuel : nat) (source : list Group.t) (parent : Z)
    (indent : Z) (w : SelectCompanyLiveryWindow)
  : option SelectCompanyLiveryWindow :=
  match fuel with
  | O => None
  | S fuel' =>
      for_each source
        (fun g w =>
           if negb (Group.parent g =? parent) then Some w
           else AddChildren fuel' source (Group.index g) (indent + 1)
                            (push_back w g indent))
        w
  end.

(** ** Sorting the staging list *)

(** What the sort lambda of [BuildGroupList] (company_gui.cpp:715)
    answers: the lambda without its name cache. *)
Definition group_sorter (g : Game) (a b : Group.t) : bool :=
  let r := strnatcmp g (GetString_GROUP_NAME g (Group.index a))
                       (GetString_GROUP_NAME g (Group.index b)) in
  if r =? 0 then Group.index a <? Group.index b else r <? 0.

(** The lambda as written, with the [last_group] / [last_name] it
    captures by reference.  A pointer to a pool item is represented by the
    item's id, [nullptr] by [None]. *)
Record NameCache := mkCache {
  last_group : option Z * option Z;
  last_name : string * string
}.

Definition empty_cache : NameCache :=
  mkCache (None, None) (EmptyString, EmptyString).

Definition ptr_eqb (p : option Z) (a : Group.t) : bool :=
  match p with Some i => i =? Group.index a | None => false end.

Definition group_sorter_cached (g : Game) (c : NameCache) (a b : Group.t)
  : bool * NameCache :=
  let c1 :=
    if negb (ptr_eqb (fst (last_group c)) a)
    then mkCache (Some (Group.index a), snd (last_group c))
                 (GetString_GROUP_NAME g (Group.index a), snd (last_name c))
    else c in
  let c2 :=
    if negb (ptr_eqb (snd (last_group c1)) b)
    then mkCache (fst (last_group c1), Some (Group.index b))
                 (fst (last_name c1), GetString_GROUP_NAME g (Group.index b))
    else c1 in
  let r := strnatcmp g (fst (last_name c2)) (snd (last_name c2)) in
  (if r =? 0 then Group.index a <? Group.index b else r <? 0, c2).

(** What the cache holds between two calls of the lambda. *)
Definition cache_valid (g : Game) (c : NameCache) : Prop :=
  (forall i, fst (last_group c) = Some i ->
             fst (last_name c) = GetString_GROUP_NAME g i) /\
  (forall i, snd (last_group c) = Some i ->
             snd (last_name c) = GetString_GROUP_NAME g i).

(** Modelled from the spec: [GUIList::Sort] (sortlist_type.h) is not part of
    company_gui.cpp.  "Sort the staging set by NaturalOrderComparator on
    display name, tie-break ascending id": a comparison sort, ascending,
    driven by the less-than predicate it is given; here by insertion.
    The predicate is a closure: it reads and writes a state [C] that is
    threaded through its calls. *)
Fixpoint Sort_insert {A C : Type} (lt : C -> A -> A -> bool * C) (c : C)
    (x : A) (l : list A) : list A * C :=
  match l with
  | [] => ([x], c)
  | y :: l' =>
      let '(b, c) := lt c y x in
      if b then let '(r, c) := Sort_insert lt c x l' in (y :: r, c)
      else (x :: y :: l', c)
  end.

Fixpoint Sort {A C : Type} (lt : C -> A -> A -> bool * C) (c : C)
    (l : list A) : list A * C :=
  match l with
  | [] => ([], c)
  | x :: l' => let '(s, c) := Sort lt c l' in Sort_insert lt c x s
  end.

(** The same sort for a predicate without state. *)
Fixpoint sort_insert {A : Type} (lt : A -> A -> bool) (x : A) (l : list A)
  : list A :=
  match l with
  | [] => [x]
  | y :: l' => if lt y x then y :: sort_insert lt x l' else x :: y :: l'
  end.

Fixpoint sort {A : Type} (lt : A -> A -> bool) (l : list A) : list A :=
  match l with
  | [] => []
  | x :: l' => sort_insert lt x (sort lt l')
  end.

(** [not_after lt a b]: a sort driven by [lt] may leave [a] before [b]. *)
Definition not_after {A : Type} (lt : A -> A -> bool) (a b : A) : Prop :=
  lt b a = false.

(** What a comparator has to satisfy for a sort driven by it to be
    meaningful: the sign flips with the arguments, and "not after" is
    transitive. *)
Definition comparator_ok (cmp : string -> string -> Z) : Prop :=
  (forall a b, cmp a b < 0 <-> 0 < cmp b a) /\
  (forall a b c, cmp a b <= 0 -> cmp b c <= 0 -> cmp a c <= 0).

(** ** BuildGroupList (company_gui.cpp:693) *)

(** The staging list: the records of the pool that pass the filter. *)
Definition staging (g : Game) (owner vtype : Z) : list Group.t :=
  filter (fun gr => (Group.owner gr =? owner)
                    && (Group.vehicle_type gr =? vtype))
         (groups_pool g).

Definition BuildGroupList (g : Game) (owner : Z)
    (w : SelectCompanyLiveryWindow) : option SelectCompanyLiveryWindow :=
  if negb (need_rebuild w) then Some w
  else
    let w := clear_lists w in
    let r :=
      if LC_GROUP_RAIL <=? livery_class w then
        let vtype := livery_class w - LC_GROUP_RAIL in
        let list := staging g owner vtype in
        let list := fst (Sort (group_sorter_cached g) empty_cache list) in
        AddChildren (S (List.length list)) list INVALID_GROUP 0 w
      else Some w in
    match r with
    | Some w => Some (set_need_rebuild w false)   (* RebuildDone() *)
    | None => None
    end.

(** ** The shape of the flattened list *)

(** What one call [AddChildren source parent indent] appends, as rows
    (group, indent), cut at depth [fuel]. *)
Fixpoint subtree_rows (fuel : nat) (source : list Group.t) (parent : Z)
    (indent : Z) : list (Group.t * Z) :=
  match fuel with
  | O => []
  | S fuel' =>
      flat_map
        (fun g =>
           if negb (Group.parent g =? parent) then []
           else (g, indent)
                  :: subtree_rows fuel' source (Group.index g) (indent + 1))
        source
  end.

Definition push_rows (w : SelectCompanyLiveryWindow)
    (rs : list (Group.t * Z)) :=
  mkWindow (sel w) (livery_class w) (rows w)
           (groups w ++ map fst rs) (indents w ++ map snd rs)
           (need_rebuild w) (window_number w).

(** [below source p h k]: following parent links from [h] inside [source]
    arrives at the id [p] after [k + 1] steps. *)
Inductive below (source : list Group.t) (p : Z) : Group.t -> nat -> Prop :=
| below_child g :
    In g source -> Group.parent g = p -> below source p g 0
| below_desc g h k :
    below source p g k -> In h source ->
    Group.parent h = Group.index g -> below source p h (S k).

(** Following parent links from the id [p] inside [source] arrives at the
    root sentinel within [fuel] steps. *)
Fixpoint reaches_root (fuel : nat) (source : list Group.t) (p : Z) : bool :=
  if p =? INVALID_GROUP then true
  else match fuel with
       | O => false
       | S fuel' =>
           match Group_GetIfValid source p with
           | Some g => reaches_root fuel' source (Group.parent g)
           | None => false
           end
       end.

(** A record hangs from the root when its chain of parents ends there. *)
Definition attached (source : list Group.t) (g : Group.t) : bool :=
  reaches_root (List.length source) source (Group.parent g).

(** An orphan: the parent is not the root and not in [source]. *)
Definition orphan (source : list Group.t) (g : Group.t) : bool :=
  negb (Group.parent g =? INVALID_GROUP)
  && negb (Group_IsValidID source (Group.parent g)).

(** ** Scheme rows: SetRows, DrawWidget, OnClick *)

(** The [n] integers from [s] on. *)
Fixpoint zseq (s : Z) (n : nat) : list Z :=
  match n with
  | O => []
  | S n' => s :: zseq (s + 1) n'
  end.

(** The range of [for (scheme = LS_DEFAULT; scheme < LS_END; scheme++)]. *)
Definition schemes : list Z := zseq LS_DEFAULT (Z.to_nat LS_END).

(** [_livery_class[scheme] == livery_class &&
     HasBit(_loaded_newgrf_features.used_liveries, scheme)] *)
Definition scheme_active (g : Game) (lc : Z) (scheme : Z) : bool :=
  (livery_class_of scheme =? lc) && HasBit (used_liveries g) scheme.

(** SetRows (company_gui.cpp:740); the scroll bar is not modelled. *)
Definition SetRows (g : Game) (w : SelectCompanyLiveryWindow)
  : SelectCompanyLiveryWindow :=
  if livery_class w <? LC_GROUP_RAIL then
    set_rows w
      (fold_left
         (fun rows scheme =>
            if scheme_active g (livery_class w) scheme then rows + 1 else rows)
         schemes 0)
  else set_rows w (Z.of_nat (List.length (groups w))).

(** The scheme rows of DrawWidget (company_gui.cpp:956): the loop over the
    schemes with the scroll position [pos]; one entry (scheme, highlighted)
    for each call of [draw_livery], top row first. *)
Fixpoint DrawWidget_scheme_loop (g : Game) (w : SelectCompanyLiveryWindow)
    (l : list Z) (pos : Z) : list (Z * bool) :=
  match l with
  | [] => []
  | scheme :: l' =>
      if scheme_active g (livery_class w) scheme then
        if 0 <? pos then DrawWidget_scheme_loop g w l' (pos - 1)
        else (scheme, HasBit (sel w) scheme)
               :: DrawWidget_scheme_loop g w l' (pos - 1)
      else DrawWidget_scheme_loop g w l' pos
  end.

Definition DrawWidget_scheme_rows (g : Game) (w : SelectCompanyLiveryWindow)
    (pos : Z) : list (Z * bool) :=
  DrawWidget_scheme_loop g w schemes pos.

(** The loop of OnClick that turns a row into a scheme
    (company_gui.cpp:1030):
    [for (scheme = LS_BEGIN; scheme <= j && scheme < LS_END; scheme++)
       if (... inactive ...) j++;]
    [n] counts the iterations left; the loop makes at most [LS_END]. *)
Fixpoint row_to_scheme_loop (g : Game) (lc : Z) (n : nat) (scheme j : Z) : Z :=
  match n with
  | O => j
  | S n' =>
      if (scheme <=? j) && (scheme <? LS_END) then
        row_to_scheme_loop g lc n' (scheme + 1)
          (if negb (scheme_active g lc scheme) then j + 1 else j)
      else j
  end.

Definition row_to_scheme (g : Game) (lc : Z) (row : Z) : Z :=
  row_to_scheme_loop g lc (Z.to_nat LS_END) LS_BEGIN row.

(** ** The colour dropdown: ShowColourDropDownMenu (company_gui.cpp:633) *)

(** [DropDownListColourItem(result, masked)] *)
Record DropDownListColourItem := mkItem {
  result : Z;
  masked : bool
}.

(** The bitmask of the colours of the companies other than the local one:
    [for (const Company *c : Company::Iterate())
       if (c->index != _local_company) SetBit(used_colours, c->colour);] *)
Definition other_company_colours (g : Game) : Z :=
  fold_left
    (fun used c =>
       if negb (Company.index c =? _local_company g)
       then SetBit used (Company.colour c) else used)
    (companies_pool g) 0.

(** [for (scheme = LS_BEGIN; scheme < LS_END; scheme++)
      if (HasBit(this->sel, scheme)) break;
    if (scheme == LS_END) scheme = LS_DEFAULT;] *)
Definition first_selected_scheme (s : Z) : Z :=
  let scheme :=
    match find (fun scheme => HasBit s scheme) schemes with
    | Some scheme => scheme
    | None => LS_END
    end in
  if scheme =? LS_END then LS_DEFAULT else scheme.

(** The pair ([livery], [default_livery]) the function works with;
    [default_livery] is [None] for [nullptr].  The outer [None]: a pool item
    is fetched with an id that has none. *)
Definition dropdown_liveries (g : Game) (w : SelectCompanyLiveryWindow)
  : option (Livery * option Livery) :=
  match Company_GetIfValid (companies_pool g) (window_number w) with
  | None => None
  | Some c =>
      if livery_class w <? LC_GROUP_RAIL then
        let scheme := first_selected_scheme (sel w) in
        Some (Company.livery c scheme,
              if negb (scheme =? LS_DEFAULT)
              then Some (Company.livery c LS_DEFAULT) else None)
      else
        match Group_GetIfValid (groups_pool g) (sel w) with
        | None => None
        | Some gr =>
            if Group.parent gr =? INVALID_GROUP then
              Some (Group.livery gr, Some (Company.livery c LS_DEFAULT))
            else
              match Group_GetIfValid (groups_pool g) (Group.parent gr) with
              | None => None
              | Some pg => Some (Group.livery gr, Some (Group.livery pg))
              end
        end
  end.

(** The colour of a livery in the slot of the dropdown. *)
Definition slot_colour (primary : bool) (l : Livery) : Z :=
  if primary then colour1 l else colour2 l.

(** The list handed to ShowDropDownList and the preselected result.
    [primary] is [widget == WID_SCL_PRI_COL_DROPDOWN]. *)
Definition ShowColourDropDownMenu (g : Game) (w : SelectCompanyLiveryWindow)
    (primary : bool) : option (list DropDownListColourItem * Z) :=
  let used_colours :=
    if (livery_class w <? LC_GROUP_RAIL) && HasBit (sel w) LS_DEFAULT && primary
    then other_company_colours g else 0 in
  match dropdown_liveries g w with
  | None => None
  | Some (livery, default_livery) =>
      let default_col :=
        match default_livery with
        | Some d => byte (slot_colour primary d + COLOUR_END)
        | None => 0
        end in
      let list :=
        match default_livery with
        | Some _ => [mkItem default_col false]
        | None => []
        end
        ++ map (fun i => mkItem i (HasBit used_colours i))
               (zseq 0 (Z.to_nat COLOUR_END)) in
      let sel :=
        if match default_livery with None => true | Some _ => false end
           || HasBit (in_use livery) (if primary then 0 else 1)
        then slot_colour primary livery
        else default_col in
      Some (list, byte sel)
  end.

(** The widgets OnClick handles; a class button carries the class
    [widget - WID_SCL_CLASS_GENERAL]. *)
Inductive Widget :=
| WID_SCL_CLASS (lc : Z)
| WID_SCL_PRI_COL_DROPDOWN
| WID_SCL_SEC_COL_DROPDOWN
| WID_SCL_MATRIX.

(** OnClick (company_gui.cpp:975).  [row] is the value of
    [vscroll->GetScrolledRowFromWidget(...)], an unsigned number.  Raising,
    lowering and repainting of widgets are not modelled; the two dropdown
    buttons run [ShowColourDropDownMenu], which opens a menu and leaves the
    window as it is.  [None]: an assertion fails, a vector is read out of
    range, or a pool item is fetched with an id that has none. *)
Definition OnClick (g : Game) (widget : Widget) (row : Z)
    (w : SelectCompanyLiveryWindow) : option SelectCompanyLiveryWindow :=
  match widget with
  | WID_SCL_CLASS lc =>
      let w := set_livery_class w lc in
      let r :=
        if livery_class w <? LC_GROUP_RAIL then
          (* the first active scheme of the class, if any *)
          Some (set_sel w
                  (match find (scheme_active g (livery_class w)) schemes with
                   | Some scheme => Z.shiftl 1 scheme
                   | None => 0
                   end))
        else
          let w := set_sel w INVALID_GROUP in
          match BuildGroupList g (window_number w) (set_need_rebuild w true) with
          | Some w =>
              Some (match groups w with
                    | g0 :: _ => set_sel w (Group.index g0)
                    | [] => w
                    end)
          | None => None
          end in
      match r with
      | Some w => Some (SetRows g w)
      | None => None
      end
  | WID_SCL_PRI_COL_DROPDOWN =>
      match ShowColourDropDownMenu g w true with
      | Some _ => Some w
      | None => None
      end
  | WID_SCL_SEC_COL_DROPDOWN =>
      match ShowColourDropDownMenu g w false with
      | Some _ => Some w
      | None => None
      end
  | WID_SCL_MATRIX =>
      if rows w <=? row then Some w
      else if livery_class w <? LC_GROUP_RAIL then
        let j := row_to_scheme g (livery_class w) row in
        if j <? LS_END then
          if _ctrl_pressed g then Some (set_sel w (ToggleBit (sel w) j))
          else Some (set_sel w (Z.shiftl 1 j))
        else None
      else
        match nth_error (groups w) (Z.to_nat row) with
        | Some gr => Some (set_sel w (Group.index gr))
        | None => None
        end
  end.

(** ** Committing a colour: OnDropdownSelect (company_gui.cpp:1052) *)

Inductive Command :=
| CMD_SET_COMPANY_COLOUR (scheme : Z) (primary : bool) (colour : Z)
| CMD_SET_GROUP_LIVERY (group : Z) (primary : bool) (colour : Z).

(** The window after the call and the commands posted, in order. *)
Definition OnDropdownSelect (g : Game) (w : SelectCompanyLiveryWindow)
    (primary : bool) (index : Z)
  : SelectCompanyLiveryWindow * list Command :=
  let local := window_number w =? _local_company g in
  if negb local then (w, [])
  else
    let index := if COLOUR_END <=? index then INVALID_COLOUR else index in
    if livery_class w <? LC_GROUP_RAIL then
      (w, flat_map
            (fun scheme =>
               if HasBit (sel w) scheme
                  || (_ctrl_pressed g && scheme_active g (livery_class w) scheme)
               then [CMD_SET_COMPANY_COLOUR scheme primary index]
               else [])
            schemes)
    else
      (w, [CMD_SET_GROUP_LIVERY (sel w) primary index]).

(** ** OnInvalidateData (company_gui.cpp:1080)

    The enabling and disabling of the class buttons is not modelled. *)
Definition OnInvalidateData (g : Game) (data : Z) (gui_scope : bool)
    (w : SelectCompanyLiveryWindow) : option SelectCompanyLiveryWindow :=
  if negb gui_scope then Some w
  else if negb (data =? -1) then
    (* data contains a VehicleType, rebuild list if it displayed *)
    if livery_class w =? data + LC_GROUP_RAIL then
      match BuildGroupList g (window_number w) (set_need_rebuild w true) with
      | None => None
      | Some w =>
          let w := SetRows g w in
          if negb (Group_IsValidID (groups_pool g) (sel w)) then
            let w := set_sel w INVALID_GROUP in
            Some (match groups w with
                  | g0 :: _ => set_sel w (Group.index g0)
                  | [] => w
                  end)
          else Some w
      end
    else Some w
  else
    let current_class_valid :=
      (livery_class w =? LC_OTHER) || (LC_GROUP_RAIL <=? livery_class w) in
    let '(valid, w) :=
      if liveries_shown g (window_number w) then
        fold_left
          (fun '(valid, w) scheme =>
             if HasBit (used_liveries g) scheme then
               (valid || (livery_class_of scheme =? livery_class w), w)
             else if livery_class w <? LC_GROUP_RAIL then
               (valid, set_sel w (ClrBit (sel w) scheme))
             else (valid, w))
          schemes (current_class_valid, w)
      else (current_class_valid, w) in
    if negb valid then OnClick g (WID_SCL_CLASS LC_OTHER) 0 w
    else Some w.

(** ** A natural-order comparator *)

(** Modelled from the spec: the NaturalOrderComparator, "compares
    case-insensitively; runs of digits are compared as numeric magnitude
    rather than lexicographically".  A string is cut into tokens, a run of
    digits being one token that carries its value, any other character a
    token that carries its lower-case code; token lists are compared
    lexicographically. *)
Module NaturalOrder.

(** Modelled from the spec: the digits that make up a run. *)
Definition is_digit (c : ascii) : bool :=
  let n := Z.of_nat (nat_of_ascii c) in (48 <=? n) && (n <=? 57).

(** Modelled from the spec: "compares case-insensitively". *)
Definition lower (c : ascii) : Z :=
  let n := Z.of_nat (nat_of_ascii c) in
  if (65 <=? n) && (n <=? 90) then n + 32 else n.

(** Modelled from the spec: a token is (48, value) for a run of digits and
    (code, 0) for any other character. *)
Definition flush (run : option Z) : list (Z * Z) :=
  match run with Some v => [(48, v)] | None => [] end.

(** Modelled from the spec: "runs of digits are compared as numeric
    magnitude": [run] is the value of the run of digits being read. *)
Fixpoint tokens (s : string) (run : option Z) : list (Z * Z) :=
  match s with
  | EmptyString => flush run
  | String c s' =>
      if is_digit c then
        tokens s'
          (Some (10 * match run with Some v => v | None => 0 end
                 + (Z.of_nat (nat_of_ascii c) - 48)))
      else flush run ++ (lower c, 0) :: tokens s' None
  end.

(** Modelled from the spec: the order of token lists, with the result
    "less, equal, greater" as -1, 0, 1. *)
Fixpoint lex_compare (a b : list (Z * Z)) : Z :=
  match a, b with
  | [], [] => 0
  | [], _ :: _ => -1
  | _ :: _, [] => 1
  | (x1, x2) :: a', (y1, y2) :: b' =>
      if x1 <? y1 then -1 else if y1 <? x1 then 1
      else if x2 <? y2 then -1 else if y2 <? x2 then 1
      else lex_compare a' b'
  end.

(** Modelled from the spec: [compare(a, b)]. *)
Definition compare (a b : string) : Z :=
  lex_compare (tokens a None) (tokens b None).

End NaturalOrder.

(** The staging list after [list.Sort], and the rows the rebuild produces. *)
Definition sorted_staging (g : Game) (owner vtype : Z) : list Group.t :=
  sort (group_sorter g) (staging g owner vtype).

Definition flattened (g : Game) (owner vtype : Z) : list (Group.t * Z) :=
  let list := sorted_staging g owner vtype in
  subtree_rows (S (List.length list)) list INVALID_GROUP 0.

(** The rows one record of the loop of AddChildren contributes. *)
Definition child_rows (source : list Group.t) (fuel : nat) (p d0 : Z)
    (g : Group.t) : list (Group.t * Z) :=
  if negb (Group.parent g =? p) then []
  else (g, d0) :: subtree_rows fuel source (Group.index g) (d0 + 1).

(** The stack of [parent] arguments of the calls of AddChildren that are
    active at some moment, innermost first; the outermost call has the
    root sentinel. *)
Inductive call_path (source : list Group.t) : list Z -> Prop :=
| call_root : call_path source [INVALID_GROUP]
| call_child g p ps :
    call_path source (p :: ps) -> In g source -> Group.parent g = p ->
    call_path source (Group.index g :: p :: ps).

(** ** The properties the flattened list is to have *)

(** Every listed record that does not hang from the root has its parent
    as the nearest row above it that is less deep: the parent is listed one
    level up, and every row between the two is as deep as the record or
    deeper. *)
Definition nearest_parent (groups : list Group.t) (indents : list Z) : Prop :=
  forall i h d,
    nth_error groups i = Some h -> nth_error indents i = Some d ->
    Group.parent h <> INVALID_GROUP ->
    exists j pg,
      (j < i)%nat /\ nth_error groups j = Some pg /\
      Group.index pg = Group.parent h /\
      nth_error indents j = Some (d - 1) /\
      forall k dk, (j < k < i)%nat -> nth_error indents k = Some dk -> d <= dk.

(** The records below a listed record are the rows that follow it up to
    the first row that is not deeper: a subtree is listed as one block,
    its root first, before the next sibling of the root. *)
Definition subtree_blocks (set groups : list Group.t) (indents : list Z)
  : Prop :=
  forall i k hi di hk dk,
    nth_error groups i = Some hi -> nth_error indents i = Some di ->
    nth_error groups k = Some hk -> nth_error indents k = Some dk ->
    ((exists n, below set (Group.index hi) hk n) <->
     (i < k)%nat /\
     forall m dm, (i < m <= k)%nat -> nth_error indents m = Some dm ->
                  di < dm).

(** [groups] with [indents] is a preorder traversal of the forest the
    parent links induce on [set]. *)
Definition preorder_of (set groups : list Group.t) (indents : list Z) : Prop :=
  List.length groups = List.length indents /\
  NoDup groups /\
  (forall h, In h groups -> In h set) /\
  (* roots are listed, at indent 0 *)
  (forall h, In h set -> Group.parent h = INVALID_GROUP -> In h groups) /\
  (forall i h d,
     nth_error groups i = Some h -> nth_error indents i = Some d ->
     Group.parent h = INVALID_GROUP -> d = 0) /\
  (* a record comes after its parent, one level deeper *)
  (forall i h d pg,
     nth_error groups i = Some h -> nth_error indents i = Some d ->
     In pg set -> Group.index pg = Group.parent h ->
     exists j, (j < i)%nat /\ nth_error groups j = Some pg /\
               nth_error indents j = Some (d - 1)) /\
  (* the children of a listed record are listed *)
  (forall h pg, In pg groups -> In h set ->
                Group.parent h = Group.index pg -> In h groups) /\
  (* a record whose parent is neither the root nor in the set is not *)
  (forall h, In h set -> Group.parent h <> INVALID_GROUP ->
             (forall pg, In pg set -> Group.index pg <> Group.parent h) ->
             ~ In h groups) /\
  (* depth first: the parent is the nearest row above that is less deep,
     and the records below a record are the block of deeper rows after it *)
  nearest_parent groups indents /\
  subtree_blocks set groups indents.

(** Any two records of [groups] with the same parent are in the order of
    the comparator on their names (as GetString resolves them for the
    lambda), and in the order of their ids when the names compare equal. *)
Definition siblings_sorted (g : Game) (groups : list Group.t) : Prop :=
  forall i j a b,
    (i < j)%nat ->
    nth_error groups i = Some a -> nth_error groups j = Some b ->
    Group.parent a = Group.parent b ->
    let r := strnatcmp g (GetString_GROUP_NAME g (Group.index a))
                         (GetString_GROUP_NAME g (Group.index b)) in
    r <= 0 /\ (r = 0 -> Group.index a < Group.index b).

(** The sibling sequences of [groups] are complete: under the root
    sentinel and under every listed record, the records listed with that
    parent are the records of [set] with that parent, each once. *)
Definition siblings_listed (set groups : list Group.t) : Prop :=
  forall p,
    (p = INVALID_GROUP \/ exists pg, In pg groups /\ Group.index pg = p) ->
    Permutation (filter (fun h => Group.parent h =? p) groups)
                (filter (fun h => Group.parent h =? p) set).

(** The number of rows the matrix shows: one for each scheme that is
    active for a scheme class, one for each listed group for a group
    class.  [SetRows] stores it in [rows]. *)
Definition populated_rows (g : Game) (w : SelectCompanyLiveryWindow) : Z :=
  if livery_class w <? LC_GROUP_RAIL
  then Z.of_nat (List.length
                   (filter (scheme_active g (livery_class w)) schemes))
  else Z.of_nat (List.length (groups w)).

(** The entry "use default" of a dropdown: its result is out of the range
    of the colours ([DropDownListColourItem::String]). *)
Definition is_default_entry (it : DropDownListColourItem) : bool :=
  COLOUR_END <=? result it.

(** The preselected result is the one of a "use default" entry of the list. *)
Definition preselects_default (dd : list DropDownListColourItem * Z) : bool :=
  existsb (fun it => is_default_entry it && (result it =? snd dd)) (fst dd).

(** The colours of a livery are colours. *)
Definition livery_ok (l : Livery) : Prop :=
  0 <= colour1 l < COLOUR_END /\ 0 <= colour2 l < COLOUR_END.

(** The scheme a scheme-class dropdown stands for: the lowest scheme whose
    bit is set in the bitmask, the default scheme when no scheme has. *)
Definition lowest_selected (s scheme : Z) : Prop :=
  (HasBit s scheme = true /\ 0 <= scheme < LS_END /\
   forall k, 0 <= k < scheme -> HasBit s k = false) \/
  (scheme = LS_DEFAULT /\ forall k, 0 <= k < LS_END -> HasBit s k = false).

(** ** Sample games *)

Definition plain : Livery := mkLivery 0 0 0.

(** Two companies: company 0 ("Blue", colour 8) and company 1 ("Red",
    colour 4).  Blue has set the primary colour of scheme 1 to 2 and left
    the rest to the default scheme. *)
Definition blue : Company.t :=
  Company.mk 0 8
    (fun scheme => if scheme =? 1 then mkLivery 1 2 9 else mkLivery 0 8 8).

Definition red : Company.t :=
  Company.mk 1 4 (fun _ => mkLivery 0 4 4).

(** Groups "Zeta" and "Alpha" at the root, "Mid" under "Alpha". *)
Definition group_zeta := Group.mk 0 INVALID_GROUP 0 VEH_TRAIN plain.
Definition group_alpha := Group.mk 1 INVALID_GROUP 0 VEH_TRAIN plain.
Definition group_mid := Group.mk 2 1 0 VEH_TRAIN (mkLivery 1 5 0).

Definition tree_names (i : Z) : string :=
  if i =? 0 then "Zeta" else if i =? 1 then "Alpha"
  else if i =? 2 then "Mid" else EmptyString.

(** Schemes 0, 1, 3 and 14 are in use: a default scheme, two rail schemes
    and a road scheme. *)
Definition game_tree : Game :=
  mkGame [group_zeta; group_alpha; group_mid] [blue; red]
         0 false 16395 (fun _ => true) tree_names NaturalOrder.compare.

Definition game_tree_ctrl : Game :=
  mkGame [group_zeta; group_alpha; group_mid] [blue; red]
         0 true 16395 (fun _ => true) tree_names NaturalOrder.compare.

(** The same game seen from the other seat: the local company is Red. *)
Definition game_tree_red : Game :=
  mkGame [group_zeta; group_alpha; group_mid] [blue; red]
         1 false 16395 (fun _ => true) tree_names NaturalOrder.compare.

(** Two root groups, "G10" with the smaller id and "G9" with the larger. *)
Definition game_digits : Game :=
  mkGame [ Group.mk 0 INVALID_GROUP 0 VEH_TRAIN plain;
           Group.mk 1 INVALID_GROUP 0 VEH_TRAIN plain ]
         [blue; red] 0 false 16395 (fun _ => true)
         (fun i => if i =? 0 then "G10"%string else "G9"%string)
         NaturalOrder.compare.

(** A group whose parent (id 7) is gone, and a group under it. *)
Definition group_orphan := Group.mk 1 7 0 VEH_TRAIN plain.
Definition group_under_orphan := Group.mk 2 1 0 VEH_TRAIN plain.

Definition game_orphan : Game :=
  mkGame [group_orphan; group_under_orphan] [blue; red]
         0 false 16395 (fun _ => true) (fun _ => "Group"%string)
         NaturalOrder.compare.

(** A root, two groups that are each other's parent, and a group that is
    its own parent. *)
Definition game_cycle : Game :=
  mkGame [ Group.mk 0 INVALID_GROUP 0 VEH_TRAIN plain;
           Group.mk 1 2 0 VEH_TRAIN plain;
           Group.mk 2 1 0 VEH_TRAIN plain;
           Group.mk 3 3 0 VEH_TRAIN plain ]
         [blue; red] 0 false 16395 (fun _ => true)
         (fun _ => "Group"%string) NaturalOrder.compare.

(** Windows of company 0: on the train groups (to be rebuilt), on the rail
    schemes with scheme 1 selected, and on the general class with the
    default scheme selected. *)
Definition win_groups (selected : Z) : SelectCompanyLiveryWindow :=
  mkWindow selected LC_GROUP_RAIL 0 [] [] true 0.

Definition win_rail : SelectCompanyLiveryWindow :=
  mkWindow 2 LC_RAIL 2 [] [] false 0.

Definition win_general : SelectCompanyLiveryWindow :=
  mkWindow 1 LC_OTHER 1 [] [] false 0.

(** * The rest of the livery window

    The methods of [SelectCompanyLiveryWindow] around the ones above: what
    the matrix and the two dropdown buttons show ([DrawWidget],
    [SetStringParameters], [OnPaint]), the entries of the colour menu
    ([DropDownListColourItem]), and how the window comes up
    ([SetSelectedGroup], the constructor, [ShowCompanyLiveryWindow]). *)

(** The colour names the window shows: [STR_COLOUR_DEFAULT], or
    [STR_COLOUR_DARK_BLUE + colour]. *)
Inductive ColourString :=
| STR_COLOUR_DEFAULT
| STR_COLOUR_DARK_BLUE_plus (colour : Z).

(** The name of a row: [STR_LIVERY_DEFAULT + scheme], or [STR_GROUP_NAME]
    with the group id put in [SetDParam(0, _)]. *)
Inductive RowString :=
| STR_LIVERY_DEFAULT_plus (scheme : Z)
| STR_GROUP_NAME (index : Z).

(** What one call of the lambda [draw_livery] of DrawWidget
    (company_gui.cpp:939) puts on a row: the name with its indent, drawn
    white when [sel], and the colour name under each dropdown.  The text
    under the second dropdown is drawn when that column has a width. *)
Record LiveryRow := mkRow {
  row_str : RowString;
  row_sel : bool;
  row_pri : ColourString;
  row_sec : ColourString;
  row_indent : Z
}.

(** [(def || HasBit(liv.in_use, slot)) ? STR_COLOUR_DARK_BLUE + colour
                                       : STR_COLOUR_DEFAULT] *)
Definition colour_text (def : bool) (liv : Livery) (primary : bool)
  : ColourString :=
  if def || HasBit (in_use liv) (if primary then 0 else 1)
  then STR_COLOUR_DARK_BLUE_plus (slot_colour primary liv)
  else STR_COLOUR_DEFAULT.

Definition draw_livery (str : RowString) (liv : Livery) (sel def : bool)
    (indent : Z) : LiveryRow :=
  mkRow str sel (colour_text def liv true) (colour_text def liv false) indent.

(** The scheme branch of DrawWidget (company_gui.cpp:956), every call of
    [draw_livery] with its arguments. *)
Fixpoint DrawWidget_schemes (g : Game) (c : Company.t)
    (w : SelectCompanyLiveryWindow) (l : list Z) (pos : Z) : list LiveryRow :=
  match l with
  | [] => []
  | scheme :: l' =>
      if scheme_active g (livery_class w) scheme then
        if 0 <? pos then DrawWidget_schemes g c w l' (pos - 1)
        else draw_livery (STR_LIVERY_DEFAULT_plus scheme)
                         (Company.livery c scheme)
                         (HasBit (sel w) scheme) (scheme =? LS_DEFAULT) 0
               :: DrawWidget_schemes g c w l' (pos - 1)
      else DrawWidget_schemes g c w l' pos
  end.

(** The group branch (company_gui.cpp:966): the body of the loop for the
    indices [l]; [None] when [groups] or [indents] is read out of range. *)
Fixpoint DrawWidget_groups (hsep_indent : Z) (w : SelectCompanyLiveryWindow)
    (l : list Z) : option (list LiveryRow) :=
  match l with
  | [] => Some []
  | i :: l' =>
      match nth_error (groups w) (Z.to_nat i),
            nth_error (indents w) (Z.to_nat i) with
      | Some gr, Some d =>
          match DrawWidget_groups hsep_indent w l' with
          | Some rs =>
              Some (draw_livery (STR_GROUP_NAME (Group.index gr))
                                (Group.livery gr)
                                (sel w =? Group.index gr) false
                                (d * hsep_indent) :: rs)
          | None => None
          end
      | _, _ => None
      end
  end.

(** DrawWidget for the matrix (company_gui.cpp:910).  [pos] and [cap] are
    [vscroll->GetPosition()] and [vscroll->GetCapacity()], both
    non-negative; [hsep_indent] is [WidgetDimensions::scaled.hsep_indent].
    The rows are listed top row first. *)
Definition DrawWidget (g : Game) (hsep_indent : Z)
    (w : SelectCompanyLiveryWindow) (pos cap : Z) : option (list LiveryRow) :=
  if livery_class w <? LC_GROUP_RAIL then
    match Company_GetIfValid (companies_pool g) (window_number w) with
    | None => None
    | Some c => Some (DrawWidget_schemes g c w schemes pos)
    end
  else
    let max := Z.min (pos + cap) (Z.of_nat (List.length (groups w))) in
    DrawWidget_groups hsep_indent w (zseq pos (Z.to_nat (max - pos))).

(** SetStringParameters for the two dropdown buttons
    (company_gui.cpp:877): the colour name put in [SetDParam(0, _)]. *)
Definition SetStringParameters (g : Game) (w : SelectCompanyLiveryWindow)
    (primary : bool) : option ColourString :=
  match Company_GetIfValid (companies_pool g) (window_number w) with
  | None => None
  | Some c =>
      if livery_class w <? LC_GROUP_RAIL then
        if negb (sel w =? 0) then
          let scheme := first_selected_scheme (sel w) in
          let livery := Company.livery c scheme in
          if (scheme =? LS_DEFAULT)
             || HasBit (in_use livery) (if primary then 0 else 1)
          then Some (STR_COLOUR_DARK_BLUE_plus (slot_colour primary livery))
          else Some STR_COLOUR_DEFAULT
        else Some STR_COLOUR_DEFAULT
      else
        if negb (sel w =? INVALID_GROUP) then
          match Group_GetIfValid (groups_pool g) (sel w) with
          | None => None
          | Some gr =>
              if HasBit (in_use (Group.livery gr)) (if primary then 0 else 1)
              then Some (STR_COLOUR_DARK_BLUE_plus
                           (slot_colour primary (Group.livery gr)))
              else Some STR_COLOUR_DEFAULT
          end
        else Some STR_COLOUR_DEFAULT
  end.

(** OnPaint (company_gui.cpp:856): the window after the call and the
    disabled state given to both dropdown buttons. *)
Definition OnPaint (g : Game) (w : SelectCompanyLiveryWindow)
  : option (SelectCompanyLiveryWindow * bool) :=
  let local := window_number w =? _local_company g in
  let disabled :=
    if livery_class w <? LC_GROUP_RAIL then sel w =? 0
    else sel w =? INVALID_GROUP in
  match BuildGroupList g (window_number w) w with
  | Some w' => Some (w', negb local || disabled)
  | None => None
  end.

(** ** The entries of the colour menu (company_gui.cpp:586) *)

(** [_colour_dropdown] (company_gui.cpp:555): the names of the sixteen
    colours, from [STR_COLOUR_DARK_BLUE] on in the order of the colours. *)
Definition _colour_dropdown : list ColourString :=
  map STR_COLOUR_DARK_BLUE_plus (zseq 0 (Z.to_nat COLOUR_END)).

(** [DropDownListColourItem::String]; [None] when the table is read out of
    range. *)
Definition DropDownListColourItem_String (it : DropDownListColourItem)
  : option ColourString :=
  if COLOUR_END <=? result it then Some STR_COLOUR_DEFAULT
  else if result it <? 0 then None
  else nth_error _colour_dropdown (Z.to_nat (result it)).

(** [DropDownListColourItem::Draw]: the colour of the sprite,
    [this->result % COLOUR_END]. *)
Definition DropDownListColourItem_Draw (it : DropDownListColourItem) : Z :=
  Z.rem (result it) COLOUR_END.

(** The colour a command carries. *)
Definition command_colour (c : Command) : Z :=
  match c with
  | CMD_SET_COMPANY_COLOUR _ _ colour => colour
  | CMD_SET_GROUP_LIVERY _ _ colour => colour
  end.

(** ** SetSelectedGroup, the constructor, ShowCompanyLiveryWindow *)

Definition set_window_number (w : SelectCompanyLiveryWindow) (n : Z) :=
  mkWindow (sel w) (livery_class w) (rows w) (groups w) (indents w)
           (need_rebuild w) n.

(** The [switch (g->vehicle_type)] of SetSelectedGroup; [None] for
    [NOT_REACHED()]. *)
Definition group_livery_class (vehicle_type : Z) : option Z :=
  if vehicle_type =? VEH_TRAIN then Some LC_GROUP_RAIL
  else if vehicle_type =? VEH_ROAD then Some LC_GROUP_ROAD
  else if vehicle_type =? VEH_SHIP then Some LC_GROUP_SHIP
  else if vehicle_type =? VEH_AIRCRAFT then Some LC_GROUP_AIRCRAFT
  else None.

(** [for (uint i = 0; i < this->rows; i++)
      if (this->groups[i]->index == sel) { ...; break; }]
    over the indices [l]: the row the scroll bar is positioned for, if
    any.  The outer [None]: [groups] is read out of range. *)
Fixpoint selected_row (gs : list Group.t) (s : Z) (l : list Z)
  : option (option Z) :=
  match l with
  | [] => Some None
  | i :: l' =>
      match nth_error gs (Z.to_nat i) with
      | None => None
      | Some gr =>
          if Group.index gr =? s then Some (Some i) else selected_row gs s l'
      end
  end.

(** SetSelectedGroup (company_gui.cpp:777): the window after the call and
    the row found for the scroll bar.  The position given to the scroll
    bar is not modelled. *)
Definition SetSelectedGroup (g : Game) (company group : Z)
    (w : SelectCompanyLiveryWindow)
  : option (SelectCompanyLiveryWindow * option Z) :=
  match Group_GetIfValid (groups_pool g) group with
  | None => None
  | Some gr =>
      match group_livery_class (Group.vehicle_type gr) with
      | None => None
      | Some lc =>
          let w := set_livery_class w lc in
          let w := set_sel w group in
          match BuildGroupList g company (set_need_rebuild w true) with
          | None => None
          | Some w =>
              let w := SetRows g w in
              match selected_row (groups w) (sel w)
                                 (zseq 0 (Z.to_nat (rows w))) with
              | None => None
              | Some i => Some (w, i)
              end
          end
      end
  end.

(** The window object when the body of the constructor starts: its
    vectors are empty.  [dirty] is the rebuild flag the constructor of
    [GUIList] (sortlist_type.h, not part of company_gui.cpp) leaves. *)
Definition fresh_window (dirty : bool) : SelectCompanyLiveryWindow :=
  mkWindow 0 0 0 [] [] dirty 0.

(** The constructor (company_gui.cpp:757).  [FinishInitNested(company)]
    sets [window_number]; [InvalidateData(1)] hands its argument to
    [OnInvalidateData] in GUI scope. *)
Definition SelectCompanyLiveryWindow_new (g : Game) (company group : Z)
    (dirty : bool) : option SelectCompanyLiveryWindow :=
  let w := fresh_window dirty in
  let r :=
    if group =? INVALID_GROUP then
      let w := set_livery_class w LC_OTHER in
      let w := set_sel w 1 in
      match BuildGroupList g company w with
      | Some w => Some (SetRows g w)
      | None => None
      end
    else
      match SetSelectedGroup g company group w with
      | Some (w, _) => Some w
      | None => None
      end in
  match r with
  | Some w => OnInvalidateData g 1 true (set_window_number w company)
  | None => None
  end.

(** ShowCompanyLiveryWindow (company_gui.cpp:1161).  [existing] is what
    [BringWindowToFrontById(WC_COMPANY_COLOUR, company)] answers: the
    livery window of the company if one is open. *)
Definition ShowCompanyLiveryWindow (g : Game) (company group : Z)
    (existing : option SelectCompanyLiveryWindow) (dirty : bool)
  : option SelectCompanyLiveryWindow :=
  match existing with
  | None => SelectCompanyLiveryWindow_new g company group dirty
  | Some w =>
      if negb (group =? INVALID_GROUP) then
        match SetSelectedGroup g company group w with
        | Some (w, _) => Some w
        | None => None
        end
      else Some w
  end.

(** ** What holds of the window between two events *)

(** The number of rows is the one of the class shown, the list needs no
    rebuild, every group has its indent; on a scheme class every selected
    scheme is one of the rows, on a group class the list is the flattened
    hierarchy of the company. *)
Definition window_ok (g : Game) (w : SelectCompanyLiveryWindow) : Prop :=
  rows w = populated_rows g w /\
  need_rebuild w = false /\
  List.length (groups w) = List.length (indents w) /\
  (livery_class w < LC_GROUP_RAIL ->
   forall k, HasBit (sel w) k = true ->
             In k schemes /\ scheme_active g (livery_class w) k = true) /\
  (LC_GROUP_RAIL <= livery_class w ->
   groups w = map fst (flattened g (window_number w)
                                 (livery_class w - LC_GROUP_RAIL)) /\
   indents w = map snd (flattened g (window_number w)
                                  (livery_class w - LC_GROUP_RAIL))).

(** The two buttons that open the colour menu. *)
Definition is_dropdown (widget : Widget) : bool :=
  match widget with
  | WID_SCL_PRI_COL_DROPDOWN | WID_SCL_SEC_COL_DROPDOWN => true
  | _ => false
  end.

(** On a group class the selection is no group or a group of the list. *)
Definition sel_listed (w : SelectCompanyLiveryWindow) : Prop :=
  LC_GROUP_RAIL <= livery_class w ->
  sel w = INVALID_GROUP \/
  exists gr, In gr (groups w) /\ Group.index gr = sel w.

(** The window of company 0 on its train groups, "Alpha" selected. *)
Definition win_tree : SelectCompanyLiveryWindow :=
  mkWindow 1 LC_GROUP_RAIL 3 [group_alpha; group_mid; group_zeta] [0; 1; 0]
           false 0.

(** The window a switch to the group class [lc] leaves. *)
Definition group_class_window (g : Game) (w : SelectCompanyLiveryWindow)
    (lc : Z) : SelectCompanyLiveryWindow :=
  let rs := flattened g (window_number w) (lc - LC_GROUP_RAIL) in
  mkWindow (match rs with
            | (g0, _) :: _ => Group.index g0
            | [] => INVALID_GROUP
            end)
           lc (Z.of_nat (List.length rs)) (map fst rs) (map snd rs) false
           (window_number w).

(** The game of [game_tree] after a change of the loaded graphics that
    leaves the default scheme as the only one in use. *)
Definition game_default_only : Game :=
  mkGame [group_zeta; group_alpha; group_mid] [blue; red]
         0 false 1 (fun _ => true) tree_names NaturalOrder.compare.

(** The game of [game_tree] after a change of the loaded graphics that
    leaves one rail scheme in use beside the default scheme. *)
Definition game_one_rail : Game :=
  mkGame [group_zeta; group_alpha; group_mid] [blue; red]
         0 false 3 (fun _ => true) tree_names NaturalOrder.compare.

(** * The finances window (company_gui.cpp:55-531)

    The column of categories and the year columns of the expenses panel.
    What is drawn is listed as the calls of [DrawString] and
    [GfxFillRect] in the order the code makes them, each with its top
    coordinate; the left and right coordinates are those of the widget
    throughout and are left out. *)
Module Finances.

(** The expense types the three lists of company_gui.cpp name
    ([ExpensesType], economy_type.h). *)
Inductive ExpensesType :=
| EXPENSES_CONSTRUCTION
| EXPENSES_NEW_VEHICLES
| EXPENSES_TRAIN_RUN
| EXPENSES_ROADVEH_RUN
| EXPENSES_AIRCRAFT_RUN
| EXPENSES_SHIP_RUN
| EXPENSES_PROPERTY
| EXPENSES_TRAIN_REVENUE
| EXPENSES_ROADVEH_REVENUE
| EXPENSES_AIRCRAFT_REVENUE
| EXPENSES_SHIP_REVENUE
| EXPENSES_LOAN_INTEREST
| EXPENSES_OTHER.

(** List of revenues (company_gui.cpp:56). *)
Definition _expenses_list_revenue : list ExpensesType :=
  [ EXPENSES_TRAIN_REVENUE; EXPENSES_ROADVEH_REVENUE;
    EXPENSES_AIRCRAFT_REVENUE; EXPENSES_SHIP_REVENUE ].

(** List of operating expenses (company_gui.cpp:64). *)
Definition _expenses_list_operating_costs : list ExpensesType :=
  [ EXPENSES_TRAIN_RUN; EXPENSES_ROADVEH_RUN; EXPENSES_AIRCRAFT_RUN;
    EXPENSES_SHIP_RUN; EXPENSES_PROPERTY; EXPENSES_LOAN_INTEREST ].

(** List of capital expenses (company_gui.cpp:74). *)
Definition _expenses_list_capital_costs : list ExpensesType :=
  [ EXPENSES_CONSTRUCTION; EXPENSES_NEW_VEHICLES; EXPENSES_OTHER ].

(** [_expenses_list_types] (company_gui.cpp:108); an [ExpensesList] is
    the list of its items, [length] the length of that list. *)
Definition _expenses_list_types : list (list ExpensesType) :=
  [ _expenses_list_revenue; _expenses_list_operating_costs;
    _expenses_list_capital_costs ].

(** What the functions read from outside company_gui.cpp: the height of
    a line of text, two vertical distances of
    [WidgetDimensions::scaled], and the arithmetic of [Money]
    (an [OverflowSafeInt64], core/overflowsafe_type.hpp). *)
Record Env := mkEnv {
  FONT_HEIGHT_NORMAL : Z;
  vsep_normal : Z;
  vsep_wide : Z;
  money_add : Z -> Z -> Z;   (* operator+= *)
  money_neg : Z -> Z         (* unary operator- *)
}.

Inductive StringID :=
| STR_FINANCES_REVENUE_TITLE_plus (i : Z)
| STR_FINANCES_SECTION_CONSTRUCTION_plus (et : ExpensesType)
| STR_FINANCES_TOTAL_CAPTION
| STR_FINANCES_PROFIT
| STR_FINANCES_YEAR (year : Z)                 (* SetDParam(0, year) *)
| STR_FINANCES_ZERO_INCOME (amount : Z)        (* SetDParam(0, amount) *)
| STR_FINANCES_POSITIVE_INCOME (amount : Z)
| STR_FINANCES_NEGATIVE_INCOME (amount : Z).

Inductive TextColour := TC_FROMSTRING | TC_BLACK | TC_WHITE.

Inductive Drawn :=
| DrawString (top : Z) (str : StringID) (colour : TextColour)
| GfxFillRect (top : Z).

(** [ExpensesList::GetHeight] (company_gui.cpp:89), an unsigned product. *)
Definition GetHeight (e : Env) (elist : list ExpensesType) : Z :=
  uint32 (Z.of_nat (List.length elist) * FONT_HEIGHT_NORMAL e).

(** [GetTotalCategoriesHeight] (company_gui.cpp:118), unsigned sums. *)
Definition GetTotalCategoriesHeight (e : Env) : Z :=
  let total_height := uint32 (FONT_HEIGHT_NORMAL e + vsep_wide e) in
  let total_height :=
    fold_left
      (fun total_height elist =>
         uint32 (total_height
                 + (FONT_HEIGHT_NORMAL e + GetHeight e elist + vsep_normal e
                    + FONT_HEIGHT_NORMAL e + vsep_wide e)))
      _expenses_list_types total_height in
  uint32 (total_height
          + (vsep_normal e + FONT_HEIGHT_NORMAL e + vsep_wide e)).

(** [DrawCategory] (company_gui.cpp:156); [top] is [tr.top]. *)
Fixpoint DrawCategory (e : Env) (top : Z) (elist : list ExpensesType)
  : list Drawn :=
  match elist with
  | [] => []
  | et :: elist' =>
      DrawString top (STR_FINANCES_SECTION_CONSTRUCTION_plus et) TC_FROMSTRING
        :: DrawCategory e (top + FONT_HEIGHT_NORMAL e) elist'
  end.

(** The loop of [DrawCategories] over the categories from the [i]-th
    on: what it draws and the [y] it ends with. *)
Fixpoint DrawCategories_loop (e : Env) (i : Z)
    (types : list (list ExpensesType)) (y : Z) : list Drawn * Z :=
  match types with
  | [] => ([], y)
  | elist :: types' =>
      let title :=
        DrawString y (STR_FINANCES_REVENUE_TITLE_plus i) TC_FROMSTRING in
      let y := y + FONT_HEIGHT_NORMAL e in
      let items := DrawCategory e y elist in
      let y := y + GetHeight e elist in
      let y := y + vsep_normal e in
      let total := DrawString y STR_FINANCES_TOTAL_CAPTION TC_FROMSTRING in
      let y := y + FONT_HEIGHT_NORMAL e in
      let y := y + vsep_wide e in
      let '(rest, y) := DrawCategories_loop e (i + 1) types' y in
      (title :: items ++ total :: rest, y)
  end.

(** [DrawCategories] (company_gui.cpp:175); [top] is [r.top]. *)
Definition DrawCategories (e : Env) (top : Z) : list Drawn :=
  let y := top + FONT_HEIGHT_NORMAL e + vsep_wide e in
  let '(out, y) := DrawCategories_loop e 0 _expenses_list_types y in
  let y := y + vsep_normal e in
  out ++ [DrawString y STR_FINANCES_PROFIT TC_FROMSTRING].

(** [DrawPrice] (company_gui.cpp:213). *)
Definition DrawPrice (e : Env) (amount : Z) (top : Z) (colour : TextColour)
  : Drawn :=
  if amount =? 0 then DrawString top (STR_FINANCES_ZERO_INCOME amount) colour
  else if amount <? 0
       then DrawString top (STR_FINANCES_POSITIVE_INCOME (money_neg e amount))
                       colour
       else DrawString top (STR_FINANCES_NEGATIVE_INCOME amount) colour.

(** The loop of [DrawYearCategory]: what it draws, and the [y] and the
    [sum] it ends with. *)
Fixpoint DrawYearCategory_loop (e : Env) (tbl : ExpensesType -> Z)
    (elist : list ExpensesType) (y sum : Z) : list Drawn * Z * Z :=
  match elist with
  | [] => ([], y, sum)
  | et :: elist' =>
      let cost := tbl et in
      let sum := money_add e sum cost in
      let price :=
        if negb (cost =? 0) then [DrawPrice e cost y TC_BLACK] else [] in
      let y := y + FONT_HEIGHT_NORMAL e in
      let '(rest, y, sum) := DrawYearCategory_loop e tbl elist' y sum in
      (price ++ rest, y, sum)
  end.

(** [DrawYearCategory] (company_gui.cpp:230): what it draws and the sum
    it returns. *)
Definition DrawYearCategory (e : Env) (start_y : Z)
    (elist : list ExpensesType) (tbl : ExpensesType -> Z) : list Drawn * Z :=
  let '(prices, y, sum) := DrawYearCategory_loop e tbl elist start_y 0 in
  let line := GfxFillRect y in
  let y := y + vsep_normal e in
  (prices ++ line
     :: (if negb (sum =? 0) then [DrawPrice e sum y TC_WHITE] else []),
   sum).

(** The loop of [DrawYearColumn] over the categories. *)
Fixpoint DrawYearColumn_loop (e : Env) (tbl : ExpensesType -> Z)
    (types : list (list ExpensesType)) (y sum : Z) : list Drawn * Z * Z :=
  match types with
  | [] => ([], y, sum)
  | elist :: types' =>
      let y := y + FONT_HEIGHT_NORMAL e in
      let '(category, s) := DrawYearCategory e y elist tbl in
      let sum := money_add e sum s in
      let y := y + (GetHeight e elist + vsep_normal e + FONT_HEIGHT_NORMAL e
                    + vsep_wide e) in
      let '(rest, y, sum) := DrawYearColumn_loop e tbl types' y sum in
      (category ++ rest, y, sum)
  end.

(** [DrawYearColumn] (company_gui.cpp:261); [Money sum;] starts at 0. *)
Definition DrawYearColumn (e : Env) (top : Z) (year : Z)
    (tbl : ExpensesType -> Z) : list Drawn :=
  let y := top in
  let header := DrawString y (STR_FINANCES_YEAR year) TC_FROMSTRING in
  let y := y + (FONT_HEIGHT_NORMAL e + vsep_wide e) in
  let '(out, y, sum) := DrawYearColumn_loop e tbl _expenses_list_types y 0 in
  let line := GfxFillRect y in
  let y := y + vsep_normal e in
  header :: out ++ [line; DrawPrice e sum y TC_WHITE].

(** The fields of [Company] the expenses panel reads. *)
Record Company := mkCompany {
  inaugurated_year : Z;
  yearly_expenses : list (ExpensesType -> Z)   (* [3][EXPENSES_END] *)
}.

(** The widgets [CompanyFinancesWindow::DrawWidget] draws in; a year
    column carries [widget - WID_CF_EXPS_PRICE1]. *)
Inductive Widget :=
| WID_CF_EXPS_CATEGORY
| WID_CF_EXPS_PRICE (wid_offset : Z)
| WID_CF_BALANCE_LINE.

(** [CompanyFinancesWindow::DrawWidget] (company_gui.cpp:424) for the
    company [c] of the window; [top] is [r.top].  [None]:
    [yearly_expenses] is read out of range. *)
Definition DrawWidget (e : Env) (_cur_year : Z) (c : Company) (top : Z)
    (widget : Widget) : option (list Drawn) :=
  match widget with
  | WID_CF_EXPS_CATEGORY => Some (DrawCategories e top)
  | WID_CF_EXPS_PRICE wid_offset =>
      let age := Z.min (_cur_year - inaugurated_year c) 2 in
      if wid_offset <=? age then
        match nth_error (yearly_expenses c) (Z.to_nat (age - wid_offset)) with
        | Some tbl =>
            Some (DrawYearColumn e top (_cur_year - (age - wid_offset)) tbl)
        | None => None
        end
      else Some []
  | WID_CF_BALANCE_LINE => Some [GfxFillRect top]
  end.

End Finances.

(** A sample of the expenses panel: lines of 10 pixels, a table with a
    train income of 500 and running costs of 120, and a company founded
    one year ago. *)
Definition finances_env : Finances.Env := Finances.mkEnv 10 2 6 Z.add Z.opp.

Definition finances_tbl (et : Finances.ExpensesType) : Z :=
  match et with
  | Finances.EXPENSES_TRAIN_REVENUE => -500
  | Finances.EXPENSES_TRAIN_RUN => 120
  | _ => 0
  end.

Definition finances_company : Finances.Company :=
  Finances.mkCompany 1950 [finances_tbl; fun _ => 0; fun _ => 0].

(** * The infrastructure window (company_gui.cpp:1827-2141)

    What [CompanyInfrastructureWindow::DrawWidget] writes into the
    description and the count widget of each section, and the number of
    lines [UpdateWidgetSize] reserves for a description. *)
Module Infrastructure.

(** What the window reads from outside company_gui.cpp: the height of a
    line, the rail and road types in the order they are listed
    ([_sorted_railtypes], [_sorted_roadtypes]), [RoadTypeIsRoad], the
    setting [economy.infrastructure_maintenance], the maintenance costs
    (economy_func.h), and [monthly_cost * 12] on [Money]. *)
Record Env := mkEnv {
  FONT_HEIGHT_NORMAL : Z;
  _sorted_railtypes : list Z;
  _sorted_roadtypes : list Z;
  RoadTypeIsRoad : Z -> bool;
  infrastructure_maintenance : bool;
  RailMaintenanceCost : Z -> Z -> Z -> Z;
  RoadMaintenanceCost : Z -> Z -> Z -> Z;
  SignalMaintenanceCost : Z -> Z;
  CanalMaintenanceCost : Z -> Z;
  StationMaintenanceCost : Z -> Z;
  AirportMaintenanceCost : Z -> Z;
  times_12 : Z -> Z
}.

(** [Company::infrastructure] with the totals its methods give, and the
    id of the company. *)
Record Company := mkCompany {
  index : Z;
  rail : Z -> Z;        (* rail[RAILTYPE_END] *)
  road : Z -> Z;        (* road[ROADTYPE_END] *)
  signal : Z;
  water : Z;
  station : Z;
  airport : Z;
  GetRailTotal : Z;
  GetRoadTotal : Z;
  GetTramTotal : Z
}.

Record CompanyInfrastructureWindow := mkWindow {
  railtypes : Z;   (* RailTypes, a bit for each valid rail type *)
  roadtypes : Z    (* RoadTypes *)
}.

Definition RAILTYPES_NONE : Z := 0.

Inductive StringID :=
| STR_COMPANY_INFRASTRUCTURE_VIEW_RAIL_SECT
| STR_COMPANY_INFRASTRUCTURE_VIEW_ROAD_SECT
| STR_COMPANY_INFRASTRUCTURE_VIEW_TRAM_SECT
| STR_COMPANY_INFRASTRUCTURE_VIEW_WATER_SECT
| STR_COMPANY_INFRASTRUCTURE_VIEW_STATION_SECT
| STR_WHITE_STRING_rail (rt : Z)   (* GetRailTypeInfo(rt)->strings.name *)
| STR_WHITE_STRING_road (rt : Z)   (* GetRoadTypeInfo(rt)->strings.name *)
| STR_COMPANY_INFRASTRUCTURE_VIEW_SIGNALS
| STR_COMPANY_VIEW_INFRASTRUCTURE_NONE
| STR_COMPANY_INFRASTRUCTURE_VIEW_CANALS
| STR_COMPANY_INFRASTRUCTURE_VIEW_STATIONS
| STR_COMPANY_INFRASTRUCTURE_VIEW_AIRPORTS
| STR_WHITE_COMMA (count : Z)
| STR_COMPANY_INFRASTRUCTURE_VIEW_TOTAL (cost : Z).

(** A call of [DrawString] with its top coordinate. *)
Inductive Drawn :=
| DrawString (top : Z) (str : StringID)
| GfxFillRect (top : Z).

Inductive Widget :=
| WID_CI_RAIL_DESC | WID_CI_RAIL_COUNT
| WID_CI_ROAD_DESC | WID_CI_ROAD_COUNT
| WID_CI_TRAM_DESC | WID_CI_TRAM_COUNT
| WID_CI_WATER_DESC | WID_CI_WATER_COUNT
| WID_CI_STATION_DESC | WID_CI_STATION_COUNT.

(** The value an unsigned 32-bit count has as the [int] parameter of
    [DrawCountLine]. *)
Definition to_int (x : Z) : Z := if x <? 2 ^ 31 then x else x - 2 ^ 32.

(** [DrawCountLine] (company_gui.cpp:2018): what it draws and the [y] it
    leaves. *)
Definition DrawCountLine (e : Env) (y : Z) (count monthly_cost : Z)
  : list Drawn * Z :=
  let count := to_int count in
  let y := y + FONT_HEIGHT_NORMAL e in
  (DrawString y (STR_WHITE_COMMA count)
     :: (if infrastructure_maintenance e
         then [DrawString y (STR_COMPANY_INFRASTRUCTURE_VIEW_TOTAL
                               (times_12 e monthly_cost))]
         else []),
   y).

(** The loop over the types of a description widget: a line for each
    type [keep] lets through. *)
Fixpoint names_loop (e : Env) (keep : Z -> bool) (name : Z -> StringID)
    (l : list Z) (y : Z) : list Drawn * Z :=
  match l with
  | [] => ([], y)
  | rt :: l' =>
      if keep rt then
        let y := y + FONT_HEIGHT_NORMAL e in
        let '(rest, y') := names_loop e keep name l' y in
        (DrawString y (name rt) :: rest, y')
      else names_loop e keep name l' y
  end.

(** The loop over the types of a count widget. *)
Fixpoint counts_loop (e : Env) (keep : Z -> bool) (count cost : Z -> Z)
    (l : list Z) (y : Z) : list Drawn * Z :=
  match l with
  | [] => ([], y)
  | rt :: l' =>
      if keep rt then
        let '(line, y) := DrawCountLine e y (count rt) (cost rt) in
        let '(rest, y') := counts_loop e keep count cost l' y in
        (line ++ rest, y')
      else counts_loop e keep count cost l' y
  end.

(** [DrawWidget] (company_gui.cpp:2030) for the sections; [top] is
    [r.top], [c] the company of the window. *)
Definition DrawWidget (e : Env) (w : CompanyInfrastructureWindow)
    (c : Company) (top : Z) (widget : Widget) : list Drawn :=
  let y := top in
  match widget with
  | WID_CI_RAIL_DESC =>
      DrawString y STR_COMPANY_INFRASTRUCTURE_VIEW_RAIL_SECT
        :: (if negb (railtypes w =? RAILTYPES_NONE) then
              let '(names, y) :=
                names_loop e (HasBit (railtypes w)) STR_WHITE_STRING_rail
                           (_sorted_railtypes e) y in
              names ++ [DrawString (y + FONT_HEIGHT_NORMAL e)
                                   STR_COMPANY_INFRASTRUCTURE_VIEW_SIGNALS]
            else [DrawString (y + FONT_HEIGHT_NORMAL e)
                             STR_COMPANY_VIEW_INFRASTRUCTURE_NONE])
  | WID_CI_RAIL_COUNT =>
      let rail_total := GetRailTotal c in
      let '(counts, y) :=
        counts_loop e (HasBit (railtypes w)) (rail c)
          (fun rt => RailMaintenanceCost e rt (rail c rt) rail_total)
          (_sorted_railtypes e) y in
      counts ++ (if negb (railtypes w =? RAILTYPES_NONE)
                 then fst (DrawCountLine e y (signal c)
                             (SignalMaintenanceCost e (signal c)))
                 else [])
  | WID_CI_ROAD_DESC =>
      DrawString y STR_COMPANY_INFRASTRUCTURE_VIEW_ROAD_SECT
        :: fst (names_loop e
                  (fun rt => HasBit (roadtypes w) rt
                             && Bool.eqb (RoadTypeIsRoad e rt) true)
                  STR_WHITE_STRING_road (_sorted_roadtypes e) y)
  | WID_CI_TRAM_DESC =>
      DrawString y STR_COMPANY_INFRASTRUCTURE_VIEW_TRAM_SECT
        :: fst (names_loop e
                  (fun rt => HasBit (roadtypes w) rt
                             && Bool.eqb (RoadTypeIsRoad e rt) false)
                  STR_WHITE_STRING_road (_sorted_roadtypes e) y)
  | WID_CI_ROAD_COUNT =>
      let road_tram_total := GetRoadTotal c in
      fst (counts_loop e
             (fun rt => HasBit (roadtypes w) rt
                        && Bool.eqb (RoadTypeIsRoad e rt) true)
             (road c)
             (fun rt => RoadMaintenanceCost e rt (road c rt) road_tram_total)
             (_sorted_roadtypes e) y)
  | WID_CI_TRAM_COUNT =>
      let road_tram_total := GetTramTotal c in
      fst (counts_loop e
             (fun rt => HasBit (roadtypes w) rt
                        && Bool.eqb (RoadTypeIsRoad e rt) false)
             (road c)
             (fun rt => RoadMaintenanceCost e rt (road c rt) road_tram_total)
             (_sorted_roadtypes e) y)
  | WID_CI_WATER_DESC =>
      [ DrawString y STR_COMPANY_INFRASTRUCTURE_VIEW_WATER_SECT;
        DrawString (y + FONT_HEIGHT_NORMAL e)
                   STR_COMPANY_INFRASTRUCTURE_VIEW_CANALS ]
  | WID_CI_WATER_COUNT =>
      fst (DrawCountLine e y (water c) (CanalMaintenanceCost e (water c)))
  | WID_CI_STATION_DESC =>
      [ DrawString y STR_COMPANY_INFRASTRUCTURE_VIEW_STATION_SECT;
        DrawString (y + FONT_HEIGHT_NORMAL e)
                   STR_COMPANY_INFRASTRUCTURE_VIEW_STATIONS;
        DrawString (y + FONT_HEIGHT_NORMAL e + FONT_HEIGHT_NORMAL e)
                   STR_COMPANY_INFRASTRUCTURE_VIEW_AIRPORTS ]
  | WID_CI_STATION_COUNT =>
      let '(l1, y) :=
        DrawCountLine e y (station c) (StationMaintenanceCost e (station c)) in
      let '(l2, _) :=
        DrawCountLine e y (airport c) (AirportMaintenanceCost e (index c)) in
      l1 ++ l2
  end.

(** The [lines] of [UpdateWidgetSize] (company_gui.cpp:1908, 1929) for a
    description widget of the rail, road or tram section: one for the
    title, one for each type listed. *)
Definition lines_loop (keep : Z -> bool) (l : list Z) : Z :=
  fold_left (fun lines rt => if keep rt then uint32 (lines + 1) else lines)
            l 1.

Definition lines (e : Env) (w : CompanyInfrastructureWindow)
    (widget : Widget) : option Z :=
  match widget with
  | WID_CI_RAIL_DESC =>
      let lines := lines_loop (HasBit (railtypes w)) (_sorted_railtypes e) in
      Some (if negb (railtypes w =? RAILTYPES_NONE) then uint32 (lines + 1)
            else lines)
  | WID_CI_ROAD_DESC =>
      Some (lines_loop (fun rt => HasBit (roadtypes w) rt
                                  && Bool.eqb (RoadTypeIsRoad e rt) true)
                       (_sorted_roadtypes e))
  | WID_CI_TRAM_DESC =>
      Some (lines_loop (fun rt => HasBit (roadtypes w) rt
                                  && Bool.eqb (RoadTypeIsRoad e rt) false)
                       (_sorted_roadtypes e))
  | _ => None
  end.

(** [size->height = std::max(size->height, lines * FONT_HEIGHT_NORMAL)],
    unsigned; a widget without this case keeps its height. *)
Definition UpdateWidgetSize_height (e : Env) (w : CompanyInfrastructureWindow)
    (widget : Widget) (size_height : Z) : Z :=
  match lines e w widget with
  | Some n => Z.max size_height (uint32 (n * FONT_HEIGHT_NORMAL e))
  | None => size_height
  end.

(** The widget that counts what a description widget names. *)
Definition count_widget (widget : Widget) : Widget :=
  match widget with
  | WID_CI_RAIL_DESC => WID_CI_RAIL_COUNT
  | WID_CI_ROAD_DESC => WID_CI_ROAD_COUNT
  | WID_CI_TRAM_DESC => WID_CI_TRAM_COUNT
  | WID_CI_WATER_DESC => WID_CI_WATER_COUNT
  | WID_CI_STATION_DESC => WID_CI_STATION_COUNT
  | other => other
  end.

Definition is_desc (widget : Widget) : bool :=
  match widget with
  | WID_CI_RAIL_DESC | WID_CI_ROAD_DESC | WID_CI_TRAM_DESC
  | WID_CI_WATER_DESC | WID_CI_STATION_DESC => true
  | _ => false
  end.

(** The lines with a count among what a count widget draws. *)
Definition count_lines (ds : list Drawn) : list Drawn :=
  filter (fun d => match d with
                   | DrawString _ (STR_WHITE_COMMA _) => true
                   | _ => false
                   end) ds.

(** A line of a description and the line of a count widget that belongs
    to it: at the same height, with the count of what the line names. *)
Definition counts_for (c : Company) (name line : Drawn) : Prop :=
  match name, line with
  | DrawString y str, DrawString y' (STR_WHITE_COMMA n) =>
      y = y' /\
      match str with
      | STR_WHITE_STRING_rail rt => n = to_int (rail c rt)
      | STR_WHITE_STRING_road rt => n = to_int (road c rt)
      | STR_COMPANY_INFRASTRUCTURE_VIEW_SIGNALS => n = to_int (signal c)
      | STR_COMPANY_INFRASTRUCTURE_VIEW_CANALS => n = to_int (water c)
      | STR_COMPANY_INFRASTRUCTURE_VIEW_STATIONS => n = to_int (station c)
      | STR_COMPANY_INFRASTRUCTURE_VIEW_AIRPORTS => n = to_int (airport c)
      | _ => False
      end
  | _, _ => False
  end.

End Infrastructure.

(** A sample of the infrastructure window: two rail types in the list,
    the first of them valid, and 40 pieces of rail of that type. *)
Definition infrastructure_env : Infrastructure.Env :=
  Infrastructure.mkEnv 10 [0; 1] [0; 1] (fun rt => rt =? 0) true
    (fun _ n _ => n) (fun _ n _ => n) (fun n => n) (fun n => n) (fun n => n)
    (fun _ => 0) (fun m => m * 12).

Definition infrastructure_company : Infrastructure.Company :=
  Infrastructure.mkCompany 0 (fun rt => if rt =? 0 then 40 else 0)
    (fun _ => 0) 3 0 2 1 40 0 0.

Definition infrastructure_window : Infrastructure.CompanyInfrastructureWindow :=
  Infrastructure.mkWindow 1 0.

(** * The company window: the two summaries (company_gui.cpp:2467-2529)

    The lines [CompanyWindow::DrawWidget] writes for the vehicles and for
    the infrastructure of the company, each a call of [DrawString] with
    its top coordinate. *)
Module CompanyView.

(** What the two widgets read of the company: the number of vehicles of
    each type in [group_all], and [infrastructure]. *)
Record Company := mkCompany {
  num_trains : Z;         (* group_all[VEH_TRAIN].num_vehicle *)
  num_road_vehicles : Z;  (* group_all[VEH_ROAD].num_vehicle *)
  num_ships : Z;          (* group_all[VEH_SHIP].num_vehicle *)
  num_aircraft : Z;       (* group_all[VEH_AIRCRAFT].num_vehicle *)
  rail : list Z;          (* infrastructure.rail[RAILTYPE_END] *)
  road : list Z;          (* infrastructure.road[ROADTYPE_END] *)
  signal : Z;
  water : Z;
  station : Z;
  airport : Z
}.

(** A string with the number put in [SetDParam(0, _)]. *)
Inductive StringID :=
| STR_COMPANY_VIEW_VEHICLES_NONE
| STR_COMPANY_VIEW_TRAINS (n : Z)
| STR_COMPANY_VIEW_ROAD_VEHICLES (n : Z)
| STR_COMPANY_VIEW_SHIPS (n : Z)
| STR_COMPANY_VIEW_AIRCRAFT (n : Z)
| STR_COMPANY_VIEW_INFRASTRUCTURE_NONE
| STR_COMPANY_VIEW_INFRASTRUCTURE_RAIL (n : Z)
| STR_COMPANY_VIEW_INFRASTRUCTURE_ROAD (n : Z)
| STR_COMPANY_VIEW_INFRASTRUCTURE_WATER (n : Z)
| STR_COMPANY_VIEW_INFRASTRUCTURE_STATION (n : Z)
| STR_COMPANY_VIEW_INFRASTRUCTURE_AIRPORT (n : Z).

Inductive Drawn := DrawString (top : Z) (str : StringID).

(** Strings for the company vehicle counts (company_gui.cpp:2267). *)
Definition _company_view_vehicle_count_strings : list (Z -> StringID) :=
  [ STR_COMPANY_VIEW_TRAINS; STR_COMPANY_VIEW_ROAD_VEHICLES;
    STR_COMPANY_VIEW_SHIPS; STR_COMPANY_VIEW_AIRCRAFT ].

(** [for (uint i = 0; i < lengthof(amounts); i++)
      if (amounts[i] != 0) { DrawString(...); y += FONT_HEIGHT_NORMAL; }]
    over the amounts with their strings. *)
Fixpoint vehicle_counts_loop (FONT_HEIGHT_NORMAL : Z)
    (l : list (Z * (Z -> StringID))) (y : Z) : list Drawn :=
  match l with
  | [] => []
  | (amount, str) :: l' =>
      if negb (amount =? 0) then
        DrawString y (str amount)
          :: vehicle_counts_loop FONT_HEIGHT_NORMAL l'
                                 (y + FONT_HEIGHT_NORMAL)
      else vehicle_counts_loop FONT_HEIGHT_NORMAL l' y
  end.

(** [DrawWidget], case [WID_C_DESC_VEHICLE_COUNTS]; [top] is [r.top].
    The amounts are unsigned, and so is their sum. *)
Definition DrawWidget_vehicle_counts (FONT_HEIGHT_NORMAL : Z) (c : Company)
    (top : Z) : list Drawn :=
  let amounts :=
    [num_trains c; num_road_vehicles c; num_ships c; num_aircraft c] in
  let y := top in
  if uint32 (num_trains c + num_road_vehicles c + num_ships c
             + num_aircraft c) =? 0
  then [DrawString y STR_COMPANY_VIEW_VEHICLES_NONE]
  else vehicle_counts_loop FONT_HEIGHT_NORMAL
         (combine amounts _company_view_vehicle_count_strings) y.

(** [for (i...) pieces += array[i];] on unsigned numbers. *)
Definition add_pieces (pieces : Z) (array : list Z) : Z :=
  fold_left (fun pieces n => uint32 (pieces + n)) array pieces.

(** [DrawWidget], case [WID_C_DESC_INFRASTRUCTURE_COUNTS]. *)
Definition DrawWidget_infrastructure_counts (FONT_HEIGHT_NORMAL : Z)
    (c : Company) (top : Z) : list Drawn :=
  let y := top in
  let rail_pieces := add_pieces (signal c) (rail c) in
  let road_pieces := add_pieces 0 (road c) in
  if (rail_pieces =? 0) && (road_pieces =? 0) && (water c =? 0)
     && (station c =? 0) && (airport c =? 0)
  then [DrawString y STR_COMPANY_VIEW_INFRASTRUCTURE_NONE]
  else
    let '(l1, y) :=
      if negb (rail_pieces =? 0)
      then ([DrawString y (STR_COMPANY_VIEW_INFRASTRUCTURE_RAIL rail_pieces)],
            y + FONT_HEIGHT_NORMAL)
      else ([], y) in
    let '(l2, y) :=
      if negb (road_pieces =? 0)
      then ([DrawString y (STR_COMPANY_VIEW_INFRASTRUCTURE_ROAD road_pieces)],
            y + FONT_HEIGHT_NORMAL)
      else ([], y) in
    let '(l3, y) :=
      if negb (water c =? 0)
      then ([DrawString y (STR_COMPANY_VIEW_INFRASTRUCTURE_WATER (water c))],
            y + FONT_HEIGHT_NORMAL)
      else ([], y) in
    let '(l4, y) :=
      if negb (station c =? 0)
      then ([DrawString y
               (STR_COMPANY_VIEW_INFRASTRUCTURE_STATION (station c))],
            y + FONT_HEIGHT_NORMAL)
      else ([], y) in
    let l5 :=
      if negb (airport c =? 0)
      then [DrawString y
              (STR_COMPANY_VIEW_INFRASTRUCTURE_AIRPORT (airport c))]
      else [] in
    l1 ++ l2 ++ l3 ++ l4 ++ l5.

(** The top coordinate of a line and the number it shows. *)
Definition top_of (d : Drawn) : Z := match d with DrawString y _ => y end.

Definition shown (d : Drawn) : option Z :=
  match d with
  | DrawString _ STR_COMPANY_VIEW_VEHICLES_NONE => None
  | DrawString _ STR_COMPANY_VIEW_INFRASTRUCTURE_NONE => None
  | DrawString _ (STR_COMPANY_VIEW_TRAINS n) => Some n
  | DrawString _ (STR_COMPANY_VIEW_ROAD_VEHICLES n) => Some n
  | DrawString _ (STR_COMPANY_VIEW_SHIPS n) => Some n
  | DrawString _ (STR_COMPANY_VIEW_AIRCRAFT n) => Some n
  | DrawString _ (STR_COMPANY_VIEW_INFRASTRUCTURE_RAIL n) => Some n
  | DrawString _ (STR_COMPANY_VIEW_INFRASTRUCTURE_ROAD n) => Some n
  | DrawString _ (STR_COMPANY_VIEW_INFRASTRUCTURE_WATER n) => Some n
  | DrawString _ (STR_COMPANY_VIEW_INFRASTRUCTURE_STATION n) => Some n
  | DrawString _ (STR_COMPANY_VIEW_INFRASTRUCTURE_AIRPORT n) => Some n
  end.

End CompanyView.

(** A company with three trains and a ship, forty pieces of rail with
    two signals, and a station. *)
Definition company_view_sample : CompanyView.Company :=
  CompanyView.mkCompany 3 0 1 0 [40; 0] [0; 0] 2 0 1 0.


(** * Properties *)

(** ** Rows pushed to the window *)

Lemma push_rows_nil w : push_rows w [] = w.
Proof. destruct w; unfold push_rows; simpl; now rewrite !app_nil_r. Qed.

Lemma push_rows_app w a b :
  push_rows (push_rows w a) b = push_rows w (a ++ b).
Proof.
  unfold push_rows; simpl.
  now rewrite !map_app, !app_assoc.
Qed.

Lemma push_back_rows w g d : push_back w g d = push_rows w [(g, d)].
Proof. reflexivity. Qed.

(** ** Descendants *)

Section Descendants.

Variable source : list Group.t.

Lemma below_In p h k : below source p h k -> In h source.
Proof. now destruct 1. Qed.

Lemma below_under_child p g h k :
  In g source -> Group.parent g = p ->
  below source (Group.index g) h k -> below source p h (S k).
Proof.
  intros Hg Hp H.
  induction H as [c Hc Hpc | c h k H IH Hh Hph].
  - apply below_desc with (g := g); auto using below_child.
  - apply below_desc with (g := c); auto.
Qed.

Lemma below_top p h k :
  below source p h (S k) ->
  exists g, In g source /\ Group.parent g = p
            /\ below source (Group.index g) h k.
Proof.
  revert h; induction k as [|k IH]; intros h H; inversion H; subst.
  - match goal with Hb : below _ _ ?c 0 |- _ => inversion Hb; subst; exists c end.
    auto using below_child.
  - match goal with Hb : below _ _ ?c (S k) |- _ =>
      destruct (IH _ Hb) as (g0 & Hg0 & Hp0 & Hb0); exists g0 end.
    repeat split; auto.
    eapply below_desc; eauto.
Qed.

Lemma below_trans p g h dg k :
  below source p g dg -> below source (Group.index g) h k ->
  below source p h (S (dg + k)).
Proof.
  intros Hg H.
  induction H as [c Hc Hpc | c h k H IH Hh Hph].
  - rewrite Nat.add_0_r. eapply below_desc; eauto.
  - rewrite Nat.add_succ_r. eapply below_desc; eauto.
Qed.

Hypothesis Hok : pool_ok source.

Lemma pool_ok_index_inj a b :
  In a source -> In b source -> Group.index a = Group.index b -> a = b.
Proof.
  destruct Hok as [Hnd _]. clear Hok.
  induction source as [|x l IH]; simpl; [easy|].
  simpl in Hnd. inversion Hnd as [|? ? Hx Hl]; subst.
  intros [Ha|Ha] [Hb|Hb] E; subst; auto.
  - exfalso. apply Hx. rewrite E. now apply in_map.
  - exfalso. apply Hx. rewrite <- E. now apply in_map.
Qed.

Lemma pool_ok_not_root a : In a source -> Group.index a <> INVALID_GROUP.
Proof.
  intros Ha E. destruct Hok as [_ Hr]. apply Hr.
  rewrite <- E. now apply in_map.
Qed.

Lemma pool_ok_NoDup : NoDup source.
Proof. destruct Hok as [Hnd _]. eapply NoDup_map_inv; eauto. Qed.

Lemma pool_ok_find a :
  In a source -> Group_GetIfValid source (Group.index a) = Some a.
Proof.
  intros Ha. unfold Group_GetIfValid.
  destruct (find _ source) as [b|] eqn:E.
  - apply find_some in E. destruct E as [Hb E].
    apply Z.eqb_eq in E. f_equal. now apply pool_ok_index_inj.
  - exfalso. eapply find_none in E; eauto.
    simpl in E. now rewrite Z.eqb_refl in E.
Qed.

(** The depth below the root is a function of the record. *)
Lemma below_root_fun h k k' :
  below source INVALID_GROUP h k -> below source INVALID_GROUP h k' -> k = k'.
Proof.
  intros H. revert k'.
  induction H as [c Hc Hpc | c h k H IH Hh Hph]; intros k' H'.
  - inversion H' as [|c' ? ? Hb' ? Hp']; subst; auto.
    exfalso. apply (pool_ok_not_root c'); eauto using below_In. congruence.
  - inversion H' as [? ? Hp'|c' ? k'' Hb' ? Hp']; subst.
    + exfalso. apply (pool_ok_not_root c); eauto using below_In. congruence.
    + f_equal. apply IH.
      assert (c = c') as -> by
        (apply pool_ok_index_inj; eauto using below_In; congruence).
      assumption.
Qed.

(** Two ancestors at the same height above a record are the same. *)
Lemma below_inj x y z k :
  In x source -> In y source ->
  below source (Group.index x) z k -> below source (Group.index y) z k ->
  x = y.
Proof.
  intros Hx Hy H. revert y Hy.
  induction H as [c Hc Hpc | c h k H IH Hh Hph]; intros y Hy H'.
  - inversion H'; subst. apply pool_ok_index_inj; auto. congruence.
  - inversion H' as [|c' ? ? Hb' ? Hp']; subst.
    assert (c = c') as <- by
      (apply pool_ok_index_inj; eauto using below_In; congruence).
    now apply IH.
Qed.

(** The chain from the root down to a record visits distinct records. *)
Lemma below_root_chain h k :
  below source INVALID_GROUP h k ->
  exists l, List.length l = S k /\ NoDup l /\ incl l source /\
            forall x, In x l ->
              exists j, (j <= k)%nat /\ below source INVALID_GROUP x j.
Proof.
  induction 1 as [c Hc Hpc | c h k H IH Hh Hph].
  - exists [c]. repeat split.
    + constructor; [easy | constructor].
    + intros x [<-|[]]; assumption.
    + intros x [<-|[]]. exists 0%nat. split; [lia | now apply below_child].
  - destruct IH as (l & Hlen & Hnd & Hincl & Hall).
    exists (h :: l). repeat split.
    + simpl. now rewrite Hlen.
    + constructor; [|assumption].
      intros Hin. destruct (Hall _ Hin) as (j & Hj & Hb).
      assert (j = S k) by
        (eapply below_root_fun; eauto; eapply below_desc; eauto).
      lia.
    + intros x [<-|Hx]; auto.
    + intros x [<-|Hx].
      * exists (S k). split; [lia | eapply below_desc; eauto].
      * destruct (Hall _ Hx) as (j & Hj & Hb). exists j. split; [lia | easy].
Qed.

Lemma below_root_bound h k :
  below source INVALID_GROUP h k -> (S k <= List.length source)%nat.
Proof.
  intros H. destruct (below_root_chain _ _ H) as (l & Hlen & Hnd & Hincl & _).
  rewrite <- Hlen. now apply NoDup_incl_length.
Qed.

End Descendants.

(** ** What AddChildren appends *)

Section Flatten.

Variable source : list Group.t.

Local Abbreviation child_rows := (child_rows source).

Lemma subtree_rows_S fuel p d0 :
  subtree_rows (S fuel) source p d0 = flat_map (child_rows fuel p d0) source.
Proof. reflexivity. Qed.

Lemma subtree_rows_sound fuel : forall p d0 h d,
  In (h, d) (subtree_rows fuel source p d0) ->
  exists k, (k < fuel)%nat /\ d = d0 + Z.of_nat k /\ below source p h k.
Proof.
  induction fuel as [|fuel IH]; intros p d0 h d Hin; [destruct Hin|].
  rewrite subtree_rows_S in Hin. apply in_flat_map in Hin.
  destruct Hin as (g & Hg & Hin). unfold child_rows in Hin.
  destruct (Z.eqb_spec (Group.parent g) p) as [Hp|Hp]; simpl in Hin; [|easy].
  destruct Hin as [E|Hin].
  - inversion E; subst. exists 0%nat.
    repeat split; [lia | lia | now apply below_child].
  - apply IH in Hin. destruct Hin as (k & Hk & Hd & Hb).
    exists (S k). repeat split; [lia | lia |].
    eapply below_under_child; eauto.
Qed.

Lemma subtree_rows_complete fuel : forall p d0 h k,
  below source p h k -> (k < fuel)%nat ->
  In (h, d0 + Z.of_nat k) (subtree_rows fuel source p d0).
Proof.
  induction fuel as [|fuel IH]; intros p d0 h k Hb Hk; [lia|].
  rewrite subtree_rows_S. apply in_flat_map.
  destruct k as [|k].
  - inversion Hb; subst. exists h. split; [assumption|].
    unfold child_rows. rewrite Z.eqb_refl. simpl. left. f_equal. lia.
  - apply below_top in Hb. destruct Hb as (g & Hg & Hp & Hb).
    exists g. split; [assumption|].
    replace (d0 + Z.of_nat (S k)) with (d0 + 1 + Z.of_nat k) by lia.
    unfold child_rows. rewrite Hp, Z.eqb_refl. right.
    apply IH; [assumption | lia].
Qed.

(** AddChildren returns, with exactly these rows appended, as soon as the
    fuel exceeds the depth of everything below [p]. *)
Lemma AddChildren_rows fuel : forall p d0 w,
  (0 < fuel)%nat ->
  (forall h k, below source p h k -> (S k < fuel)%nat) ->
  AddChildren fuel source p d0 w
  = Some (push_rows w (subtree_rows fuel source p d0)).
Proof.
  induction fuel as [|fuel IH]; intros p d0 w Hpos Hdepth; [lia|].
  rewrite subtree_rows_S. simpl.
  assert (Hloop : forall l w, incl l source ->
    for_each l
      (fun g w =>
         if negb (Group.parent g =? p) then Some w
         else AddChildren fuel source (Group.index g) (d0 + 1)
                          (push_back w g d0)) w
    = Some (push_rows w (flat_map (child_rows fuel p d0) l))).
  { induction l as [|g l IHl]; intros w0 Hincl; simpl.
    - now rewrite push_rows_nil.
    - assert (Hg : In g source) by (apply Hincl; now left).
      assert (Hl : incl l source) by (intros x Hx; apply Hincl; now right).
      unfold child_rows at 1.
      destruct (Z.eqb_spec (Group.parent g) p) as [Hp|Hp]; simpl.
      + rewrite IH.
        * rewrite IHl by assumption.
          rewrite push_back_rows, !push_rows_app. reflexivity.
        * specialize (Hdepth g 0%nat (below_child _ _ _ Hg Hp)). lia.
        * intros h k Hb.
          specialize (Hdepth h (S k)
                        (below_under_child _ _ _ _ _ Hg Hp Hb)). lia.
      + now apply IHl. }
  apply Hloop, incl_refl.
Qed.

(** *** Positions: a row comes after the row of its parent *)

Lemma nth_error_flat_map {A B} (F : A -> list B) : forall l i x,
  nth_error (flat_map F l) i = Some x ->
  exists l1 a l2 i',
    l = l1 ++ a :: l2 /\
    i = (List.length (flat_map F l1) + i')%nat /\
    nth_error (F a) i' = Some x.
Proof.
  induction l as [|a l IH]; intros i x H; simpl in H.
  - now destruct i.
  - destruct (Nat.lt_ge_cases i (List.length (F a))) as [Hlt|Hge].
    + rewrite nth_error_app1 in H by assumption.
      exists [], a, l, i. simpl. auto.
    + rewrite nth_error_app2 in H by assumption.
      apply IH in H. destruct H as (l1 & b & l2 & i' & -> & Hi & Hn).
      exists (a :: l1), b, l2, i'. simpl. rewrite length_app.
      repeat split; auto. lia.
Qed.

Lemma nth_error_flat_map_at {A B} (F : A -> list B) l l1 a l2 i' :
  l = l1 ++ a :: l2 ->
  (i' < List.length (F a))%nat ->
  nth_error (flat_map F l) (List.length (flat_map F l1) + i')
  = nth_error (F a) i'.
Proof.
  intros -> Hi. rewrite flat_map_app. simpl.
  rewrite nth_error_app2 by lia.
  replace (List.length (flat_map F l1) + i' - List.length (flat_map F l1))%nat
    with i' by lia.
  now rewrite nth_error_app1.
Qed.

Lemma subtree_rows_parent_before fuel : forall p d0 i h d,
  nth_error (subtree_rows fuel source p d0) i = Some (h, d) ->
  (Group.parent h = p /\ d = d0) \/
  exists j pg, (j < i)%nat /\
    nth_error (subtree_rows fuel source p d0) j = Some (pg, d - 1) /\
    Group.index pg = Group.parent h.
Proof.
  induction fuel as [|fuel IH]; intros p d0 i h d H; [now destruct i|].
  rewrite subtree_rows_S in *.
  destruct (nth_error_flat_map _ _ _ _ H)
    as (l1 & g & l2 & i' & El & -> & Hn).
  unfold child_rows in Hn.
  destruct (Z.eqb_spec (Group.parent g) p) as [Hp|Hp]; simpl in Hn;
    [|now destruct i'].
  destruct i' as [|i']; simpl in Hn.
  - inversion Hn; subst. now left.
  - right. apply IH in Hn.
    assert (Hat : forall n x,
      nth_error ((g, d0) :: subtree_rows fuel source (Group.index g)
                                         (d0 + 1)) n = Some x ->
      nth_error (flat_map (child_rows fuel p d0) source)
                (List.length (flat_map (child_rows fuel p d0) l1) + n)
      = Some x).
    { intros n x Hx.
      rewrite (nth_error_flat_map_at _ _ _ _ _ n El).
      - unfold child_rows. rewrite Hp, Z.eqb_refl. exact Hx.
      - unfold child_rows. rewrite Hp, Z.eqb_refl. cbn [negb].
        apply nth_error_Some. congruence. }
    destruct Hn as [[Hph Hd]|(j & pg & Hj & Hnj & Hidx)].
    + exists (List.length (flat_map (child_rows fuel p d0) l1) + 0)%nat, g.
      repeat split; [lia | | congruence].
      apply Hat. simpl. do 2 f_equal. lia.
    + exists (List.length (flat_map (child_rows fuel p d0) l1) + S j)%nat, pg.
      repeat split; [lia | | assumption].
      apply Hat. exact Hnj.
Qed.

(** Between a row and the row of its parent, every row is as deep as the
    row itself or deeper. *)
Lemma subtree_rows_parent_nearest fuel : forall p d0 i h d,
  nth_error (subtree_rows fuel source p d0) i = Some (h, d) ->
  (Group.parent h = p /\ d = d0) \/
  exists j pg, (j < i)%nat /\
    nth_error (subtree_rows fuel source p d0) j = Some (pg, d - 1) /\
    Group.index pg = Group.parent h /\
    forall k hk dk, (j < k < i)%nat ->
      nth_error (subtree_rows fuel source p d0) k = Some (hk, dk) -> d <= dk.
Proof.
  induction fuel as [|fuel IH]; intros p d0 i h d H; [now destruct i|].
  rewrite subtree_rows_S in *.
  destruct (nth_error_flat_map _ _ _ _ H)
    as (l1 & g & l2 & i' & El & -> & Hn).
  unfold child_rows in Hn.
  destruct (Z.eqb_spec (Group.parent g) p) as [Hp|Hp]; simpl in Hn;
    [|now destruct i'].
  destruct i' as [|i']; simpl in Hn.
  - inversion Hn; subst. now left.
  - right.
    set (base := List.length (flat_map (child_rows fuel p d0) l1)).
    assert (Hlt : (i' < List.length
                           (subtree_rows fuel source (Group.index g) (d0 + 1)))%nat)
      by (apply nth_error_Some; congruence).
    assert (Hat : forall n,
      (n <= S i')%nat ->
      nth_error (flat_map (child_rows fuel p d0) source) (base + n)
      = nth_error ((g, d0) :: subtree_rows fuel source (Group.index g)
                                           (d0 + 1)) n).
    { intros n Hle. unfold base.
      rewrite (nth_error_flat_map_at _ _ _ _ _ n El).
      - unfold child_rows. rewrite Hp, Z.eqb_refl. reflexivity.
      - unfold child_rows. rewrite Hp, Z.eqb_refl. cbn [negb List.length].
        lia. }
    assert (Hdeep : forall n hk dk,
      nth_error (subtree_rows fuel source (Group.index g) (d0 + 1)) n
      = Some (hk, dk) -> d0 + 1 <= dk).
    { intros n hk dk Hk. apply nth_error_In, subtree_rows_sound in Hk.
      destruct Hk as (k & _ & -> & _). lia. }
    apply IH in Hn.
    destruct Hn as [[Hph Hd]|(j & pg & Hj & Hnj & Hidx & Hbetween)].
    + exists (base + 0)%nat, g.
      split; [lia|]. split; [|split; [congruence|]].
      * rewrite Hat by lia. cbn [nth_error]. do 2 f_equal. lia.
      * intros k hk dk Hk Hnk.
        replace k with (base + S (k - base - 1))%nat in Hnk by lia.
        rewrite Hat in Hnk by lia. cbn [nth_error] in Hnk.
        apply Hdeep in Hnk. lia.
    + exists (base + S j)%nat, pg.
      split; [lia|]. split; [|split; [assumption|]].
      * rewrite Hat by lia. exact Hnj.
      * intros k hk dk Hk Hnk.
        replace k with (base + S (k - base - 1))%nat in Hnk by lia.
        rewrite Hat in Hnk by lia. cbn [nth_error] in Hnk.
        apply (Hbetween (k - base - 1)%nat hk dk); [lia | exact Hnk].
Qed.

(** *** No record is listed twice *)

Lemma NoDup_flat_map {A B} (G : A -> list B) : forall l,
  NoDup l ->
  (forall x, In x l -> NoDup (G x)) ->
  (forall x y z, In x l -> In y l -> In z (G x) -> In z (G y) -> x = y) ->
  NoDup (flat_map G l).
Proof.
  induction l as [|a l IH]; intros Hnd Hx Hdisj; simpl; [constructor|].
  inversion Hnd as [|? ? Ha Hl]; subst.
  apply NoDup_app.
  - apply Hx. now left.
  - apply IH; auto.
    + intros x Hin. apply Hx. now right.
    + intros x y z Hin Hiy. apply Hdisj; now right.
  - intros z Hz Hz'. apply in_flat_map in Hz'.
    destruct Hz' as (y & Hy & Hzy).
    assert (a = y) by (eapply Hdisj; eauto; [now left | now right]).
    subst. contradiction.
Qed.

Hypothesis Hok : pool_ok source.

Lemma subtree_rows_NoDup fuel : forall p d0 D,
  (forall h k, below source p h k ->
               below source INVALID_GROUP h (D + k)) ->
  NoDup (map fst (subtree_rows fuel source p d0)).
Proof.
  induction fuel as [|fuel IH]; intros p d0 D Hroot; [constructor|].
  rewrite subtree_rows_S, flat_map_concat_map, concat_map, map_map.
  rewrite <- flat_map_concat_map.
  assert (Hin : forall g z,
    In g source -> In z (map fst (child_rows fuel p d0 g)) ->
    Group.parent g = p /\
    (z = g \/ exists k, below source (Group.index g) z k)).
  { intros g z Hg Hz. unfold child_rows in Hz.
    destruct (Z.eqb_spec (Group.parent g) p) as [Hp|Hp]; simpl in Hz;
      [|easy].
    split; [assumption|]. destruct Hz as [<-|Hz]; [now left|right].
    apply in_map_iff in Hz. destruct Hz as ([z' d] & <- & Hz).
    apply subtree_rows_sound in Hz. destruct Hz as (k & _ & _ & Hb).
    now exists k. }
  assert (Hdepth : forall g z,
    In g source -> Group.parent g = p ->
    (z = g \/ exists k, below source (Group.index g) z k) ->
    (z = g /\ below source INVALID_GROUP z (D + 0)) \/
    exists k, below source (Group.index g) z k /\
              below source INVALID_GROUP z (D + S k)).
  { intros g z Hg Hp [->|(k & Hb)].
    - left. split; [reflexivity|]. apply Hroot. now apply below_child.
    - right. exists k. split; [assumption|]. apply Hroot.
      eapply below_under_child; eauto. }
  apply NoDup_flat_map.
  - now apply pool_ok_NoDup.
  - intros g Hg. unfold child_rows.
    destruct (Z.eqb_spec (Group.parent g) p) as [Hp|Hp]; simpl;
      [|constructor].
    constructor.
    + intros Hself. apply in_map_iff in Hself.
      destruct Hself as ([z d] & Ez & Hz). simpl in Ez. subst z.
      apply subtree_rows_sound in Hz. destruct Hz as (k & _ & _ & Hb).
      assert (D + 0 = D + S k)%nat; [|lia].
      apply (below_root_fun source Hok g); apply Hroot.
      * now apply below_child.
      * eapply below_under_child; eauto.
    + apply IH with (D := S D). intros h k Hb.
      replace (S D + k)%nat with (D + S k)%nat by lia.
      apply Hroot. eapply below_under_child; eauto.
  - intros x y z Hx Hy Hzx Hzy.
    destruct (Hin _ _ Hx Hzx) as [Hpx Hcx].
    destruct (Hin _ _ Hy Hzy) as [Hpy Hcy].
    destruct (Hdepth _ _ Hx Hpx Hcx) as [[Ex Hbx]|(kx & Hbx & Hrx)];
      destruct (Hdepth _ _ Hy Hpy Hcy) as [[Ey Hby]|(ky & Hby & Hry)].
    + congruence.
    + assert (D + 0 = D + S ky)%nat
        by (apply (below_root_fun source Hok z); assumption). lia.
    + assert (D + S kx = D + 0)%nat
        by (apply (below_root_fun source Hok z); assumption). lia.
    + assert (D + S kx = D + S ky)%nat
        by (apply (below_root_fun source Hok z); assumption).
      assert (kx = ky) by lia. subst ky.
      eapply below_inj; eauto.
Qed.

End Flatten.

(** ** The sort *)

Section SortFacts.

Context {A : Type} (lt : A -> A -> bool).

Lemma sort_insert_perm x l : Permutation (sort_insert lt x l) (x :: l).
Proof.
  induction l as [|y l IH]; simpl; [reflexivity|].
  destruct (lt y x).
  - rewrite IH. apply perm_swap.
  - reflexivity.
Qed.

Lemma sort_perm l : Permutation (sort lt l) l.
Proof.
  induction l as [|x l IH]; simpl; [reflexivity|].
  rewrite sort_insert_perm. now constructor.
Qed.

Local Abbreviation le := (not_after lt).

Hypothesis lt_asym : forall a b, lt a b = true -> lt b a = false.
Hypothesis le_trans : forall a b c, le a b -> le b c -> le a c.

Lemma sort_insert_sorted x l :
  StronglySorted le l -> StronglySorted le (sort_insert lt x l).
Proof.
  induction 1 as [|y l Hs IH Hy]; simpl.
  - constructor; constructor.
  - destruct (lt y x) eqn:E.
    + constructor; [assumption|].
      eapply Permutation_Forall;
        [symmetry; apply sort_insert_perm|].
      constructor; [now apply lt_asym | assumption].
    + constructor; [now constructor|].
      constructor; [exact E|].
      eapply Forall_impl; [|exact Hy].
      intros z Hz. now apply le_trans with y.
Qed.

Lemma sort_sorted l : StronglySorted le (sort lt l).
Proof.
  induction l as [|x l IH]; simpl; [constructor|].
  now apply sort_insert_sorted.
Qed.

Lemma StronglySorted_before (R : A -> A -> Prop) l1 a l2 b l3 :
  StronglySorted R (l1 ++ a :: l2 ++ b :: l3) -> R a b.
Proof.
  induction l1 as [|x l1 IH]; simpl; intros H.
  - inversion H as [|? ? _ Hall]; subst.
    rewrite Forall_forall in Hall. apply Hall.
    apply in_or_app. right. now left.
  - inversion H; subst. auto.
Qed.

End SortFacts.

(** The order the sort lambda induces, read off the comparator. *)
Lemma group_sorter_false g a b :
  comparator_ok (strnatcmp g) ->
  (group_sorter g b a = false <->
   let r := strnatcmp g (GetString_GROUP_NAME g (Group.index a))
                        (GetString_GROUP_NAME g (Group.index b)) in
   r <= 0 /\ (r = 0 -> Group.index a <= Group.index b)).
Proof.
  intros [Hflip _]. unfold group_sorter. cbv zeta.
  set (na := GetString_GROUP_NAME g (Group.index a)).
  set (nb := GetString_GROUP_NAME g (Group.index b)).
  pose proof (Hflip na nb) as H1. pose proof (Hflip nb na) as H2.
  destruct (Z.eqb_spec (strnatcmp g nb na) 0) as [E|E].
  - rewrite Z.ltb_ge. lia.
  - rewrite Z.ltb_ge. lia.
Qed.

Lemma group_sorter_asym g a b :
  comparator_ok (strnatcmp g) ->
  group_sorter g a b = true -> group_sorter g b a = false.
Proof.
  intros Hc H. apply group_sorter_false; [assumption|]. cbv zeta.
  destruct Hc as [Hflip _]. unfold group_sorter in H.
  set (na := GetString_GROUP_NAME g (Group.index a)) in *.
  set (nb := GetString_GROUP_NAME g (Group.index b)) in *.
  pose proof (Hflip na nb) as H1. pose proof (Hflip nb na) as H2.
  destruct (Z.eqb_spec (strnatcmp g na nb) 0) as [E|E].
  - apply Z.ltb_lt in H. lia.
  - apply Z.ltb_lt in H. lia.
Qed.

Lemma group_sorter_le_trans g a b c :
  comparator_ok (strnatcmp g) ->
  group_sorter g b a = false -> group_sorter g c b = false ->
  group_sorter g c a = false.
Proof.
  intros Hc Hab Hbc.
  apply group_sorter_false in Hab; [|assumption].
  apply group_sorter_false in Hbc; [|assumption].
  apply group_sorter_false; [assumption|]. cbv zeta in *.
  destruct Hc as [Hflip Htrans].
  set (na := GetString_GROUP_NAME g (Group.index a)) in *.
  set (nb := GetString_GROUP_NAME g (Group.index b)) in *.
  set (nc := GetString_GROUP_NAME g (Group.index c)) in *.
  destruct Hab as [Hab Hab0], Hbc as [Hbc Hbc0].
  pose proof (Htrans na nb nc Hab Hbc) as Hac.
  split; [assumption|]. intros E.
  pose proof (Hflip na nc) as F1. pose proof (Hflip nc na) as F2.
  pose proof (Hflip na nb) as F3. pose proof (Hflip nb na) as F4.
  pose proof (Hflip nb nc) as F5. pose proof (Hflip nc nb) as F6.
  assert (Hca : strnatcmp g nc na <= 0) by lia.
  pose proof (Htrans nc na nb Hca Hab) as Hcb.
  pose proof (Htrans nb nc na Hbc Hca) as Hba.
  lia.
Qed.

(** A sort with a stateful predicate whose answers do not depend on the
    state is the sort with the answers. *)
Lemma Sort_stateless {A C} (lt : C -> A -> A -> bool * C)
    (ltp : A -> A -> bool) (inv : C -> Prop) :
  (forall c a b, inv c -> fst (lt c a b) = ltp a b /\ inv (snd (lt c a b))) ->
  forall l c, inv c ->
    fst (Sort lt c l) = sort ltp l /\ inv (snd (Sort lt c l)).
Proof.
  intros Hlt.
  assert (Hins : forall x l c, inv c ->
    fst (Sort_insert lt c x l) = sort_insert ltp x l /\
    inv (snd (Sort_insert lt c x l))).
  { intros x. induction l as [|y l IH]; intros c Hc; simpl; [auto|].
    destruct (Hlt c y x Hc) as [E Hc'].
    destruct (lt c y x) as [b c'] eqn:El. simpl in E, Hc'. subst b.
    destruct (ltp y x); [|auto].
    destruct (IH c' Hc') as [E' Hc''].
    destruct (Sort_insert lt c' x l) as [r c'']. simpl in *.
    split; [now f_equal | assumption]. }
  induction l as [|x l IH]; intros c Hc; simpl; [auto|].
  destruct (IH c Hc) as [E Hc'].
  destruct (Sort lt c l) as [r c']. simpl in *. subst r.
  now apply Hins.
Qed.

(** The name cache of the lambda does not change its answers. *)
Lemma group_sorter_cached_ok g c a b :
  cache_valid g c ->
  fst (group_sorter_cached g c a b) = group_sorter g a b /\
  cache_valid g (snd (group_sorter_cached g c a b)).
Proof.
  intros [H0 H1]. unfold group_sorter_cached. cbv zeta.
  set (c1 := if negb (ptr_eqb (fst (last_group c)) a) then _ else c).
  assert (V1 : cache_valid g c1 /\
               fst (last_name c1) = GetString_GROUP_NAME g (Group.index a)).
  { subst c1. destruct (ptr_eqb (fst (last_group c)) a) eqn:E; simpl.
    - split; [split; assumption|]. unfold ptr_eqb in E.
      destruct (fst (last_group c)) as [i|] eqn:E'; [|discriminate].
      apply Z.eqb_eq in E. subst i. now apply H0.
    - split; [split; simpl|reflexivity].
      + intros i [= <-]. reflexivity.
      + exact H1. }
  destruct V1 as [[V0 V1] Na].
  set (c2 := if negb (ptr_eqb (snd (last_group c1)) b) then _ else c1).
  assert (V2 : cache_valid g c2 /\
               fst (last_name c2) = GetString_GROUP_NAME g (Group.index a) /\
               snd (last_name c2) = GetString_GROUP_NAME g (Group.index b)).
  { subst c2. destruct (ptr_eqb (snd (last_group c1)) b) eqn:E; simpl.
    - split; [split; assumption|]. split; [assumption|]. unfold ptr_eqb in E.
      destruct (snd (last_group c1)) as [i|] eqn:E'; [|discriminate].
      apply Z.eqb_eq in E. subst i. now apply V1.
    - split; [split; simpl|split; [assumption|reflexivity]].
      + exact V0.
      + intros i [= <-]. reflexivity. }
  destruct V2 as [V2 [Na2 Nb2]]. simpl. rewrite Na2, Nb2.
  split; [reflexivity | assumption].
Qed.

Lemma Sort_group_sorter g l :
  fst (Sort (group_sorter_cached g) empty_cache l) = sort (group_sorter g) l.
Proof.
  apply (Sort_stateless (group_sorter_cached g) (group_sorter g)
           (cache_valid g)).
  - intros c a b. apply group_sorter_cached_ok.
  - split; intros i H; discriminate H.
Qed.

(** ** Pools stay well formed through filter and sort *)

Lemma pool_ok_filter f l : pool_ok l -> pool_ok (filter f l).
Proof.
  intros [Hnd Hr]. split.
  - clear Hr. induction l as [|x l IH]; simpl in *; [constructor|].
    inversion Hnd as [|? ? Hx Hl]; subst.
    destruct (f x); simpl; auto.
    constructor; auto.
    intros Hin. apply Hx. apply in_map_iff in Hin.
    destruct Hin as (y & E & Hy). apply filter_In in Hy.
    apply in_map_iff. exists y. tauto.
  - intros Hin. apply Hr. apply in_map_iff in Hin.
    destruct Hin as (y & E & Hy). apply filter_In in Hy.
    apply in_map_iff. exists y. tauto.
Qed.

Lemma pool_ok_perm l l' : Permutation l l' -> pool_ok l -> pool_ok l'.
Proof.
  intros Hp [Hnd Hr]. split.
  - eapply Permutation_NoDup; [|exact Hnd]. now apply Permutation_map.
  - intros Hin. apply Hr.
    eapply Permutation_in; [|exact Hin].
    apply Permutation_map. now symmetry.
Qed.

Lemma nodupb_NoDup l : nodupb l = true -> NoDup l.
Proof.
  induction l as [|x m IH]; simpl; intros H; [constructor|].
  apply andb_prop in H. destruct H as [Hx Hm].
  constructor; auto.
  intros Hin. apply negb_true_iff in Hx.
  assert (existsb (Z.eqb x) m = true); [|congruence].
  apply existsb_exists. exists x. split; [assumption | apply Z.eqb_refl].
Qed.

Lemma pool_okb_ok l : pool_okb l = true -> pool_ok l.
Proof.
  unfold pool_okb, pool_ok. intros H. apply andb_prop in H.
  destruct H as [Hnd Hr]. split.
  - now apply nodupb_NoDup.
  - intros Hin. apply negb_true_iff in Hr.
    assert (existsb (Z.eqb INVALID_GROUP) (map Group.index l) = true);
      [|congruence].
    apply existsb_exists. exists INVALID_GROUP.
    split; [assumption | apply Z.eqb_refl].
Qed.

Lemma staging_In g owner vtype h :
  In h (staging g owner vtype) <->
  In h (groups_pool g) /\ Group.owner h = owner /\ Group.vehicle_type h = vtype.
Proof.
  unfold staging. rewrite filter_In, andb_true_iff, !Z.eqb_eq. tauto.
Qed.

Lemma sorted_staging_perm g owner vtype :
  Permutation (sorted_staging g owner vtype) (staging g owner vtype).
Proof. apply sort_perm. Qed.

Lemma sorted_staging_In g owner vtype h :
  In h (sorted_staging g owner vtype) <-> In h (staging g owner vtype).
Proof.
  split; apply Permutation_in;
    [|symmetry]; apply sorted_staging_perm.
Qed.

Lemma pool_ok_sorted_staging g owner vtype :
  pool_ok (groups_pool g) -> pool_ok (sorted_staging g owner vtype).
Proof.
  intros H. eapply pool_ok_perm.
  - symmetry. apply sorted_staging_perm.
  - now apply pool_ok_filter.
Qed.

Lemma below_ext s s' p h k :
  (forall x, In x s -> In x s') -> below s p h k -> below s' p h k.
Proof.
  intros Hincl. induction 1.
  - apply below_child; auto.
  - eapply below_desc; eauto.
Qed.

(** ** The chain of parents and the root *)

Section Reach.

Variable source : list Group.t.

Lemma reaches_root_sound n : forall p,
  reaches_root n source p = true ->
  p = INVALID_GROUP \/
  exists g k, In g source /\ Group.index g = p
              /\ below source INVALID_GROUP g k.
Proof.
  induction n as [|n IH]; intros p H; simpl in H.
  - destruct (Z.eqb_spec p INVALID_GROUP); [now left | discriminate].
  - destruct (Z.eqb_spec p INVALID_GROUP) as [|Hp]; [now left | right].
    unfold Group_GetIfValid in H.
    destruct (find _ source) as [g|] eqn:E; [|discriminate].
    apply find_some in E. destruct E as [Hg E]. apply Z.eqb_eq in E.
    destruct (IH _ H) as [Hr|(pg & k & Hpg & Hi & Hb)].
    + exists g, 0%nat. auto using below_child.
    + exists g, (S k). repeat split; auto.
      eapply below_desc; eauto.
Qed.

Lemma attached_below h :
  In h source -> attached source h = true ->
  exists k, below source INVALID_GROUP h k.
Proof.
  intros Hh H. apply reaches_root_sound in H.
  destruct H as [Hr|(pg & k & Hpg & Hi & Hb)].
  - exists 0%nat. now apply below_child.
  - exists (S k). eapply below_desc; eauto.
Qed.

Hypothesis Hok : pool_ok source.

Lemma reaches_root_complete h k :
  below source INVALID_GROUP h k ->
  forall n, (k <= n)%nat -> reaches_root n source (Group.parent h) = true.
Proof.
  induction 1 as [c Hc Hpc | c h k H IH Hh Hph]; intros n Hn.
  - rewrite Hpc. destruct n; simpl; reflexivity.
  - destruct n as [|n]; [lia|]. simpl.
    destruct (Z.eqb_spec (Group.parent h) INVALID_GROUP); [reflexivity|].
    rewrite Hph, (pool_ok_find source Hok c) by eauto using below_In.
    apply IH. lia.
Qed.

Lemma below_attached h k :
  below source INVALID_GROUP h k -> attached source h = true.
Proof.
  intros H. unfold attached. eapply reaches_root_complete; eauto.
  apply below_root_bound in H; [lia | assumption].
Qed.

(** The call stack of AddChildren never holds an id twice. *)
Lemma call_path_depths ps :
  call_path source ps ->
  nth_error (rev ps) 0 = Some INVALID_GROUP /\
  forall i p, nth_error (rev ps) (S i) = Some p ->
    exists g, In g source /\ Group.index g = p
              /\ below source INVALID_GROUP g i.
Proof.
  induction 1 as [|g p ps Hps IH Hg Hp].
  - simpl. split; [reflexivity|]. intros [|i] p H; discriminate.
  - destruct IH as [IH0 IH].
    change (rev (Group.index g :: p :: ps))
      with (rev (p :: ps) ++ [Group.index g]).
    assert (Hlen : List.length (rev (p :: ps)) = S (List.length ps))
      by (rewrite length_rev; reflexivity).
    split.
    + rewrite nth_error_app1 by lia. exact IH0.
    + intros i q Hq.
      destruct (Nat.lt_ge_cases (S i) (List.length (rev (p :: ps))))
        as [Hlt|Hge].
      * rewrite nth_error_app1 in Hq by assumption. now apply IH.
      * rewrite nth_error_app2 in Hq by assumption.
        destruct (S i - List.length (rev (p :: ps)))%nat as [|m] eqn:Em;
          simpl in Hq; [|now destruct m].
        inversion Hq; subst q. exists g. repeat split; auto.
        assert (Ei : i = List.length ps) by lia.
        assert (Hlast : nth_error (rev (p :: ps)) i = Some p).
        { rewrite Ei. simpl.
          rewrite nth_error_app2 by (rewrite length_rev; lia).
          rewrite length_rev, Nat.sub_diag. reflexivity. }
        destruct i as [|i].
        -- rewrite IH0 in Hlast. inversion Hlast; subst p.
           now apply below_child.
        -- destruct (IH _ _ Hlast) as (pg & Hpg & Hi & Hb).
           eapply below_desc; eauto. congruence.
Qed.

Lemma call_path_NoDup ps :
  call_path source ps ->
  NoDup ps /\ (List.length ps <= S (List.length source))%nat.
Proof.
  intros H. destruct (call_path_depths _ H) as [H0 Hd]. split.
  - rewrite <- (rev_involutive ps). apply NoDup_rev.
    apply NoDup_nth_error. intros i j Hi E.
    assert (Hj : nth_error (rev ps) j <> None) by
      (rewrite <- E; now apply nth_error_Some).
    assert (Key : forall a b q, (a < b)%nat ->
               nth_error (rev ps) a = Some q ->
               nth_error (rev ps) b = Some q -> False).
    { intros a b q Hab Ha Hb.
      destruct b as [|b]; [lia|].
      destruct (Hd _ _ Hb) as (gb & Hgb & Hib & Hbb).
      destruct a as [|a].
      - rewrite H0 in Ha. inversion Ha; subst q.
        now apply (pool_ok_not_root source Hok gb).
      - destruct (Hd _ _ Ha) as (ga & Hga & Hia & Hba).
        assert (ga = gb) by
          (apply (pool_ok_index_inj source Hok); auto; congruence).
        subst gb.
        assert (a = b) by (eapply below_root_fun; eauto). lia. }
    destruct (nth_error (rev ps) i) as [q|] eqn:Eq;
      [|apply nth_error_Some in Hi; contradiction].
    destruct (Nat.lt_trichotomy i j) as [Hlt|[Heq|Hgt]]; auto; exfalso.
    + eapply Key; eauto.
    + eapply (Key j i); eauto.
  - destruct ps as [|p ps]; [simpl; lia|].
    destruct ps as [|p' ps]; [simpl; lia|].
    assert (Hlast : nth_error (rev (p :: p' :: ps)) (S (List.length ps))
                    = Some p).
    { change (rev (p :: p' :: ps)) with (rev (p' :: ps) ++ [p]).
      rewrite nth_error_app2 by (rewrite length_rev; simpl; lia).
      rewrite length_rev. simpl. now rewrite Nat.sub_diag. }
    destruct (Hd _ _ Hlast) as (g & Hg & Hi & Hb).
    apply below_root_bound in Hb; [|assumption]. simpl. lia.
Qed.

End Reach.

(** ** The rebuild *)

Lemma flat_map_nil {A B} (F : A -> list B) l :
  (forall x, In x l -> F x = []) -> flat_map F l = [].
Proof.
  induction l as [|a l IH]; intros H; simpl; [reflexivity|].
  rewrite H by now left. apply IH. intros x Hx. apply H. now right.
Qed.

Lemma flat_map_ext_In {A B} (F G : A -> list B) l :
  (forall x, In x l -> F x = G x) -> flat_map F l = flat_map G l.
Proof.
  induction l as [|a l IH]; intros H; simpl; [reflexivity|].
  rewrite H by now left. f_equal. apply IH. intros x Hx. apply H. now right.
Qed.

(** Beyond the depth of the forest the fuel does not matter. *)
Lemma subtree_rows_fuel source f1 : forall f2 p d0,
  (forall h k, below source p h k -> (k < f1)%nat /\ (k < f2)%nat) ->
  subtree_rows f1 source p d0 = subtree_rows f2 source p d0.
Proof.
  assert (Hnone : forall f p d0,
    (forall h k, below source p h k -> (k < 0)%nat) ->
    subtree_rows f source p d0 = []).
  { intros [|f] p d0 H; [reflexivity|]. simpl. apply flat_map_nil.
    intros g Hg. destruct (Z.eqb_spec (Group.parent g) p) as [Hp|Hp];
      [|reflexivity].
    specialize (H g 0%nat (below_child _ _ _ Hg Hp)). lia. }
  induction f1 as [|f1 IH]; intros f2 p d0 H.
  - symmetry. apply Hnone. intros h k Hb. now apply (H h k).
  - destruct f2 as [|f2].
    + apply Hnone. intros h k Hb. now apply (H h k).
    + simpl. apply flat_map_ext_In. intros g Hg.
      destruct (Z.eqb_spec (Group.parent g) p) as [Hp|Hp]; [|reflexivity].
      simpl. f_equal. apply IH. intros h k Hb.
      specialize (H h (S k) (below_under_child _ _ _ _ _ Hg Hp Hb)). lia.
Qed.

Lemma AddChildren_root source fuel w :
  pool_ok source -> (List.length source < fuel)%nat ->
  AddChildren fuel source INVALID_GROUP 0 w
  = Some (push_rows w
            (subtree_rows (S (List.length source)) source INVALID_GROUP 0)).
Proof.
  intros Hok Hfuel.
  assert (Hb : forall h k, below source INVALID_GROUP h k ->
                           (S k <= List.length source)%nat)
    by (intros h k; now apply below_root_bound).
  rewrite AddChildren_rows.
  - do 2 f_equal. apply subtree_rows_fuel.
    intros h k H. apply Hb in H. lia.
  - lia.
  - intros h k H. apply Hb in H. lia.
Qed.

Lemma BuildGroupList_rebuild_staging g owner w :
  pool_ok (staging g owner (livery_class w - LC_GROUP_RAIL)) ->
  need_rebuild w = true -> LC_GROUP_RAIL <= livery_class w ->
  BuildGroupList g owner w
  = Some (set_need_rebuild
            (push_rows (clear_lists w)
               (flattened g owner (livery_class w - LC_GROUP_RAIL)))
            false).
Proof.
  intros Hok Hr Hlc. unfold BuildGroupList. rewrite Hr.
  cbv beta iota zeta delta [negb].
  change (livery_class (clear_lists w)) with (livery_class w).
  apply Z.leb_le in Hlc. rewrite Hlc, Sort_group_sorter.
  fold (sorted_staging g owner (livery_class w - LC_GROUP_RAIL)).
  rewrite AddChildren_root.
  - reflexivity.
  - eapply pool_ok_perm; [|exact Hok].
    symmetry. apply sorted_staging_perm.
  - lia.
Qed.

Lemma BuildGroupList_rebuild g owner w :
  pool_ok (groups_pool g) ->
  need_rebuild w = true -> LC_GROUP_RAIL <= livery_class w ->
  BuildGroupList g owner w
  = Some (set_need_rebuild
            (push_rows (clear_lists w)
               (flattened g owner (livery_class w - LC_GROUP_RAIL)))
            false).
Proof.
  intros Hok. apply BuildGroupList_rebuild_staging.
  now apply pool_ok_filter.
Qed.

Lemma BuildGroupList_returns g owner w :
  pool_ok (groups_pool g) -> exists w', BuildGroupList g owner w = Some w'.
Proof.
  intros Hok. destruct (need_rebuild w) eqn:Hr.
  - destruct (Z.le_gt_cases LC_GROUP_RAIL (livery_class w)) as [Hlc|Hlc].
    + eexists. now apply BuildGroupList_rebuild.
    + unfold BuildGroupList. rewrite Hr.
      cbv beta iota zeta delta [negb].
      change (livery_class (clear_lists w)) with (livery_class w).
      apply Z.leb_gt in Hlc. rewrite Hlc. eauto.
  - unfold BuildGroupList. rewrite Hr.
    cbv beta iota delta [negb]. eauto.
Qed.

(** The rows of the rebuilt list, by membership. *)
Lemma flattened_In g owner vtype h d :
  pool_ok (groups_pool g) ->
  (In (h, d) (flattened g owner vtype) <->
   exists k, d = Z.of_nat k /\
             below (staging g owner vtype) INVALID_GROUP h k).
Proof.
  intros Hok. unfold flattened. cbv zeta.
  pose proof (pool_ok_sorted_staging g owner vtype Hok) as Hs.
  split.
  - intros H. apply subtree_rows_sound in H.
    destruct H as (k & _ & Hd & Hb). exists k. split; [lia|].
    eapply below_ext; [|exact Hb]. intros x. apply sorted_staging_In.
  - intros (k & -> & Hb).
    assert (Hb' : below (sorted_staging g owner vtype) INVALID_GROUP h k)
      by (eapply below_ext; [|exact Hb]; intros x; apply sorted_staging_In).
    change (Z.of_nat k) with (0 + Z.of_nat k).
    apply subtree_rows_complete; [assumption|].
    apply below_root_bound in Hb'; [lia | assumption].
Qed.

Lemma flattened_groups_In g owner vtype h :
  pool_ok (groups_pool g) ->
  (In h (map fst (flattened g owner vtype)) <->
   exists k, below (staging g owner vtype) INVALID_GROUP h k).
Proof.
  intros Hok. rewrite in_map_iff. split.
  - intros ([h' d] & E & H). simpl in E. subst h'.
    apply flattened_In in H; [|assumption].
    destruct H as (k & _ & Hb). eauto.
  - intros (k & Hb). exists (h, Z.of_nat k). split; [reflexivity|].
    apply flattened_In; eauto.
Qed.

Lemma flattened_NoDup g owner vtype :
  pool_ok (groups_pool g) -> NoDup (map fst (flattened g owner vtype)).
Proof.
  intros Hok. unfold flattened. cbv zeta.
  apply subtree_rows_NoDup with (D := 0%nat).
  - now apply pool_ok_sorted_staging.
  - intros h k H. exact H.
Qed.

Lemma nth_error_fst_snd {A B} (l : list (A * B)) i a b :
  nth_error (map fst l) i = Some a -> nth_error (map snd l) i = Some b ->
  nth_error l i = Some (a, b).
Proof.
  rewrite !nth_error_map.
  destruct (nth_error l i) as [[a' b']|]; simpl; [|discriminate].
  congruence.
Qed.

Lemma nth_error_pair {A B} (l : list (A * B)) i a b :
  nth_error l i = Some (a, b) ->
  nth_error (map fst l) i = Some a /\ nth_error (map snd l) i = Some b.
Proof. intros H. rewrite !nth_error_map, H. auto. Qed.

(** Where the parent of a row is the nearest row above that is less deep,
    the records below a record are the block of deeper rows after it. *)
Lemma nearest_parent_blocks set groups indents :
  pool_ok set ->
  (forall h, In h groups -> In h set) ->
  NoDup groups ->
  (forall i d, nth_error indents i = Some d -> 0 <= d) ->
  (forall i h d, nth_error groups i = Some h -> nth_error indents i = Some d ->
                 Group.parent h = INVALID_GROUP -> d = 0) ->
  nearest_parent groups indents ->
  subtree_blocks set groups indents.
Proof.
  intros Hok Hset Hnd Hnn Hroot HN i k hi di hk dk Hgi Hdi Hgk Hdk.
  assert (Hhi : In hi set) by (eapply Hset, nth_error_In; exact Hgi).
  assert (Hparent : forall h pg j,
            In h set -> Group.parent h = Group.index hi ->
            nth_error groups j = Some pg ->
            Group.index pg = Group.parent h -> j = i).
  { intros h pg j Hh Hp Hj Hidx.
    assert (pg = hi) as ->.
    { apply (pool_ok_index_inj set Hok); [|exact Hhi | congruence].
      eapply Hset, nth_error_In; exact Hj. }
    apply (proj1 (NoDup_nth_error groups) Hnd);
      [apply nth_error_Some; congruence | congruence]. }
  split.
  - intros (n & Hb). revert k dk Hgk Hdk.
    induction Hb as [g Hg Hp | g h n Hb IH Hh Hp]; intros k dk Hgk Hdk.
    + assert (Hne : Group.parent g <> INVALID_GROUP).
      { rewrite Hp. apply (pool_ok_not_root set Hok hi Hhi). }
      destruct (HN k g dk Hgk Hdk Hne)
        as (j & pg & Hj & Hgj & Hidx & Hdj & Hbetween).
      assert (j = i) by (eapply Hparent; eauto). subst j.
      assert (di = dk - 1) by congruence. subst di.
      split; [exact Hj|]. intros m dm Hm Hdm.
      destruct (Nat.eq_dec m k) as [->|Hmk].
      * assert (dm = dk) by congruence. lia.
      * specialize (Hbetween m dm ltac:(lia) Hdm). lia.
    + assert (Hgs : In g set) by (eapply below_In; exact Hb).
      assert (Hne : Group.parent h <> INVALID_GROUP).
      { rewrite Hp. apply (pool_ok_not_root set Hok g Hgs). }
      destruct (HN k h dk Hgk Hdk Hne)
        as (j & pg & Hj & Hgj & Hidx & Hdj & Hbetween).
      assert (pg = g) as ->.
      { apply (pool_ok_index_inj set Hok); [|exact Hgs | congruence].
        eapply Hset, nth_error_In; exact Hgj. }
      destruct (IH j (dk - 1) Hgj Hdj) as [Hij Hdeep].
      pose proof (Hdeep j (dk - 1) ltac:(lia) Hdj) as Hdj'.
      split; [lia|]. intros m dm Hm Hdm.
      destruct (Nat.le_gt_cases m j) as [Hmj|Hmj].
      * apply (Hdeep m dm); [lia | exact Hdm].
      * destruct (Nat.eq_dec m k) as [->|Hmk].
        -- assert (dm = dk) by congruence. lia.
        -- specialize (Hbetween m dm ltac:(lia) Hdm). lia.
  - intros [Hik Hdeep].
    assert (Hind : forall b k hk dk,
              (k <= b)%nat ->
              nth_error groups k = Some hk -> nth_error indents k = Some dk ->
              (i < k)%nat ->
              (forall m dm, (i < m <= k)%nat ->
                            nth_error indents m = Some dm -> di < dm) ->
              exists n, below set (Group.index hi) hk n).
    { clear k hk dk Hgk Hdk Hik Hdeep.
      induction b as [|b IHb]; intros k hk dk Hkb Hgk Hdk Hik Hdeep; [lia|].
      assert (Hhk : In hk set) by (eapply Hset, nth_error_In; exact Hgk).
      pose proof (Hnn i di Hdi) as Hdi0.
      pose proof (Hdeep k dk ltac:(lia) Hdk) as Hdk0.
      assert (Hne : Group.parent hk <> INVALID_GROUP).
      { intro E. pose proof (Hroot k hk dk Hgk Hdk E). lia. }
      destruct (HN k hk dk Hgk Hdk Hne)
        as (j & pg & Hj & Hgj & Hidx & Hdj & Hbetween).
      destruct (Nat.lt_trichotomy j i) as [Hji|[->|Hji]].
      - specialize (Hbetween i di ltac:(lia) Hdi). lia.
      - assert (pg = hi) by congruence. subst pg.
        exists 0%nat. apply below_child; [exact Hhk | now symmetry].
      - destruct (IHb j pg (dk - 1)) as (n & Hb);
          [lia | exact Hgj | exact Hdj | exact Hji | |].
        + intros m dm Hm Hdm. apply (Hdeep m dm); [lia | exact Hdm].
        + exists (S n). eapply below_desc; [exact Hb | exact Hhk |].
          now symmetry. }
    exact (Hind k k hk dk (Nat.le_refl k) Hgk Hdk Hik Hdeep).
Qed.

(** ** The flattened list is a preorder traversal *)

Lemma flattened_preorder g owner vtype :
  pool_ok (groups_pool g) ->
  preorder_of (staging g owner vtype)
              (map fst (flattened g owner vtype))
              (map snd (flattened g owner vtype)).
Proof.
  intros Hok.
  pose proof (pool_ok_sorted_staging g owner vtype Hok) as Hs.
  assert (Hrow : forall i h d,
    nth_error (flattened g owner vtype) i = Some (h, d) ->
    (Group.parent h = INVALID_GROUP /\ d = 0) \/
    exists j pg, (j < i)%nat /\
      nth_error (flattened g owner vtype) j = Some (pg, d - 1) /\
      Group.index pg = Group.parent h /\
      In pg (sorted_staging g owner vtype)).
  { intros i h d H. unfold flattened in *. cbv zeta in *.
    apply subtree_rows_parent_before in H.
    destruct H as [H|(j & pg & Hj & Hn & Hi)]; [now left|right].
    exists j, pg. repeat split; auto.
    apply nth_error_In, subtree_rows_sound in Hn.
    destruct Hn as (k & _ & _ & Hb). eapply below_In; eauto. }
  assert (Hnear : nearest_parent (map fst (flattened g owner vtype))
                                 (map snd (flattened g owner vtype))).
  { intros i h d Hg Hd Hp.
    pose proof (nth_error_fst_snd _ _ _ _ Hg Hd) as H.
    unfold flattened in *. cbv zeta in *.
    apply subtree_rows_parent_nearest in H.
    destruct H as [[E _]|(j & pg & Hj & Hn & Hi & Hbetween)];
      [contradiction|].
    exists j, pg. apply nth_error_pair in Hn. destruct Hn as [Hn1 Hn2].
    split; [exact Hj|]. split; [exact Hn1|]. split; [exact Hi|].
    split; [exact Hn2|].
    intros k dk Hk Hdk. rewrite nth_error_map in Hdk.
    destruct (nth_error _ k) as [[hk dk']|] eqn:E; [|discriminate].
    injection Hdk as <-. exact (Hbetween k hk dk' Hk E). }
  unfold preorder_of. repeat match goal with |- _ /\ _ => split end.
  - now rewrite !length_map.
  - now apply flattened_NoDup.
  - intros h H. apply flattened_groups_In in H; [|assumption].
    destruct H as (k & Hb). eapply below_In; eauto.
  - intros h Hh Hp. apply flattened_groups_In; [assumption|].
    exists 0%nat. now apply below_child.
  - intros i h d Hg Hd Hp.
    destruct (Hrow _ _ _ (nth_error_fst_snd _ _ _ _ Hg Hd))
      as [[_ E]|(j & pg & _ & _ & Hi & Hpg)]; [assumption|].
    exfalso. apply (pool_ok_not_root _ Hs pg Hpg). congruence.
  - intros i h d pg Hg Hd Hpg Hi.
    destruct (Hrow _ _ _ (nth_error_fst_snd _ _ _ _ Hg Hd))
      as [[Hp _]|(j & pg' & Hj & Hn & Hi' & Hpg')].
    + exfalso. apply sorted_staging_In in Hpg.
      apply (pool_ok_not_root _ Hs pg Hpg). congruence.
    + assert (pg' = pg) as ->.
      { apply (pool_ok_index_inj _ Hs); auto; [|congruence].
        now apply sorted_staging_In. }
      exists j. apply nth_error_pair in Hn. tauto.
  - intros h pg Hpg Hh Hp.
    apply flattened_groups_In in Hpg; [|assumption].
    destruct Hpg as (k & Hb).
    apply flattened_groups_In; [assumption|].
    exists (S k). eapply below_desc; eauto.
  - intros h Hh Hp Hnone H.
    apply flattened_groups_In in H; [|assumption].
    destruct H as (k & Hb).
    inversion Hb as [? ? Hp'|pg ? ? Hb' ? Hp']; subst; [contradiction|].
    apply (Hnone pg); [eapply below_In; eauto | congruence].
  - exact Hnear.
  - apply nearest_parent_blocks.
    + apply pool_ok_filter. exact Hok.
    + intros h H. apply flattened_groups_In in H; [|assumption].
      destruct H as (k & Hb). eapply below_In; eauto.
    + now apply flattened_NoDup.
    + intros i d Hd. rewrite nth_error_map in Hd.
      destruct (nth_error (flattened g owner vtype) i) as [[h d']|] eqn:E;
        [|discriminate].
      injection Hd as <-. apply nth_error_In in E.
      apply flattened_In in E; [|assumption].
      destruct E as (k & -> & _). lia.
    + intros i h d Hg Hd Hp.
      destruct (Hrow _ _ _ (nth_error_fst_snd _ _ _ _ Hg Hd))
        as [[_ E]|(j & pg & _ & _ & Hi & Hpg)]; [assumption|].
      exfalso. apply (pool_ok_not_root _ Hs pg Hpg). congruence.
    + exact Hnear.
Qed.

(** A listing level by level is no preorder traversal: with "Mid" under
    "Alpha", the rows Alpha, Zeta, Mid at indents 0, 0, 1 put "Zeta"
    between "Mid" and its parent. *)
Example level_order_is_no_preorder :
  ~ preorder_of [group_zeta; group_alpha; group_mid]
                [group_alpha; group_zeta; group_mid] [0; 0; 1].
Proof.
  intros (_ & _ & _ & _ & _ & _ & _ & _ & HN & _).
  destruct (HN 2%nat group_mid 1 eq_refl eq_refl)
    as (j & pg & Hj & Hg & Hi & Hd & Hb); [vm_compute; discriminate|].
  destruct j as [|[|j]]; [| | lia].
  - specialize (Hb 1%nat 0 ltac:(lia) eq_refl). lia.
  - injection Hg as <-. vm_compute in Hi. discriminate.
Qed.

(** C1.  A rebuild of the group list returns, and what it leaves in
    [groups] and [indents] is a preorder traversal of the forest the parent
    links induce on the records that pass the (owner, vehicle type) filter:
    every listed record passes the filter, the roots are listed at indent
    0, a record whose parent passes the filter comes after that parent and
    one level deeper, and a record whose parent is neither the root
    sentinel nor a record that passes the filter is not listed.  The
    traversal is depth first: the parent of a listed record is the nearest
    row above it that is less deep, so that the records below a record
    are the block of deeper rows that follows it, before its next
    sibling. *)
Theorem BuildGroupList_preorder g owner w :
  pool_ok (groups_pool g) ->
  need_rebuild w = true ->
  LC_GROUP_RAIL <= livery_class w ->
  exists w',
    BuildGroupList g owner w = Some w' /\
    preorder_of (staging g owner (livery_class w - LC_GROUP_RAIL))
                (groups w') (indents w').
Proof.
  intros Hok Hr Hlc. eexists. split.
  - now apply BuildGroupList_rebuild.
  - simpl. now apply flattened_preorder.
Qed.

Lemma BuildGroupList_preorder_witness :
  pool_ok (groups_pool game_tree) /\
  need_rebuild (win_groups INVALID_GROUP) = true /\
  LC_GROUP_RAIL <= livery_class (win_groups INVALID_GROUP) /\
  exists w',
    BuildGroupList game_tree 0 (win_groups INVALID_GROUP) = Some w' /\
    preorder_of (staging game_tree 0 VEH_TRAIN) (groups w') (indents w').
Proof.
  assert (H1 : pool_ok (groups_pool game_tree))
    by (apply pool_okb_ok; reflexivity).
  assert (H3 : LC_GROUP_RAIL <= livery_class (win_groups INVALID_GROUP))
    by (simpl; unfold LC_GROUP_RAIL; lia).
  split; [exact H1 | split; [reflexivity | split; [exact H3|]]].
  exact (BuildGroupList_preorder game_tree 0 (win_groups INVALID_GROUP)
           H1 eq_refl H3).
Defined.

(** The scenario of the specification: "Zeta" and "Alpha" at the root,
    "Mid" under "Alpha". *)
Example BuildGroupList_scenario :
  option_map (fun w => (groups w, indents w))
             (BuildGroupList game_tree 0 (win_groups INVALID_GROUP))
  = Some ([group_alpha; group_mid; group_zeta], [0; 1; 0]).
Proof. reflexivity. Qed.

(** ** The length of the flattened list *)

Lemma flattened_attached g owner vtype :
  pool_ok (groups_pool g) ->
  let set := staging g owner vtype in
  Permutation (map fst (flattened g owner vtype))
              (filter (attached set) set).
Proof.
  intros Hok set.
  assert (Hset : pool_ok set) by now apply pool_ok_filter.
  apply NoDup_Permutation.
  - now apply flattened_NoDup.
  - apply NoDup_filter. now apply pool_ok_NoDup.
  - intros h. rewrite flattened_groups_In by assumption.
    rewrite filter_In. split.
    + intros (k & Hb). split; [eapply below_In; eauto|].
      eapply below_attached; eauto.
    + intros [Hh Ha]. now apply attached_below.
Qed.

Lemma orphan_not_attached set h :
  In h set -> orphan set h = true -> attached set h = false.
Proof.
  unfold orphan, attached, Group_IsValidID. intros Hh H.
  apply andb_prop in H. destruct H as [Hp Hv].
  apply negb_true_iff in Hp. apply negb_true_iff in Hv.
  destruct set as [|x l]; [destruct Hh|].
  cbn [List.length reaches_root]. rewrite Hp.
  destruct (Group_GetIfValid (x :: l) (Group.parent h));
    [discriminate | reflexivity].
Qed.

(** C6, as amended.  The length of the rebuilt list is the number of
    records that pass the filter minus the number of those whose chain of
    parents does not arrive at the root sentinel inside the filtered set
    (orphans, records below an orphan, records on a cycle of parents).  It
    is the number of filtered records minus the number of orphans when
    the orphans are the only records whose chain does not arrive. *)
Theorem BuildGroupList_length g owner w :
  pool_ok (groups_pool g) ->
  need_rebuild w = true ->
  LC_GROUP_RAIL <= livery_class w ->
  let set := staging g owner (livery_class w - LC_GROUP_RAIL) in
  exists w',
    BuildGroupList g owner w = Some w' /\
    Z.of_nat (List.length (groups w'))
    = Z.of_nat (List.length set)
      - Z.of_nat (List.length (filter (fun h => negb (attached set h)) set)) /\
    ((forall h, In h set -> attached set h = false -> orphan set h = true) ->
     Z.of_nat (List.length (groups w'))
     = Z.of_nat (List.length set)
       - Z.of_nat (List.length (filter (orphan set) set))).
Proof.
  intros Hok Hr Hlc set. eexists. split.
  - now apply BuildGroupList_rebuild.
  - simpl.
    pose proof (flattened_attached g owner
                  (livery_class w - LC_GROUP_RAIL) Hok) as Hp.
    apply Permutation_length in Hp. fold set in Hp.
    pose proof (filter_length (attached set) set) as Hl.
    split; [lia|].
    intros Hall.
    rewrite (filter_ext_in (orphan set) (fun h => negb (attached set h))).
    + lia.
    + intros h Hh. destruct (attached set h) eqn:Ea; simpl.
      * destruct (orphan set h) eqn:Eo; [|reflexivity].
        apply orphan_not_attached in Eo; [congruence | assumption].
      * now apply Hall.
Qed.

Lemma BuildGroupList_length_witness :
  pool_ok (groups_pool game_cycle) /\
  need_rebuild (win_groups INVALID_GROUP) = true /\
  LC_GROUP_RAIL <= livery_class (win_groups INVALID_GROUP) /\
  let set := staging game_cycle 0 VEH_TRAIN in
  exists w',
    BuildGroupList game_cycle 0 (win_groups INVALID_GROUP) = Some w' /\
    Z.of_nat (List.length (groups w'))
    = Z.of_nat (List.length set)
      - Z.of_nat (List.length (filter (fun h => negb (attached set h)) set)) /\
    ((forall h, In h set -> attached set h = false -> orphan set h = true) ->
     Z.of_nat (List.length (groups w'))
     = Z.of_nat (List.length set)
       - Z.of_nat (List.length (filter (orphan set) set))).
Proof.
  assert (H1 : pool_ok (groups_pool game_cycle))
    by (apply pool_okb_ok; reflexivity).
  assert (H3 : LC_GROUP_RAIL <= livery_class (win_groups INVALID_GROUP))
    by (simpl; unfold LC_GROUP_RAIL; lia).
  split; [exact H1 | split; [reflexivity | split; [exact H3|]]].
  exact (BuildGroupList_length game_cycle 0 (win_groups INVALID_GROUP)
           H1 eq_refl H3).
Defined.

(** C6, as stated, fails on a group under an orphan: two records pass the
    filter, one of them is an orphan, and the list is empty. *)
Lemma BuildGroupList_length_counterexample :
  let set := staging game_orphan 0 VEH_TRAIN in
  exists w',
    BuildGroupList game_orphan 0 (win_groups INVALID_GROUP) = Some w' /\
    List.length set = 2%nat /\
    List.length (filter (orphan set) set) = 1%nat /\
    List.length (groups w') = 0%nat /\
    Z.of_nat (List.length (groups w'))
    <> Z.of_nat (List.length set)
       - Z.of_nat (List.length (filter (orphan set) set)).
Proof.
  eexists. split; [reflexivity|]. repeat split. discriminate.
Qed.

(** ** Termination *)

Lemma on_cycle_not_listed g owner vtype h k :
  pool_ok (groups_pool g) ->
  below (staging g owner vtype) (Group.index h) h k ->
  ~ In h (map fst (flattened g owner vtype)).
Proof.
  intros Hok Hc Hin.
  apply flattened_groups_In in Hin; [|assumption].
  destruct Hin as (d & Hb).
  pose proof (below_trans _ _ _ _ _ _ Hb Hc) as Hb'.
  assert (d = S (d + k)); [|lia].
  apply (below_root_fun (staging g owner vtype)
           (pool_ok_filter _ _ Hok) h); assumption.
Qed.

(** C10.  On a pool (distinct ids, none of them the sentinel) the rebuild
    returns, whatever the parent links are.  The [parent] arguments of the
    calls of AddChildren that are active at any moment are pairwise
    distinct, so a recursion path visits at most as many group ids as
    there are filtered records (the call stack, which starts with the
    sentinel, holds at most one entry more); AddChildren returns the same
    list for every depth bound above that number; and a record that is
    its own ancestor is not listed. *)
Theorem BuildGroupList_terminates g owner w :
  pool_ok (groups_pool g) ->
  (exists w',
     BuildGroupList g owner w = Some w' /\
     (need_rebuild w = true -> LC_GROUP_RAIL <= livery_class w ->
      forall h k,
        below (staging g owner (livery_class w - LC_GROUP_RAIL))
              (Group.index h) h k ->
        ~ In h (groups w'))) /\
  forall vtype,
    let source := sorted_staging g owner vtype in
    (forall ps, call_path source ps ->
                NoDup ps /\ (List.length ps <= S (List.length source))%nat) /\
    (forall fuel w0,
       (List.length source < fuel)%nat ->
       AddChildren fuel source INVALID_GROUP 0 w0
       = Some (push_rows w0 (flattened g owner vtype))).
Proof.
  intros Hok. split.
  - destruct (BuildGroupList_returns g owner w Hok) as (w' & Hw').
    exists w'. split; [assumption|].
    intros Hr Hlc h k Hc.
    rewrite BuildGroupList_rebuild in Hw' by assumption.
    inversion Hw'; subst w'. simpl.
    eapply on_cycle_not_listed; eauto.
  - intros vtype source.
    pose proof (pool_ok_sorted_staging g owner vtype Hok) as Hs.
    split.
    + intros ps Hps. now apply call_path_NoDup.
    + intros fuel w0 Hfuel. now apply AddChildren_root.
Qed.

Lemma BuildGroupList_terminates_witness :
  pool_ok (groups_pool game_cycle) /\
  (exists w',
     BuildGroupList game_cycle 0 (win_groups INVALID_GROUP) = Some w' /\
     (need_rebuild (win_groups INVALID_GROUP) = true ->
      LC_GROUP_RAIL <= livery_class (win_groups INVALID_GROUP) ->
      forall h k,
        below (staging game_cycle 0
                 (livery_class (win_groups INVALID_GROUP) - LC_GROUP_RAIL))
              (Group.index h) h k ->
        ~ In h (groups w'))) /\
  forall vtype,
    let source := sorted_staging game_cycle 0 vtype in
    (forall ps, call_path source ps ->
                NoDup ps /\ (List.length ps <= S (List.length source))%nat) /\
    (forall fuel w0,
       (List.length source < fuel)%nat ->
       AddChildren fuel source INVALID_GROUP 0 w0
       = Some (push_rows w0 (flattened game_cycle 0 vtype))).
Proof.
  assert (H1 : pool_ok (groups_pool game_cycle))
    by (apply pool_okb_ok; reflexivity).
  split; [exact H1|].
  exact (BuildGroupList_terminates game_cycle 0 (win_groups INVALID_GROUP) H1).
Defined.

(** The groups on the two cycles of [game_cycle] are left out. *)
Example BuildGroupList_cycle :
  option_map (fun w => (map Group.index (groups w), indents w))
             (BuildGroupList game_cycle 0 (win_groups INVALID_GROUP))
  = Some ([0], [0]).
Proof. reflexivity. Qed.

(** What the distinct ids are needed for: were two records to carry the
    same id, one of them its own parent, no depth bound would do. *)
Lemma AddChildren_duplicate_id fuel w :
  AddChildren fuel
    [Group.mk 1 INVALID_GROUP 0 VEH_TRAIN plain; Group.mk 1 1 0 VEH_TRAIN plain]
    INVALID_GROUP 0 w = None.
Proof.
  assert (H : forall fuel d w,
    AddChildren fuel
      [Group.mk 1 INVALID_GROUP 0 VEH_TRAIN plain;
       Group.mk 1 1 0 VEH_TRAIN plain] 1 d w = None).
  { clear. induction fuel as [|fuel IH]; intros d w; [reflexivity|].
    simpl. now rewrite IH. }
  destruct fuel as [|fuel]; [reflexivity|].
  simpl. now rewrite H.
Qed.

(** ** The order of siblings *)

Lemma pairs_flat_map {A B} (F : A -> list B) : forall l i j u v,
  (i < j)%nat ->
  nth_error (flat_map F l) i = Some u ->
  nth_error (flat_map F l) j = Some v ->
  (exists l1 x l2 i' j',
     l = l1 ++ x :: l2 /\ (i' < j')%nat /\
     nth_error (F x) i' = Some u /\ nth_error (F x) j' = Some v) \/
  (exists l1 x l2 y l3,
     l = l1 ++ x :: l2 ++ y :: l3 /\ In u (F x) /\ In v (F y)).
Proof.
  induction l as [|a l IH]; intros i j u v Hij Hi Hj; simpl in *.
  - now destruct i.
  - destruct (Nat.lt_ge_cases j (List.length (F a))) as [Hja|Hja].
    + rewrite nth_error_app1 in Hi by lia.
      rewrite nth_error_app1 in Hj by lia.
      left. exists [], a, l, i, j. auto.
    + rewrite nth_error_app2 in Hj by assumption.
      destruct (Nat.lt_ge_cases i (List.length (F a))) as [Hia|Hia].
      * rewrite nth_error_app1 in Hi by assumption.
        apply nth_error_In in Hi. apply nth_error_In in Hj.
        apply in_flat_map in Hj. destruct Hj as (y & Hy & Hv).
        apply in_split in Hy. destruct Hy as (l2 & l3 & ->).
        right. exists [], a, l2, y, l3. auto.
      * rewrite nth_error_app2 in Hi by assumption.
        assert (Hij' : (i - List.length (F a) < j - List.length (F a))%nat)
          by lia.
        destruct (IH _ _ _ _ Hij' Hi Hj)
          as [(l1 & x & l2 & i' & j' & -> & H)
             |(l1 & x & l2 & y & l3 & -> & H)].
        -- left. exists (a :: l1), x, l2, i', j'. auto.
        -- right. exists (a :: l1), x, l2, y, l3. auto.
Qed.

Section Siblings.

Variable source : list Group.t.
Hypothesis Hok : pool_ok source.

Lemma same_parent_same_depth a b da db :
  below source INVALID_GROUP a da -> below source INVALID_GROUP b db ->
  Group.parent a = Group.parent b -> da = db.
Proof.
  intros Ha Hb E.
  inversion Ha as [? ? Hpa|ga ? ka Hga ? Hpa];
    inversion Hb as [? ? Hpb|gb ? kb Hgb ? Hpb]; subst; auto.
  - exfalso. apply (pool_ok_not_root source Hok gb);
      eauto using below_In. congruence.
  - exfalso. apply (pool_ok_not_root source Hok ga);
      eauto using below_In. congruence.
  - assert (ga = gb) as -> by
      (apply (pool_ok_index_inj source Hok);
       eauto using below_In; congruence).
    f_equal. eapply below_root_fun; eauto.
Qed.

Lemma same_parent_same_top x y a b k :
  In x source -> In y source ->
  below source (Group.index x) a k -> below source (Group.index y) b k ->
  Group.parent a = Group.parent b -> x = y.
Proof.
  intros Hx Hy Ha Hb E.
  inversion Ha as [? ? Hpa|ga ? ka Hga ? Hpa];
    inversion Hb as [? ? Hpb|gb ? kb Hgb ? Hpb]; subst;
    try discriminate.
  - apply (pool_ok_index_inj source Hok); auto. congruence.
  - match goal with H : S _ = S _ |- _ => inversion H; subst end.
    assert (ga = gb) as -> by
      (apply (pool_ok_index_inj source Hok);
       eauto using below_In; congruence).
    eapply below_inj; eauto.
Qed.

(** Two rows with the same parent stand in the order of [source]. *)
Lemma subtree_rows_siblings fuel : forall p d0 D i j a da b db,
  (forall h k, below source p h k ->
               below source INVALID_GROUP h (D + k)) ->
  (i < j)%nat ->
  nth_error (subtree_rows fuel source p d0) i = Some (a, da) ->
  nth_error (subtree_rows fuel source p d0) j = Some (b, db) ->
  Group.parent a = Group.parent b ->
  exists l1 l2 l3, source = l1 ++ a :: l2 ++ b :: l3.
Proof.
  induction fuel as [|fuel IH]; intros p d0 D i j a da b db Hroot Hij Hi Hj E;
    [now destruct i|].
  change (subtree_rows (S fuel) source p d0)
    with (flat_map (child_rows source fuel p d0) source) in Hi, Hj.
  assert (Hin : forall x z dz,
    In x source -> In (z, dz) (child_rows source fuel p d0 x) ->
    Group.parent x = p /\
    ((z = x /\ below source INVALID_GROUP z (D + 0)) \/
     exists k, below source (Group.index x) z k /\
               below source INVALID_GROUP z (D + S k))).
  { intros x z dz Hx Hz. unfold child_rows in Hz.
    destruct (Z.eqb_spec (Group.parent x) p) as [Hp|Hp]; simpl in Hz;
      [|easy].
    split; [assumption|]. destruct Hz as [Ez|Hz].
    - inversion Ez; subst. left. split; [reflexivity|].
      apply Hroot. now apply below_child.
    - right. apply subtree_rows_sound in Hz.
      destruct Hz as (k & _ & _ & Hb). exists k. split; [assumption|].
      apply Hroot. eapply below_under_child; eauto. }
  destruct (pairs_flat_map _ _ _ _ _ _ Hij Hi Hj)
    as [(l1 & x & l2 & i' & j' & El & Hij' & Hi' & Hj')
       |(l1 & x & l2 & y & l3 & El & Hu & Hv)].
  - assert (Hx : In x source)
      by (rewrite El; apply in_or_app; right; now left).
    destruct (Hin _ _ _ Hx (nth_error_In _ _ Hj')) as [Hp _].
    unfold child_rows in Hi', Hj'. rewrite Hp, Z.eqb_refl in Hi', Hj'.
    cbn [negb] in Hi', Hj'.
    destruct j' as [|j']; [lia|]. simpl in Hj'.
    destruct i' as [|i']; simpl in Hi'.
    + exfalso. inversion Hi'; subst a da.
      apply nth_error_In, subtree_rows_sound in Hj'.
      destruct Hj' as (k & _ & _ & Hb).
      assert (D + 0 = D + S k)%nat; [|lia].
      apply (same_parent_same_depth x b); auto.
      * apply Hroot. now apply below_child.
      * apply Hroot. eapply below_under_child; eauto.
    + apply (IH (Group.index x) (d0 + 1) (S D) i' j' a da b db); auto;
        [|lia].
      intros h k Hb.
      replace (S D + k)%nat with (D + S k)%nat by lia.
      apply Hroot. eapply below_under_child; eauto.
  - assert (Hx : In x source)
      by (rewrite El; apply in_or_app; right; now left).
    assert (Hy : In y source).
    { rewrite El. apply in_or_app. right. right.
      apply in_or_app. right. now left. }
    assert (Hxy : x <> y).
    { intros ->. pose proof (pool_ok_NoDup source Hok) as Hnd.
      rewrite El in Hnd. apply NoDup_remove_2 in Hnd. apply Hnd.
      apply in_or_app. right. apply in_or_app. right. now left. }
    destruct (Hin _ _ _ Hx Hu) as [Hpx [[-> Hax]|(ka & Hax & Hra)]];
      destruct (Hin _ _ _ Hy Hv) as [Hpy [[-> Hby]|(kb & Hby & Hrb)]].
    + now exists l1, l2, l3.
    + exfalso. assert (D + 0 = D + S kb)%nat; [|lia].
      now apply (same_parent_same_depth x b).
    + exfalso. assert (D + S ka = D + 0)%nat; [|lia].
      now apply (same_parent_same_depth a y).
    + exfalso. assert (D + S ka = D + S kb)%nat
        by now apply (same_parent_same_depth a b).
      assert (ka = kb) by lia. subst kb.
      apply Hxy. eapply same_parent_same_top; eauto.
Qed.

End Siblings.

Lemma flattened_siblings_sorted g owner vtype :
  comparator_ok (strnatcmp g) ->
  pool_ok (groups_pool g) ->
  siblings_sorted g (map fst (flattened g owner vtype)).
Proof.
  intros Hc Hok i j a b Hij Ha Hb E.
  pose proof (pool_ok_sorted_staging g owner vtype Hok) as Hs.
  rewrite nth_error_map in Ha, Hb.
  destruct (nth_error (flattened g owner vtype) i) as [[a' da]|] eqn:Ea;
    [|discriminate].
  destruct (nth_error (flattened g owner vtype) j) as [[b' db]|] eqn:Eb;
    [|discriminate].
  simpl in Ha, Hb. inversion Ha; inversion Hb; subst a' b'.
  unfold flattened in Ea, Eb. cbv zeta in Ea, Eb.
  destruct (subtree_rows_siblings _ Hs _ _ _ 0%nat _ _ _ _ _ _
              (fun h k H => H) Hij Ea Eb E) as (l1 & l2 & l3 & El).
  pose proof (sort_sorted (group_sorter g)
                (fun x y => group_sorter_asym g x y Hc)
                (fun x y z => group_sorter_le_trans g x y z Hc)
                (staging g owner vtype)) as Hsorted.
  fold (sorted_staging g owner vtype) in Hsorted.
  rewrite El in Hsorted. apply StronglySorted_before in Hsorted.
  apply group_sorter_false in Hsorted; [|assumption].
  cbv zeta in *. destruct Hsorted as [Hle Htie].
  split; [assumption|]. intros E0. specialize (Htie E0).
  assert (Hab : a <> b).
  { intros ->. pose proof (pool_ok_NoDup _ Hs) as Hnd.
    rewrite El in Hnd. apply NoDup_remove_2 in Hnd. apply Hnd.
    apply in_or_app. right. apply in_or_app. right. now left. }
  assert (Group.index a <> Group.index b); [|lia].
  intros Ei. apply Hab. apply (pool_ok_index_inj _ Hs); auto.
  - rewrite El. apply in_or_app. right. now left.
  - rewrite El. apply in_or_app. right. right.
    apply in_or_app. right. now left.
Qed.

(** ** The order does not depend on the order of the pool *)

Lemma sort_ext {A} (lt lt' : A -> A -> bool) l :
  (forall a b, lt a b = lt' a b) -> sort lt l = sort lt' l.
Proof.
  intros H. induction l as [|x l IH]; simpl; [reflexivity|].
  rewrite IH. generalize (sort lt' l). intros m.
  induction m as [|y m IHm]; simpl; [reflexivity|].
  now rewrite H, IHm.
Qed.

Lemma sorted_perm_unique {A} (le : A -> A -> Prop) : forall l1 l2,
  (forall a b, In a l1 -> In b l1 -> le a b -> le b a -> a = b) ->
  StronglySorted le l1 -> StronglySorted le l2 ->
  Permutation l1 l2 -> l1 = l2.
Proof.
  induction l1 as [|a l1 IH]; intros l2 Hanti H1 H2 Hp.
  - apply Permutation_nil in Hp. now subst.
  - destruct l2 as [|b l2];
      [apply Permutation_sym, Permutation_nil in Hp; discriminate|].
    inversion H1 as [|? ? H1' Ha]; inversion H2 as [|? ? H2' Hb]; subst.
    rewrite Forall_forall in Ha, Hb.
    assert (E : a = b).
    { assert (Hin_a : In a (b :: l2))
        by (eapply Permutation_in; [exact Hp | now left]).
      assert (Hin_b : In b (a :: l1))
        by (eapply Permutation_in; [symmetry; exact Hp | now left]).
      destruct Hin_a as [|Hin_a]; [congruence|].
      destruct Hin_b as [|Hin_b]; [congruence|].
      apply Hanti; [now left | now right | auto | auto]. }
    subst b. f_equal. apply IH; auto.
    + intros x y Hx Hy. apply Hanti; now right.
    + eapply Permutation_cons_inv; eauto.
Qed.

Lemma sorted_staging_perm_eq g g' owner vtype :
  comparator_ok (strnatcmp g) ->
  pool_ok (groups_pool g) ->
  (forall i, GetString_GROUP_NAME g' i = GetString_GROUP_NAME g i) ->
  (forall a b, strnatcmp g' a b = strnatcmp g a b) ->
  Permutation (staging g' owner vtype) (staging g owner vtype) ->
  sorted_staging g' owner vtype = sorted_staging g owner vtype.
Proof.
  intros Hc Hok Hn Hs Hp. unfold sorted_staging.
  rewrite (sort_ext (group_sorter g') (group_sorter g))
    by (intros a b; unfold group_sorter; now rewrite !Hn, Hs).
  assert (Hset : pool_ok (staging g owner vtype)) by now apply pool_ok_filter.
  apply sorted_perm_unique
    with (le := fun a b => group_sorter g b a = false).
  - intros a b Ha Hb Hab Hba.
    apply (Permutation_in _ (sort_perm _ _)) in Ha, Hb.
    apply (Permutation_in _ Hp) in Ha, Hb.
    apply group_sorter_false in Hab, Hba; try assumption.
    cbv zeta in *. destruct Hc as [Hflip _].
    pose proof (Hflip (GetString_GROUP_NAME g (Group.index a))
                      (GetString_GROUP_NAME g (Group.index b))).
    pose proof (Hflip (GetString_GROUP_NAME g (Group.index b))
                      (GetString_GROUP_NAME g (Group.index a))).
    apply (pool_ok_index_inj _ Hset); auto. lia.
  - apply sort_sorted.
    + intros x y. now apply group_sorter_asym.
    + intros x y z. now apply group_sorter_le_trans.
  - apply sort_sorted.
    + intros x y. now apply group_sorter_asym.
    + intros x y z. now apply group_sorter_le_trans.
  - rewrite !sort_perm. exact Hp.
Qed.

(** ** The comparator of the specification is a comparator *)

Lemma lex_compare_flip : forall a b,
  NaturalOrder.lex_compare b a = - NaturalOrder.lex_compare a b.
Proof.
  induction a as [|[x1 x2] a IH]; intros [|[y1 y2] b]; simpl;
    try reflexivity.
  destruct (Z.ltb_spec x1 y1), (Z.ltb_spec y1 x1); try lia;
    destruct (Z.ltb_spec x2 y2), (Z.ltb_spec y2 x2); try lia.
  apply IH.
Qed.

Lemma lex_compare_trans : forall a b c,
  NaturalOrder.lex_compare a b <= 0 -> NaturalOrder.lex_compare b c <= 0 ->
  NaturalOrder.lex_compare a c <= 0.
Proof.
  induction a as [|[x1 x2] a IH]; intros [|[y1 y2] b] [|[z1 z2] c];
    simpl; try lia.
  destruct (Z.ltb_spec x1 y1), (Z.ltb_spec y1 x1),
           (Z.ltb_spec y1 z1), (Z.ltb_spec z1 y1),
           (Z.ltb_spec x1 z1), (Z.ltb_spec z1 x1); try lia;
    destruct (Z.ltb_spec x2 y2), (Z.ltb_spec y2 x2),
             (Z.ltb_spec y2 z2), (Z.ltb_spec z2 y2),
             (Z.ltb_spec x2 z2), (Z.ltb_spec z2 x2); try lia.
  apply IH.
Qed.

Lemma NaturalOrder_compare_ok : comparator_ok NaturalOrder.compare.
Proof.
  split; unfold NaturalOrder.compare.
  - intros a b.
    rewrite (lex_compare_flip (NaturalOrder.tokens a None)). lia.
  - intros a b c. apply lex_compare_trans.
Qed.

(** The scenario of the specification: "G9" sorts before "G10", and the
    comparison ignores case. *)
Example NaturalOrder_compare_digits :
  NaturalOrder.compare "G9" "G10" = -1 /\
  NaturalOrder.compare "g10" "G9" = 1 /\
  NaturalOrder.compare "abc" "ABC" = 0.
Proof. repeat split. Qed.

(** "G9" (id 1) is listed before "G10" (id 0). *)
Example BuildGroupList_digits :
  option_map (fun w => map Group.index (groups w))
             (BuildGroupList game_digits 0 (win_groups INVALID_GROUP))
  = Some [1; 0].
Proof. reflexivity. Qed.

Lemma flattened_siblings_listed g owner vtype :
  pool_ok (groups_pool g) ->
  siblings_listed (staging g owner vtype) (map fst (flattened g owner vtype)).
Proof.
  intros Hok p Hp.
  destruct (flattened_preorder g owner vtype Hok)
    as (_ & Hnd & Hsub & Hroots & _ & _ & Hch & _).
  apply NoDup_Permutation.
  - apply NoDup_filter. exact Hnd.
  - apply NoDup_filter.
    apply (pool_ok_NoDup (staging g owner vtype)).
    apply pool_ok_filter. exact Hok.
  - intro h. rewrite !filter_In. split.
    + intros [Hin E]. split; [apply Hsub; exact Hin | exact E].
    + intros [Hin E]. split; [|exact E].
      apply Z.eqb_eq in E.
      destruct Hp as [->|(pg & Hpg & Hi)].
      * apply Hroots; assumption.
      * apply (Hch h pg); [exact Hpg | exact Hin | congruence].
Qed.

(** C3.  After a rebuild the sibling sequences of the list are complete
    and in order: under the root and under every listed record all the
    records of the staging set with that parent are listed, each once, and
    any two listed records with the same parent stand in the order of the
    comparator applied to their display names, the one with the smaller
    id first when the names compare equal; and the list does not depend on
    the order in which the pool hands out the records of the staging set.
    The comparator is any total preorder; the natural-order comparator of
    the specification is one. *)
Theorem BuildGroupList_siblings_sorted g owner w :
  comparator_ok (strnatcmp g) ->
  pool_ok (groups_pool g) ->
  need_rebuild w = true ->
  LC_GROUP_RAIL <= livery_class w ->
  exists w',
    BuildGroupList g owner w = Some w' /\
    siblings_listed (staging g owner (livery_class w - LC_GROUP_RAIL))
                    (groups w') /\
    siblings_sorted g (groups w') /\
    forall g',
      (forall i, GetString_GROUP_NAME g' i = GetString_GROUP_NAME g i) ->
      (forall a b, strnatcmp g' a b = strnatcmp g a b) ->
      Permutation (staging g' owner (livery_class w - LC_GROUP_RAIL))
                  (staging g owner (livery_class w - LC_GROUP_RAIL)) ->
      BuildGroupList g' owner w = Some w'.
Proof.
  intros Hc Hok Hr Hlc. eexists. split; [|split; [|split]].
  - now apply BuildGroupList_rebuild.
  - simpl. now apply flattened_siblings_listed.
  - simpl. now apply flattened_siblings_sorted.
  - intros g' Hn Hs Hp.
    rewrite BuildGroupList_rebuild_staging; auto.
    + unfold flattened.
      now rewrite (sorted_staging_perm_eq g g' owner _ Hc Hok Hn Hs Hp).
    + eapply pool_ok_perm; [symmetry; exact Hp|].
      now apply pool_ok_filter.
Qed.

Lemma BuildGroupList_siblings_sorted_witness :
  comparator_ok (strnatcmp game_tree) /\
  pool_ok (groups_pool game_tree) /\
  need_rebuild (win_groups INVALID_GROUP) = true /\
  LC_GROUP_RAIL <= livery_class (win_groups INVALID_GROUP) /\
  exists w',
    BuildGroupList game_tree 0 (win_groups INVALID_GROUP) = Some w' /\
    siblings_listed
      (staging game_tree 0
         (livery_class (win_groups INVALID_GROUP) - LC_GROUP_RAIL))
      (groups w') /\
    siblings_sorted game_tree (groups w') /\
    forall g',
      (forall i, GetString_GROUP_NAME g' i
                 = GetString_GROUP_NAME game_tree i) ->
      (forall a b, strnatcmp g' a b = strnatcmp game_tree a b) ->
      Permutation
        (staging g' 0 (livery_class (win_groups INVALID_GROUP) - LC_GROUP_RAIL))
        (staging game_tree 0
           (livery_class (win_groups INVALID_GROUP) - LC_GROUP_RAIL)) ->
      BuildGroupList g' 0 (win_groups INVALID_GROUP) = Some w'.
Proof.
  assert (H1 : pool_ok (groups_pool game_tree))
    by (apply pool_okb_ok; reflexivity).
  assert (H3 : LC_GROUP_RAIL <= livery_class (win_groups INVALID_GROUP))
    by (simpl; unfold LC_GROUP_RAIL; lia).
  split; [exact NaturalOrder_compare_ok|].
  split; [exact H1 | split; [reflexivity | split; [exact H3|]]].
  exact (BuildGroupList_siblings_sorted game_tree 0 (win_groups INVALID_GROUP)
           NaturalOrder_compare_ok H1 eq_refl H3).
Defined.

(** ** Scheme rows *)

Lemma zseq_In n : forall s x, In x (zseq s n) <-> s <= x < s + Z.of_nat n.
Proof.
  induction n as [|n IH]; intros s x; simpl zseq.
  - simpl. lia.
  - simpl In. rewrite IH. lia.
Qed.

Lemma schemes_In x : In x schemes <-> 0 <= x < LS_END.
Proof. unfold schemes. rewrite zseq_In. unfold LS_DEFAULT, LS_END. lia. Qed.

Lemma SetRows_count g lc l acc :
  fold_left
    (fun rows scheme => if scheme_active g lc scheme then rows + 1 else rows)
    l acc
  = acc + Z.of_nat (List.length (filter (scheme_active g lc) l)).
Proof.
  revert acc. induction l as [|x l IH]; intros acc; simpl; [lia|].
  rewrite IH. destruct (scheme_active g lc x); simpl List.length; lia.
Qed.

(** SetRows stores the number of populated rows. *)
Lemma SetRows_populated g w :
  rows (SetRows g w) = populated_rows g (SetRows g w).
Proof.
  unfold SetRows, populated_rows.
  destruct (livery_class w <? LC_GROUP_RAIL) eqn:E;
    unfold set_rows; cbn [rows livery_class groups]; rewrite E.
  - now rewrite SetRows_count.
  - reflexivity.
Qed.

Lemma row_to_scheme_loop_exit g lc n s j :
  j < s -> row_to_scheme_loop g lc n s j = j.
Proof.
  intros H. destruct n; simpl; [reflexivity|].
  destruct (Z.leb_spec s j); [lia | reflexivity].
Qed.

(** The loop of OnClick stops on the scheme that the loop of DrawWidget
    shows in that row. *)
Lemma row_to_scheme_loop_spec g lc : forall m n s j t,
  s + Z.of_nat m = LS_END -> (m <= n)%nat -> 0 <= j - s ->
  nth_error (filter (scheme_active g lc) (zseq s m)) (Z.to_nat (j - s))
  = Some t ->
  row_to_scheme_loop g lc n s j = t.
Proof.
  induction m as [|m IH]; intros n s j t Hs Hn Hj Ht.
  - simpl in Ht. now destruct (Z.to_nat (j - s)).
  - destruct n as [|n]; [lia|].
    cbn [row_to_scheme_loop zseq filter] in *.
    destruct (Z.leb_spec s j); [|lia].
    destruct (Z.ltb_spec s LS_END); [|lia]. cbn [andb].
    destruct (scheme_active g lc s); cbn [negb].
    + destruct (Z.eq_dec j s) as [->|Hne].
      * rewrite Z.sub_diag in Ht. simpl in Ht. inversion Ht; subst t.
        apply row_to_scheme_loop_exit. lia.
      * replace (Z.to_nat (j - s)) with (S (Z.to_nat (j - (s + 1)))) in Ht
          by lia.
        simpl in Ht. apply (IH n (s + 1) j t); auto; lia.
    + replace (j - s) with (j + 1 - (s + 1)) in Ht by lia.
      apply (IH n (s + 1) (j + 1) t); auto; lia.
Qed.

Lemma row_to_scheme_spec g lc row t :
  0 <= row ->
  nth_error (filter (scheme_active g lc) schemes) (Z.to_nat row) = Some t ->
  row_to_scheme g lc row = t.
Proof.
  intros Hrow Ht. unfold row_to_scheme.
  apply (row_to_scheme_loop_spec g lc (Z.to_nat LS_END)); auto.
  - unfold LS_BEGIN. lia.
  - unfold LS_BEGIN. now rewrite Z.sub_0_r.
Qed.

Lemma DrawWidget_scheme_loop_spec g w : forall l pos,
  DrawWidget_scheme_loop g w l pos
  = map (fun scheme => (scheme, HasBit (sel w) scheme))
        (skipn (Z.to_nat pos) (filter (scheme_active g (livery_class w)) l)).
Proof.
  induction l as [|x l IH]; intros pos; simpl.
  - now rewrite skipn_nil.
  - destruct (scheme_active g (livery_class w) x); [|apply IH].
    destruct (Z.ltb_spec 0 pos).
    + rewrite IH.
      replace (Z.to_nat pos) with (S (Z.to_nat (pos - 1))) by lia.
      reflexivity.
    + rewrite IH.
      replace (Z.to_nat pos) with 0%nat by lia.
      replace (Z.to_nat (pos - 1)) with 0%nat by lia.
      reflexivity.
Qed.

Lemma testbit_one_shiftl y i :
  0 <= i -> Z.testbit (Z.shiftl 1 y) i = (i =? y).
Proof.
  intros Hi. rewrite Z.shiftl_spec by assumption.
  destruct (Z.eqb_spec i y) as [->|Hne].
  - now rewrite Z.sub_diag.
  - destruct (Z.lt_ge_cases (i - y) 0) as [Hlt|Hge].
    + now apply Z.testbit_neg_r.
    + apply (Z.bits_above_log2 1 (i - y)); simpl; lia.
Qed.

Lemma HasBit_uint32 x i : 0 <= i < 32 -> HasBit (uint32 x) i = HasBit x i.
Proof.
  intros Hi. unfold HasBit, uint32.
  apply Z.mod_pow2_bits_low. lia.
Qed.

(** Where the stored row count is the number of populated rows, as
    [SetRows] leaves it, a click on the matrix in a row at or beyond that
    number leaves the window as it is: the handler returns before it looks
    at the list. *)
Lemma OnClick_matrix_beyond_rows g w row :
  rows w = populated_rows g w ->
  populated_rows g w <= row ->
  OnClick g WID_SCL_MATRIX row w = Some w.
Proof.
  intros Hrows Hrow. unfold OnClick.
  destruct (Z.leb_spec (rows w) row); [reflexivity | lia].
Qed.

(** Past the rows of the active schemes the loop of OnClick runs off the
    table of schemes. *)
Lemma row_to_scheme_loop_beyond g lc : forall m n s j,
  s + Z.of_nat m = LS_END -> (m <= n)%nat -> 0 <= j - s ->
  (List.length (filter (scheme_active g lc) (zseq s m))
   <= Z.to_nat (j - s))%nat ->
  LS_END <= row_to_scheme_loop g lc n s j.
Proof.
  induction m as [|m IH]; intros n s j Hs Hn Hj Hlen.
  - destruct n; cbn [row_to_scheme_loop]; [lia|].
    destruct (Z.ltb_spec s LS_END); [lia|].
    rewrite andb_false_r. lia.
  - destruct n as [|n]; [lia|].
    cbn [row_to_scheme_loop zseq filter] in *.
    destruct (Z.leb_spec s j); [|lia].
    destruct (Z.ltb_spec s LS_END); [|lia]. cbn [andb].
    destruct (scheme_active g lc s); cbn [negb].
    + cbn [List.length] in Hlen. apply IH; lia.
    + apply IH; lia.
Qed.

(** C9 -- the guard of the matrix compares the row with the stored row
    count, not with the number of populated rows: in a state in which the
    stored count is larger, a click on a row between the two is not
    ignored.  On a scheme class the loop runs off the table of schemes and
    [assert(j < LS_END)] fails; on a group class the list is read past its
    end. *)
Theorem OnClick_matrix_stale_rows g w row :
  populated_rows g w <= row < rows w ->
  OnClick g WID_SCL_MATRIX row w = None.
Proof.
  intros [Hlo Hhi]. unfold OnClick.
  destruct (Z.leb_spec (rows w) row); [lia|].
  unfold populated_rows in Hlo.
  destruct (Z.ltb_spec (livery_class w) LC_GROUP_RAIL).
  - assert (H1 : LS_END <= row_to_scheme g (livery_class w) row).
    { unfold row_to_scheme.
      apply (row_to_scheme_loop_beyond g (livery_class w) (Z.to_nat LS_END));
        unfold LS_BEGIN, LS_END in *; try lia.
      rewrite Z.sub_0_r. fold LS_END.
      change (zseq 0 (Z.to_nat LS_END)) with schemes. lia. }
    destruct (Z.ltb_spec (row_to_scheme g (livery_class w) row) LS_END);
      [lia | reflexivity].
  - destruct (nth_error (groups w) (Z.to_nat row)) eqn:E; [|reflexivity].
    assert (Hn : nth_error (groups w) (Z.to_nat row) <> None) by congruence.
    apply nth_error_Some in Hn. lia.
Qed.

(** The state is one the window reaches: opened on the rail class while
    two rail schemes are in use (two rows), it is told by
    [OnInvalidateData(-1)] that the schemes in use have changed; one rail
    scheme is left, the class stays valid, and [SetRows] is not called. *)
Lemma OnClick_matrix_stale_rows_witness :
  OnClick game_tree (WID_SCL_CLASS LC_RAIL) 0 win_general = Some win_rail /\
  OnInvalidateData game_one_rail (-1) true win_rail = Some win_rail /\
  populated_rows game_one_rail win_rail <= 1 < rows win_rail /\
  OnClick game_one_rail WID_SCL_MATRIX 1 win_rail = None.
Proof.
  assert (H : populated_rows game_one_rail win_rail <= 1 < rows win_rail)
    by (vm_compute; split; [discriminate | reflexivity]).
  split; [reflexivity|]. split; [reflexivity|]. split; [exact H|].
  exact (OnClick_matrix_stale_rows game_one_rail win_rail 1 H).
Defined.

(** The guard itself, on any window. *)
Lemma OnClick_matrix_guard g w row :
  rows w <= row -> OnClick g WID_SCL_MATRIX row w = Some w.
Proof.
  intros H. unfold OnClick.
  destruct (Z.leb_spec (rows w) row); [reflexivity | lia].
Qed.

(** Below the guard a group row is read inside the list. *)
Lemma OnClick_matrix_group_row g w row :
  rows w = populated_rows g w -> LC_GROUP_RAIL <= livery_class w ->
  0 <= row < rows w ->
  exists gr, nth_error (groups w) (Z.to_nat row) = Some gr /\
             OnClick g WID_SCL_MATRIX row w = Some (set_sel w (Group.index gr)).
Proof.
  intros Hrows Hlc Hrow. unfold populated_rows in Hrows.
  destruct (Z.ltb_spec (livery_class w) LC_GROUP_RAIL) as [|_]; [lia|].
  destruct (nth_error (groups w) (Z.to_nat row)) as [gr|] eqn:E.
  - exists gr. split; [reflexivity|]. unfold OnClick.
    destruct (Z.leb_spec (rows w) row); [lia|].
    destruct (Z.ltb_spec (livery_class w) LC_GROUP_RAIL); [lia|].
    now rewrite E.
  - apply nth_error_None in E. lia.
Qed.



(** Rail schemes 1 and 3 are active: row 1 is scheme 3; a plain click
    selects it alone, a ctrl-click adds it to scheme 1. *)
Example OnClick_matrix_rail :
  option_map sel (OnClick game_tree WID_SCL_MATRIX 1 win_rail) = Some 8 /\
  option_map sel (OnClick game_tree_ctrl WID_SCL_MATRIX 1 win_rail) = Some 10.
Proof. split; reflexivity. Qed.

(** ** The colour dropdown *)

Lemma other_company_colours_bits (g : Game) l : forall acc i,
  0 <= i < 32 ->
  HasBit
    (fold_left
       (fun used c =>
          if negb (Company.index c =? _local_company g)
          then SetBit used (Company.colour c) else used) l acc) i
  = HasBit acc i
    || existsb (fun c => negb (Company.index c =? _local_company g)
                         && (Company.colour c =? i)) l.
Proof.
  induction l as [|c l IH]; intros acc i Hi; simpl.
  - now rewrite orb_false_r.
  - rewrite IH by assumption.
    destruct (negb (Company.index c =? _local_company g)); simpl.
    + unfold SetBit. rewrite HasBit_uint32 by assumption. unfold HasBit.
      rewrite Z.lor_spec, testbit_one_shiftl by lia.
      rewrite (Z.eqb_sym i). now rewrite orb_assoc.
    + reflexivity.
Qed.

Lemma other_company_colours_spec g i :
  0 <= i < 32 ->
  (HasBit (other_company_colours g) i = true <->
   exists c, In c (companies_pool g) /\
             Company.index c <> _local_company g /\ Company.colour c = i).
Proof.
  intros Hi. unfold other_company_colours.
  rewrite other_company_colours_bits by assumption.
  unfold HasBit at 1. rewrite Z.bits_0, orb_false_l, existsb_exists.
  split; intros (c & Hc & H); exists c; split; auto.
  - apply andb_prop in H. destruct H as [H1 H2].
    apply negb_true_iff, Z.eqb_neq in H1. apply Z.eqb_eq in H2. auto.
  - apply andb_true_intro. destruct H as [H1 H2]. split.
    + now apply negb_true_iff, Z.eqb_neq.
    + now apply Z.eqb_eq.
Qed.

(** The menu is built whenever the ids the function looks up exist: the
    company of the window and, in a group class, the selected group and
    its parent. *)
Lemma ShowColourDropDownMenu_returns g w primary c :
  Company_GetIfValid (companies_pool g) (window_number w) = Some c ->
  (LC_GROUP_RAIL <= livery_class w ->
   exists gr, Group_GetIfValid (groups_pool g) (sel w) = Some gr /\
              (Group.parent gr = INVALID_GROUP \/
               Group_IsValidID (groups_pool g) (Group.parent gr) = true)) ->
  exists dd, ShowColourDropDownMenu g w primary = Some dd.
Proof.
  intros Hc Hgr. unfold ShowColourDropDownMenu, dropdown_liveries.
  rewrite Hc.
  destruct (Z.ltb_spec (livery_class w) LC_GROUP_RAIL) as [Hlc|Hlc];
    [eexists; reflexivity|].
  destruct (Hgr Hlc) as (gr & Hg & Hp). rewrite Hg.
  destruct (Z.eqb_spec (Group.parent gr) INVALID_GROUP) as [E|E];
    [eexists; reflexivity|].
  destruct Hp as [Hp|Hp]; [contradiction|].
  unfold Group_IsValidID in Hp.
  destruct (Group_GetIfValid (groups_pool g) (Group.parent gr));
    [eexists; reflexivity | discriminate].
Qed.

(** The masks as the code computes them: the colours of the companies
    other than the local one. *)
Lemma ShowColourDropDownMenu_masks g w primary items s :
  ShowColourDropDownMenu g w primary = Some (items, s) ->
  exists synthetic mask,
    items = synthetic
            ++ map (fun i => mkItem i (mask i)) (zseq 0 (Z.to_nat COLOUR_END)) /\
    (List.length synthetic <= 1)%nat /\
    (forall it, In it synthetic -> masked it = false) /\
    forall i, 0 <= i < COLOUR_END ->
      (mask i = true <->
       primary = true /\ livery_class w < LC_GROUP_RAIL /\
       HasBit (sel w) LS_DEFAULT = true /\
       exists c, In c (companies_pool g) /\
                 Company.index c <> _local_company g /\
                 Company.colour c = i).
Proof.
  intros H. unfold ShowColourDropDownMenu in H.
  destruct (dropdown_liveries g w) as [[rep dflt]|]; [|discriminate].
  injection H as Hitems _. subst items.
  set (used := if (livery_class w <? LC_GROUP_RAIL)
                  && HasBit (sel w) LS_DEFAULT && primary
               then other_company_colours g else 0).
  exists (match dflt with
          | Some _ =>
              [mkItem match dflt with
                      | Some d => byte (slot_colour primary d + COLOUR_END)
                      | None => 0
                      end false]
          | None => []
          end), (fun i => HasBit used i).
  split; [reflexivity|].
  split; [destruct dflt; simpl; lia|].
  split; [destruct dflt; [intros it [<-|[]]; reflexivity | intros it []]|].
  intros i Hi. subst used.
  destruct ((livery_class w <? LC_GROUP_RAIL) && HasBit (sel w) LS_DEFAULT
            && primary) eqn:E.
  - apply andb_prop in E. destruct E as [E Hp].
    apply andb_prop in E. destruct E as [Hlc Hd]. apply Z.ltb_lt in Hlc.
    rewrite other_company_colours_spec by (unfold COLOUR_END in Hi; lia).
    tauto.
  - unfold HasBit at 1. rewrite Z.bits_0. split; [discriminate|].
    intros (Hp & Hlc & Hd & _). apply Z.ltb_lt in Hlc.
    rewrite Hp, Hlc, Hd in E. discriminate.
Qed.

(** C5.  In the list the colour dropdown is built from, the entry "use
    default" (when there is one) is never masked, and the entry of colour
    [i] is masked exactly when the dropdown is the primary one, a scheme
    class is shown, the default scheme is among the selected schemes, and
    a company other than the one being edited has [i] as its colour.  The
    company being edited is the one of the window, which is the local
    company whenever the dropdown buttons are enabled (OnPaint). *)
Theorem ShowColourDropDownMenu_masking g w primary items s :
  window_number w = _local_company g ->
  ShowColourDropDownMenu g w primary = Some (items, s) ->
  exists synthetic mask,
    items = synthetic
            ++ map (fun i => mkItem i (mask i)) (zseq 0 (Z.to_nat COLOUR_END)) /\
    (List.length synthetic <= 1)%nat /\
    (forall it, In it synthetic -> masked it = false) /\
    forall i, 0 <= i < COLOUR_END ->
      (mask i = true <->
       primary = true /\ livery_class w < LC_GROUP_RAIL /\
       HasBit (sel w) LS_DEFAULT = true /\
       exists c, In c (companies_pool g) /\
                 Company.index c <> window_number w /\
                 Company.colour c = i).
Proof.
  intros Hlocal H. rewrite Hlocal.
  now apply ShowColourDropDownMenu_masks with (s := s).
Qed.

Lemma ShowColourDropDownMenu_masking_witness :
  window_number win_general = _local_company game_tree /\
  ShowColourDropDownMenu game_tree win_general true
  = Some (map (fun i => mkItem i (i =? 4)) (zseq 0 16), 8) /\
  exists synthetic mask,
    map (fun i => mkItem i (i =? 4)) (zseq 0 16)
    = synthetic
      ++ map (fun i => mkItem i (mask i)) (zseq 0 (Z.to_nat COLOUR_END)) /\
    (List.length synthetic <= 1)%nat /\
    (forall it, In it synthetic -> masked it = false) /\
    forall i, 0 <= i < COLOUR_END ->
      (mask i = true <->
       true = true /\ livery_class win_general < LC_GROUP_RAIL /\
       HasBit (sel win_general) LS_DEFAULT = true /\
       exists c, In c (companies_pool game_tree) /\
                 Company.index c <> window_number win_general /\
                 Company.colour c = i).
Proof.
  assert (H1 : window_number win_general = _local_company game_tree)
    by reflexivity.
  assert (H2 : ShowColourDropDownMenu game_tree win_general true
               = Some (map (fun i => mkItem i (i =? 4)) (zseq 0 16), 8))
    by reflexivity.
  split; [exact H1 | split; [exact H2|]].
  exact (ShowColourDropDownMenu_masking game_tree win_general true _ _ H1 H2).
Defined.

(** The scenario of the specification: Red has colour 4.  Blue's primary
    dropdown masks colour 4 for the default scheme, and masks nothing for
    another scheme, for the secondary colour or for a group. *)
Example ShowColourDropDownMenu_scenario :
  option_map (fun dd => map result (filter masked (fst dd)))
             (ShowColourDropDownMenu game_tree win_general true) = Some [4] /\
  option_map (fun dd => map result (filter masked (fst dd)))
             (ShowColourDropDownMenu game_tree win_rail true) = Some [] /\
  option_map (fun dd => map result (filter masked (fst dd)))
             (ShowColourDropDownMenu game_tree win_general false) = Some [] /\
  option_map (fun dd => map result (filter masked (fst dd)))
             (ShowColourDropDownMenu game_tree (win_groups 2) true) = Some [].
Proof. repeat split. Qed.

(** *** The livery the dropdown stands for, and the preselected entry *)

Lemma find_zseq_some (f : Z -> bool) n : forall s x,
  find f (zseq s n) = Some x ->
  f x = true /\ s <= x < s + Z.of_nat n /\
  forall k, s <= k < x -> f k = false.
Proof.
  induction n as [|n IH]; intros s x H; simpl in H; [discriminate|].
  destruct (f s) eqn:E.
  - inversion H; subst x. repeat split; auto; lia.
  - apply IH in H. destruct H as (Hx & Hr & Hk).
    repeat split; auto; try lia.
    intros k Hks. destruct (Z.eq_dec k s) as [->|]; [assumption|].
    apply Hk. lia.
Qed.

Lemma first_selected_scheme_spec s :
  lowest_selected s (first_selected_scheme s).
Proof.
  unfold lowest_selected, first_selected_scheme, schemes.
  destruct (find (fun scheme => HasBit s scheme)
                 (zseq LS_DEFAULT (Z.to_nat LS_END))) as [x|] eqn:E.
  - apply find_zseq_some in E. destruct E as (Hx & Hr & Hk).
    assert (Hr' : 0 <= x < LS_END) by (unfold LS_DEFAULT, LS_END in *; lia).
    destruct (Z.eqb_spec x LS_END); [lia|].
    left. split; [assumption|]. split; [assumption|].
    intros k Hkx. apply Hk. unfold LS_DEFAULT. lia.
  - rewrite Z.eqb_refl. right. split; [reflexivity|].
    intros k Hk. apply (find_none _ _ E k).
    apply zseq_In. unfold LS_DEFAULT, LS_END in *. lia.
Qed.

Lemma byte_small x : 0 <= x < 256 -> byte x = x.
Proof. intros H. unfold byte. apply Z.mod_small. simpl. lia. Qed.

Lemma slot_colour_ok primary l :
  livery_ok l -> 0 <= slot_colour primary l < COLOUR_END.
Proof. intros [H1 H2]. now destruct primary. Qed.

Lemma palette_no_default (mask : Z -> bool) s :
  existsb (fun it => is_default_entry it && (result it =? s))
          (map (fun i => mkItem i (mask i)) (zseq 0 (Z.to_nat COLOUR_END)))
  = false.
Proof.
  destruct (existsb _ _) eqn:E; [|reflexivity].
  apply existsb_exists in E. destruct E as (it & Hit & H).
  apply in_map_iff in Hit. destruct Hit as (i & <- & Hi).
  apply zseq_In in Hi. apply andb_prop in H. destruct H as [H _].
  unfold is_default_entry in H. simpl in H. apply Z.leb_le in H.
  unfold COLOUR_END in *. lia.
Qed.

(** C7, as amended.  The livery the dropdown stands for is, in a scheme
    class, the one of the lowest scheme whose bit is set in the selection,
    or of the default scheme when no scheme bit is set; in a group class
    it is the livery of the selected group.  The entry "use default" is
    preselected exactly when the list has one (the livery is not the one
    of the default scheme) and the in-use flag of the slot is clear;
    otherwise the preselected entry is the colour of the livery in that
    slot. *)
Theorem ShowColourDropDownMenu_preselection g w primary rep dflt :
  dropdown_liveries g w = Some (rep, dflt) ->
  livery_ok rep ->
  (forall d, dflt = Some d -> livery_ok d) ->
  (forall c,
     Company_GetIfValid (companies_pool g) (window_number w) = Some c ->
     livery_class w < LC_GROUP_RAIL ->
     exists scheme,
       lowest_selected (sel w) scheme /\
       rep = Company.livery c scheme /\
       (dflt = None <-> scheme = LS_DEFAULT)) /\
  (forall gr,
     LC_GROUP_RAIL <= livery_class w ->
     Group_GetIfValid (groups_pool g) (sel w) = Some gr ->
     rep = Group.livery gr /\ dflt <> None) /\
  exists items s,
    ShowColourDropDownMenu g w primary = Some (items, s) /\
    (preselects_default (items, s) = true <->
     dflt <> None /\
     HasBit (in_use rep) (if primary then 0 else 1) = false) /\
    (preselects_default (items, s) = false ->
     s = slot_colour primary rep /\
     exists m, In (mkItem s m) items /\ is_default_entry (mkItem s m) = false).
Proof.
  intros Hd Hrep Hdflt. split; [|split].
  - intros c Hc Hlc. unfold dropdown_liveries in Hd. rewrite Hc in Hd.
    apply Z.ltb_lt in Hlc. rewrite Hlc in Hd.
    exists (first_selected_scheme (sel w)).
    split; [apply first_selected_scheme_spec|].
    injection Hd as <- <-. split; [reflexivity|].
    destruct (Z.eqb_spec (first_selected_scheme (sel w)) LS_DEFAULT);
      simpl; split; congruence.
  - intros gr Hlc Hgr. unfold dropdown_liveries in Hd.
    destruct (Company_GetIfValid _ _) as [c|]; [|discriminate].
    destruct (Z.ltb_spec (livery_class w) LC_GROUP_RAIL); [lia|].
    rewrite Hgr in Hd.
    destruct (Group.parent gr =? INVALID_GROUP).
    + injection Hd as <- <-. split; congruence.
    + destruct (Group_GetIfValid _ (Group.parent gr)); [|discriminate].
      injection Hd as <- <-. split; congruence.
  - unfold ShowColourDropDownMenu. rewrite Hd.
    pose proof (slot_colour_ok primary rep Hrep) as Hc.
    assert (Hbyte : byte (slot_colour primary rep) = slot_colour primary rep)
      by (apply byte_small; unfold COLOUR_END in Hc; lia).
    eexists. eexists. split; [reflexivity|].
    unfold preselects_default. cbn [fst snd].
    destruct dflt as [d|].
    + pose proof (slot_colour_ok primary d (Hdflt d eq_refl)) as Hcd.
      assert (Hbd : byte (slot_colour primary d + COLOUR_END)
                    = slot_colour primary d + COLOUR_END)
        by (apply byte_small; unfold COLOUR_END in *; lia).
      rewrite existsb_app, palette_no_default, orb_false_r.
      cbn [existsb result orb].
      rewrite Hbd, orb_false_r.
      unfold is_default_entry at 1 2. cbn [result].
      destruct (HasBit (in_use rep) (if primary then 0 else 1)); cbn [orb].
      * rewrite Hbyte.
        assert (E : (COLOUR_END <=? slot_colour primary d + COLOUR_END)
                    && (slot_colour primary d + COLOUR_END
                        =? slot_colour primary rep) = false).
        { apply andb_false_iff. right. apply Z.eqb_neq. lia. }
        rewrite E. split; [split; [discriminate | intros [_ H]; discriminate]|].
        intros _. split; [reflexivity|].
        eexists. split.
        -- apply in_or_app. right. apply in_map_iff.
           exists (slot_colour primary rep). split; [reflexivity|].
           apply zseq_In. unfold COLOUR_END in *. lia.
        -- unfold is_default_entry. cbn [result]. apply Z.leb_gt. lia.
      * rewrite Hbd, Z.eqb_refl, andb_true_r.
        assert (E : (COLOUR_END <=? slot_colour primary d + COLOUR_END) = true)
          by (apply Z.leb_le; lia).
        rewrite E. split; [split; [intros _; split; congruence | reflexivity]|].
        discriminate.
    + cbn [app orb]. rewrite palette_no_default, Hbyte.
      split; [split; [discriminate | intros [H _]; congruence]|].
      intros _. split; [reflexivity|].
      eexists. split.
      * apply in_map_iff.
        exists (slot_colour primary rep). split; [reflexivity|].
        apply zseq_In. unfold COLOUR_END in *. lia.
      * unfold is_default_entry. cbn [result]. apply Z.leb_gt. lia.
Qed.

(** Blue's rail scheme 1 has set its primary colour and left the secondary
    one to the default. *)
Lemma ShowColourDropDownMenu_preselection_witness :
  dropdown_liveries game_tree win_rail
  = Some (mkLivery 1 2 9, Some (mkLivery 0 8 8)) /\
  livery_ok (mkLivery 1 2 9) /\
  (forall d, Some (mkLivery 0 8 8) = Some d -> livery_ok d) /\
  exists items s,
    ShowColourDropDownMenu game_tree win_rail false = Some (items, s) /\
    (preselects_default (items, s) = true <->
     Some (mkLivery 0 8 8) <> None /\
     HasBit (in_use (mkLivery 1 2 9)) 1 = false).
Proof.
  assert (H1 : dropdown_liveries game_tree win_rail
               = Some (mkLivery 1 2 9, Some (mkLivery 0 8 8)))
    by reflexivity.
  assert (H2 : livery_ok (mkLivery 1 2 9))
    by (unfold livery_ok, COLOUR_END; simpl; lia).
  assert (H3 : forall d, Some (mkLivery 0 8 8) = Some d -> livery_ok d)
    by (intros d [= <-]; unfold livery_ok, COLOUR_END; simpl; lia).
  split; [exact H1 | split; [exact H2 | split; [exact H3|]]].
  destruct (ShowColourDropDownMenu_preselection game_tree win_rail false
              _ _ H1 H2 H3) as (_ & _ & items & s & Hs & Hpre & _).
  exists items, s. split; [exact Hs | exact Hpre].
Defined.

(** C7, as stated, fails for the default scheme: its livery never has the
    in-use flags set, the list has no entry "use default", and the colour
    of the livery is preselected. *)
Lemma ShowColourDropDownMenu_preselection_counterexample :
  exists rep dflt dd,
    dropdown_liveries game_tree win_general = Some (rep, dflt) /\
    ShowColourDropDownMenu game_tree win_general true = Some dd /\
    HasBit (in_use rep) 0 = false /\
    preselects_default dd = false /\
    snd dd = colour1 rep.
Proof. do 3 eexists. repeat split; reflexivity. Qed.

(** ** Committing a colour *)

Lemma flat_map_filter {A B} (p : A -> bool) (f : A -> B) l :
  flat_map (fun x => if p x then [f x] else []) l = map f (filter p l).
Proof.
  induction l as [|x l IH]; simpl; [reflexivity|].
  destruct (p x); simpl; now rewrite IH.
Qed.

Lemma NoDup_map_inj {A B} (f : A -> B) l :
  (forall a b, f a = f b -> a = b) -> NoDup l -> NoDup (map f l).
Proof.
  intros Hinj. induction 1 as [|x l Hx Hl IH]; simpl; constructor; auto.
  intros Hin. apply in_map_iff in Hin. destruct Hin as (y & E & Hy).
  apply Hinj in E. now subst y.
Qed.

Lemma zseq_NoDup n : forall s, NoDup (zseq s n).
Proof.
  induction n as [|n IH]; intros s; simpl; constructor; [|apply IH].
  rewrite zseq_In. lia.
Qed.

(** C8, as amended.  Committing a colour leaves the window as it is.  In
    the window of the local company a scheme class posts one
    set-company-colour command for each scheme whose bit is set in the
    selection and, with ctrl held, for each scheme active for the class,
    in enum order and none twice; a group class posts one
    set-group-livery command, for the selected group.  In the window of
    any other company nothing is posted. *)
Theorem OnDropdownSelect_requests g w primary index :
  let colour := if COLOUR_END <=? index then INVALID_COLOUR else index in
  let chosen := fun scheme =>
    HasBit (sel w) scheme
    || (_ctrl_pressed g && scheme_active g (livery_class w) scheme) in
  fst (OnDropdownSelect g w primary index) = w /\
  (window_number w <> _local_company g ->
   snd (OnDropdownSelect g w primary index) = []) /\
  (window_number w = _local_company g -> livery_class w < LC_GROUP_RAIL ->
   snd (OnDropdownSelect g w primary index)
   = map (fun scheme => CMD_SET_COMPANY_COLOUR scheme primary colour)
         (filter chosen schemes) /\
   NoDup (snd (OnDropdownSelect g w primary index)) /\
   forall cmd,
     In cmd (snd (OnDropdownSelect g w primary index)) <->
     exists scheme,
       cmd = CMD_SET_COMPANY_COLOUR scheme primary colour /\
       0 <= scheme < LS_END /\
       (HasBit (sel w) scheme = true \/
        (_ctrl_pressed g = true /\
         scheme_active g (livery_class w) scheme = true))) /\
  (window_number w = _local_company g -> LC_GROUP_RAIL <= livery_class w ->
   snd (OnDropdownSelect g w primary index)
   = [CMD_SET_GROUP_LIVERY (sel w) primary colour]).
Proof.
  intros colour chosen. unfold OnDropdownSelect.
  destruct (Z.eqb_spec (window_number w) (_local_company g)) as [Hl|Hl];
    cbn [negb].
  - destruct (Z.ltb_spec (livery_class w) LC_GROUP_RAIL) as [Hlc|Hlc];
      cbn [fst snd].
    + split; [reflexivity|]. split; [contradiction|]. split; [|lia].
      intros _ _.
      rewrite (flat_map_filter chosen
                 (fun scheme => CMD_SET_COMPANY_COLOUR scheme primary colour)).
      split; [reflexivity|]. split.
      * apply NoDup_map_inj.
        -- intros a b E. now inversion E.
        -- apply NoDup_filter, zseq_NoDup.
      * intros cmd. rewrite in_map_iff. split.
        -- intros (scheme & <- & Hin). apply filter_In in Hin.
           destruct Hin as [Hin Hch]. apply schemes_In in Hin.
           exists scheme. repeat split; try lia.
           unfold chosen in Hch. apply orb_prop in Hch.
           destruct Hch as [Hb|Hc]; [now left | right].
           now apply andb_prop in Hc.
        -- intros (scheme & -> & Hr & Hch). exists scheme.
           split; [reflexivity|]. apply filter_In.
           split; [now apply schemes_In|]. unfold chosen.
           destruct Hch as [->|[-> ->]]; [reflexivity|].
           apply orb_true_r.
    + split; [reflexivity|]. split; [contradiction|]. split; [lia|].
      reflexivity.
  - cbn [fst snd]. split; [reflexivity|]. split; [reflexivity|].
    split; contradiction.
Qed.

(** C8, as stated, fails in the window of a company that is not the local
    one: scheme 1 is selected (and a group is selected), and nothing is
    posted. *)
Lemma OnDropdownSelect_requests_counterexample :
  HasBit (sel win_rail) 1 = true /\
  window_number win_rail <> _local_company game_tree_red /\
  snd (OnDropdownSelect game_tree_red win_rail true 5) = [] /\
  snd (OnDropdownSelect game_tree_red (win_groups 2) true 5) = [].
Proof. repeat split. discriminate. Qed.

(** In the window of the local company: scheme 1 is selected; with ctrl
    held the other active rail scheme gets the colour as well. *)
Example OnDropdownSelect_rail :
  snd (OnDropdownSelect game_tree win_rail true 5)
  = [CMD_SET_COMPANY_COLOUR 1 true 5] /\
  snd (OnDropdownSelect game_tree_ctrl win_rail true 5)
  = [CMD_SET_COMPANY_COLOUR 1 true 5; CMD_SET_COMPANY_COLOUR 3 true 5] /\
  snd (OnDropdownSelect game_tree (win_groups 2) false 16)
  = [CMD_SET_GROUP_LIVERY 2 false INVALID_COLOUR].
Proof. repeat split. Qed.

(** ** External invalidation *)

Lemma SetRows_fields g w :
  sel (SetRows g w) = sel w /\ groups (SetRows g w) = groups w /\
  indents (SetRows g w) = indents w /\
  livery_class (SetRows g w) = livery_class w.
Proof.
  unfold SetRows. destruct (livery_class w <? LC_GROUP_RAIL); auto.
Qed.

Lemma Group_IsValidID_In pool id :
  Group_IsValidID pool id = true <->
  exists gr, In gr pool /\ Group.index gr = id.
Proof.
  unfold Group_IsValidID, Group_GetIfValid. split.
  - destruct (find _ pool) as [gr|] eqn:E; [|discriminate].
    apply find_some in E. destruct E as [Hin E]. apply Z.eqb_eq in E.
    intros _. now exists gr.
  - intros (gr & Hin & E).
    destruct (find _ pool) eqn:F; [reflexivity|].
    apply (find_none _ _ F) in Hin. simpl in Hin.
    apply Z.eqb_neq in Hin. contradiction.
Qed.

(** C2, as amended.  A rebuild triggered by an invalidation that carries
    the vehicle type of the shown group class returns.  The selection is
    kept whenever it is the id of a group that still exists in the pool,
    also when that group is not in the new list; otherwise it becomes the
    first entry of the new list, or NONE when the list is empty.  A
    selection that is kept is in the new list when its group passes the
    filter and its chain of parents arrives at the root. *)
Theorem OnInvalidateData_selection g data w :
  pool_ok (groups_pool g) ->
  0 <= data ->
  livery_class w = data + LC_GROUP_RAIL ->
  exists w',
    OnInvalidateData g data true w = Some w' /\
    groups w' = map fst (flattened g (window_number w) data) /\
    sel w' = (if Group_IsValidID (groups_pool g) (sel w) then sel w
              else match groups w' with
                   | g0 :: _ => Group.index g0
                   | [] => INVALID_GROUP
                   end) /\
    (Group_IsValidID (groups_pool g) (sel w) = false ->
     sel w' = INVALID_GROUP \/ In (sel w') (map Group.index (groups w'))) /\
    (forall gr,
       In gr (staging g (window_number w) data) ->
       Group.index gr = sel w ->
       attached (staging g (window_number w) data) gr = true ->
       sel w' = sel w /\ In gr (groups w')).
Proof.
  intros Hok Hdata Hlc. unfold OnInvalidateData. cbn [negb].
  destruct (Z.eqb_spec data (-1)) as [|_]; [lia|]. cbn [negb].
  rewrite Hlc, Z.eqb_refl.
  rewrite BuildGroupList_rebuild;
    [|assumption|reflexivity|cbn [livery_class set_need_rebuild]; lia].
  cbn [livery_class set_need_rebuild window_number].
  replace (livery_class w - LC_GROUP_RAIL) with data by lia.
  set (w1 := set_need_rebuild _ false).
  destruct (SetRows_fields g w1) as (Hsel & Hgroups & _ & _).
  assert (Hg1 : groups w1 = map fst (flattened g (window_number w) data))
    by reflexivity.
  assert (Hs1 : sel w1 = sel w) by reflexivity.
  set (w2 := SetRows g w1) in *. rewrite Hsel, Hs1.
  destruct (Group_IsValidID (groups_pool g) (sel w)) eqn:Ev; cbn [negb].
  - exists w2. split; [reflexivity|].
    split; [congruence|]. split; [congruence|]. split; [discriminate|].
    intros gr Hin Hidx Hatt. split; [congruence|].
    rewrite Hgroups, Hg1.
    apply flattened_groups_In; [assumption|].
    apply attached_below; assumption.
  - assert (Hnone : forall gr, In gr (staging g (window_number w) data) ->
                               Group.index gr <> sel w).
    { intros gr Hin Hidx.
      assert (Group_IsValidID (groups_pool g) (sel w) = true); [|congruence].
      apply Group_IsValidID_In. exists gr. split; [|assumption].
      now apply staging_In in Hin. }
    assert (Hg2 : groups w2 = map fst (flattened g (window_number w) data))
      by congruence.
    change (groups (set_sel w2 INVALID_GROUP)) with (groups w2).
    destruct (groups w2) as [|g0 l] eqn:Eg.
    + exists (set_sel w2 INVALID_GROUP). split; [reflexivity|].
      cbn [groups sel set_sel]. rewrite Eg.
      split; [assumption|]. split; [reflexivity|].
      split; [intros _; now left|].
      intros gr Hin Hidx. exfalso. eapply Hnone; eauto.
    + exists (set_sel (set_sel w2 INVALID_GROUP) (Group.index g0)).
      split; [reflexivity|].
      cbn [groups sel set_sel]. rewrite Eg.
      split; [assumption|]. split; [reflexivity|].
      split; [intros _; right; now left|].
      intros gr Hin Hidx. exfalso. eapply Hnone; eauto.
Qed.

Lemma OnInvalidateData_selection_witness :
  pool_ok (groups_pool game_tree) /\
  0 <= VEH_TRAIN /\
  livery_class (win_groups 7) = VEH_TRAIN + LC_GROUP_RAIL /\
  exists w',
    OnInvalidateData game_tree VEH_TRAIN true (win_groups 7) = Some w' /\
    groups w' = map fst (flattened game_tree 0 VEH_TRAIN) /\
    sel w' = 1.
Proof.
  assert (H1 : pool_ok (groups_pool game_tree))
    by (apply pool_okb_ok; reflexivity).
  assert (H2 : 0 <= VEH_TRAIN) by (unfold VEH_TRAIN; lia).
  assert (H3 : livery_class (win_groups 7) = VEH_TRAIN + LC_GROUP_RAIL)
    by reflexivity.
  split; [exact H1 | split; [exact H2 | split; [exact H3|]]].
  destruct (OnInvalidateData_selection game_tree VEH_TRAIN (win_groups 7)
              H1 H2 H3) as (w' & Hw & Hg & Hs & _).
  exists w'. split; [exact Hw | split; [exact Hg|]].
  rewrite Hs, Hg. reflexivity.
Defined.

(** C2, as stated, fails on an orphan: group 1 was selected, its parent is
    gone, the new list is empty, and group 1 stays selected. *)
Lemma OnInvalidateData_selection_counterexample :
  exists w',
    OnInvalidateData game_orphan VEH_TRAIN true (win_groups 1) = Some w' /\
    groups w' = [] /\
    sel w' = 1 /\
    ~ (sel w' = INVALID_GROUP \/ In (sel w') (map Group.index (groups w'))).
Proof.
  eexists. split; [reflexivity|]. repeat split.
  intros [H|H]; [discriminate H | destruct H].
Qed.
(** * The livery window between events *)

Lemma HasBit_uint32_true x k :
  HasBit (uint32 x) k = true -> 0 <= k < 32 /\ HasBit x k = true.
Proof.
  unfold HasBit, uint32. intro H.
  destruct (Z.ltb_spec k 0).
  - rewrite Z.testbit_neg_r in H by lia. discriminate.
  - destruct (Z.ltb_spec k 32).
    + rewrite Z.mod_pow2_bits_low in H by lia. split; [lia | exact H].
    + rewrite Z.mod_pow2_bits_high in H by lia. discriminate.
Qed.

Lemma HasBit_one_shiftl j k : HasBit (Z.shiftl 1 j) k = true -> k = j.
Proof.
  unfold HasBit. intro H.
  destruct (Z.ltb_spec k 0).
  - rewrite Z.testbit_neg_r in H by lia. discriminate.
  - rewrite testbit_one_shiftl in H by lia. now apply Z.eqb_eq.
Qed.

Lemma HasBit_ClrBit s scheme k :
  HasBit (ClrBit s scheme) k = true -> HasBit s k = true /\ k <> scheme.
Proof.
  unfold ClrBit. intro H. apply HasBit_uint32_true in H.
  destruct H as [Hk H]. unfold HasBit in *.
  rewrite Z.ldiff_spec, testbit_one_shiftl in H by lia.
  apply andb_true_iff in H. destruct H as [H1 H2]. split; [exact H1|].
  intro E. subst. rewrite Z.eqb_refl in H2. discriminate.
Qed.

Lemma HasBit_ToggleBit s j k :
  HasBit (ToggleBit s j) k = true -> k = j \/ HasBit s k = true.
Proof.
  unfold ToggleBit. intro H. apply HasBit_uint32_true in H.
  destruct H as [Hk H]. unfold HasBit in *.
  rewrite Z.lxor_spec, testbit_one_shiftl in H by lia.
  destruct (Z.eqb_spec k j); [now left | right].
  now rewrite xorb_false_r in H.
Qed.

Lemma SetRows_flags g w :
  need_rebuild (SetRows g w) = need_rebuild w /\
  window_number (SetRows g w) = window_number w.
Proof. unfold SetRows. destruct (_ <? _); split; reflexivity. Qed.

Lemma populated_rows_ext g w1 w2 :
  livery_class w1 = livery_class w2 -> groups w1 = groups w2 ->
  populated_rows g w1 = populated_rows g w2.
Proof. unfold populated_rows. intros -> ->. reflexivity. Qed.

Lemma find_filter {A} (f : A -> bool) l : find f l = hd_error (filter f l).
Proof.
  induction l as [|x l IH]; [reflexivity|].
  cbn [find filter]. destruct (f x); [reflexivity | exact IH].
Qed.

Lemma OnClick_class_scheme_eq g lc row w :
  lc < LC_GROUP_RAIL ->
  OnClick g (WID_SCL_CLASS lc) row w
  = Some (SetRows g
            (set_sel (set_livery_class w lc)
               (match find (scheme_active g lc) schemes with
                | Some scheme => Z.shiftl 1 scheme
                | None => 0
                end))).
Proof.
  intro H. unfold OnClick.
  change (livery_class (set_livery_class w lc)) with lc.
  destruct (Z.ltb_spec lc LC_GROUP_RAIL); [reflexivity | lia].
Qed.

Ltac window_fields :=
  cbn [sel livery_class rows groups indents need_rebuild window_number
       set_sel set_livery_class set_rows set_need_rebuild clear_lists
       push_rows set_window_number group_class_window fresh_window
       map app fst snd List.length].

Lemma OnClick_class_group_eq g lc row w :
  pool_ok (groups_pool g) -> LC_GROUP_RAIL <= lc ->
  OnClick g (WID_SCL_CLASS lc) row w = Some (group_class_window g w lc).
Proof.
  intros Hok H. unfold OnClick.
  change (livery_class (set_livery_class w lc)) with lc.
  destruct (Z.ltb_spec lc LC_GROUP_RAIL); [lia|].
  rewrite BuildGroupList_rebuild; [| exact Hok | reflexivity | exact H].
  unfold group_class_window, SetRows. window_fields.
  destruct (flattened g (window_number w) (lc - LC_GROUP_RAIL))
    as [|[g0 d0] rs]; window_fields;
    (destruct (Z.ltb_spec lc LC_GROUP_RAIL); [lia|]); window_fields.
  - reflexivity.
  - rewrite length_map. reflexivity.
Qed.

Lemma group_class_window_ok g w lc :
  LC_GROUP_RAIL <= lc -> window_ok g (group_class_window g w lc).
Proof.
  intro H. unfold window_ok, populated_rows. window_fields.
  destruct (Z.ltb_spec lc LC_GROUP_RAIL); [lia|].
  rewrite !length_map.
  split; [reflexivity|]. split; [reflexivity|]. split; [reflexivity|].
  split; [intro; lia | intro; split; reflexivity].
Qed.

Lemma OnClick_class_window_ok g lc row w :
  pool_ok (groups_pool g) ->
  need_rebuild w = false ->
  List.length (groups w) = List.length (indents w) ->
  exists w',
    OnClick g (WID_SCL_CLASS lc) row w = Some w' /\ window_ok g w' /\
    window_number w' = window_number w /\ livery_class w' = lc.
Proof.
  intros Hok Hnr Hlen.
  destruct (Z.lt_ge_cases lc LC_GROUP_RAIL) as [Hlc|Hlc].
  - rewrite OnClick_class_scheme_eq by exact Hlc.
    eexists. split; [reflexivity|].
    set (w1 := set_sel _ _).
    destruct (SetRows_fields g w1) as (Hs & Hg & Hi & Hc).
    destruct (SetRows_flags g w1) as (Hn & Hw).
    split; [|split; [rewrite Hw; reflexivity | rewrite Hc; reflexivity]].
    unfold window_ok. rewrite Hn, Hg, Hi, Hc, Hs.
    split; [apply SetRows_populated|].
    split; [exact Hnr|]. split; [exact Hlen|].
    change (livery_class w1) with lc.
    split; [|intro; lia].
    intros _ k Hk. subst w1. cbn [sel set_sel] in Hk.
    destruct (find (scheme_active g lc) schemes) as [s|] eqn:E.
    + apply HasBit_one_shiftl in Hk. subst k.
      apply find_some in E. exact E.
    + unfold HasBit in Hk. rewrite Z.testbit_0_l in Hk. discriminate.
  - rewrite OnClick_class_group_eq by assumption.
    eexists. split; [reflexivity|].
    split; [apply group_class_window_ok; exact Hlc|].
    split; reflexivity.
Qed.

Lemma nth_error_filter_active g lc row :
  0 <= row ->
  row < Z.of_nat (List.length (filter (scheme_active g lc) schemes)) ->
  exists j,
    nth_error (filter (scheme_active g lc) schemes) (Z.to_nat row) = Some j /\
    In j schemes /\ scheme_active g lc j = true /\
    row_to_scheme g lc row = j.
Proof.
  intros H0 H1.
  destruct (nth_error (filter (scheme_active g lc) schemes) (Z.to_nat row))
    as [j|] eqn:E.
  - exists j. split; [reflexivity|].
    pose proof (nth_error_In _ _ E) as Hin. apply filter_In in Hin.
    split; [apply Hin|]. split; [apply Hin|].
    apply row_to_scheme_spec; assumption.
  - apply nth_error_None in E. lia.
Qed.

Lemma set_sel_same w : set_sel w (sel w) = w.
Proof. destruct w; reflexivity. Qed.

Lemma window_ok_set_sel g w s :
  window_ok g w ->
  (livery_class w < LC_GROUP_RAIL ->
   forall k, HasBit s k = true ->
             In k schemes /\ scheme_active g (livery_class w) k = true) ->
  window_ok g (set_sel w s).
Proof.
  intros (Hr & Hn & Hl & Hs & Hg) H.
  unfold window_ok. split; [exact Hr|]. split; [exact Hn|].
  split; [exact Hl|]. split; [exact H | exact Hg].
Qed.

(** Each click leaves the window in order, and none makes the handler
    fail. *)
Lemma OnClick_window_ok g widget row w :
  pool_ok (groups_pool g) -> window_ok g w -> 0 <= row ->
  is_dropdown widget = false ->
  exists w',
    OnClick g widget row w = Some w' /\ window_ok g w' /\
    window_number w' = window_number w.
Proof.
  intros Hok Hw Hrow Hdd.
  destruct widget as [lc| | |]; try discriminate Hdd.
  - destruct Hw as (_ & Hn & Hl & _).
    destruct (OnClick_class_window_ok g lc row w Hok Hn Hl)
      as (w' & E & H1 & H2 & _).
    exists w'. auto.
  - destruct (Z.le_gt_cases (rows w) row) as [Hge|Hlt].
    { exists w. split; [apply OnClick_matrix_guard; exact Hge | auto]. }
    destruct (Z.lt_ge_cases (livery_class w) LC_GROUP_RAIL) as [Hlc|Hlc].
    + pose proof Hw as (Hr & _ & _ & Hs & _).
      assert (Hp : row < Z.of_nat (List.length
                (filter (scheme_active g (livery_class w)) schemes))).
      { unfold populated_rows in Hr.
        destruct (Z.ltb_spec (livery_class w) LC_GROUP_RAIL); lia. }
      destruct (nth_error_filter_active g (livery_class w) row Hrow Hp)
        as (j & _ & Hin & Hact & Hj).
      unfold OnClick.
      destruct (Z.leb_spec (rows w) row); [lia|].
      destruct (Z.ltb_spec (livery_class w) LC_GROUP_RAIL); [|lia].
      rewrite Hj.
      destruct (Z.ltb_spec j LS_END); [|apply schemes_In in Hin; lia].
      destruct (_ctrl_pressed g).
      * eexists. split; [reflexivity|]. split; [|reflexivity].
        apply window_ok_set_sel; [exact Hw|].
        intros _ k Hk. apply HasBit_ToggleBit in Hk.
        destruct Hk as [->|Hk]; [auto | apply Hs; assumption].
      * eexists. split; [reflexivity|]. split; [|reflexivity].
        apply window_ok_set_sel; [exact Hw|].
        intros _ k Hk. apply HasBit_one_shiftl in Hk. subst k. auto.
    + destruct (OnClick_matrix_group_row g w row) as (gr & _ & E);
        [apply Hw | exact Hlc | lia |].
      eexists. split; [exact E|]. split; [|reflexivity].
      apply window_ok_set_sel; [exact Hw | intro; lia].
Qed.

Lemma invalidate_fold g : forall l valid w,
  let r :=
    fold_left
      (fun '(valid, w) scheme =>
         if HasBit (used_liveries g) scheme then
           (valid || (livery_class_of scheme =? livery_class w), w)
         else if livery_class w <? LC_GROUP_RAIL then
           (valid, set_sel w (ClrBit (sel w) scheme))
         else (valid, w))
      l (valid, w) in
  snd r = set_sel w (sel (snd r)) /\
  (LC_GROUP_RAIL <= livery_class w -> sel (snd r) = sel w) /\
  (forall k, HasBit (sel (snd r)) k = true ->
     HasBit (sel w) k = true /\
     (livery_class w < LC_GROUP_RAIL -> In k l ->
      HasBit (used_liveries g) k = true)) /\
  fst r = valid
          || existsb (fun scheme =>
                        HasBit (used_liveries g) scheme
                        && (livery_class_of scheme =? livery_class w)) l.
Proof.
  induction l as [|s l IH]; intros valid w.
  - cbn [fold_left fst snd existsb]. rewrite orb_false_r.
    split; [symmetry; apply set_sel_same|]. split; [reflexivity|].
    split; [|reflexivity]. intros k Hk. split; [exact Hk|]. intros _ [].
  - cbn [fold_left existsb].
    destruct (HasBit (used_liveries g) s) eqn:Hu.
    + specialize (IH (valid || (livery_class_of s =? livery_class w)) w).
      cbv zeta in IH. destruct IH as (H1 & H2 & H3 & H4).
      split; [exact H1|]. split; [exact H2|].
      split.
      * intros k Hk. destruct (H3 k Hk) as [Ha Hb]. split; [exact Ha|].
        intros Hlc [->|Hin]; [exact Hu | auto].
      * rewrite H4. cbn [andb]. now rewrite orb_assoc.
    + destruct (Z.ltb_spec (livery_class w) LC_GROUP_RAIL) as [Hlc|Hlc].
      * specialize (IH valid (set_sel w (ClrBit (sel w) s))).
        cbv zeta in IH. cbn [livery_class set_sel sel] in IH.
        destruct IH as (H1 & H2 & H3 & H4).
        split; [rewrite H1 at 1; reflexivity|]. split; [intro; lia|].
        split.
        -- intros k Hk. destruct (H3 k Hk) as [Ha Hb].
           apply HasBit_ClrBit in Ha. destruct Ha as [Ha Hne].
           split; [exact Ha|].
           intros _ [E|Hin]; [congruence | auto].
        -- rewrite H4. reflexivity.
      * specialize (IH valid w). cbv zeta in IH.
        destruct IH as (H1 & H2 & H3 & H4).
        split; [exact H1|]. split; [exact H2|].
        split.
        -- intros k Hk. destruct (H3 k Hk) as [Ha Hb]. split; [exact Ha|].
           intros; lia.
        -- rewrite H4. reflexivity.
Qed.

Lemma rebuild_SetRows g w :
  pool_ok (groups_pool g) -> LC_GROUP_RAIL <= livery_class w ->
  exists w1,
    BuildGroupList g (window_number w) (set_need_rebuild w true) = Some w1 /\
    SetRows g w1 = set_sel (group_class_window g w (livery_class w)) (sel w).
Proof.
  intros Hok Hlc.
  rewrite BuildGroupList_rebuild; [| exact Hok | reflexivity | exact Hlc].
  eexists. split; [reflexivity|].
  unfold SetRows, group_class_window. window_fields.
  destruct (Z.ltb_spec (livery_class w) LC_GROUP_RAIL); [lia|].
  window_fields. rewrite length_map. reflexivity.
Qed.

Lemma OnInvalidateData_window_ok g data gui_scope w :
  pool_ok (groups_pool g) -> window_ok g w -> -1 <= data ->
  exists w',
    OnInvalidateData g data gui_scope w = Some w' /\ window_ok g w' /\
    window_number w' = window_number w.
Proof.
  intros Hok Hw Hd. unfold OnInvalidateData.
  destruct gui_scope; cbn [negb]; [|exists w; auto].
  destruct (Z.eqb_spec data (-1)) as [E|E]; cbn [negb].
  - pose proof (invalidate_fold g schemes
                  ((livery_class w =? LC_OTHER)
                   || (LC_GROUP_RAIL <=? livery_class w)) w) as F.
    cbv zeta in F.
    assert (Hsw : forall w1,
              window_ok g w1 -> window_number w1 = window_number w ->
              exists w',
                OnClick g (WID_SCL_CLASS LC_OTHER) 0 w1 = Some w' /\
                window_ok g w' /\ window_number w' = window_number w).
    { intros w1 Hw1 Hn.
      destruct (OnClick_window_ok g (WID_SCL_CLASS LC_OTHER) 0 w1 Hok Hw1)
        as (w' & E' & H1 & H2); [lia | reflexivity |].
      exists w'. split; [exact E'|]. split; [exact H1 | congruence]. }
    destruct (liveries_shown g (window_number w)).
    + destruct (fold_left _ _ _) as [valid w1]. cbn [fst snd] in F.
      destruct F as (F1 & F2 & F3 & F4).
      assert (Hw1 : window_ok g w1).
      { rewrite F1. apply window_ok_set_sel; [exact Hw|].
        intros Hlc k Hk. destruct (F3 k Hk) as [Ha _].
        apply Hw; assumption. }
      assert (Hn1 : window_number w1 = window_number w)
        by (rewrite F1; reflexivity).
      destruct valid; cbn [negb]; [exists w1; auto | apply Hsw; assumption].
    + destruct ((livery_class w =? LC_OTHER)
                || (LC_GROUP_RAIL <=? livery_class w)); cbn [negb];
        [exists w; auto | apply Hsw; auto].
  - destruct (Z.eqb_spec (livery_class w) (data + LC_GROUP_RAIL)) as [Hc|Hc];
      [|exists w; auto].
    assert (Hlc : LC_GROUP_RAIL <= livery_class w) by lia.
    destruct (rebuild_SetRows g w Hok Hlc) as (w1 & E1 & E2).
    rewrite E1, E2.
    pose proof (group_class_window_ok g w (livery_class w) Hlc) as Hg.
    assert (Hss : forall s s',
              window_ok g (set_sel (set_sel (group_class_window g w
                                               (livery_class w)) s) s')).
    { intros. apply window_ok_set_sel;
        [apply window_ok_set_sel; [exact Hg|] |];
        intro Hlt; exfalso; revert Hlt; window_fields; lia. }
    destruct (Group_IsValidID _ _); cbn [negb].
    + eexists. split; [reflexivity|]. split; [|reflexivity].
      apply window_ok_set_sel; [exact Hg|].
      intro Hlt; exfalso; revert Hlt; window_fields; lia.
    + eexists. split; [reflexivity|].
      destruct (groups _); [split; [apply Hss | reflexivity]|].
      split; [|reflexivity].
      apply window_ok_set_sel; [apply Hss|].
      intro Hlt; exfalso; revert Hlt; window_fields; lia.
Qed.

Lemma BuildGroupList_clean g owner w :
  need_rebuild w = false -> BuildGroupList g owner w = Some w.
Proof. intro H. unfold BuildGroupList. rewrite H. reflexivity. Qed.

Lemma win_rail_ok : window_ok game_tree win_rail.
Proof.
  unfold window_ok. split; [reflexivity|]. split; [reflexivity|].
  split; [reflexivity|]. split.
  - intros _ k Hk. change (sel win_rail) with (Z.shiftl 1 1) in Hk.
    apply HasBit_one_shiftl in Hk. subst k.
    split; [apply schemes_In; unfold LS_END; lia | reflexivity].
  - intro H. exfalso. revert H. unfold win_rail, LC_GROUP_RAIL, LC_RAIL.
    window_fields. lia.
Qed.

Lemma win_tree_ok : window_ok game_tree win_tree.
Proof.
  unfold window_ok. split; [reflexivity|]. split; [reflexivity|].
  split; [reflexivity|]. split.
  - intro H. exfalso. revert H. unfold win_tree, LC_GROUP_RAIL.
    window_fields. lia.
  - intros _. split; vm_compute; reflexivity.
Qed.

Lemma game_tree_pool_ok : pool_ok (groups_pool game_tree).
Proof. apply pool_okb_ok. vm_compute. reflexivity. Qed.

(** ** Switching class *)

Lemma active_schemes_NoDup g lc : NoDup (filter (scheme_active g lc) schemes).
Proof. apply NoDup_filter. apply zseq_NoDup. Qed.

Lemma OnClick_class_scheme_spec g lc row w :
  lc < LC_GROUP_RAIL ->
  exists w',
    OnClick g (WID_SCL_CLASS lc) row w = Some w' /\
    livery_class w' = lc /\
    sel w' = match hd_error (filter (scheme_active g lc) schemes) with
             | Some scheme => Z.shiftl 1 scheme
             | None => 0
             end /\
    rows w' = Z.of_nat (List.length (filter (scheme_active g lc) schemes)) /\
    (sel w' = 0 <-> rows w' = 0).
Proof.
  intro Hlc. rewrite OnClick_class_scheme_eq by exact Hlc.
  eexists. split; [reflexivity|].
  set (w1 := set_sel _ _).
  destruct (SetRows_fields g w1) as (Hs & _ & _ & Hc).
  change (livery_class w1) with lc in Hc.
  split; [exact Hc|].
  assert (Hrows : rows (SetRows g w1)
                  = Z.of_nat (List.length
                                (filter (scheme_active g lc) schemes))).
  { rewrite SetRows_populated. unfold populated_rows. rewrite Hc.
    destruct (Z.ltb_spec lc LC_GROUP_RAIL); [reflexivity | lia]. }
  rewrite Hs, Hrows. subst w1. cbn [sel set_sel]. rewrite find_filter.
  split; [reflexivity|]. split; [reflexivity|].
  assert (Hin : forall x, In x (filter (scheme_active g lc) schemes) -> 0 <= x).
  { intros x Hx. apply filter_In in Hx. destruct Hx as [Hx _].
    apply schemes_In in Hx. lia. }
  destruct (filter (scheme_active g lc) schemes) as [|s rest];
    cbn [hd_error List.length].
  - split; reflexivity.
  - assert (Hs0 : 0 <= s) by (apply Hin; left; reflexivity).
    rewrite Z.shiftl_1_l.
    pose proof (Z.pow_pos_nonneg 2 s ltac:(lia) Hs0). lia.
Qed.

(** X2 -- a click on the button of a scheme class selects the first scheme
    of the class that is in use, which DrawWidget then shows highlighted in
    the top row, alone; a class with no scheme in use is left with no row
    and no selection. *)
Theorem OnClick_class_scheme_first g lc row w :
  lc < LC_GROUP_RAIL ->
  exists w',
    OnClick g (WID_SCL_CLASS lc) row w = Some w' /\
    livery_class w' = lc /\
    DrawWidget_scheme_rows g w' 0
    = match filter (scheme_active g lc) schemes with
      | [] => []
      | s :: rest => (s, true) :: map (fun x => (x, false)) rest
      end /\
    rows w' = Z.of_nat (List.length (DrawWidget_scheme_rows g w' 0)) /\
    (sel w' = 0 <-> rows w' = 0).
Proof.
  intro Hlc.
  destruct (OnClick_class_scheme_spec g lc row w Hlc)
    as (w' & E & Hc & Hs & Hr & Hz).
  exists w'. split; [exact E|]. split; [exact Hc|].
  unfold DrawWidget_scheme_rows.
  rewrite DrawWidget_scheme_loop_spec, Hc.
  change (Z.to_nat 0) with 0%nat. cbn [skipn]. rewrite length_map.
  split; [|split; [exact Hr | exact Hz]].
  rewrite Hs.
  pose proof (active_schemes_NoDup g lc) as Hnd.
  assert (Hin : forall x, In x (filter (scheme_active g lc) schemes) -> 0 <= x).
  { intros x Hx. apply filter_In in Hx. destruct Hx as [Hx _].
    apply schemes_In in Hx. lia. }
  destruct (filter (scheme_active g lc) schemes) as [|s rest];
    cbn [hd_error map]; [reflexivity|].
  f_equal.
  - unfold HasBit.
    rewrite testbit_one_shiftl by (apply Hin; left; reflexivity).
    now rewrite Z.eqb_refl.
  - apply map_ext_in. intros x Hx. f_equal. unfold HasBit.
    rewrite testbit_one_shiftl by (apply Hin; right; exact Hx).
    apply Z.eqb_neq. intros ->. inversion Hnd; contradiction.
Qed.

Lemma OnClick_class_scheme_first_witness :
  LC_RAIL < LC_GROUP_RAIL /\
  exists w',
    OnClick game_tree (WID_SCL_CLASS LC_RAIL) 0 win_general = Some w' /\
    DrawWidget_scheme_rows game_tree w' 0 = [(1, true); (3, false)].
Proof.
  assert (H : LC_RAIL < LC_GROUP_RAIL) by (unfold LC_RAIL, LC_GROUP_RAIL; lia).
  split; [exact H|].
  destruct (OnClick_class_scheme_first game_tree LC_RAIL 0 win_general H)
    as (w' & E & _ & Hr & _).
  exists w'. split; [exact E | exact Hr].
Defined.

(** ** The group rows of the matrix *)

Lemma DrawWidget_groups_spec hsep w : forall n pos,
  0 <= pos ->
  pos + Z.of_nat n <= Z.of_nat (List.length (groups w)) ->
  List.length (groups w) = List.length (indents w) ->
  exists rws,
    DrawWidget_groups hsep w (zseq pos n) = Some rws /\
    List.length rws = n /\
    forall i r, nth_error rws i = Some r ->
      exists gr d,
        nth_error (groups w) (Z.to_nat pos + i) = Some gr /\
        nth_error (indents w) (Z.to_nat pos + i) = Some d /\
        r = draw_livery (STR_GROUP_NAME (Group.index gr)) (Group.livery gr)
                        (sel w =? Group.index gr) false (d * hsep).
Proof.
  induction n as [|n IH]; intros pos Hpos Hle Hlen.
  - exists []. split; [reflexivity|]. split; [reflexivity|].
    intros [|i] r Hr; discriminate.
  - cbn [zseq DrawWidget_groups].
    destruct (nth_error (groups w) (Z.to_nat pos)) as [gr|] eqn:Eg;
      [|apply nth_error_None in Eg; lia].
    destruct (nth_error (indents w) (Z.to_nat pos)) as [d|] eqn:Ed;
      [|apply nth_error_None in Ed; lia].
    destruct (IH (pos + 1)) as (rs & E & Hl & Hrs); [lia | lia | exact Hlen |].
    rewrite E. eexists. split; [reflexivity|].
    split; [cbn [List.length]; now rewrite Hl|].
    intros [|i] r Hr.
    + injection Hr as <-. exists gr, d.
      rewrite Nat.add_0_r. auto.
    + cbn [nth_error] in Hr. destruct (Hrs i r Hr) as (gr' & d' & H1 & H2 & H3).
      exists gr', d'.
      replace (Z.to_nat pos + S i)%nat with (Z.to_nat (pos + 1) + i)%nat by lia.
      auto.
Qed.

Lemma DrawWidget_group_rows g hsep w pos cap :
  LC_GROUP_RAIL <= livery_class w ->
  List.length (groups w) = List.length (indents w) ->
  0 <= pos -> 0 <= cap ->
  exists rws,
    DrawWidget g hsep w pos cap = Some rws /\
    Z.of_nat (List.length rws)
    = Z.max 0 (Z.min (pos + cap) (Z.of_nat (List.length (groups w))) - pos) /\
    forall i r, nth_error rws i = Some r ->
      exists gr d,
        nth_error (groups w) (Z.to_nat pos + i) = Some gr /\
        nth_error (indents w) (Z.to_nat pos + i) = Some d /\
        r = draw_livery (STR_GROUP_NAME (Group.index gr)) (Group.livery gr)
                        (sel w =? Group.index gr) false (d * hsep).
Proof.
  intros Hlc Hlen Hpos Hcap. unfold DrawWidget.
  destruct (Z.ltb_spec (livery_class w) LC_GROUP_RAIL); [lia|].
  set (m := Z.min (pos + cap) (Z.of_nat (List.length (groups w)))).
  destruct (Z.le_gt_cases pos m) as [Hm|Hm].
  - destruct (DrawWidget_groups_spec hsep w (Z.to_nat (m - pos)) pos)
      as (rws & E & Hl & Hr); [exact Hpos | lia | exact Hlen |].
    exists rws. split; [exact E|]. split; [lia | exact Hr].
  - replace (Z.to_nat (m - pos)) with 0%nat by lia.
    exists []. split; [reflexivity|]. split; [cbn [List.length]; lia|].
    intros [|i] r Hr; discriminate.
Qed.

Lemma NoDup_map_inj_in {A B} (f : A -> B) l :
  (forall a b, In a l -> In b l -> f a = f b -> a = b) ->
  NoDup l -> NoDup (map f l).
Proof.
  induction l as [|x l IH]; intros Hinj Hnd; cbn [map]; [constructor|].
  inversion Hnd as [|? ? Hx Hl]; subst. constructor.
  - intro Hin. apply in_map_iff in Hin. destruct Hin as (y & Hy & Hyl).
    apply Hinj in Hy; [|right; exact Hyl | left; reflexivity].
    subst. contradiction.
  - apply IH; [|exact Hl]. intros a b Ha Hb. apply Hinj; right; assumption.
Qed.

Lemma flattened_in_pool g owner vtype h :
  pool_ok (groups_pool g) ->
  In h (map fst (flattened g owner vtype)) -> In h (groups_pool g).
Proof.
  intros Hok Hin. apply (flattened_groups_In g owner vtype h Hok) in Hin.
  destruct Hin as [k Hk]. apply below_In in Hk. apply staging_In in Hk.
  apply Hk.
Qed.

Lemma flattened_index_NoDup g owner vtype :
  pool_ok (groups_pool g) ->
  NoDup (map Group.index (map fst (flattened g owner vtype))).
Proof.
  intro Hok. apply NoDup_map_inj_in; [|apply flattened_NoDup; exact Hok].
  intros a b Ha Hb. apply (pool_ok_index_inj (groups_pool g) Hok);
    eapply flattened_in_pool; eassumption.
Qed.

Lemma flattened_not_root g owner vtype h :
  pool_ok (groups_pool g) ->
  In h (map fst (flattened g owner vtype)) -> Group.index h <> INVALID_GROUP.
Proof.
  intros Hok Hin. apply (pool_ok_not_root (groups_pool g) Hok).
  eapply flattened_in_pool; eassumption.
Qed.

Lemma nth_error_index_inj (l : list Group.t) i j a b :
  NoDup (map Group.index l) ->
  nth_error l i = Some a -> nth_error l j = Some b ->
  Group.index a = Group.index b -> i = j.
Proof.
  intros Hnd Ha Hb E.
  assert (Hi : (i < List.length (map Group.index l))%nat).
  { rewrite length_map. apply nth_error_Some. congruence. }
  apply (proj1 (NoDup_nth_error (map Group.index l)) Hnd i j Hi).
  rewrite !nth_error_map, Ha, Hb. cbn [option_map]. now rewrite E.
Qed.

(** A click on a class button or in the matrix keeps the selection of a
    group class inside the list. *)
Lemma OnClick_sel_listed g widget row w w' :
  pool_ok (groups_pool g) -> window_ok g w -> sel_listed w -> 0 <= row ->
  OnClick g widget row w = Some w' -> sel_listed w'.
Proof.
  intros Hok Hw Hs Hrow E.
  destruct widget as [lc| | |].
  - destruct (Z.lt_ge_cases lc LC_GROUP_RAIL) as [Hlc|Hlc].
    + rewrite OnClick_class_scheme_eq in E by exact Hlc.
      injection E as <-. unfold sel_listed.
      match goal with
      | |- context [SetRows g ?x] =>
          destruct (SetRows_fields g x) as (_ & _ & _ & Hc)
      end.
      rewrite Hc. window_fields. lia.
    + rewrite OnClick_class_group_eq in E by assumption.
      injection E as <-. intros _. unfold group_class_window.
      destruct (flattened g (window_number w) (lc - LC_GROUP_RAIL))
        as [|[g0 d0] rs]; window_fields; [now left | right].
      exists g0. split; [now left | reflexivity].
  - cbn [OnClick] in E.
    destruct (ShowColourDropDownMenu g w true); [|discriminate].
    injection E as <-. exact Hs.
  - cbn [OnClick] in E.
    destruct (ShowColourDropDownMenu g w false); [|discriminate].
    injection E as <-. exact Hs.
  - destruct (Z.le_gt_cases (rows w) row) as [Hge|Hlt].
    { rewrite OnClick_matrix_guard in E by exact Hge.
      injection E as <-. exact Hs. }
    destruct (Z.lt_ge_cases (livery_class w) LC_GROUP_RAIL) as [Hlc|Hlc].
    + unfold OnClick in E.
      destruct (Z.leb_spec (rows w) row); [lia|].
      destruct (Z.ltb_spec (livery_class w) LC_GROUP_RAIL); [|lia].
      destruct (_ <? LS_END); [|discriminate].
      destruct (_ctrl_pressed g); injection E as <-;
        unfold sel_listed; window_fields; lia.
    + destruct (OnClick_matrix_group_row g w row) as (gr & Hn & E');
        [apply Hw | exact Hlc | lia |].
      rewrite E' in E. injection E as <-. intros _. right.
      exists gr. split; [|reflexivity].
      window_fields. eapply nth_error_In. exact Hn.
Qed.

(** An invalidation keeps the selection of a group class inside the
    list. *)
Lemma OnInvalidateData_sel_listed g data gui_scope w w' :
  pool_ok (groups_pool g) -> window_ok g w -> sel_listed w -> -1 <= data ->
  OnInvalidateData g data gui_scope w = Some w' -> sel_listed w'.
Proof.
  intros Hok Hw Hs Hdata E. unfold OnInvalidateData in E.
  destruct gui_scope; cbn [negb] in E; [|injection E as <-; exact Hs].
  destruct (Z.eqb_spec data (-1)) as [Hd|Hd]; cbn [negb] in E.
  - pose proof (invalidate_fold g schemes
                  ((livery_class w =? LC_OTHER)
                   || (LC_GROUP_RAIL <=? livery_class w)) w) as F.
    cbv zeta in F.
    assert (Hsw : forall w1,
              OnClick g (WID_SCL_CLASS LC_OTHER) 0 w1 = Some w' ->
              sel_listed w').
    { intros w1 E1.
      rewrite OnClick_class_scheme_eq in E1 by (unfold LC_OTHER, LC_GROUP_RAIL; lia).
      injection E1 as <-. unfold sel_listed.
      match goal with
      | |- context [SetRows g ?x] =>
          destruct (SetRows_fields g x) as (_ & _ & _ & Hc)
      end.
      rewrite Hc. window_fields. unfold LC_OTHER, LC_GROUP_RAIL. lia. }
    destruct (liveries_shown g (window_number w)).
    + destruct (fold_left _ _ _) as [valid w1]. cbn [fst snd] in F.
      destruct F as (F1 & F2 & _ & _).
      destruct valid; cbn [negb] in E; [|eapply Hsw; exact E].
      injection E as <-. rewrite F1. intro Hlc. revert Hlc. window_fields.
      intro Hlc. rewrite (F2 Hlc). exact (Hs Hlc).
    + destruct ((livery_class w =? LC_OTHER)
                || (LC_GROUP_RAIL <=? livery_class w)); cbn [negb] in E;
        [injection E as <-; exact Hs | eapply Hsw; exact E].
  - destruct (Z.eqb_spec (livery_class w) (data + LC_GROUP_RAIL)) as [Hc|Hc];
      [|injection E as <-; exact Hs].
    assert (Hn : need_rebuild w = false) by apply Hw.
    destruct (Z.lt_ge_cases (livery_class w) LC_GROUP_RAIL) as [Hlc|Hlc].
    + lia.
    + destruct (rebuild_SetRows g w Hok Hlc) as (w1 & E1 & E2).
      rewrite E1, E2 in E.
      destruct Hw as (_ & _ & _ & _ & Hg). destruct (Hg Hlc) as [Hgr _].
      pose proof (Hs Hlc) as Hs'. rewrite Hgr in Hs'.
      revert E. unfold group_class_window.
      cbn [sel groups set_sel].
      destruct (Group_IsValidID _ _); cbn [negb].
      * intro E. injection E as <-. intros _. exact Hs'.
      * destruct (map fst _) as [|g0 gs]; intro E; injection E as <-;
          intros _; cbn [sel groups set_sel]; [now left | right].
        exists g0. split; [now left | reflexivity].
Qed.

(** A colour button that is enabled opens its menu: the company of the
    window and, on a group class, the selected group and its parent are
    there to be read. *)
Lemma dropdown_click_returns g w primary w0 :
  pool_ok (groups_pool g) -> window_ok g w -> sel_listed w ->
  Company_GetIfValid (companies_pool g) (window_number w) <> None ->
  OnPaint g w = Some (w0, false) ->
  exists dd, ShowColourDropDownMenu g w primary = Some dd.
Proof.
  intros Hok Hw Hs Hc Hp.
  destruct (Company_GetIfValid (companies_pool g) (window_number w))
    as [c|] eqn:Ec; [|contradiction].
  apply (ShowColourDropDownMenu_returns g w primary c Ec).
  intro Hlc.
  assert (Hsel : sel w <> INVALID_GROUP).
  { unfold OnPaint in Hp.
    destruct (BuildGroupList g (window_number w) w); [|discriminate].
    injection Hp as _ Hd. apply orb_false_iff in Hd. destruct Hd as [_ Hd].
    destruct (Z.ltb_spec (livery_class w) LC_GROUP_RAIL); [lia|].
    apply Z.eqb_neq. exact Hd. }
  destruct (Hs Hlc) as [E|(gr & Hin & Hi)]; [contradiction|].
  destruct Hw as (_ & _ & _ & _ & Hg). destruct (Hg Hlc) as [Hgr _].
  rewrite Hgr in Hin.
  pose proof (flattened_in_pool g _ _ gr Hok Hin) as Hpool.
  exists gr. split.
  - rewrite <- Hi. exact (pool_ok_find (groups_pool g) Hok gr Hpool).
  - apply (flattened_groups_In g _ _ gr Hok) in Hin.
    destruct Hin as (k & Hb).
    inversion Hb as [g1 Hin1 Hp1 | g1 h1 k1 Hb1 Hin1 Hp1]; subst.
    + now left.
    + right. apply Group_IsValidID_In. exists g1. split; [|now symmetry].
      apply below_In in Hb1. apply staging_In in Hb1. apply Hb1.
Qed.

(** X1 -- a livery window in order (row count, list and highlighted schemes
    as the class shown has them), whose selection on a group class is no
    group or a listed group, in a game with a well-formed group pool in
    which the company of the window exists.  While the game stays as it
    is, no click on a class button or in the matrix, no click on a colour
    button that OnPaint enables, and no invalidation makes its handler
    fail, and each leaves such a window again; choosing a colour or
    repainting leaves the window as it is.  When the groups of the
    vehicle type shown have changed, the invalidation for that type puts
    the window in order for the new game.  Nothing is said of an
    invalidation with -1 after the schemes in use have changed: it does
    not recompute the row count. *)
Theorem events_keep_window_ok g w :
  pool_ok (groups_pool g) -> window_ok g w -> sel_listed w ->
  Company_GetIfValid (companies_pool g) (window_number w) <> None ->
  (forall widget row, 0 <= row ->
     (is_dropdown widget = true -> exists w0, OnPaint g w = Some (w0, false)) ->
     exists w', OnClick g widget row w = Some w' /\ window_ok g w' /\
                sel_listed w' /\ window_number w' = window_number w) /\
  (forall data gui_scope, -1 <= data ->
     exists w', OnInvalidateData g data gui_scope w = Some w' /\
                window_ok g w' /\ sel_listed w' /\
                window_number w' = window_number w) /\
  (forall g' data,
     pool_ok (groups_pool g') -> 0 <= data ->
     livery_class w = data + LC_GROUP_RAIL ->
     exists w', OnInvalidateData g' data true w = Some w' /\
                window_ok g' w' /\ window_number w' = window_number w) /\
  (forall primary index, fst (OnDropdownSelect g w primary index) = w) /\
  (exists disabled, OnPaint g w = Some (w, disabled)).
Proof.
  intros Hok Hw Hs Hc. split; [|split; [|split; [|split]]].
  - intros widget row Hrow Hen.
    destruct (is_dropdown widget) eqn:Hdd.
    + destruct (Hen eq_refl) as (w0 & Hp).
      assert (E : OnClick g widget row w = Some w).
      { destruct widget; try discriminate Hdd; cbn [OnClick].
        - destruct (dropdown_click_returns g w true w0 Hok Hw Hs Hc Hp)
            as (dd & ->). reflexivity.
        - destruct (dropdown_click_returns g w false w0 Hok Hw Hs Hc Hp)
            as (dd & ->). reflexivity. }
      exists w. auto.
    + destruct (OnClick_window_ok g widget row w Hok Hw Hrow Hdd)
        as (w' & E & H & Hn).
      exists w'. split; [exact E|]. split; [exact H|]. split; [|exact Hn].
      exact (OnClick_sel_listed g widget row w w' Hok Hw Hs Hrow E).
  - intros data gui_scope Hd.
    destruct (OnInvalidateData_window_ok g data gui_scope w Hok Hw Hd)
      as (w' & E & H & Hn).
    exists w'. split; [exact E|]. split; [exact H|]. split; [|exact Hn].
    exact (OnInvalidateData_sel_listed g data gui_scope w w' Hok Hw Hs Hd E).
  - intros g' data Hok' Hd Hcl. unfold OnInvalidateData. cbn [negb].
    destruct (Z.eqb_spec data (-1)); [lia|]. cbn [negb].
    destruct (Z.eqb_spec (livery_class w) (data + LC_GROUP_RAIL)); [|lia].
    assert (Hlc : LC_GROUP_RAIL <= livery_class w) by lia.
    destruct (rebuild_SetRows g' w Hok' Hlc) as (w1 & E1 & E2).
    rewrite E1, E2.
    pose proof (group_class_window_ok g' w (livery_class w) Hlc) as Hg.
    assert (Hss : forall s s',
              window_ok g' (set_sel (set_sel (group_class_window g' w
                                                (livery_class w)) s) s')).
    { intros. apply window_ok_set_sel;
        [apply window_ok_set_sel; [exact Hg|] |];
        intro Hlt; exfalso; revert Hlt; window_fields; lia. }
    destruct (Group_IsValidID _ _); cbn [negb].
    + eexists. split; [reflexivity|]. split; [|reflexivity].
      apply window_ok_set_sel; [exact Hg|].
      intro Hlt; exfalso; revert Hlt; window_fields; lia.
    + eexists. split; [reflexivity|].
      destruct (groups _); [split; [apply Hss | reflexivity]|].
      split; [|reflexivity].
      apply window_ok_set_sel; [apply Hss|].
      intro Hlt; exfalso; revert Hlt; window_fields; lia.
  - intros primary index. unfold OnDropdownSelect.
    destruct (negb _); [reflexivity|].
    destruct (_ <? _); reflexivity.
  - unfold OnPaint. rewrite BuildGroupList_clean by apply Hw.
    eexists. reflexivity.
Qed.

Lemma events_keep_window_ok_witness :
  pool_ok (groups_pool game_tree) /\ window_ok game_tree win_tree /\
  sel_listed win_tree /\
  Company_GetIfValid (companies_pool game_tree) (window_number win_tree)
  <> None /\
  OnPaint game_tree win_tree = Some (win_tree, false) /\
  exists w', OnClick game_tree WID_SCL_PRI_COL_DROPDOWN 0 win_tree = Some w' /\
             window_ok game_tree w'.
Proof.
  assert (H1 : sel_listed win_tree).
  { intros _. right. exists group_alpha. split; [simpl; tauto | reflexivity]. }
  assert (H2 : Company_GetIfValid (companies_pool game_tree)
                 (window_number win_tree) <> None)
    by (vm_compute; discriminate).
  assert (H3 : OnPaint game_tree win_tree = Some (win_tree, false))
    by reflexivity.
  split; [exact game_tree_pool_ok|]. split; [exact win_tree_ok|].
  split; [exact H1|]. split; [exact H2|]. split; [exact H3|].
  destruct (proj1 (events_keep_window_ok game_tree win_tree
                     game_tree_pool_ok win_tree_ok H1 H2)
              WID_SCL_PRI_COL_DROPDOWN 0 ltac:(lia)
              (fun _ => ex_intro _ win_tree H3))
    as (w' & E & H & _).
  exists w'. split; [exact E | exact H].
Defined.

(** X3 -- a click on the button of a group class rebuilds the list for the
    vehicle type of the class and selects the group of the top row, no
    group when the list is empty; DrawWidget then highlights the top row
    and no other. *)
Theorem OnClick_class_group_first g hsep lc row w pos cap :
  pool_ok (groups_pool g) -> LC_GROUP_RAIL <= lc -> 0 <= pos -> 0 <= cap ->
  exists w' rws,
    OnClick g (WID_SCL_CLASS lc) row w = Some w' /\
    livery_class w' = lc /\
    groups w' = map fst (flattened g (window_number w) (lc - LC_GROUP_RAIL)) /\
    rows w' = Z.of_nat (List.length (groups w')) /\
    sel w' = match groups w' with
             | g0 :: _ => Group.index g0
             | [] => INVALID_GROUP
             end /\
    DrawWidget g hsep w' pos cap = Some rws /\
    forall i r, nth_error rws i = Some r ->
                row_sel r = (pos + Z.of_nat i =? 0).
Proof.
  intros Hok Hlc Hpos Hcap.
  rewrite OnClick_class_group_eq by assumption.
  set (w' := group_class_window g w lc).
  pose proof (group_class_window_ok g w lc Hlc) as Hw.
  destruct (DrawWidget_group_rows g hsep w' pos cap) as (rws & E & _ & Hr);
    [exact Hlc | apply Hw | exact Hpos | exact Hcap |].
  exists w', rws. split; [reflexivity|]. split; [reflexivity|].
  split; [reflexivity|].
  split; [subst w'; window_fields; now rewrite length_map|].
  assert (Hsel : sel w' = match groups w' with
                          | g0 :: _ => Group.index g0
                          | [] => INVALID_GROUP
                          end).
  { subst w'. window_fields.
    destruct (flattened g (window_number w) (lc - LC_GROUP_RAIL))
      as [|[g0 d0] rs]; reflexivity. }
  split; [exact Hsel|]. split; [exact E|].
  intros i r Hi. destruct (Hr i r Hi) as (gr & d & Hg & _ & ->).
  cbn [row_sel draw_livery].
  assert (Hnd : NoDup (map Group.index (groups w')))
    by (apply flattened_index_NoDup; exact Hok).
  destruct (groups w') as [|g0 gs] eqn:Eg.
  { destruct (Z.to_nat pos + i)%nat; discriminate. }
  rewrite Hsel.
  destruct (Z.eqb_spec (pos + Z.of_nat i) 0) as [H0|H0].
  - replace (Z.to_nat pos + i)%nat with 0%nat in Hg by lia.
    injection Hg as <-. apply Z.eqb_refl.
  - apply Z.eqb_neq. intro Heq.
    assert (Hz : (0 = Z.to_nat pos + i)%nat).
    { apply (nth_error_index_inj (g0 :: gs) _ _ g0 gr Hnd);
        [reflexivity | exact Hg | exact Heq]. }
    lia.
Qed.

Lemma OnClick_class_group_first_witness :
  pool_ok (groups_pool game_tree) /\ LC_GROUP_RAIL <= LC_GROUP_RAIL /\
  0 <= 0 /\ 0 <= 11 /\
  exists w',
    OnClick game_tree (WID_SCL_CLASS LC_GROUP_RAIL) 0 win_general = Some w' /\
    sel w' = match groups w' with
             | g0 :: _ => Group.index g0
             | [] => INVALID_GROUP
             end.
Proof.
  assert (H1 : LC_GROUP_RAIL <= LC_GROUP_RAIL) by lia.
  assert (H2 : 0 <= 0) by lia.
  assert (H3 : 0 <= 11) by lia.
  split; [exact game_tree_pool_ok|]. split; [exact H1|].
  split; [exact H2|]. split; [exact H3|].
  destruct (OnClick_class_group_first game_tree 10 LC_GROUP_RAIL 0 win_general
              0 11 game_tree_pool_ok H1 H2 H3)
    as (w' & rws & E & _ & _ & _ & Hs & _).
  exists w'. split; [exact E | exact Hs].
Defined.

(** X4 -- the repaint after a click on a class button disables the two
    dropdown buttons exactly when the window is not the one of the local
    company or the class has come up without a row. *)
Theorem OnPaint_after_class_switch g lc row w :
  pool_ok (groups_pool g) ->
  exists w' w'',
    OnClick g (WID_SCL_CLASS lc) row w = Some w' /\
    OnPaint g w'
    = Some (w'', negb (window_number w =? _local_company g) || (rows w' =? 0)).
Proof.
  intro Hok. unfold OnPaint.
  destruct (Z.lt_ge_cases lc LC_GROUP_RAIL) as [Hlc|Hlc].
  - destruct (OnClick_class_scheme_spec g lc row w Hlc)
      as (w' & E & Hc & _ & _ & Hs).
    destruct (BuildGroupList_returns g (window_number w') w' Hok) as [w'' Eb].
    exists w', w''. split; [exact E|]. rewrite Eb, Hc.
    destruct (Z.ltb_spec lc LC_GROUP_RAIL); [|lia].
    rewrite OnClick_class_scheme_eq in E by exact Hlc.
    assert (Hn : option_map window_number (Some w') = Some (window_number w)).
    { rewrite <- E. cbn [option_map]. f_equal.
      exact (proj2 (SetRows_flags g _)). }
    cbn [option_map] in Hn. assert (Hn' : window_number w' = window_number w)
      by congruence.
    clear Hn. rename Hn' into Hn.
    rewrite Hn. do 3 f_equal.
    destruct (Z.eqb_spec (sel w') 0) as [H0|H0];
      destruct (Z.eqb_spec (rows w') 0) as [H1|H1];
      try reflexivity; exfalso; tauto.
  - rewrite OnClick_class_group_eq by assumption.
    set (w' := group_class_window g w lc).
    exists w', w'. split; [reflexivity|].
    rewrite BuildGroupList_clean by reflexivity.
    change (livery_class w') with lc.
    destruct (Z.ltb_spec lc LC_GROUP_RAIL); [lia|].
    change (window_number w') with (window_number w). do 3 f_equal.
    subst w'. window_fields.
    pose proof (flattened_not_root g (window_number w) (lc - LC_GROUP_RAIL))
      as Hnr.
    destruct (flattened g (window_number w) (lc - LC_GROUP_RAIL))
      as [|[g0 d0] rs]; [reflexivity|].
    cbn [List.length].
    destruct (Z.eqb_spec (Group.index g0) INVALID_GROUP) as [H0|H0].
    + exfalso. apply (Hnr g0 Hok); [left; reflexivity | exact H0].
    + symmetry. apply Z.eqb_neq. lia.
Qed.

Lemma OnPaint_after_class_switch_witness :
  pool_ok (groups_pool game_tree) /\
  exists w' w'',
    OnClick game_tree (WID_SCL_CLASS LC_SHIP) 0 win_rail = Some w' /\
    OnPaint game_tree w' = Some (w'', true).
Proof.
  split; [exact game_tree_pool_ok|].
  destruct (OnPaint_after_class_switch game_tree LC_SHIP 0 win_rail
              game_tree_pool_ok) as (w' & w'' & E & Hp).
  exists w', w''. split; [exact E|].
  vm_compute in E. injection E as <-. exact Hp.
Defined.

(** ** Clicks on rows *)





(** X6 -- a click on a group row selects the group of that row, and
    DrawWidget then highlights that row and no other, whatever the scroll
    position. *)
Theorem OnClick_matrix_group_highlight g hsep w row pos cap :
  pool_ok (groups_pool g) -> window_ok g w ->
  LC_GROUP_RAIL <= livery_class w ->
  0 <= row < rows w -> 0 <= pos -> 0 <= cap ->
  exists gr w' rws,
    nth_error (groups w) (Z.to_nat row) = Some gr /\
    OnClick g WID_SCL_MATRIX row w = Some w' /\
    sel w' = Group.index gr /\
    DrawWidget g hsep w' pos cap = Some rws /\
    Z.of_nat (List.length rws) = Z.max 0 (Z.min (pos + cap) (rows w) - pos) /\
    forall i r, nth_error rws i = Some r ->
                row_sel r = (pos + Z.of_nat i =? row).
Proof.
  intros Hok Hw Hlc Hrow Hpos Hcap.
  destruct (OnClick_matrix_group_row g w row) as (gr & Hgr & E);
    [apply Hw | exact Hlc | exact Hrow |].
  set (w' := set_sel w (Group.index gr)) in *.
  assert (Hw' : window_ok g w')
    by (apply window_ok_set_sel; [exact Hw | intro; lia]).
  destruct (DrawWidget_group_rows g hsep w' pos cap) as (rws & Ed & Hl & Hr);
    [exact Hlc | apply Hw' | exact Hpos | exact Hcap |].
  exists gr, w', rws. split; [exact Hgr|]. split; [exact E|].
  split; [reflexivity|]. split; [exact Ed|].
  assert (Hrows : rows w = Z.of_nat (List.length (groups w))).
  { destruct Hw as (Hp & _). rewrite Hp. unfold populated_rows.
    destruct (Z.ltb_spec (livery_class w) LC_GROUP_RAIL); [lia | reflexivity]. }
  split; [rewrite Hl, Hrows; reflexivity|].
  intros i r Hi. destruct (Hr i r Hi) as (gr' & d & Hg' & _ & ->).
  cbn [row_sel draw_livery]. change (sel w') with (Group.index gr).
  change (groups w') with (groups w) in Hg'.
  assert (Hnd : NoDup (map Group.index (groups w))).
  { destruct Hw as (_ & _ & _ & _ & Hg). destruct (Hg Hlc) as [-> _].
    apply flattened_index_NoDup. exact Hok. }
  destruct (Z.eqb_spec (pos + Z.of_nat i) row) as [H0|H0].
  - replace (Z.to_nat pos + i)%nat with (Z.to_nat row) in Hg' by lia.
    rewrite Hgr in Hg'. injection Hg' as <-. apply Z.eqb_refl.
  - apply Z.eqb_neq. intro Heq.
    assert (Hz : Z.to_nat row = (Z.to_nat pos + i)%nat)
      by (apply (nth_error_index_inj (groups w) _ _ gr gr' Hnd); assumption).
    lia.
Qed.

Lemma OnClick_matrix_group_highlight_witness :
  pool_ok (groups_pool game_tree) /\ window_ok game_tree win_tree /\
  LC_GROUP_RAIL <= livery_class win_tree /\
  0 <= 2 < rows win_tree /\ 0 <= 1 /\ 0 <= 11 /\
  exists gr w' rws,
    nth_error (groups win_tree) (Z.to_nat 2) = Some gr /\
    OnClick game_tree WID_SCL_MATRIX 2 win_tree = Some w' /\
    sel w' = Group.index gr /\
    DrawWidget game_tree 10 w' 1 11 = Some rws /\
    Z.of_nat (List.length rws) = Z.max 0 (Z.min (1 + 11) (rows win_tree) - 1) /\
    forall i r, nth_error rws i = Some r ->
                row_sel r = (1 + Z.of_nat i =? 2).
Proof.
  assert (H1 : LC_GROUP_RAIL <= livery_class win_tree)
    by (vm_compute; congruence).
  assert (H2 : 0 <= 2 < rows win_tree) by (vm_compute; split; congruence).
  assert (H3 : 0 <= 1) by lia.
  assert (H4 : 0 <= 11) by lia.
  split; [exact game_tree_pool_ok|]. split; [exact win_tree_ok|].
  split; [exact H1|]. split; [exact H2|]. split; [exact H3|].
  split; [exact H4|].
  exact (OnClick_matrix_group_highlight game_tree 10 win_tree 2 1 11
           game_tree_pool_ok win_tree_ok H1 H2 H3 H4).
Defined.

(** ** The dropdown buttons and the colour menu *)

Lemma preselects_default_cases g w primary rep dflt items s :
  dropdown_liveries g w = Some (rep, dflt) ->
  livery_ok rep ->
  (forall d, dflt = Some d -> livery_ok d) ->
  ShowColourDropDownMenu g w primary = Some (items, s) ->
  preselects_default (items, s)
  = match dflt with
    | Some _ => negb (HasBit (in_use rep) (if primary then 0 else 1))
    | None => false
    end /\
  (preselects_default (items, s) = false -> s = slot_colour primary rep).
Proof.
  intros Hd Hrep Hdf H. unfold ShowColourDropDownMenu in H. rewrite Hd in H.
  match type of H with
  | Some (?l, ?x) = _ =>
      assert (Hi : items = l) by congruence;
      assert (Hs : s = x) by congruence
  end.
  clear H. subst items s. unfold preselects_default. cbn [fst snd].
  pose proof (slot_colour_ok primary rep Hrep) as Hr.
  unfold COLOUR_END in Hr.
  destruct dflt as [d|].
  - pose proof (slot_colour_ok primary d (Hdf d eq_refl)) as Hc.
    unfold COLOUR_END in Hc.
    cbn [app existsb orb]. rewrite palette_no_default, orb_false_r.
    unfold is_default_entry. cbn [result].
    rewrite (byte_small (slot_colour primary d + COLOUR_END))
      by (unfold COLOUR_END; lia).
    assert (Hl : (COLOUR_END <=? slot_colour primary d + COLOUR_END) = true)
      by (apply Z.leb_le; lia).
    rewrite Hl. cbn [andb].
    destruct (HasBit (in_use rep) (if primary then 0 else 1)); cbn [negb].
    + rewrite (byte_small (slot_colour primary rep)) by lia.
      split; [|reflexivity].
      apply Z.eqb_neq. unfold COLOUR_END. lia.
    + rewrite (byte_small (slot_colour primary d + COLOUR_END))
        by (unfold COLOUR_END; lia).
      rewrite Z.eqb_refl.
      split; [reflexivity | discriminate].
  - cbn [app orb]. rewrite palette_no_default.
    split; [reflexivity|]. intros _. apply byte_small. lia.
Qed.

(** X7 -- while a dropdown button is enabled, its caption is the name of
    the entry its menu opens on: "default" exactly when the menu preselects
    its default entry, the name of the preselected colour otherwise. *)
Theorem SetStringParameters_preselection g w primary rep dflt :
  dropdown_liveries g w = Some (rep, dflt) ->
  livery_ok rep ->
  (forall d, dflt = Some d -> livery_ok d) ->
  (if livery_class w <? LC_GROUP_RAIL then sel w <> 0
   else sel w <> INVALID_GROUP) ->
  exists items s,
    ShowColourDropDownMenu g w primary = Some (items, s) /\
    SetStringParameters g w primary
    = Some (if preselects_default (items, s) then STR_COLOUR_DEFAULT
            else STR_COLOUR_DARK_BLUE_plus s).
Proof.
  intros Hd Hrep Hdf Hsel.
  destruct (ShowColourDropDownMenu g w primary) as [[items s]|] eqn:Em;
    [|unfold ShowColourDropDownMenu in Em; rewrite Hd in Em; discriminate].
  exists items, s. split; [reflexivity|].
  destruct (preselects_default_cases g w primary rep dflt items s
              Hd Hrep Hdf Em) as [Hp Hs].
  unfold dropdown_liveries in Hd. unfold SetStringParameters.
  destruct (Company_GetIfValid (companies_pool g) (window_number w))
    as [c|]; [|discriminate].
  destruct (livery_class w <? LC_GROUP_RAIL).
  - destruct (Z.eqb_spec (sel w) 0) as [|_]; [contradiction|]. cbn [negb].
    assert (Er : rep = Company.livery c (first_selected_scheme (sel w)))
      by congruence.
    assert (Ed : dflt = if negb (first_selected_scheme (sel w) =? LS_DEFAULT)
                        then Some (Company.livery c LS_DEFAULT) else None)
      by congruence.
    rewrite <- Er.
    destruct (first_selected_scheme (sel w) =? LS_DEFAULT);
      cbn [negb orb] in *; subst dflt.
    + rewrite Hp, Hs by exact Hp. reflexivity.
    + rewrite Hp in *.
      destruct (HasBit (in_use rep) (if primary then 0 else 1));
        cbn [negb] in *; [rewrite Hs by reflexivity|]; reflexivity.
  - destruct (Z.eqb_spec (sel w) INVALID_GROUP) as [|_]; [contradiction|].
    cbn [negb].
    destruct (Group_GetIfValid (groups_pool g) (sel w)) as [gr|];
      [|discriminate].
    assert (Er : rep = Group.livery gr /\ exists d, dflt = Some d).
    { revert Hd. destruct (Group.parent gr =? INVALID_GROUP).
      - intro Hd.
        split; [congruence | exists (Company.livery c LS_DEFAULT); congruence].
      - destruct (Group_GetIfValid (groups_pool g) (Group.parent gr))
          as [pg|]; [|discriminate].
        intro Hd. split; [congruence | exists (Group.livery pg); congruence]. }
    destruct Er as [<- [d ->]]. rewrite Hp in *.
    destruct (HasBit (in_use rep) (if primary then 0 else 1));
      cbn [negb] in *; [rewrite Hs by reflexivity|]; reflexivity.
Qed.

Lemma SetStringParameters_preselection_witness :
  dropdown_liveries game_tree win_rail
  = Some (mkLivery 1 2 9, Some (mkLivery 0 8 8)) /\
  livery_ok (mkLivery 1 2 9) /\
  (forall d, Some (mkLivery 0 8 8) = Some d -> livery_ok d) /\
  (if livery_class win_rail <? LC_GROUP_RAIL then sel win_rail <> 0
   else sel win_rail <> INVALID_GROUP) /\
  exists items s,
    ShowColourDropDownMenu game_tree win_rail false = Some (items, s) /\
    SetStringParameters game_tree win_rail false
    = Some (if preselects_default (items, s) then STR_COLOUR_DEFAULT
            else STR_COLOUR_DARK_BLUE_plus s).
Proof.
  assert (H1 : dropdown_liveries game_tree win_rail
               = Some (mkLivery 1 2 9, Some (mkLivery 0 8 8)))
    by reflexivity.
  assert (H2 : livery_ok (mkLivery 1 2 9))
    by (unfold livery_ok, COLOUR_END; cbn [colour1 colour2]; lia).
  assert (H3 : forall d, Some (mkLivery 0 8 8) = Some d -> livery_ok d).
  { intros d Hd. injection Hd as <-.
    unfold livery_ok, COLOUR_END; cbn [colour1 colour2]; lia. }
  assert (H4 : if livery_class win_rail <? LC_GROUP_RAIL
               then sel win_rail <> 0 else sel win_rail <> INVALID_GROUP)
    by (vm_compute; congruence).
  split; [exact H1|]. split; [exact H2|]. split; [exact H3|].
  split; [exact H4|].
  exact (SetStringParameters_preselection game_tree win_rail false _ _
           H1 H2 H3 H4).
Defined.

Lemma nth_error_zseq n : forall s k,
  (k < n)%nat -> nth_error (zseq s n) k = Some (s + Z.of_nat k).
Proof.
  induction n as [|n IH]; intros s k Hk; [lia|].
  destruct k as [|k]; cbn [zseq nth_error].
  - f_equal. lia.
  - rewrite IH by lia. f_equal. lia.
Qed.

Lemma OnDropdownSelect_colour g w primary index cmd :
  In cmd (snd (OnDropdownSelect g w primary index)) ->
  command_colour cmd
  = if COLOUR_END <=? index then INVALID_COLOUR else index.
Proof.
  unfold OnDropdownSelect.
  destruct (negb (window_number w =? _local_company g)); [intros []|].
  destruct (livery_class w <? LC_GROUP_RAIL); cbn [snd].
  - intro H. apply in_flat_map in H. destruct H as (scheme & _ & H).
    destruct (_ || _); [|destruct H].
    destruct H as [<-|[]]. reflexivity.
  - intros [<-|[]]. reflexivity.
Qed.

(** X8 -- every entry of the colour menu stands for the colour that
    choosing it commits.  The default entry is named "default", is drawn
    in the colour that is inherited, and commits the reserved
    "use default" colour; a palette entry is named and drawn as its
    colour and commits that colour. *)
Theorem dropdown_entry_commits g w primary rep dflt items s it :
  dropdown_liveries g w = Some (rep, dflt) ->
  (forall d, dflt = Some d -> livery_ok d) ->
  ShowColourDropDownMenu g w primary = Some (items, s) ->
  In it items ->
  let cmds := snd (OnDropdownSelect g w primary (result it)) in
  (is_default_entry it = true ->
   DropDownListColourItem_String it = Some STR_COLOUR_DEFAULT /\
   (exists d, dflt = Some d /\
              DropDownListColourItem_Draw it = slot_colour primary d) /\
   forall cmd, In cmd cmds -> command_colour cmd = INVALID_COLOUR) /\
  (is_default_entry it = false ->
   0 <= result it < COLOUR_END /\
   DropDownListColourItem_String it
   = Some (STR_COLOUR_DARK_BLUE_plus (result it)) /\
   DropDownListColourItem_Draw it = result it /\
   forall cmd, In cmd cmds -> command_colour cmd = result it).
Proof.
  intros Hd Hdf H Hin cmds.
  assert (Hc : forall cmd, In cmd cmds ->
                command_colour cmd
                = if COLOUR_END <=? result it then INVALID_COLOUR
                  else result it)
    by (intros cmd; apply OnDropdownSelect_colour).
  unfold ShowColourDropDownMenu in H. rewrite Hd in H.
  match type of H with
  | Some (?l, ?x) = _ => assert (Hi : items = l) by congruence
  end.
  clear H. subst items. apply in_app_or in Hin.
  unfold is_default_entry, DropDownListColourItem_String,
    DropDownListColourItem_Draw.
  destruct Hin as [Hin|Hin].
  - destruct dflt as [d|]; [|destruct Hin].
    destruct Hin as [<-|[]]. cbn [result] in *.
    pose proof (slot_colour_ok primary d (Hdf d eq_refl)) as Hs.
    unfold COLOUR_END in *.
    rewrite (byte_small (slot_colour primary d + 16)) in * by lia.
    destruct (Z.leb_spec 16 (slot_colour primary d + 16)); [|lia].
    split; [|discriminate]. intros _.
    split; [reflexivity|]. split; [|exact Hc].
    exists d. split; [reflexivity|].
    rewrite Z.rem_mod_nonneg by lia.
    replace (slot_colour primary d + 16) with (slot_colour primary d + 1 * 16)
      by lia.
    rewrite Z.mod_add by lia. apply Z.mod_small. lia.
  - apply in_map_iff in Hin. destruct Hin as (i & <- & Hi).
    apply zseq_In in Hi. cbn [result] in *. unfold COLOUR_END in *.
    change (Z.of_nat (Z.to_nat 16)) with 16 in Hi.
    destruct (Z.leb_spec 16 i); [lia|].
    split; [discriminate|]. intros _.
    split; [lia|]. split; [|split; [apply Z.rem_small; lia | exact Hc]].
    destruct (Z.ltb_spec i 0); [lia|].
    unfold _colour_dropdown. rewrite nth_error_map.
    rewrite nth_error_zseq by (unfold COLOUR_END; lia).
    cbn [option_map]. do 2 f_equal. lia.
Qed.

Lemma dropdown_entry_commits_witness :
  dropdown_liveries game_tree win_rail
  = Some (mkLivery 1 2 9, Some (mkLivery 0 8 8)) /\
  (forall d, Some (mkLivery 0 8 8) = Some d -> livery_ok d) /\
  ShowColourDropDownMenu game_tree win_rail true
  = Some (mkItem 24 false :: map (fun i => mkItem i false) (zseq 0 16), 2) /\
  In (mkItem 24 false)
     (mkItem 24 false :: map (fun i => mkItem i false) (zseq 0 16)) /\
  (is_default_entry (mkItem 24 false) = true ->
   DropDownListColourItem_String (mkItem 24 false) = Some STR_COLOUR_DEFAULT /\
   (exists d, Some (mkLivery 0 8 8) = Some d /\
              DropDownListColourItem_Draw (mkItem 24 false)
              = slot_colour true d) /\
   forall cmd,
     In cmd (snd (OnDropdownSelect game_tree win_rail true 24)) ->
     command_colour cmd = INVALID_COLOUR).
Proof.
  assert (H1 : dropdown_liveries game_tree win_rail
               = Some (mkLivery 1 2 9, Some (mkLivery 0 8 8)))
    by reflexivity.
  assert (H2 : forall d, Some (mkLivery 0 8 8) = Some d -> livery_ok d).
  { intros d Hd. injection Hd as <-.
    unfold livery_ok, COLOUR_END; cbn [colour1 colour2]; lia. }
  assert (H3 : ShowColourDropDownMenu game_tree win_rail true
               = Some (mkItem 24 false
                         :: map (fun i => mkItem i false) (zseq 0 16), 2))
    by reflexivity.
  assert (H4 : In (mkItem 24 false)
                  (mkItem 24 false
                     :: map (fun i => mkItem i false) (zseq 0 16)))
    by (left; reflexivity).
  split; [exact H1|]. split; [exact H2|]. split; [exact H3|].
  split; [exact H4|].
  exact (proj1 (dropdown_entry_commits game_tree win_rail true _ _ _ _ _
                  H1 H2 H3 H4)).
Defined.

Lemma filter_map_comm {A B} (p : B -> bool) (f : A -> B) l :
  filter p (map f l) = map f (filter (fun x => p (f x)) l).
Proof.
  induction l as [|x l IH]; [reflexivity|].
  cbn [map filter]. destruct (p (f x)); cbn [map]; now rewrite IH.
Qed.

Lemma filter_twice {A} (p q : A -> bool) l :
  filter q (filter p l) = filter (fun x => p x && q x) l.
Proof.
  induction l as [|x l IH]; [reflexivity|].
  cbn [filter]. destruct (p x); cbn [filter andb];
    [destruct (q x)|]; now rewrite IH.
Qed.

(** X9 -- in the window of the local company, a colour chosen on a scheme
    class is committed to the schemes of the rows DrawWidget highlights,
    top to bottom, and with ctrl held to the schemes of all rows; no
    scheme without a row is touched. *)
Theorem OnDropdownSelect_rows g w primary index :
  window_ok g w ->
  window_number w = _local_company g ->
  livery_class w < LC_GROUP_RAIL ->
  snd (OnDropdownSelect g w primary index)
  = map (fun r => CMD_SET_COMPANY_COLOUR
                    (fst r) primary
                    (if COLOUR_END <=? index then INVALID_COLOUR else index))
        (filter (fun r => snd r || _ctrl_pressed g)
                (DrawWidget_scheme_rows g w 0)).
Proof.
  intros Hw Hlocal Hlc. unfold OnDropdownSelect.
  rewrite Hlocal, Z.eqb_refl. cbn [negb].
  destruct (Z.ltb_spec (livery_class w) LC_GROUP_RAIL); [|lia]. cbn [snd].
  rewrite (flat_map_filter
             (fun scheme =>
                HasBit (sel w) scheme
                || (_ctrl_pressed g
                    && scheme_active g (livery_class w) scheme))
             (fun scheme =>
                CMD_SET_COMPANY_COLOUR scheme primary
                  (if COLOUR_END <=? index then INVALID_COLOUR else index))).
  unfold DrawWidget_scheme_rows. rewrite DrawWidget_scheme_loop_spec.
  change (Z.to_nat 0) with 0%nat. cbn [skipn].
  rewrite filter_map_comm, map_map. cbn [fst snd].
  rewrite filter_twice. f_equal. apply filter_ext_in. intros s Hs.
  destruct (HasBit (sel w) s) eqn:Hb.
  - destruct Hw as (_ & _ & _ & Hsel & _).
    destruct (Hsel Hlc s Hb) as [_ ->]. reflexivity.
  - cbn [orb]. apply andb_comm.
Qed.

Lemma OnDropdownSelect_rows_witness :
  window_ok game_tree_ctrl win_rail /\
  window_number win_rail = _local_company game_tree_ctrl /\
  livery_class win_rail < LC_GROUP_RAIL /\
  snd (OnDropdownSelect game_tree_ctrl win_rail true 5)
  = map (fun r => CMD_SET_COMPANY_COLOUR (fst r) true 5)
        [(1, true); (3, false)].
Proof.
  assert (H1 : window_ok game_tree_ctrl win_rail) by exact win_rail_ok.
  assert (H2 : window_number win_rail = _local_company game_tree_ctrl)
    by reflexivity.
  assert (H3 : livery_class win_rail < LC_GROUP_RAIL) by reflexivity.
  split; [exact H1|]. split; [exact H2|]. split; [exact H3|].
  exact (OnDropdownSelect_rows game_tree_ctrl win_rail true 5 H1 H2 H3).
Defined.

Lemma DrawWidget_schemes_spec g c w : forall l pos,
  DrawWidget_schemes g c w l pos
  = map (fun scheme =>
           draw_livery (STR_LIVERY_DEFAULT_plus scheme)
                       (Company.livery c scheme)
                       (HasBit (sel w) scheme) (scheme =? LS_DEFAULT) 0)
        (skipn (Z.to_nat pos) (filter (scheme_active g (livery_class w)) l)).
Proof.
  induction l as [|x l IH]; intros pos; cbn [DrawWidget_schemes filter].
  - now rewrite skipn_nil.
  - destruct (scheme_active g (livery_class w) x); [|apply IH].
    destruct (Z.ltb_spec 0 pos).
    + rewrite IH.
      replace (Z.to_nat pos) with (S (Z.to_nat (pos - 1))) by lia.
      reflexivity.
    + rewrite IH.
      replace (Z.to_nat pos) with 0%nat by lia.
      replace (Z.to_nat (pos - 1)) with 0%nat by lia.
      reflexivity.
Qed.

Lemma find_map {A B} (p : B -> bool) (f : A -> B) l :
  find p (map f l) = option_map f (find (fun x => p (f x)) l).
Proof.
  induction l as [|x l IH]; [reflexivity|].
  cbn [map find]. destruct (p (f x)); [reflexivity | exact IH].
Qed.

Lemma find_filter_sub {A} (p q : A -> bool) l :
  (forall x, In x l -> q x = true -> p x = true) ->
  find q (filter p l) = find q l.
Proof.
  induction l as [|x l IH]; intro H; [reflexivity|].
  cbn [filter find].
  destruct (q x) eqn:Eq.
  - rewrite (H x (or_introl eq_refl) Eq). cbn [find]. now rewrite Eq.
  - destruct (p x); cbn [find]; rewrite ?Eq;
      apply IH; intros y Hy; apply H; right; exact Hy.
Qed.

Lemma window_ok_no_selection g w :
  window_ok g w -> livery_class w < LC_GROUP_RAIL ->
  find (fun scheme => HasBit (sel w) scheme) schemes = None -> sel w = 0.
Proof.
  intros (_ & _ & _ & Hs & _) Hlc Hf. apply Z.bits_inj_0. intro k.
  destruct (Z.testbit (sel w) k) eqn:Hk; [|reflexivity].
  destruct (Hs Hlc k Hk) as [Hin _].
  pose proof (find_none _ _ Hf k Hin) as Hn. cbn beta in Hn.
  unfold HasBit in Hn. congruence.
Qed.

(** The caption against the matrix drawn from the top, with room for all
    the rows of a group class. *)
Lemma SetStringParameters_row_top g hsep w cap primary c rws :
  pool_ok (groups_pool g) -> window_ok g w ->
  Company_GetIfValid (companies_pool g) (window_number w) = Some c ->
  (LC_GROUP_RAIL <= livery_class w ->
   rows w <= cap /\
   (sel w = INVALID_GROUP \/ In (sel w) (map Group.index (groups w)))) ->
  DrawWidget g hsep w 0 cap = Some rws ->
  SetStringParameters g w primary
  = Some (match find row_sel rws with
          | Some r => if primary then row_pri r else row_sec r
          | None => STR_COLOUR_DEFAULT
          end).
Proof.
  intros Hok Hw Hc Hgrp Hd.
  destruct (Z.lt_ge_cases (livery_class w) LC_GROUP_RAIL) as [Hlc|Hlc].
  - unfold DrawWidget in Hd. unfold SetStringParameters. rewrite Hc in *.
    destruct (Z.ltb_spec (livery_class w) LC_GROUP_RAIL); [|lia].
    assert (Er : rws = DrawWidget_schemes g c w schemes 0) by congruence.
    subst rws. rewrite DrawWidget_schemes_spec.
    change (Z.to_nat 0) with 0%nat. cbn [skipn].
    rewrite find_map.
    rewrite find_filter_sub
      by (intros x _ Hx; apply Hw; [exact Hlc | exact Hx]).
    unfold first_selected_scheme.
    change (find (fun x => row_sel (draw_livery (STR_LIVERY_DEFAULT_plus x)
                                      (Company.livery c x)
                                      (HasBit (sel w) x) (x =? LS_DEFAULT) 0))
                 schemes)
      with (find (fun scheme => HasBit (sel w) scheme) schemes).
    destruct (find (fun scheme => HasBit (sel w) scheme) schemes)
      as [s|] eqn:Ef; cbn [option_map].
    + apply find_some in Ef. destruct Ef as [Hin Hb].
      apply schemes_In in Hin.
      destruct (Z.eqb_spec (sel w) 0) as [E0|_].
      { rewrite E0 in Hb. unfold HasBit in Hb.
        rewrite Z.testbit_0_l in Hb. discriminate. }
      destruct (Z.eqb_spec s LS_END); [lia|]. cbn [negb].
      destruct primary; cbn [row_pri row_sec draw_livery];
        unfold colour_text;
        destruct (_ || _); reflexivity.
    + rewrite (window_ok_no_selection g w Hw Hlc Ef). reflexivity.
  - destruct (Hgrp Hlc) as [Hcap Hsel].
    pose proof Hw as (Hrows & _ & Hlen & _ & Hg).
    destruct (Hg Hlc) as [Egroups _].
    assert (Hr : rows w = Z.of_nat (List.length (groups w))).
    { rewrite Hrows. unfold populated_rows.
      destruct (Z.ltb_spec (livery_class w) LC_GROUP_RAIL);
        [lia | reflexivity]. }
    destruct (DrawWidget_group_rows g hsep w 0 cap Hlc Hlen)
      as (rws' & E & Hl & Hspec); [lia | lia |].
    assert (rws' = rws) by congruence. subst rws'.
    unfold SetStringParameters. rewrite Hc.
    destruct (Z.ltb_spec (livery_class w) LC_GROUP_RAIL); [lia|].
    destruct (find row_sel rws) as [r|] eqn:Ef.
    + apply find_some in Ef. destruct Ef as [Hin Hb].
      apply In_nth_error in Hin. destruct Hin as [i Hi].
      destruct (Hspec i r Hi) as (gr & d & Hgr & _ & ->).
      cbn [row_sel draw_livery] in Hb. apply Z.eqb_eq in Hb.
      assert (Hing : In gr (map fst (flattened g (window_number w)
                                       (livery_class w - LC_GROUP_RAIL)))).
      { rewrite <- Egroups. eapply nth_error_In. exact Hgr. }
      pose proof (flattened_not_root g _ _ gr Hok Hing) as Hnr.
      pose proof (flattened_in_pool g _ _ gr Hok Hing) as Hpool.
      destruct (Z.eqb_spec (sel w) INVALID_GROUP) as [|_]; [congruence|].
      cbn [negb]. rewrite Hb.
      rewrite (pool_ok_find (groups_pool g) Hok gr Hpool).
      destruct primary; cbn [row_pri row_sec draw_livery];
        unfold colour_text; cbn [orb];
        destruct (HasBit _ _); reflexivity.
    + destruct Hsel as [->|Hin]; [reflexivity|].
      exfalso. apply in_map_iff in Hin. destruct Hin as (gr & Hidx & Hin).
      apply In_nth_error in Hin. destruct Hin as [i Hi].
      assert (Hlt : (i < List.length rws)%nat).
      { assert (i < List.length (groups w))%nat
          by (apply nth_error_Some; congruence). lia. }
      destruct (nth_error rws i) as [r|] eqn:Er;
        [|apply nth_error_None in Er; lia].
      destruct (Hspec i r Er) as (gr' & d & Hgr & _ & ->).
      change (Z.to_nat 0 + i)%nat with i in Hgr.
      assert (gr' = gr) by congruence. subst gr'.
      pose proof (find_none _ _ Ef _ (nth_error_In _ _ Er)) as Hn.
      cbn [row_sel draw_livery] in Hn. rewrite Hidx, Z.eqb_refl in Hn.
      discriminate.
Qed.

(** The rows of a group class at a scroll position are a window onto the
    rows drawn from the top. *)
Lemma DrawWidget_group_window g hsep w pos cap all :
  LC_GROUP_RAIL <= livery_class w ->
  List.length (groups w) = List.length (indents w) ->
  0 <= pos -> 0 <= cap ->
  DrawWidget g hsep w 0 (Z.of_nat (List.length (groups w))) = Some all ->
  DrawWidget g hsep w pos cap
  = Some (firstn (Z.to_nat cap) (skipn (Z.to_nat pos) all)).
Proof.
  intros Hlc Hlen Hpos Hcap Hall.
  destruct (DrawWidget_group_rows g hsep w 0
              (Z.of_nat (List.length (groups w))) Hlc Hlen)
    as (all' & Ea & La & Sa); [lia | lia |].
  assert (all' = all) by congruence. subst all'.
  destruct (DrawWidget_group_rows g hsep w pos cap Hlc Hlen Hpos Hcap)
    as (rws & Er & Lr & Sr).
  rewrite Er. f_equal. apply nth_error_ext. intro i.
  rewrite nth_error_firstn, nth_error_skipn.
  destruct (nth_error rws i) as [r|] eqn:Ei.
  - assert (Hi : (i < List.length rws)%nat)
      by (apply nth_error_Some; congruence).
    destruct (Nat.ltb_spec i (Z.to_nat cap)); [|lia].
    destruct (Sr i r Ei) as (gr & d & Hg & Hd & ->).
    destruct (nth_error all (Z.to_nat pos + i)) as [r'|] eqn:Ej;
      [|apply nth_error_None in Ej; lia].
    destruct (Sa _ r' Ej) as (gr' & d' & Hg' & Hd' & ->).
    change (Z.to_nat 0 + (Z.to_nat pos + i))%nat
      with (Z.to_nat pos + i)%nat in Hg', Hd'.
    congruence.
  - apply nth_error_None in Ei.
    destruct (Nat.ltb_spec i (Z.to_nat cap)); [|reflexivity].
    symmetry. apply nth_error_None. lia.
Qed.

(** X10 -- for a window in order whose selection on a group class is no
    group or a listed group: the rows DrawWidget draws at any scroll
    position and capacity are a window onto the rows of the whole matrix
    (drawn from the top with room for all), and the caption of a colour
    button is the colour name written in its column on the first
    highlighted row of the whole matrix, whether or not that row is
    scrolled into view, and "default" when no row of the matrix is
    highlighted. *)
Theorem SetStringParameters_row g hsep w primary c :
  pool_ok (groups_pool g) -> window_ok g w -> sel_listed w ->
  Company_GetIfValid (companies_pool g) (window_number w) = Some c ->
  exists all,
    DrawWidget g hsep w 0 (rows w) = Some all /\
    (forall pos cap, 0 <= pos -> 0 <= cap ->
       DrawWidget g hsep w pos cap
       = Some (if livery_class w <? LC_GROUP_RAIL
               then skipn (Z.to_nat pos) all
               else firstn (Z.to_nat cap) (skipn (Z.to_nat pos) all))) /\
    SetStringParameters g w primary
    = Some (match find row_sel all with
            | Some r => if primary then row_pri r else row_sec r
            | None => STR_COLOUR_DEFAULT
            end).
Proof.
  intros Hok Hw Hs Hc.
  assert (Hgrp : LC_GROUP_RAIL <= livery_class w ->
                 rows w <= rows w /\
                 (sel w = INVALID_GROUP \/
                  In (sel w) (map Group.index (groups w)))).
  { intro Hlc. split; [lia|].
    destruct (Hs Hlc) as [E|(gr & Hin & Hi)]; [now left | right].
    rewrite <- Hi. apply in_map. exact Hin. }
  assert (Hall : exists all, DrawWidget g hsep w 0 (rows w) = Some all).
  { unfold DrawWidget. rewrite Hc.
    destruct (Z.ltb_spec (livery_class w) LC_GROUP_RAIL) as [Hlc|Hlc];
      [eexists; reflexivity|].
    destruct Hw as (Hr & _ & Hlen & _).
    unfold populated_rows in Hr.
    destruct (Z.ltb_spec (livery_class w) LC_GROUP_RAIL); [lia|].
    destruct (DrawWidget_group_rows g hsep w 0 (rows w) Hlc Hlen)
      as (rws & E & _); [lia | lia |].
    unfold DrawWidget in E.
    destruct (Z.ltb_spec (livery_class w) LC_GROUP_RAIL); [lia|].
    exists rws. exact E. }
  destruct Hall as (all & Hall). exists all. split; [exact Hall|].
  split;
    [|exact (SetStringParameters_row_top g hsep w (rows w) primary c all
               Hok Hw Hc Hgrp Hall)].
  intros pos cap Hpos Hcap.
  destruct (Z.ltb_spec (livery_class w) LC_GROUP_RAIL) as [Hlc|Hlc].
  - unfold DrawWidget in *. rewrite Hc in *.
    destruct (Z.ltb_spec (livery_class w) LC_GROUP_RAIL); [|lia].
    assert (Ea : all = DrawWidget_schemes g c w schemes 0) by congruence.
    subst all. rewrite !DrawWidget_schemes_spec.
    change (Z.to_nat 0) with 0%nat. cbn [skipn].
    now rewrite skipn_map.
  - pose proof Hw as (Hr & _ & Hlen & _).
    unfold populated_rows in Hr.
    destruct (Z.ltb_spec (livery_class w) LC_GROUP_RAIL); [lia|].
    rewrite Hr in Hall.
    exact (DrawWidget_group_window g hsep w pos cap all Hlc Hlen Hpos Hcap
             Hall).
Qed.

Lemma SetStringParameters_row_witness :
  pool_ok (groups_pool game_tree) /\ window_ok game_tree win_tree /\
  sel_listed win_tree /\
  Company_GetIfValid (companies_pool game_tree) (window_number win_tree)
  = Some blue /\
  exists all,
    DrawWidget game_tree 10 win_tree 0 (rows win_tree) = Some all /\
    DrawWidget game_tree 10 win_tree 1 1 = Some (firstn 1 (skipn 1 all)) /\
    SetStringParameters game_tree win_tree true
    = Some (match find row_sel all with
            | Some r => row_pri r
            | None => STR_COLOUR_DEFAULT
            end).
Proof.
  assert (H1 : sel_listed win_tree).
  { intros _. right. exists group_alpha. split; [simpl; tauto | reflexivity]. }
  assert (H2 : Company_GetIfValid (companies_pool game_tree)
                                  (window_number win_tree) = Some blue)
    by reflexivity.
  split; [exact game_tree_pool_ok|]. split; [exact win_tree_ok|].
  split; [exact H1|]. split; [exact H2|].
  destruct (SetStringParameters_row game_tree 10 win_tree true blue
              game_tree_pool_ok win_tree_ok H1 H2) as (all & Ha & Hwin & Hcap).
  exists all. split; [exact Ha|]. split; [|exact Hcap].
  exact (Hwin 1 1 ltac:(lia) ltac:(lia)).
Defined.

(** ** Opening the window *)

Lemma rebuild_SetRows_owner g owner w :
  pool_ok (groups_pool g) -> LC_GROUP_RAIL <= livery_class w ->
  exists w1,
    BuildGroupList g owner (set_need_rebuild w true) = Some w1 /\
    set_window_number (SetRows g w1) owner
    = set_sel (group_class_window g (set_window_number w owner)
                                  (livery_class w)) (sel w) /\
    window_number (SetRows g w1) = window_number w.
Proof.
  intros Hok Hlc.
  rewrite BuildGroupList_rebuild; [| exact Hok | reflexivity | exact Hlc].
  eexists. split; [reflexivity|].
  unfold SetRows, group_class_window. window_fields.
  destruct (Z.ltb_spec (livery_class w) LC_GROUP_RAIL); [lia|].
  window_fields. rewrite length_map. split; reflexivity.
Qed.

Lemma selected_row_spec (gs : list Group.t) s : forall n s0,
  0 <= s0 -> s0 + Z.of_nat n <= Z.of_nat (List.length gs) ->
  exists r,
    selected_row gs s (zseq s0 n) = Some r /\
    match r with
    | Some i => exists gr, nth_error gs (Z.to_nat i) = Some gr /\
                           Group.index gr = s
    | None => forall i gr, (Z.to_nat s0 <= i < Z.to_nat s0 + n)%nat ->
                           nth_error gs i = Some gr -> Group.index gr <> s
    end.
Proof.
  induction n as [|n IH]; intros s0 H0 Hle.
  - exists None. split; [reflexivity|]. intros; lia.
  - cbn [zseq selected_row].
    destruct (nth_error gs (Z.to_nat s0)) as [gr|] eqn:E;
      [|apply nth_error_None in E; lia].
    destruct (Z.eqb_spec (Group.index gr) s) as [Hs|Hs].
    + exists (Some s0). split; [reflexivity|]. exists gr. auto.
    + destruct (IH (s0 + 1)) as (r & Er & Hr); [lia | lia |].
      exists r. split; [exact Er|].
      destruct r as [i|]; [exact Hr|].
      intros i gr' Hi Hg.
      destruct (Nat.eq_dec i (Z.to_nat s0)) as [->|Hne].
      * congruence.
      * apply (Hr i gr'); [lia | exact Hg].
Qed.

Lemma group_livery_class_Some vt :
  VEH_TRAIN <= vt <= VEH_AIRCRAFT ->
  group_livery_class vt = Some (LC_GROUP_RAIL + vt).
Proof.
  unfold VEH_TRAIN, VEH_AIRCRAFT, group_livery_class. intro H.
  assert (Hc : vt = 0 \/ vt = 1 \/ vt = 2 \/ vt = 3) by lia.
  destruct Hc as [-> | [-> | [-> | ->]]]; reflexivity.
Qed.

Lemma flattened_listed g owner vtype gr :
  pool_ok (groups_pool g) ->
  (In gr (map fst (flattened g owner vtype)) <->
   In gr (staging g owner vtype) /\
   attached (staging g owner vtype) gr = true).
Proof.
  intro Hok.
  assert (Hs : pool_ok (staging g owner vtype))
    by (apply pool_ok_filter; exact Hok).
  rewrite (flattened_groups_In g owner vtype gr Hok). split.
  - intros [k Hk]. split; [eapply below_In; exact Hk|].
    eapply below_attached; eassumption.
  - intros [Hin Ha]. apply attached_below; assumption.
Qed.

Lemma SetSelectedGroup_spec g company group w gr :
  pool_ok (groups_pool g) ->
  In gr (groups_pool g) -> Group.index gr = group ->
  VEH_TRAIN <= Group.vehicle_type gr <= VEH_AIRCRAFT ->
  exists w' r,
    SetSelectedGroup g company group w = Some (w', r) /\
    livery_class w' = LC_GROUP_RAIL + Group.vehicle_type gr /\
    sel w' = group /\
    groups w' = map fst (flattened g company (Group.vehicle_type gr)) /\
    indents w' = map snd (flattened g company (Group.vehicle_type gr)) /\
    rows w' = Z.of_nat (List.length (groups w')) /\
    need_rebuild w' = false /\
    window_number w' = window_number w /\
    match r with
    | Some i => exists gr', nth_error (groups w') (Z.to_nat i) = Some gr' /\
                            Group.index gr' = group
    | None => forall i gr', nth_error (groups w') i = Some gr' ->
                            Group.index gr' <> group
    end.
Proof.
  intros Hok Hin Hidx Hvt. subst group. unfold SetSelectedGroup.
  rewrite (pool_ok_find (groups_pool g) Hok gr Hin).
  rewrite (group_livery_class_Some _ Hvt).
  set (lc := LC_GROUP_RAIL + Group.vehicle_type gr).
  set (w0 := set_sel (set_livery_class w lc) (Group.index gr)).
  assert (Hlc : LC_GROUP_RAIL <= livery_class w0)
    by (subst w0 lc; window_fields; unfold VEH_TRAIN in Hvt; lia).
  destruct (rebuild_SetRows_owner g company w0 Hok Hlc)
    as (w1 & E1 & E2 & E3).
  rewrite E1.
  set (w2 := SetRows g w1) in *.
  assert (F : sel w2 = Group.index gr /\ livery_class w2 = lc /\
              groups w2 = map fst (flattened g company (lc - LC_GROUP_RAIL)) /\
              indents w2 = map snd (flattened g company (lc - LC_GROUP_RAIL)) /\
              rows w2 = Z.of_nat (List.length (groups w2)) /\
              need_rebuild w2 = false).
  { change (sel w2) with (sel (set_window_number w2 company)).
    change (livery_class w2)
      with (livery_class (set_window_number w2 company)).
    change (groups w2) with (groups (set_window_number w2 company)).
    change (indents w2) with (indents (set_window_number w2 company)).
    change (rows w2) with (rows (set_window_number w2 company)).
    change (need_rebuild w2)
      with (need_rebuild (set_window_number w2 company)).
    rewrite E2. subst w0. window_fields. rewrite length_map.
    repeat split; reflexivity. }
  destruct F as (Fs & Fc & Fg & Fi & Fr & Fn).
  replace (lc - LC_GROUP_RAIL) with (Group.vehicle_type gr) in * by
    (subst lc; lia).
  destruct (selected_row_spec (groups w2) (sel w2) (Z.to_nat (rows w2)) 0)
    as (r & Er & Hr); [lia | lia |].
  rewrite Er. exists w2, r. split; [reflexivity|].
  split; [exact Fc|]. split; [exact Fs|]. split; [exact Fg|].
  split; [exact Fi|]. split; [exact Fr|]. split; [exact Fn|].
  split; [exact E3|].
  rewrite Fs in Hr. destruct r as [i|]; [exact Hr|].
  intros i gr' Hi. apply (Hr i gr'); [|exact Hi].
  assert (i < List.length (groups w2))%nat
    by (apply nth_error_Some; congruence).
  lia.
Qed.

(** X11 -- SetSelectedGroup, for a group of the pool with one of the four
    vehicle types: the window shows the group class of the vehicle type
    of the group with the group selected; the group is one of the rows
    exactly when it belongs to the company and its chain of parents ends
    at the root, and then the row found for the scroll bar is its row. *)
Theorem SetSelectedGroup_selects g company group w gr :
  pool_ok (groups_pool g) ->
  In gr (groups_pool g) -> Group.index gr = group ->
  VEH_TRAIN <= Group.vehicle_type gr <= VEH_AIRCRAFT ->
  exists w' r,
    SetSelectedGroup g company group w = Some (w', r) /\
    livery_class w' = LC_GROUP_RAIL + Group.vehicle_type gr /\
    sel w' = group /\
    groups w' = map fst (flattened g company (Group.vehicle_type gr)) /\
    indents w' = map snd (flattened g company (Group.vehicle_type gr)) /\
    rows w' = Z.of_nat (List.length (groups w')) /\
    need_rebuild w' = false /\
    window_number w' = window_number w /\
    (In gr (groups w') <->
     Group.owner gr = company /\
     attached (staging g company (Group.vehicle_type gr)) gr = true) /\
    match r with
    | Some i => nth_error (groups w') (Z.to_nat i) = Some gr
    | None => ~ In gr (groups w')
    end.
Proof.
  intros Hok Hin Hidx Hvt.
  destruct (SetSelectedGroup_spec g company group w gr Hok Hin Hidx Hvt)
    as (w' & r & E & Hc & Hs & Hg & Hi & Hr & Hn & Hw & Hrow).
  exists w', r. split; [exact E|]. split; [exact Hc|]. split; [exact Hs|].
  split; [exact Hg|]. split; [exact Hi|]. split; [exact Hr|].
  split; [exact Hn|]. split; [exact Hw|].
  split.
  - rewrite Hg, (flattened_listed g company _ gr Hok), staging_In. tauto.
  - destruct r as [i|].
    + destruct Hrow as (gr' & Hg' & Hi').
      assert (gr' = gr); [|congruence].
      apply (pool_ok_index_inj (groups_pool g) Hok); [|exact Hin|congruence].
      apply (flattened_in_pool g company (Group.vehicle_type gr) gr' Hok).
      rewrite <- Hg. eapply nth_error_In. exact Hg'.
    + intro Hl. apply In_nth_error in Hl. destruct Hl as [i Hi'].
      exact (Hrow i gr Hi' Hidx).
Qed.

Lemma SetSelectedGroup_selects_witness :
  pool_ok (groups_pool game_tree) /\
  In group_mid (groups_pool game_tree) /\ Group.index group_mid = 2 /\
  VEH_TRAIN <= Group.vehicle_type group_mid <= VEH_AIRCRAFT /\
  exists w' r,
    SetSelectedGroup game_tree 0 2 win_general = Some (w', r) /\
    sel w' = 2 /\
    match r with
    | Some i => nth_error (groups w') (Z.to_nat i) = Some group_mid
    | None => ~ In group_mid (groups w')
    end.
Proof.
  assert (H1 : In group_mid (groups_pool game_tree))
    by (right; right; left; reflexivity).
  assert (H2 : Group.index group_mid = 2) by reflexivity.
  assert (H3 : VEH_TRAIN <= Group.vehicle_type group_mid <= VEH_AIRCRAFT)
    by (vm_compute; split; congruence).
  split; [exact game_tree_pool_ok|]. split; [exact H1|]. split; [exact H2|].
  split; [exact H3|].
  destruct (SetSelectedGroup_selects game_tree 0 2 win_general group_mid
              game_tree_pool_ok H1 H2 H3)
    as (w' & r & E & _ & Hs & _ & _ & _ & _ & _ & _ & Hr).
  exists w', r. split; [exact E|]. split; [exact Hs | exact Hr].
Defined.

Lemma BuildGroupList_fields g owner w :
  pool_ok (groups_pool g) ->
  exists w1,
    BuildGroupList g owner w = Some w1 /\
    need_rebuild w1 = false /\ sel w1 = sel w /\
    livery_class w1 = livery_class w /\ rows w1 = rows w /\
    window_number w1 = window_number w /\
    (livery_class w < LC_GROUP_RAIL ->
     (groups w1 = groups w /\ indents w1 = indents w) \/
     (groups w1 = [] /\ indents w1 = [])).
Proof.
  intro Hok. destruct (need_rebuild w) eqn:Hn.
  - destruct (Z.lt_ge_cases (livery_class w) LC_GROUP_RAIL) as [Hlc|Hlc].
    + unfold BuildGroupList. rewrite Hn. cbn [negb].
      change (livery_class (clear_lists w)) with (livery_class w).
      destruct (Z.leb_spec LC_GROUP_RAIL (livery_class w)); [lia|].
      eexists. split; [reflexivity|]. window_fields.
      repeat (split; [reflexivity|]). intros _. right. split; reflexivity.
    + rewrite BuildGroupList_rebuild by assumption.
      eexists. split; [reflexivity|]. window_fields.
      repeat (split; [reflexivity|]). intro; lia.
  - rewrite BuildGroupList_clean by exact Hn.
    exists w. split; [reflexivity|]. split; [exact Hn|].
    repeat (split; [reflexivity|]). intros _. left. split; reflexivity.
Qed.

Lemma scheme_window_ok g w :
  livery_class w < LC_GROUP_RAIL ->
  need_rebuild w = false ->
  List.length (groups w) = List.length (indents w) ->
  (forall k, HasBit (sel w) k = true ->
             In k schemes /\ scheme_active g (livery_class w) k = true) ->
  window_ok g (SetRows g w).
Proof.
  intros Hlc Hn Hl Hs.
  destruct (SetRows_fields g w) as (Es & Eg & Ei & Ec).
  destruct (SetRows_flags g w) as (En & _).
  unfold window_ok. rewrite En, Eg, Ei, Ec, Es.
  split; [apply SetRows_populated|]. split; [exact Hn|].
  split; [exact Hl|]. split; [intros _; exact Hs | intro; lia].
Qed.

Lemma window_ok_set_window_number g w n :
  window_ok g w -> livery_class w < LC_GROUP_RAIL ->
  window_ok g (set_window_number w n).
Proof.
  intros (H1 & H2 & H3 & H4 & _) Hlc. unfold window_ok.
  split; [exact H1|]. split; [exact H2|]. split; [exact H3|].
  split; [exact H4|]. window_fields. intro; lia.
Qed.

Lemma group_window_ok g w vt :
  livery_class w = LC_GROUP_RAIL + vt -> 0 <= vt ->
  groups w = map fst (flattened g (window_number w) vt) ->
  indents w = map snd (flattened g (window_number w) vt) ->
  rows w = Z.of_nat (List.length (groups w)) ->
  need_rebuild w = false ->
  window_ok g w.
Proof.
  intros Hc Hvt Hg Hi Hr Hn. unfold window_ok, populated_rows.
  destruct (Z.ltb_spec (livery_class w) LC_GROUP_RAIL); [lia|].
  split; [exact Hr|]. split; [exact Hn|].
  split; [rewrite Hg, Hi, !length_map; reflexivity|].
  split; [intro; lia|]. intros _.
  replace (livery_class w - LC_GROUP_RAIL) with vt by lia. auto.
Qed.

Lemma OnInvalidateData_keeps g data w :
  pool_ok (groups_pool g) -> 0 <= data ->
  Group_IsValidID (groups_pool g) (sel w) = true ->
  exists w',
    OnInvalidateData g data true w = Some w' /\
    livery_class w' = livery_class w /\ sel w' = sel w.
Proof.
  intros Hok Hd Hv. unfold OnInvalidateData. cbn [negb].
  destruct (Z.eqb_spec data (-1)); [lia|]. cbn [negb].
  destruct (Z.eqb_spec (livery_class w) (data + LC_GROUP_RAIL)) as [Hc|Hc];
    [|exists w; auto].
  assert (Hlc : LC_GROUP_RAIL <= livery_class w) by lia.
  destruct (rebuild_SetRows g w Hok Hlc) as (w1 & E1 & E2).
  rewrite E1, E2. cbn [sel set_sel]. rewrite Hv. cbn [negb].
  eexists. split; [reflexivity|]. split; reflexivity.
Qed.

(** X12 -- ShowCompanyLiveryWindow with a well-formed group pool and the
    default scheme in use.  Without a group the window of the company is
    left as it is if one is open, and a new one comes up on the general
    class with the default scheme selected; with a group of the pool the
    window shows the group class of its vehicle type with the group
    selected.  The window is in order either way. *)
Theorem ShowCompanyLiveryWindow_opens g company group existing dirty :
  pool_ok (groups_pool g) ->
  HasBit (used_liveries g) LS_DEFAULT = true ->
  (forall w, existing = Some w -> window_ok g w /\ window_number w = company) ->
  (group = INVALID_GROUP \/
   exists gr, In gr (groups_pool g) /\ Group.index gr = group /\
              VEH_TRAIN <= Group.vehicle_type gr <= VEH_AIRCRAFT) ->
  exists w',
    ShowCompanyLiveryWindow g company group existing dirty = Some w' /\
    window_ok g w' /\ window_number w' = company /\
    (group = INVALID_GROUP ->
     match existing with
     | Some w => w' = w
     | None => livery_class w' = LC_OTHER /\ sel w' = 1
     end) /\
    (forall gr, In gr (groups_pool g) -> Group.index gr = group ->
       livery_class w' = LC_GROUP_RAIL + Group.vehicle_type gr /\
       sel w' = group).
Proof.
  intros Hok Hdef Hex Hgrp.
  assert (Hsame : forall gr gr', In gr (groups_pool g) ->
            In gr' (groups_pool g) -> Group.index gr = group ->
            Group.index gr' = group -> gr' = gr).
  { intros gr gr' H1 H2 H3 H4.
    apply (pool_ok_index_inj (groups_pool g) Hok); congruence. }
  assert (Hsel : forall w gr,
            In gr (groups_pool g) -> Group.index gr = group ->
            VEH_TRAIN <= Group.vehicle_type gr <= VEH_AIRCRAFT ->
            exists w' r,
              SetSelectedGroup g company group w = Some (w', r) /\
              window_ok g (set_window_number w' company) /\
              window_number w' = window_number w /\
              livery_class w' = LC_GROUP_RAIL + Group.vehicle_type gr /\
              sel w' = group).
  { intros w gr Hin Hidx Hvt.
    destruct (SetSelectedGroup_spec g company group w gr Hok Hin Hidx Hvt)
      as (w' & r & E & Hc & Hs & Hg & Hi & Hr & Hn & Hw & _).
    exists w', r. split; [exact E|]. split; [|auto].
    apply (group_window_ok g _ (Group.vehicle_type gr)); window_fields;
      try assumption. unfold VEH_TRAIN in Hvt. lia. }
  unfold ShowCompanyLiveryWindow.
  destruct existing as [w|].
  - destruct (Hex w eq_refl) as [Hw Hnum].
    destruct Hgrp as [->|(gr & Hin & Hidx & Hvt)].
    + rewrite Z.eqb_refl. cbn [negb]. exists w.
      split; [reflexivity|]. split; [exact Hw|]. split; [exact Hnum|].
      split; [reflexivity|].
      intros gr Hin Hidx. exfalso.
      exact (pool_ok_not_root (groups_pool g) Hok gr Hin Hidx).
    + assert (Hne : group <> INVALID_GROUP).
      { rewrite <- Hidx. apply (pool_ok_not_root (groups_pool g) Hok gr Hin). }
      destruct (Z.eqb_spec group INVALID_GROUP); [contradiction|]. cbn [negb].
      destruct (Hsel w gr Hin Hidx Hvt) as (w' & r & E & Hok' & Hn' & Hc & Hs).
      rewrite E. exists w'. split; [reflexivity|].
      assert (Hw' : set_window_number w' company = w').
      { destruct w' as [s0 c0 r0 g0 i0 n0 m0].
        unfold set_window_number. window_fields.
        change (m0 = window_number w) in Hn'. congruence. }
      rewrite Hw' in Hok'.
      split; [exact Hok'|]. split; [congruence|].
      split; [intro; contradiction|].
      intros gr' Hin' Hidx'.
      rewrite (Hsame gr gr' Hin Hin' Hidx Hidx'). auto.
  - unfold SelectCompanyLiveryWindow_new.
    destruct Hgrp as [->|(gr & Hin & Hidx & Hvt)].
    + rewrite Z.eqb_refl.
      set (w0 := set_sel (set_livery_class (fresh_window dirty) LC_OTHER) 1).
      assert (Hlc0 : livery_class w0 < LC_GROUP_RAIL) by reflexivity.
      destruct (BuildGroupList_fields g company w0 Hok)
        as (w1 & E1 & Hn & Hs & Hc & _ & _ & Hl).
      rewrite E1.
      assert (Hw1 : window_ok g (SetRows g w1)).
      { apply scheme_window_ok.
        - rewrite Hc. exact Hlc0.
        - exact Hn.
        - destruct (Hl Hlc0) as [[-> ->]|[-> ->]]; reflexivity.
        - rewrite Hs, Hc. intros k Hk.
          change (sel w0) with (Z.shiftl 1 0) in Hk.
          apply HasBit_one_shiftl in Hk. subst k.
          split; [apply schemes_In; unfold LS_END; lia|].
          unfold scheme_active. change LS_DEFAULT with 0 in Hdef.
          rewrite Hdef. reflexivity. }
      destruct (SetRows_fields g w1) as (Es & _ & _ & Ec).
      set (w2 := set_window_number (SetRows g w1) company).
      assert (Hw2 : window_ok g w2).
      { apply window_ok_set_window_number; [exact Hw1|].
        rewrite Ec, Hc. exact Hlc0. }
      assert (Hc2 : livery_class w2 = LC_OTHER)
        by (subst w2; window_fields; rewrite Ec, Hc; reflexivity).
      assert (Hs2 : sel w2 = 1)
        by (subst w2; window_fields; rewrite Es, Hs; reflexivity).
      assert (E2 : OnInvalidateData g 1 true w2 = Some w2).
      { unfold OnInvalidateData. cbn [negb].
        change (1 =? -1) with false. cbn [negb]. rewrite Hc2. reflexivity. }
      rewrite E2. exists w2. split; [reflexivity|].
      split; [exact Hw2|]. split; [reflexivity|].
      split; [intros _; split; assumption|].
      intros gr Hin Hidx. exfalso.
      exact (pool_ok_not_root (groups_pool g) Hok gr Hin Hidx).
    + assert (Hne : group <> INVALID_GROUP).
      { rewrite <- Hidx. apply (pool_ok_not_root (groups_pool g) Hok gr Hin). }
      destruct (Z.eqb_spec group INVALID_GROUP); [contradiction|].
      destruct (Hsel (fresh_window dirty) gr Hin Hidx Hvt)
        as (w' & r & E & Hok' & _ & Hc & Hs).
      rewrite E.
      set (w2 := set_window_number w' company) in *.
      assert (Hv : Group_IsValidID (groups_pool g) (sel w2) = true).
      { apply Group_IsValidID_In. exists gr. split; [exact Hin|].
        subst w2. window_fields. congruence. }
      destruct (OnInvalidateData_keeps g 1 w2 Hok ltac:(lia) Hv)
        as (w3 & E3 & Hc3 & Hs3).
      destruct (OnInvalidateData_window_ok g 1 true w2 Hok Hok' ltac:(lia))
        as (w3' & E3' & Hok3 & Hn3).
      assert (w3' = w3) by congruence. subst w3'.
      rewrite E3. exists w3. split; [reflexivity|].
      split; [exact Hok3|]. split; [rewrite Hn3; reflexivity|].
      split; [intro; contradiction|].
      intros gr' Hin' Hidx'.
      rewrite (Hsame gr gr' Hin Hin' Hidx Hidx').
      rewrite Hc3, Hs3. subst w2. window_fields. auto.
Qed.

Lemma ShowCompanyLiveryWindow_opens_witness :
  pool_ok (groups_pool game_tree) /\
  HasBit (used_liveries game_tree) LS_DEFAULT = true /\
  (forall w, @None SelectCompanyLiveryWindow = Some w ->
             window_ok game_tree w /\ window_number w = 0) /\
  (2 = INVALID_GROUP \/
   exists gr, In gr (groups_pool game_tree) /\ Group.index gr = 2 /\
              VEH_TRAIN <= Group.vehicle_type gr <= VEH_AIRCRAFT) /\
  exists w',
    ShowCompanyLiveryWindow game_tree 0 2 None true = Some w' /\
    window_ok game_tree w' /\ window_number w' = 0.
Proof.
  assert (H1 : HasBit (used_liveries game_tree) LS_DEFAULT = true)
    by reflexivity.
  assert (H2 : forall w, @None SelectCompanyLiveryWindow = Some w ->
                         window_ok game_tree w /\ window_number w = 0)
    by (intros w Hw; discriminate Hw).
  assert (H3 : 2 = INVALID_GROUP \/
               exists gr, In gr (groups_pool game_tree) /\
                          Group.index gr = 2 /\
                          VEH_TRAIN <= Group.vehicle_type gr <= VEH_AIRCRAFT).
  { right. exists group_mid. split; [right; right; left; reflexivity|].
    split; [reflexivity | vm_compute; split; congruence]. }
  split; [exact game_tree_pool_ok|]. split; [exact H1|].
  split; [exact H2|]. split; [exact H3|].
  destruct (ShowCompanyLiveryWindow_opens game_tree 0 2 None true
              game_tree_pool_ok H1 H2 H3) as (w' & E & Hw & Hn & _).
  exists w'. split; [exact E|]. split; [exact Hw | exact Hn].
Defined.

(** ** Invalidation after a change of the liveries in use *)

(** X13 -- invalidation with -1, on a scheme class, for a window that was
    in order for the game [g0] before the set of liveries in use changed
    to the one of [g].  Where liveries are shown, every scheme left in the
    selection is in use and of the class shown, and the class shown has a
    scheme in use unless it is the general class; where they are not
    shown, the window is on the general class afterwards. *)
Theorem OnInvalidateData_used_liveries g0 g w :
  window_ok g0 w -> livery_class w < LC_GROUP_RAIL ->
  exists w',
    OnInvalidateData g (-1) true w = Some w' /\
    (livery_class w' = livery_class w \/ livery_class w' = LC_OTHER) /\
    (liveries_shown g (window_number w) = true ->
     (forall k, HasBit (sel w') k = true ->
        In k schemes /\ scheme_active g (livery_class w') k = true) /\
     (livery_class w' <> LC_OTHER ->
      exists k, In k schemes /\ scheme_active g (livery_class w') k = true)) /\
    (liveries_shown g (window_number w) = false ->
     livery_class w' = LC_OTHER).
Proof.
  intros (_ & _ & _ & Hs0 & _) Hlc. specialize (Hs0 Hlc).
  unfold OnInvalidateData. cbn [negb].
  change (-1 =? -1) with true. cbn [negb].
  destruct (Z.leb_spec LC_GROUP_RAIL (livery_class w)) as [|_]; [lia|].
  rewrite orb_false_r.
  assert (Hsw : forall w1,
            exists w',
              OnClick g (WID_SCL_CLASS LC_OTHER) 0 w1 = Some w' /\
              livery_class w' = LC_OTHER /\
              forall k, HasBit (sel w') k = true ->
                In k schemes /\ scheme_active g (livery_class w') k = true).
  { intro w1.
    rewrite OnClick_class_scheme_eq by reflexivity.
    eexists. split; [reflexivity|].
    set (w2 := set_sel _ _).
    destruct (SetRows_fields g w2) as (Es & _ & _ & Ec).
    rewrite Es, Ec. split; [reflexivity|].
    intros k Hk. subst w2. cbn [sel set_sel] in Hk.
    change (livery_class (set_sel (set_livery_class w1 LC_OTHER) _))
      with LC_OTHER.
    destruct (find (scheme_active g LC_OTHER) schemes) as [s|] eqn:E.
    - apply HasBit_one_shiftl in Hk. subst k. apply find_some in E. exact E.
    - unfold HasBit in Hk. rewrite Z.testbit_0_l in Hk. discriminate. }
  destruct (liveries_shown g (window_number w)).
  - pose proof (invalidate_fold g schemes
                  ((livery_class w =? LC_OTHER) || false) w) as F.
    cbv zeta in F. rewrite orb_false_r in F.
    destruct (fold_left _ _ _) as [valid w1]. cbn [fst snd] in F.
    destruct F as (F1 & _ & F3 & F4).
    assert (Hc1 : livery_class w1 = livery_class w)
      by (rewrite F1; reflexivity).
    destruct valid; cbn [negb].
    + exists w1. split; [reflexivity|]. split; [left; exact Hc1|].
      split; [|discriminate]. intros _. rewrite Hc1. split.
      * intros k Hk. destruct (F3 k Hk) as [Ha Hb].
        destruct (Hs0 k Ha) as [Hin Hact]. split; [exact Hin|].
        unfold scheme_active in *. apply andb_true_iff in Hact.
        destruct Hact as [-> _]. rewrite (Hb Hlc Hin). reflexivity.
      * intro Hne. symmetry in F4. apply orb_true_iff in F4.
        destruct F4 as [F4|F4]; [apply Z.eqb_eq in F4; congruence|].
        apply existsb_exists in F4. destruct F4 as (k & Hin & Hk).
        exists k. split; [exact Hin|]. unfold scheme_active.
        now rewrite andb_comm.
    + destruct (Hsw w1) as (w' & E & Hc & Hb).
      exists w'. split; [exact E|]. split; [right; exact Hc|].
      split; [|discriminate]. intros _. split; [exact Hb|].
      intro; contradiction.
  - destruct (Z.eqb_spec (livery_class w) LC_OTHER) as [H0|H0]; cbn [negb].
    + exists w. split; [reflexivity|]. split; [left; reflexivity|].
      split; [discriminate | intros _; exact H0].
    + destruct (Hsw w) as (w' & E & Hc & Hb).
      exists w'. split; [exact E|]. split; [right; exact Hc|].
      split; [discriminate | intros _; exact Hc].
Qed.

Lemma OnInvalidateData_used_liveries_witness :
  window_ok game_tree win_rail /\ livery_class win_rail < LC_GROUP_RAIL /\
  exists w',
    OnInvalidateData game_default_only (-1) true win_rail = Some w' /\
    livery_class w' = LC_OTHER /\ sel w' = 1.
Proof.
  assert (H : livery_class win_rail < LC_GROUP_RAIL) by reflexivity.
  split; [exact win_rail_ok|]. split; [exact H|].
  destruct (OnInvalidateData_used_liveries game_tree game_default_only
              win_rail win_rail_ok H) as (w' & E & _).
  exists w'. split; [exact E|].
  vm_compute in E. injection E as <-. split; reflexivity.
Defined.

(** ** Repainting *)

(** X14 -- with a well-formed group pool OnPaint returns; it leaves
    selection, class and number of rows as they were, and a second
    repaint changes nothing and gives the buttons the same state. *)
Theorem OnPaint_idempotent g w :
  pool_ok (groups_pool g) ->
  exists w1 disabled,
    OnPaint g w = Some (w1, disabled) /\
    sel w1 = sel w /\ livery_class w1 = livery_class w /\ rows w1 = rows w /\
    OnPaint g w1 = Some (w1, disabled).
Proof.
  intro Hok. unfold OnPaint.
  destruct (BuildGroupList_fields g (window_number w) w Hok)
    as (w1 & E & Hn & Hs & Hc & Hr & Hw & _).
  rewrite E. eexists w1, _. split; [reflexivity|].
  split; [exact Hs|]. split; [exact Hc|]. split; [exact Hr|].
  rewrite (BuildGroupList_clean g _ w1 Hn), Hs, Hc, Hw. reflexivity.
Qed.

Lemma OnPaint_idempotent_witness :
  pool_ok (groups_pool game_tree) /\
  exists w1 disabled,
    OnPaint game_tree (win_groups 1) = Some (w1, disabled) /\
    groups w1 = [group_alpha; group_mid; group_zeta] /\
    OnPaint game_tree w1 = Some (w1, disabled).
Proof.
  split; [exact game_tree_pool_ok|].
  destruct (OnPaint_idempotent game_tree (win_groups 1) game_tree_pool_ok)
    as (w1 & d & E & _ & _ & _ & E').
  exists w1, d. split; [exact E|]. split; [|exact E'].
  vm_compute in E. injection E as <- _. reflexivity.
Defined.

(** ** The results of the menu entries, and the number of rows drawn *)

(** X22 -- for liveries whose colours are colours, the entries of the
    colour menu have results of their own: sixteen palette entries, with
    the default entry before them when there is a livery to inherit from,
    no two with the same result, all below twice the number of colours;
    the preselected result is the result of an entry of the list. *)
Theorem ShowColourDropDownMenu_results g w primary rep dflt items s :
  dropdown_liveries g w = Some (rep, dflt) ->
  livery_ok rep ->
  (forall d, dflt = Some d -> livery_ok d) ->
  ShowColourDropDownMenu g w primary = Some (items, s) ->
  NoDup (map result items) /\
  List.length items = match dflt with Some _ => 17%nat | None => 16%nat end /\
  (exists it, In it items /\ result it = s) /\
  (forall it, In it items -> 0 <= result it < 2 * COLOUR_END).
Proof.
  intros Hd Hrep Hdf H. unfold ShowColourDropDownMenu in H. rewrite Hd in H.
  match type of H with
  | Some (?l, ?x) = _ =>
      assert (Hi : items = l) by congruence;
      assert (Hs : s = x) by congruence
  end.
  clear H.
  pose proof (slot_colour_ok primary rep Hrep) as Hr.
  assert (Hpal : forall (mask : Z -> bool),
            map result (map (fun i => mkItem i (mask i))
                            (zseq 0 (Z.to_nat COLOUR_END)))
            = zseq 0 (Z.to_nat COLOUR_END)).
  { intro mask. rewrite map_map. cbn [result]. apply map_id. }
  assert (Hinpal : forall (mask : Z -> bool) c,
            0 <= c < COLOUR_END ->
            In (mkItem c (mask c))
               (map (fun i => mkItem i (mask i))
                    (zseq 0 (Z.to_nat COLOUR_END)))).
  { intros mask c Hc. apply in_map_iff. exists c. split; [reflexivity|].
    apply zseq_In. unfold COLOUR_END in *. lia. }
  assert (Hrange : forall (mask : Z -> bool) it,
            In it (map (fun i => mkItem i (mask i))
                       (zseq 0 (Z.to_nat COLOUR_END))) ->
            0 <= result it < 2 * COLOUR_END).
  { intros mask it Hin. apply in_map_iff in Hin.
    destruct Hin as (i & <- & Hi'). apply zseq_In in Hi'.
    cbn [result]. unfold COLOUR_END in *. lia. }
  destruct dflt as [d|].
  - pose proof (slot_colour_ok primary d (Hdf d eq_refl)) as Hc.
    rewrite (byte_small (slot_colour primary d + COLOUR_END)) in *
      by (unfold COLOUR_END in *; lia).
    subst items. cbn [app map result List.length].
    rewrite Hpal, length_map.
    split; [|split; [|split]].
    + constructor; [|apply zseq_NoDup].
      intro Hin. apply zseq_In in Hin. unfold COLOUR_END in *. lia.
    + reflexivity.
    + cbn [orb] in Hs.
      destruct (HasBit (in_use rep) (if primary then 0 else 1)).
      * rewrite (byte_small (slot_colour primary rep)) in Hs
          by (unfold COLOUR_END in *; lia).
        eexists. split; [right; apply Hinpal; exact Hr|].
        cbn [result]. congruence.
      * rewrite (byte_small (slot_colour primary d + COLOUR_END)) in Hs
          by (unfold COLOUR_END in *; lia).
        eexists. split; [left; reflexivity|]. cbn [result]. congruence.
    + intros it [<-|Hin]; [cbn [result]; unfold COLOUR_END in *; lia|].
      eapply Hrange; exact Hin.
  - subst items. cbn [app]. rewrite Hpal, length_map.
    split; [apply zseq_NoDup|]. split; [reflexivity|].
    split; [|apply Hrange].
    cbn [orb] in Hs.
    rewrite (byte_small (slot_colour primary rep)) in Hs
      by (unfold COLOUR_END in *; lia).
    eexists. split; [apply Hinpal; exact Hr|]. cbn [result]. congruence.
Qed.

Lemma ShowColourDropDownMenu_results_witness :
  dropdown_liveries game_tree win_rail
  = Some (mkLivery 1 2 9, Some (mkLivery 0 8 8)) /\
  livery_ok (mkLivery 1 2 9) /\
  (forall d, Some (mkLivery 0 8 8) = Some d -> livery_ok d) /\
  ShowColourDropDownMenu game_tree win_rail true
  = Some (mkItem 24 false :: map (fun i => mkItem i false) (zseq 0 16), 2) /\
  NoDup (map result
           (mkItem 24 false :: map (fun i => mkItem i false) (zseq 0 16))).
Proof.
  assert (H1 : dropdown_liveries game_tree win_rail
               = Some (mkLivery 1 2 9, Some (mkLivery 0 8 8)))
    by reflexivity.
  assert (H2 : livery_ok (mkLivery 1 2 9))
    by (unfold livery_ok, COLOUR_END; cbn [colour1 colour2]; lia).
  assert (H3 : forall d, Some (mkLivery 0 8 8) = Some d -> livery_ok d).
  { intros d Hd. injection Hd as <-.
    unfold livery_ok, COLOUR_END; cbn [colour1 colour2]; lia. }
  assert (H4 : ShowColourDropDownMenu game_tree win_rail true
               = Some (mkItem 24 false
                         :: map (fun i => mkItem i false) (zseq 0 16), 2))
    by reflexivity.
  split; [exact H1|]. split; [exact H2|]. split; [exact H3|].
  split; [exact H4|].
  exact (proj1 (ShowColourDropDownMenu_results game_tree win_rail true _ _ _ _
                  H1 H2 H3 H4)).
Defined.

(** X23 -- for a window in order the number of rows SetRows has counted
    is the number of rows DrawWidget has to draw: on a scheme class it
    draws the rows from the scroll position to the last one, on a group
    class those of them that fit the capacity of the matrix. *)
Theorem DrawWidget_rows_count g hsep w pos cap rws :
  window_ok g w -> 0 <= pos -> 0 <= cap ->
  DrawWidget g hsep w pos cap = Some rws ->
  Z.of_nat (List.length rws)
  = if livery_class w <? LC_GROUP_RAIL then Z.max 0 (rows w - pos)
    else Z.max 0 (Z.min (pos + cap) (rows w) - pos).
Proof.
  intros Hw Hpos Hcap Hd.
  pose proof Hw as (Hrows & _ & Hlen & _).
  unfold populated_rows in Hrows.
  destruct (Z.ltb_spec (livery_class w) LC_GROUP_RAIL) as [Hlc|Hlc].
  - unfold DrawWidget in Hd.
    destruct (Z.ltb_spec (livery_class w) LC_GROUP_RAIL); [|lia].
    destruct (Company_GetIfValid (companies_pool g) (window_number w))
      as [c|]; [|discriminate].
    assert (E : rws = DrawWidget_schemes g c w schemes pos) by congruence.
    subst rws. rewrite DrawWidget_schemes_spec, length_map, length_skipn.
    rewrite Hrows. lia.
  - destruct (DrawWidget_group_rows g hsep w pos cap Hlc Hlen Hpos Hcap)
      as (rws' & E & Hl & _).
    assert (rws' = rws) by congruence. subst rws'.
    rewrite Hl, Hrows. reflexivity.
Qed.

Lemma DrawWidget_rows_count_witness :
  window_ok game_tree win_tree /\ 0 <= 1 /\ 0 <= 11 /\
  DrawWidget game_tree 10 win_tree 1 11
  = Some [ draw_livery (STR_GROUP_NAME 2) (mkLivery 1 5 0) false false 10;
           draw_livery (STR_GROUP_NAME 0) plain false false 0 ] /\
  Z.of_nat 2 = Z.max 0 (Z.min (1 + 11) (rows win_tree) - 1).
Proof.
  assert (H1 : 0 <= 1) by lia.
  assert (H2 : 0 <= 11) by lia.
  assert (H3 : DrawWidget game_tree 10 win_tree 1 11
               = Some [ draw_livery (STR_GROUP_NAME 2) (mkLivery 1 5 0)
                                    false false 10;
                        draw_livery (STR_GROUP_NAME 0) plain false false 0 ])
    by reflexivity.
  split; [exact win_tree_ok|]. split; [exact H1|]. split; [exact H2|].
  split; [exact H3|].
  exact (DrawWidget_rows_count game_tree 10 win_tree 1 11 _
           win_tree_ok H1 H2 H3).
Defined.

(** ** From a click on a row to the command *)




(** * The expenses panel of the finances window *)

Section FinancesLayout.

Import Finances.

Variable e : Env.
Variable tbl : ExpensesType -> Z.

Local Abbreviation F := (FONT_HEIGHT_NORMAL e).
Local Abbreviation N := (vsep_normal e).
Local Abbreviation W := (vsep_wide e).

Lemma DrawPrice_shape amount top colour :
  exists s, DrawPrice e amount top colour = DrawString top s colour.
Proof.
  unfold DrawPrice. destruct (amount =? 0); [eexists; reflexivity|].
  destruct (amount <? 0); eexists; reflexivity.
Qed.

Lemma DrawCategory_In : forall l top d,
  In d (DrawCategory e top l) <->
  exists k et, nth_error l k = Some et /\
               d = DrawString (top + Z.of_nat k * F)
                              (STR_FINANCES_SECTION_CONSTRUCTION_plus et)
                              TC_FROMSTRING.
Proof.
  induction l as [|x l IH]; intros top d; cbn [DrawCategory].
  - split; [intros [] | intros (k & et & H & _); destruct k; discriminate].
  - cbn [In]. rewrite IH. split.
    + intros [<-|(k & et & H & ->)].
      * exists 0%nat, x. split; [reflexivity|]. f_equal. lia.
      * exists (S k), et. split; [exact H|]. f_equal. lia.
    + intros ([|k] & et & H & ->).
      * left. injection H as <-. f_equal. lia.
      * right. exists k, et. split; [exact H|]. f_equal. lia.
Qed.

Lemma DrawYearCategory_loop_spec : forall l y sum,
  snd (fst (DrawYearCategory_loop e tbl l y sum))
  = y + Z.of_nat (List.length l) * F /\
  forall d,
    In d (fst (fst (DrawYearCategory_loop e tbl l y sum))) <->
    exists k et, nth_error l k = Some et /\ tbl et <> 0 /\
                 d = DrawPrice e (tbl et) (y + Z.of_nat k * F) TC_BLACK.
Proof.
  induction l as [|x l IH]; intros y sum; cbn [DrawYearCategory_loop].
  - cbn [fst snd List.length]. split; [lia|].
    intro d. split; [intros [] | intros (k & et & H & _); destruct k; discriminate].
  - specialize (IH (y + F) (money_add e sum (tbl x))).
    destruct (DrawYearCategory_loop e tbl l (y + F) (money_add e sum (tbl x)))
      as [[rest y'] sum'].
    cbn [fst snd] in *. destruct IH as [Hy Hin].
    split; [rewrite Hy; cbn [List.length]; lia|].
    intro d. rewrite in_app_iff, Hin. split.
    + intros [H|(k & et & H & Hne & ->)].
      * destruct (Z.eqb_spec (tbl x) 0) as [|Hne]; cbn [negb] in H;
          [destruct H|].
        destruct H as [<-|[]]. exists 0%nat, x.
        split; [reflexivity|]. split; [exact Hne|]. f_equal. lia.
      * exists (S k), et. split; [exact H|]. split; [exact Hne|].
        f_equal. lia.
    + intros ([|k] & et & H & Hne & ->).
      * left. injection H as <-.
        destruct (Z.eqb_spec (tbl x) 0); [contradiction|].
        left. f_equal. lia.
      * right. exists k, et. split; [exact H|]. split; [exact Hne|].
        f_equal. lia.
Qed.

(** The two loops over the categories, started at the same height. *)
Lemma category_loops_aligned : forall types i y sum,
  (forall l, In l types -> GetHeight e l = Z.of_nat (List.length l) * F) ->
  let c := DrawCategories_loop e i types y in
  let yc := DrawYearColumn_loop e tbl types y sum in
  snd c = snd (fst yc) /\
  (forall et y0,
     In (DrawString y0 (STR_FINANCES_SECTION_CONSTRUCTION_plus et)
                    TC_FROMSTRING) (fst c) ->
     tbl et <> 0 ->
     In (DrawPrice e (tbl et) y0 TC_BLACK) (fst (fst yc))) /\
  (forall y0 s0,
     In (DrawString y0 s0 TC_BLACK) (fst (fst yc)) ->
     exists et,
       In (DrawString y0 (STR_FINANCES_SECTION_CONSTRUCTION_plus et)
                      TC_FROMSTRING) (fst c) /\
       DrawString y0 s0 TC_BLACK = DrawPrice e (tbl et) y0 TC_BLACK) /\
  (forall y0 s0,
     In (DrawString y0 s0 TC_WHITE) (fst (fst yc)) ->
     In (DrawString y0 STR_FINANCES_TOTAL_CAPTION TC_FROMSTRING) (fst c)).
Proof.
  induction types as [|l types IH]; intros i y sum Hh.
  - cbn [DrawCategories_loop DrawYearColumn_loop fst snd].
    split; [reflexivity|]. split; [intros ? ? []|].
    split; intros ? ? [].
  - cbn [DrawCategories_loop DrawYearColumn_loop]. unfold DrawYearCategory.
    pose proof (DrawYearCategory_loop_spec l (y + F) 0) as [Hy Hp].
    destruct (DrawYearCategory_loop e tbl l (y + F) 0) as [[prices y1] s1].
    cbn [fst snd] in Hy, Hp.
    rewrite (Hh l (or_introl eq_refl)).
    set (y2 := y + F + Z.of_nat (List.length l) * F + N + F + W).
    replace (y + F + (Z.of_nat (List.length l) * F + N + F + W)) with y2
      by (subst y2; lia).
    specialize (IH (i + 1) y2 (money_add e sum s1)
                   (fun l' H => Hh l' (or_intror H))).
    cbv zeta in IH.
    destruct (DrawCategories_loop e (i + 1) types y2) as [crest yc'].
    destruct (DrawYearColumn_loop e tbl types y2 (money_add e sum s1))
      as [[yrest yy'] sum'].
    cbn [fst snd] in *. destruct IH as (I1 & I2 & I3 & I4).
    split; [exact I1|].
    assert (Ewhite : y1 + N = y + F + Z.of_nat (List.length l) * F + N)
      by lia.
    split; [|split].
    + intros et y0 Hin Hne. apply in_app_iff.
      destruct Hin as [Hin|Hin]; [discriminate|].
      apply in_app_iff in Hin. destruct Hin as [Hin|[Hin|Hin]].
      * left. apply in_app_iff. left. apply Hp.
        apply DrawCategory_In in Hin. destruct Hin as (k & et' & Hk & E).
        injection E as -> <-. exists k, et. auto.
      * discriminate.
      * right. apply I2; assumption.
    + intros y0 s0 Hin. apply in_app_iff in Hin.
      destruct Hin as [Hin|Hin].
      * apply in_app_iff in Hin. destruct Hin as [Hin|[Hin|Hin]].
        -- apply Hp in Hin. destruct Hin as (k & et & Hk & Hne & E).
           exists et. split.
           ++ right. apply in_app_iff. left. apply DrawCategory_In.
              exists k, et. split; [exact Hk|].
              destruct (DrawPrice_shape (tbl et) (y + F + Z.of_nat k * F)
                                        TC_BLACK) as [s' Es].
              rewrite Es in E. injection E as -> _. reflexivity.
           ++ rewrite E.
              destruct (DrawPrice_shape (tbl et) (y + F + Z.of_nat k * F)
                                        TC_BLACK) as [s' Es].
              rewrite Es in E. injection E as -> _. reflexivity.
        -- discriminate.
        -- destruct (negb (s1 =? 0)); [|destruct Hin].
           destruct Hin as [Hin|[]].
           destruct (DrawPrice_shape s1 (y1 + N) TC_WHITE) as [s' Es].
           rewrite Es in Hin. discriminate.
      * destruct (I3 y0 s0 Hin) as (et & H1 & H2).
        exists et. split; [|exact H2].
        right. apply in_app_iff. right. right. exact H1.
    + intros y0 s0 Hin. apply in_app_iff in Hin.
      destruct Hin as [Hin|Hin].
      * apply in_app_iff in Hin. destruct Hin as [Hin|[Hin|Hin]].
        -- apply Hp in Hin. destruct Hin as (k & et & _ & _ & E).
           destruct (DrawPrice_shape (tbl et) (y + F + Z.of_nat k * F)
                                     TC_BLACK) as [s' Es].
           rewrite Es in E. discriminate.
        -- discriminate.
        -- destruct (negb (s1 =? 0)); [|destruct Hin].
           destruct Hin as [Hin|[]].
           destruct (DrawPrice_shape s1 (y1 + N) TC_WHITE) as [s' Es].
           rewrite Es in Hin. injection Hin as <- _.
           right. apply in_app_iff. right. left. f_equal. lia.
      * right. apply in_app_iff. right. right. apply (I4 y0 s0 Hin).
Qed.

Lemma expenses_heights :
  0 <= F < 2 ^ 16 ->
  forall l, In l _expenses_list_types ->
            GetHeight e l = Z.of_nat (List.length l) * F.
Proof.
  intros HF l Hl. unfold GetHeight, uint32.
  assert (Hlen : (List.length l <= 6)%nat).
  { destruct Hl as [<-|[<-|[<-|[]]]]; cbn [List.length
      _expenses_list_revenue _expenses_list_operating_costs
      _expenses_list_capital_costs]; lia. }
  apply Z.mod_small. nia.
Qed.

End FinancesLayout.

Section FinancesFit.

Import Finances.

Variable e : Env.
Variable tbl : ExpensesType -> Z.

Local Abbreviation F := (FONT_HEIGHT_NORMAL e).
Local Abbreviation N := (vsep_normal e).
Local Abbreviation W := (vsep_wide e).

Hypothesis HF : 0 <= F.
Hypothesis HN : 0 <= N.
Hypothesis HW : 0 <= W.

Lemma DrawCategories_loop_bounds : forall types i y,
  (forall l, In l types -> GetHeight e l = Z.of_nat (List.length l) * F) ->
  y <= snd (DrawCategories_loop e i types y) /\
  forall y0 s c,
    In (DrawString y0 s c) (fst (DrawCategories_loop e i types y)) ->
    y <= y0 /\ y0 + F + W <= snd (DrawCategories_loop e i types y).
Proof.
  induction types as [|l types IH]; intros i y Hh;
    cbn [DrawCategories_loop].
  - cbn [fst snd]. split; [lia | intros ? ? ? []].
  - rewrite (Hh l (or_introl eq_refl)).
    set (y2 := y + F + Z.of_nat (List.length l) * F + N + F + W).
    specialize (IH (i + 1) y2 (fun l' H => Hh l' (or_intror H))).
    destruct (DrawCategories_loop e (i + 1) types y2) as [rest y'].
    cbn [fst snd] in *. destruct IH as [I1 I2].
    assert (Hy2 : y <= y2) by (subst y2; nia).
    split; [lia|].
    intros y0 s c [Hin|Hin].
    + injection Hin as <- _ _. subst y2. split; [lia | nia].
    + apply in_app_iff in Hin. destruct Hin as [Hin|[Hin|Hin]].
      * apply DrawCategory_In in Hin. destruct Hin as (k & et & Hk & E).
        injection E as -> _ _.
        assert (k < List.length l)%nat by (apply nth_error_Some; congruence).
        subst y2. split; nia.
      * injection Hin as <- _ _. subst y2. split; nia.
      * destruct (I2 y0 s c Hin). split; lia.
Qed.

Lemma DrawYearColumn_loop_bounds : forall types y sum,
  (forall l, In l types -> GetHeight e l = Z.of_nat (List.length l) * F) ->
  forall y0 s c,
    In (DrawString y0 s c) (fst (fst (DrawYearColumn_loop e tbl types y sum))) ->
    y <= y0 /\
    y0 + F + W <= snd (fst (DrawYearColumn_loop e tbl types y sum)).
Proof.
  induction types as [|l types IH]; intros y sum Hh;
    cbn [DrawYearColumn_loop].
  - cbn [fst snd]. intros ? ? ? [].
  - unfold DrawYearCategory.
    pose proof (DrawYearCategory_loop_spec e tbl l (y + F) 0) as [Hy Hp].
    destruct (DrawYearCategory_loop e tbl l (y + F) 0) as [[prices y1] s1].
    cbn [fst snd] in Hy, Hp.
    rewrite (Hh l (or_introl eq_refl)).
    set (y2 := y + F + (Z.of_nat (List.length l) * F + N + F + W)).
    pose proof (category_loops_aligned e tbl types 0 y2 (money_add e sum s1)
                  (fun l' H => Hh l' (or_intror H))) as A.
    cbv zeta in A. destruct A as [A _].
    pose proof (DrawCategories_loop_bounds types 0 y2
                  (fun l' H => Hh l' (or_intror H))) as [B _].
    rewrite A in B.
    specialize (IH y2 (money_add e sum s1) (fun l' H => Hh l' (or_intror H))).
    destruct (DrawYearColumn_loop e tbl types y2 (money_add e sum s1))
      as [[rest y'] sum'].
    cbn [fst snd] in *.
    assert (Hy2 : y <= y2) by (subst y2; nia).
    intros y0 s c Hin. apply in_app_iff in Hin. destruct Hin as [Hin|Hin].
    + apply in_app_iff in Hin. destruct Hin as [Hin|[Hin|Hin]].
      * apply Hp in Hin. destruct Hin as (k & et & Hk & _ & E).
        destruct (DrawPrice_shape e (tbl et) (y + F + Z.of_nat k * F)
                                  TC_BLACK) as [s' Es].
        rewrite Es in E. injection E as -> _ _.
        assert (k < List.length l)%nat by (apply nth_error_Some; congruence).
        subst y2. split; nia.
      * discriminate.
      * destruct (negb (s1 =? 0)); [|destruct Hin].
        destruct Hin as [Hin|[]].
        destruct (DrawPrice_shape e s1 (y1 + N) TC_WHITE) as [s' Es].
        rewrite Es in Hin. injection Hin as <- _ _.
        subst y2. split; nia.
    + destruct (IH y0 s c Hin). split; lia.
Qed.

End FinancesFit.

Lemma DrawCategories_loop_end e i y :
  0 <= Finances.FONT_HEIGHT_NORMAL e < 2 ^ 16 ->
  snd (Finances.DrawCategories_loop e i Finances._expenses_list_types y)
  = y + 19 * Finances.FONT_HEIGHT_NORMAL e + 3 * Finances.vsep_normal e
      + 3 * Finances.vsep_wide e.
Proof.
  intro HF.
  pose proof (expenses_heights e HF) as Hh.
  unfold Finances._expenses_list_types in *.
  cbn [Finances.DrawCategories_loop].
  rewrite !Hh by (cbn [In]; auto).
  cbn [snd List.length Finances._expenses_list_revenue
       Finances._expenses_list_operating_costs
       Finances._expenses_list_capital_costs].
  lia.
Qed.

Lemma GetTotalCategoriesHeight_value e :
  0 <= Finances.FONT_HEIGHT_NORMAL e < 2 ^ 16 ->
  0 <= Finances.vsep_normal e < 2 ^ 16 ->
  0 <= Finances.vsep_wide e < 2 ^ 16 ->
  Finances.GetTotalCategoriesHeight e
  = 21 * Finances.FONT_HEIGHT_NORMAL e + 4 * Finances.vsep_normal e
    + 5 * Finances.vsep_wide e.
Proof.
  intros HF HN HW.
  pose proof (expenses_heights e HF) as Hh.
  unfold Finances.GetTotalCategoriesHeight, Finances._expenses_list_types in *.
  cbn [fold_left].
  rewrite !Hh by (cbn [In]; auto).
  cbn [List.length Finances._expenses_list_revenue
       Finances._expenses_list_operating_costs
       Finances._expenses_list_capital_costs].
  unfold uint32.
  change (2 ^ 32) with 4294967296. change (2 ^ 16) with 65536 in *.
  set (F := Finances.FONT_HEIGHT_NORMAL e) in *.
  set (N := Finances.vsep_normal e) in *.
  set (W := Finances.vsep_wide e) in *.
  rewrite (Z.mod_small (F + W)) by lia.
  rewrite (Z.mod_small (F + W + _)) by lia.
  rewrite (Z.mod_small (F + W + _ + _)) by lia.
  rewrite (Z.mod_small (F + W + _ + _ + _)) by lia.
  rewrite Z.mod_small by lia. lia.
Qed.

(** X15 -- in the expenses panel every amount of a year column is written
    on the line of the label it belongs to: the cost of an expense type
    on the line that names the type, the sum of a category on the line of
    a "Total" caption, the total of the year on the line of the profit
    caption.  Every expense type has its line. *)
Theorem finances_rows_aligned e tbl top year :
  0 <= Finances.FONT_HEIGHT_NORMAL e < 2 ^ 16 ->
  let cats := Finances.DrawCategories e top in
  let col := Finances.DrawYearColumn e top year tbl in
  (forall et, exists y,
     In (Finances.DrawString
           y (Finances.STR_FINANCES_SECTION_CONSTRUCTION_plus et)
           Finances.TC_FROMSTRING) cats) /\
  (forall et y,
     In (Finances.DrawString
           y (Finances.STR_FINANCES_SECTION_CONSTRUCTION_plus et)
           Finances.TC_FROMSTRING) cats ->
     tbl et <> 0 ->
     In (Finances.DrawPrice e (tbl et) y Finances.TC_BLACK) col) /\
  (forall y s,
     In (Finances.DrawString y s Finances.TC_BLACK) col ->
     exists et,
       In (Finances.DrawString
             y (Finances.STR_FINANCES_SECTION_CONSTRUCTION_plus et)
             Finances.TC_FROMSTRING) cats /\
       Finances.DrawString y s Finances.TC_BLACK
       = Finances.DrawPrice e (tbl et) y Finances.TC_BLACK) /\
  (forall y s,
     In (Finances.DrawString y s Finances.TC_WHITE) col ->
     In (Finances.DrawString y Finances.STR_FINANCES_TOTAL_CAPTION
                             Finances.TC_FROMSTRING) cats \/
     In (Finances.DrawString y Finances.STR_FINANCES_PROFIT
                             Finances.TC_FROMSTRING) cats) /\
  (exists y total,
     In (Finances.DrawString y Finances.STR_FINANCES_PROFIT
                             Finances.TC_FROMSTRING) cats /\
     In (Finances.DrawPrice e total y Finances.TC_WHITE) col).
Proof.
  intros HF cats col.
  pose proof (category_loops_aligned e tbl Finances._expenses_list_types 0
                (top + Finances.FONT_HEIGHT_NORMAL e + Finances.vsep_wide e)
                0 (expenses_heights e HF)) as A.
  cbv zeta in A. subst cats col.
  unfold Finances.DrawCategories, Finances.DrawYearColumn.
  replace (top + (Finances.FONT_HEIGHT_NORMAL e + Finances.vsep_wide e))
    with (top + Finances.FONT_HEIGHT_NORMAL e + Finances.vsep_wide e) by lia.
  set (y0 := top + Finances.FONT_HEIGHT_NORMAL e + Finances.vsep_wide e) in *.
  assert (Hall : forall et, exists y,
            In (Finances.DrawString
                  y (Finances.STR_FINANCES_SECTION_CONSTRUCTION_plus et)
                  Finances.TC_FROMSTRING)
               (fst (Finances.DrawCategories_loop
                       e 0 Finances._expenses_list_types y0))).
  { intro et. unfold Finances._expenses_list_types.
    cbn [Finances.DrawCategories_loop fst Finances.DrawCategory
         Finances._expenses_list_revenue
         Finances._expenses_list_operating_costs
         Finances._expenses_list_capital_costs app].
    destruct et; eexists; cbn [In];
      repeat (first [left; reflexivity | right]). }
  destruct (Finances.DrawCategories_loop e 0 Finances._expenses_list_types y0)
    as [cout yc].
  destruct (Finances.DrawYearColumn_loop e tbl Finances._expenses_list_types
                                         y0 0) as [[yout yy] total].
  cbn [fst snd] in *. destruct A as (A1 & A2 & A3 & A4). subst yy.
  split; [|split; [|split; [|split]]].
  - intro et. destruct (Hall et) as [y Hy]. exists y.
    apply in_app_iff. left. exact Hy.
  - intros et y Hin Hne. right. apply in_app_iff. left.
    apply in_app_iff in Hin. destruct Hin as [Hin|[Hin|[]]]; [|discriminate].
    apply A2; assumption.
  - intros y s Hin. destruct Hin as [Hin|Hin]; [discriminate|].
    apply in_app_iff in Hin. destruct Hin as [Hin|[Hin|[Hin|[]]]].
    + destruct (A3 y s Hin) as (et & H1 & H2). exists et.
      split; [apply in_app_iff; left; exact H1 | exact H2].
    + discriminate.
    + destruct (DrawPrice_shape e total (yc + Finances.vsep_normal e)
                                Finances.TC_WHITE) as [s' Es].
      rewrite Es in Hin. discriminate.
  - intros y s Hin. destruct Hin as [Hin|Hin]; [discriminate|].
    apply in_app_iff in Hin. destruct Hin as [Hin|[Hin|[Hin|[]]]].
    + left. apply in_app_iff. left. apply (A4 y s Hin).
    + discriminate.
    + destruct (DrawPrice_shape e total (yc + Finances.vsep_normal e)
                                Finances.TC_WHITE) as [s' Es].
      rewrite Es in Hin. injection Hin as <- _.
      right. apply in_app_iff. right. left. reflexivity.
  - exists (yc + Finances.vsep_normal e), total. split.
    + apply in_app_iff. right. left. reflexivity.
    + right. apply in_app_iff. right. right. left. reflexivity.
Qed.

Lemma finances_rows_aligned_witness :
  0 <= Finances.FONT_HEIGHT_NORMAL finances_env < 2 ^ 16 /\
  In (Finances.DrawString
        36 (Finances.STR_FINANCES_SECTION_CONSTRUCTION_plus
              Finances.EXPENSES_TRAIN_REVENUE)
        Finances.TC_FROMSTRING)
     (Finances.DrawCategories finances_env 10) /\
  In (Finances.DrawString 36 (Finances.STR_FINANCES_POSITIVE_INCOME 500)
                          Finances.TC_BLACK)
     (Finances.DrawYearColumn finances_env 10 1951 finances_tbl).
Proof.
  assert (H : 0 <= Finances.FONT_HEIGHT_NORMAL finances_env < 2 ^ 16)
    by (vm_compute; split; congruence).
  split; [exact H|].
  assert (Hin : In (Finances.DrawString
                      36 (Finances.STR_FINANCES_SECTION_CONSTRUCTION_plus
                            Finances.EXPENSES_TRAIN_REVENUE)
                      Finances.TC_FROMSTRING)
                   (Finances.DrawCategories finances_env 10))
    by (vm_compute; tauto).
  split; [exact Hin|].
  assert (Hne : finances_tbl Finances.EXPENSES_TRAIN_REVENUE <> 0)
    by (vm_compute; congruence).
  exact (proj1 (proj2 (finances_rows_aligned finances_env finances_tbl 10 1951
                         H))
           Finances.EXPENSES_TRAIN_REVENUE 36 Hin Hne).
Defined.

(** X16 -- with line height and distances within 16 bits, every line of
    text of the column of categories and of a year column lies inside
    the height GetTotalCategoriesHeight gives the widgets, and the line
    of the profit caption is the last one, a wide distance above the
    bottom. *)
Theorem finances_rows_fit e tbl top year :
  0 <= Finances.FONT_HEIGHT_NORMAL e < 2 ^ 16 ->
  0 <= Finances.vsep_normal e < 2 ^ 16 ->
  0 <= Finances.vsep_wide e < 2 ^ 16 ->
  let height := Finances.GetTotalCategoriesHeight e in
  let bottom := top + height - Finances.vsep_wide e in
  (forall y s c,
     In (Finances.DrawString y s c) (Finances.DrawCategories e top) ->
     top <= y /\ y + Finances.FONT_HEIGHT_NORMAL e <= bottom) /\
  (forall y s c,
     In (Finances.DrawString y s c) (Finances.DrawYearColumn e top year tbl) ->
     top <= y /\ y + Finances.FONT_HEIGHT_NORMAL e <= bottom) /\
  In (Finances.DrawString (bottom - Finances.FONT_HEIGHT_NORMAL e)
                          Finances.STR_FINANCES_PROFIT Finances.TC_FROMSTRING)
     (Finances.DrawCategories e top).
Proof.
  intros HF HN HW height bottom. subst bottom height.
  rewrite (GetTotalCategoriesHeight_value e HF HN HW).
  pose proof (expenses_heights e HF) as Hh.
  set (y0 := top + Finances.FONT_HEIGHT_NORMAL e + Finances.vsep_wide e).
  pose proof (DrawCategories_loop_bounds e (proj1 HF) (proj1 HN) (proj1 HW)
                Finances._expenses_list_types 0 y0 Hh) as [_ B].
  pose proof (DrawYearColumn_loop_bounds e tbl (proj1 HF) (proj1 HN)
                (proj1 HW) Finances._expenses_list_types y0 0 Hh) as C.
  pose proof (category_loops_aligned e tbl Finances._expenses_list_types 0
                y0 0 Hh) as A.
  cbv zeta in A. destruct A as [A _].
  pose proof (DrawCategories_loop_end e 0 y0 HF) as E.
  unfold Finances.DrawCategories, Finances.DrawYearColumn.
  replace (top + (Finances.FONT_HEIGHT_NORMAL e + Finances.vsep_wide e))
    with y0 by (subst y0; lia).
  fold y0.
  destruct (Finances.DrawCategories_loop e 0 Finances._expenses_list_types y0)
    as [cout yc].
  destruct (Finances.DrawYearColumn_loop e tbl Finances._expenses_list_types
                                         y0 0) as [[yout yy] total].
  cbn [fst snd] in *. subst yy.
  split; [|split].
  - intros y s c Hin. apply in_app_iff in Hin.
    destruct Hin as [Hin|[Hin|[]]].
    + destruct (B y s c Hin). subst y0. lia.
    + injection Hin as <- _ _. subst y0. lia.
  - intros y s c [Hin|Hin].
    + injection Hin as <- _ _. lia.
    + apply in_app_iff in Hin. destruct Hin as [Hin|[Hin|[Hin|[]]]].
      * destruct (C y s c Hin). subst y0. lia.
      * discriminate.
      * destruct (DrawPrice_shape e total (yc + Finances.vsep_normal e)
                                  Finances.TC_WHITE) as [s' Es].
        rewrite Es in Hin. injection Hin as <- _ _. subst y0. lia.
  - apply in_app_iff. right. left. f_equal. subst y0. lia.
Qed.

Lemma finances_rows_fit_witness :
  0 <= Finances.FONT_HEIGHT_NORMAL finances_env < 2 ^ 16 /\
  0 <= Finances.vsep_normal finances_env < 2 ^ 16 /\
  0 <= Finances.vsep_wide finances_env < 2 ^ 16 /\
  Finances.GetTotalCategoriesHeight finances_env = 248 /\
  In (Finances.DrawString 242 Finances.STR_FINANCES_PROFIT
                          Finances.TC_FROMSTRING)
     (Finances.DrawCategories finances_env 10).
Proof.
  assert (H1 : 0 <= Finances.FONT_HEIGHT_NORMAL finances_env < 2 ^ 16)
    by (vm_compute; split; congruence).
  assert (H2 : 0 <= Finances.vsep_normal finances_env < 2 ^ 16)
    by (vm_compute; split; congruence).
  assert (H3 : 0 <= Finances.vsep_wide finances_env < 2 ^ 16)
    by (vm_compute; split; congruence).
  split; [exact H1|]. split; [exact H2|]. split; [exact H3|].
  split; [reflexivity|].
  exact (proj2 (proj2 (finances_rows_fit finances_env finances_tbl 10 1951
                         H1 H2 H3))).
Defined.

(** X17 -- the year columns of the expenses panel, for a company with its
    three tables of yearly expenses.  A column is drawn when its number
    does not exceed the age of the company in years; it then shows a year
    between the inauguration and the current one, with the table of that
    year, the last of the columns drawn showing the current year; no
    table is read out of range.  A column beyond the age stays empty. *)
Theorem finances_year_columns e _cur_year c top wid_offset :
  List.length (Finances.yearly_expenses c) = 3%nat ->
  0 <= wid_offset <= 2 ->
  let years := _cur_year - Finances.inaugurated_year c in
  let back := Z.min years 2 - wid_offset in
  (wid_offset <= years ->
   exists tbl,
     nth_error (Finances.yearly_expenses c) (Z.to_nat back) = Some tbl /\
     0 <= back <= 2 /\
     Finances.DrawWidget e _cur_year c top
       (Finances.WID_CF_EXPS_PRICE wid_offset)
     = Some (Finances.DrawYearColumn e top (_cur_year - back) tbl) /\
     Finances.inaugurated_year c <= _cur_year - back <= _cur_year /\
     (wid_offset = Z.min years 2 -> back = 0)) /\
  (years < wid_offset ->
   Finances.DrawWidget e _cur_year c top
     (Finances.WID_CF_EXPS_PRICE wid_offset) = Some []).
Proof.
  intros Hlen Hw years back. unfold Finances.DrawWidget. fold years.
  split.
  - intro Hle.
    destruct (Z.leb_spec wid_offset (Z.min years 2)); [|lia].
    fold back.
    destruct (nth_error (Finances.yearly_expenses c) (Z.to_nat back))
      as [tbl|] eqn:E; [|apply nth_error_None in E; lia].
    exists tbl. split; [reflexivity|]. split; [lia|].
    split; [reflexivity|]. split; lia.
  - intro Hlt.
    destruct (Z.leb_spec wid_offset (Z.min years 2)); [lia | reflexivity].
Qed.

Lemma finances_year_columns_witness :
  List.length (Finances.yearly_expenses finances_company) = 3%nat /\
  0 <= 1 <= 2 /\
  Finances.DrawWidget finances_env 1951 finances_company 10
    (Finances.WID_CF_EXPS_PRICE 1)
  = Some (Finances.DrawYearColumn finances_env 10 1951 finances_tbl) /\
  Finances.DrawWidget finances_env 1951 finances_company 10
    (Finances.WID_CF_EXPS_PRICE 2) = Some [].
Proof.
  assert (H1 : List.length (Finances.yearly_expenses finances_company)
               = 3%nat) by reflexivity.
  assert (H2 : 0 <= 1 <= 2) by lia.
  assert (H3 : 0 <= 2 <= 2) by lia.
  split; [exact H1|]. split; [exact H2|]. split.
  - destruct (proj1 (finances_year_columns finances_env 1951 finances_company
                       10 1 H1 H2)) as (tbl & Ht & _ & E & _).
    + vm_compute. congruence.
    + vm_compute in Ht. injection Ht as <-. exact E.
  - apply (proj2 (finances_year_columns finances_env 1951 finances_company
                    10 2 H1 H3)).
    vm_compute. reflexivity.
Defined.

Section FinancesTotal.

Import Finances.

Variable e : Env.
Variable tbl : ExpensesType -> Z.
Hypothesis Hadd : forall a b, money_add e a b = a + b.

Lemma DrawYearCategory_loop_sum : forall l y sum,
  snd (DrawYearCategory_loop e tbl l y sum)
  = sum + fold_right Z.add 0 (map tbl l).
Proof.
  induction l as [|et l IH]; intros y sum; cbn [DrawYearCategory_loop].
  - cbn [snd map fold_right]. lia.
  - specialize (IH (y + FONT_HEIGHT_NORMAL e) (money_add e sum (tbl et))).
    destruct (DrawYearCategory_loop e tbl l (y + FONT_HEIGHT_NORMAL e)
                                    (money_add e sum (tbl et)))
      as [[rest y'] sum'].
    cbn [snd map fold_right] in *. rewrite IH, Hadd. lia.
Qed.

Lemma DrawYearColumn_loop_sum : forall types y sum,
  snd (DrawYearColumn_loop e tbl types y sum)
  = sum + fold_right Z.add 0 (map tbl (List.concat types)).
Proof.
  induction types as [|l types IH]; intros y sum;
    cbn [DrawYearColumn_loop].
  - cbn [snd List.concat map fold_right]. lia.
  - unfold DrawYearCategory.
    pose proof (DrawYearCategory_loop_sum l (y + FONT_HEIGHT_NORMAL e) 0)
      as Hs.
    destruct (DrawYearCategory_loop e tbl l (y + FONT_HEIGHT_NORMAL e) 0)
      as [[prices y1] s1].
    cbn [snd] in Hs.
    match goal with
    | |- context [DrawYearColumn_loop e tbl types ?y2 ?s2] =>
        specialize (IH y2 s2);
        destruct (DrawYearColumn_loop e tbl types y2 s2) as [[rest y'] sum']
    end.
    cbn [snd List.concat] in *. rewrite IH, Hadd, Hs, map_app.
    assert (Happ : forall a b,
              fold_right Z.add 0 (a ++ b)
              = fold_right Z.add 0 a + fold_right Z.add 0 b).
    { induction a as [|x a IHa]; intro b; cbn [app fold_right];
        [lia | rewrite IHa; lia]. }
    rewrite Happ. lia.
Qed.

End FinancesTotal.

(** X25 -- each of the thirteen expense types the three category lists
    name is an item of exactly one list, once, and, with the addition of
    Money being the addition of integers (no saturation), the amount a
    year column writes on the line of the profit caption is the sum of the
    entries of the table of that year for these types, each counted
    once. *)
Theorem finances_year_total e tbl top year :
  (forall a b, Finances.money_add e a b = a + b) ->
  0 <= Finances.FONT_HEIGHT_NORMAL e < 2 ^ 16 ->
  let items := List.concat Finances._expenses_list_types in
  let total := fold_right Z.add 0 (map tbl items) in
  NoDup items /\ (forall et, In et items) /\
  exists y,
    In (Finances.DrawString y Finances.STR_FINANCES_PROFIT
                            Finances.TC_FROMSTRING)
       (Finances.DrawCategories e top) /\
    In (Finances.DrawPrice e total y Finances.TC_WHITE)
       (Finances.DrawYearColumn e top year tbl).
Proof.
  intros Hadd HF items total. subst items total.
  split; [|split].
  - unfold Finances._expenses_list_types, Finances._expenses_list_revenue,
      Finances._expenses_list_operating_costs,
      Finances._expenses_list_capital_costs.
    cbn [List.concat app].
    repeat (constructor;
            [intro H; repeat (destruct H as [H|H]; [discriminate H|]);
             exact H|]).
    constructor.
  - intro et. unfold Finances._expenses_list_types,
      Finances._expenses_list_revenue,
      Finances._expenses_list_operating_costs,
      Finances._expenses_list_capital_costs.
    cbn [List.concat app].
    destruct et; repeat (first [left; reflexivity | right]).
  - pose proof (category_loops_aligned e tbl Finances._expenses_list_types 0
                  (top + Finances.FONT_HEIGHT_NORMAL e + Finances.vsep_wide e)
                  0 (expenses_heights e HF)) as A.
    cbv zeta in A. destruct A as [A _].
    pose proof (DrawYearColumn_loop_sum e tbl Hadd
                  Finances._expenses_list_types
                  (top + Finances.FONT_HEIGHT_NORMAL e + Finances.vsep_wide e)
                  0) as Hs.
    unfold Finances.DrawCategories, Finances.DrawYearColumn.
    replace (top + (Finances.FONT_HEIGHT_NORMAL e + Finances.vsep_wide e))
      with (top + Finances.FONT_HEIGHT_NORMAL e + Finances.vsep_wide e)
      by lia.
    destruct (Finances.DrawCategories_loop _ _ _ _) as [cout yc].
    destruct (Finances.DrawYearColumn_loop _ _ _ _ _) as [[yout yy] sum].
    cbn [fst snd] in *. subst yy. rewrite Z.add_0_l in Hs. subst sum.
    exists (yc + Finances.vsep_normal e). split.
    + apply in_app_iff. right. left. reflexivity.
    + right. apply in_app_iff. right. right. left. reflexivity.
Qed.

Lemma finances_year_total_witness :
  (forall a b, Finances.money_add finances_env a b = a + b) /\
  0 <= Finances.FONT_HEIGHT_NORMAL finances_env < 2 ^ 16 /\
  NoDup (List.concat Finances._expenses_list_types) /\
  In (Finances.DrawString 242 (Finances.STR_FINANCES_POSITIVE_INCOME 380)
                          Finances.TC_WHITE)
     (Finances.DrawYearColumn finances_env 10 1951 finances_tbl).
Proof.
  assert (H1 : forall a b, Finances.money_add finances_env a b = a + b)
    by (intros a b; reflexivity).
  assert (H2 : 0 <= Finances.FONT_HEIGHT_NORMAL finances_env < 2 ^ 16)
    by (vm_compute; split; congruence).
  split; [exact H1|]. split; [exact H2|].
  split; [exact (proj1 (finances_year_total finances_env finances_tbl 10 1951
                          H1 H2))|].
  vm_compute. tauto.
Defined.

(** * The sections of the infrastructure window *)

Section InfrastructureLines.

Import Infrastructure.

Variable e : Env.
Variable c : Company.

Local Abbreviation F := (FONT_HEIGHT_NORMAL e).

Lemma count_lines_DrawCountLine y count cost :
  count_lines (fst (DrawCountLine e y count cost))
  = [DrawString (y + F) (STR_WHITE_COMMA (to_int count))] /\
  snd (DrawCountLine e y count cost) = y + F.
Proof.
  unfold DrawCountLine, count_lines. cbn [fst snd filter].
  destruct (infrastructure_maintenance e); split; reflexivity.
Qed.

Lemma count_lines_app a b : count_lines (a ++ b) = count_lines a ++ count_lines b.
Proof. apply filter_app. Qed.

Lemma loops_aligned keep name count cost :
  (forall rt y, counts_for c (DrawString y (name rt))
                             (DrawString y (STR_WHITE_COMMA
                                              (to_int (count rt))))) ->
  forall l y,
    snd (names_loop e keep name l y) = snd (counts_loop e keep count cost l y)
    /\ Forall2 (counts_for c)
               (fst (names_loop e keep name l y))
               (count_lines (fst (counts_loop e keep count cost l y))).
Proof.
  intro H. induction l as [|rt l IH]; intro y;
    cbn [names_loop counts_loop].
  - cbn [fst snd]. split; [reflexivity | constructor].
  - destruct (keep rt); [|apply IH].
    pose proof (count_lines_DrawCountLine y (count rt) (cost rt)) as [E1 E2].
    destruct (DrawCountLine e y (count rt) (cost rt)) as [line y1].
    cbn [fst snd] in E1, E2. subst y1.
    specialize (IH (y + F)).
    destruct (names_loop e keep name l (y + F)) as [nrest ny].
    destruct (counts_loop e keep count cost l (y + F)) as [crest cy].
    cbn [fst snd] in *. destruct IH as [I1 I2].
    split; [exact I1|].
    rewrite count_lines_app, E1. cbn [app].
    constructor; [apply H | exact I2].
Qed.

Lemma names_loop_lines keep name : forall l y,
  snd (names_loop e keep name l y)
  = y + Z.of_nat (List.length (fst (names_loop e keep name l y))) * F /\
  List.length (fst (names_loop e keep name l y))
  = List.length (filter keep l) /\
  forall k d,
    nth_error (fst (names_loop e keep name l y)) k = Some d ->
    exists s, d = DrawString (y + (Z.of_nat k + 1) * F) s.
Proof.
  induction l as [|rt l IH]; intro y; cbn [names_loop filter].
  - cbn [fst snd List.length]. split; [lia|]. split; [reflexivity|].
    intros [|k] d Hd; discriminate.
  - destruct (keep rt); [|apply IH].
    specialize (IH (y + F)).
    destruct (names_loop e keep name l (y + F)) as [rest y'].
    cbn [fst snd List.length] in *. destruct IH as (I1 & I2 & I3).
    split; [rewrite I1; lia|]. split; [now rewrite I2|].
    intros [|k] d Hd.
    + injection Hd as <-. eexists. f_equal. lia.
    + cbn [nth_error] in Hd. destruct (I3 k d Hd) as [s ->].
      exists s. f_equal. lia.
Qed.

Lemma lines_loop_count (keep : Z -> bool) : forall (l : list Z) (a : Z),
  0 <= a -> a + Z.of_nat (List.length l) < 2 ^ 32 ->
  fold_left (fun lines rt => if keep rt then uint32 (lines + 1) else lines) l a
  = a + Z.of_nat (List.length (filter keep l)).
Proof.
  induction l as [|rt l IH]; intros a Ha Hb; cbn [fold_left filter].
  - cbn [List.length]. lia.
  - cbn [List.length] in Hb. destruct (keep rt).
    + replace (uint32 (a + 1)) with (a + 1)
        by (unfold uint32; rewrite Z.mod_small by lia; reflexivity).
      rewrite IH by lia. cbn [List.length]. lia.
    + apply IH; lia.
Qed.

End InfrastructureLines.

Lemma counts_loop_none e keep count cost :
  (forall rt, keep rt = false) ->
  forall l y, Infrastructure.counts_loop e keep count cost l y = ([], y).
Proof.
  intro H. induction l as [|rt l IH]; intro y;
    cbn [Infrastructure.counts_loop]; [reflexivity|].
  rewrite H. apply IH.
Qed.

(** X18 -- in each section of the infrastructure window the counts stand
    beside what they count: the lines of the count widget are as many as
    the lines under the title of the description, each at the height of
    its description line and with the count of the rail type, road type
    or item that line names.  With no valid rail type the rail section
    says "None" under its title and its count widget stays empty. *)
Theorem infrastructure_counts_aligned e w c top widget :
  Infrastructure.is_desc widget = true ->
  let desc := Infrastructure.DrawWidget e w c top widget in
  let counts :=
    Infrastructure.DrawWidget e w c top (Infrastructure.count_widget widget) in
  if match widget with
     | Infrastructure.WID_CI_RAIL_DESC =>
         Infrastructure.railtypes w =? Infrastructure.RAILTYPES_NONE
     | _ => false
     end
  then
    desc = [ Infrastructure.DrawString
               top Infrastructure.STR_COMPANY_INFRASTRUCTURE_VIEW_RAIL_SECT;
             Infrastructure.DrawString
               (top + Infrastructure.FONT_HEIGHT_NORMAL e)
               Infrastructure.STR_COMPANY_VIEW_INFRASTRUCTURE_NONE ] /\
    counts = []
  else
    Forall2 (Infrastructure.counts_for c) (tl desc)
            (Infrastructure.count_lines counts).
Proof.
  intros Hd desc counts. subst desc counts.
  destruct widget; try discriminate Hd;
    cbn [Infrastructure.count_widget]; unfold Infrastructure.DrawWidget.
  - destruct (Z.eqb_spec (Infrastructure.railtypes w)
                         Infrastructure.RAILTYPES_NONE) as [E|E];
      cbn [negb].
    + split; [reflexivity|].
      rewrite counts_loop_none.
      * reflexivity.
      * intro rt. rewrite E. unfold HasBit, Infrastructure.RAILTYPES_NONE.
        apply Z.testbit_0_l.
    + pose proof (loops_aligned e c (HasBit (Infrastructure.railtypes w))
                    Infrastructure.STR_WHITE_STRING_rail
                    (Infrastructure.rail c)
                    (fun rt => Infrastructure.RailMaintenanceCost
                                 e rt (Infrastructure.rail c rt)
                                 (Infrastructure.GetRailTotal c))
                    (fun rt y => conj eq_refl eq_refl)
                    (Infrastructure._sorted_railtypes e) top) as [A1 A2].
      destruct (Infrastructure.names_loop _ _ _ _ _) as [names y1].
      destruct (Infrastructure.counts_loop _ _ _ _ _ _) as [cs y2].
      cbn [fst snd tl] in *. subst y2.
      rewrite count_lines_app.
      rewrite (proj1 (count_lines_DrawCountLine e y1 _ _)).
      apply Forall2_app; [exact A2|].
      constructor; [split; reflexivity | constructor].
  - pose proof (loops_aligned e c
                  (fun rt => HasBit (Infrastructure.roadtypes w) rt
                             && Bool.eqb (Infrastructure.RoadTypeIsRoad e rt)
                                         true)
                  Infrastructure.STR_WHITE_STRING_road
                  (Infrastructure.road c)
                  (fun rt => Infrastructure.RoadMaintenanceCost
                               e rt (Infrastructure.road c rt)
                               (Infrastructure.GetRoadTotal c))
                  (fun rt y => conj eq_refl eq_refl)
                  (Infrastructure._sorted_roadtypes e) top) as [_ A2].
    exact A2.
  - pose proof (loops_aligned e c
                  (fun rt => HasBit (Infrastructure.roadtypes w) rt
                             && Bool.eqb (Infrastructure.RoadTypeIsRoad e rt)
                                         false)
                  Infrastructure.STR_WHITE_STRING_road
                  (Infrastructure.road c)
                  (fun rt => Infrastructure.RoadMaintenanceCost
                               e rt (Infrastructure.road c rt)
                               (Infrastructure.GetTramTotal c))
                  (fun rt y => conj eq_refl eq_refl)
                  (Infrastructure._sorted_roadtypes e) top) as [_ A2].
    exact A2.
  - rewrite (proj1 (count_lines_DrawCountLine e top _ _)). cbn [tl].
    constructor; [split; reflexivity | constructor].
  - pose proof (count_lines_DrawCountLine e top (Infrastructure.station c)
                  (Infrastructure.StationMaintenanceCost
                     e (Infrastructure.station c))) as [E1 E2].
    destruct (Infrastructure.DrawCountLine e top _ _) as [l1 y1].
    cbn [fst snd] in E1, E2. subst y1.
    pose proof (count_lines_DrawCountLine
                  e (top + Infrastructure.FONT_HEIGHT_NORMAL e)
                  (Infrastructure.airport c)
                  (Infrastructure.AirportMaintenanceCost
                     e (Infrastructure.index c))) as [E3 _].
    destruct (Infrastructure.DrawCountLine
                e (top + Infrastructure.FONT_HEIGHT_NORMAL e) _ _)
      as [l2 y2].
    cbn [fst] in E3. rewrite count_lines_app, E1, E3. cbn [tl app].
    constructor; [split; reflexivity|].
    constructor; [split; reflexivity | constructor].
Qed.

Lemma infrastructure_counts_aligned_witness :
  Infrastructure.is_desc Infrastructure.WID_CI_RAIL_DESC = true /\
  Forall2 (Infrastructure.counts_for infrastructure_company)
    [ Infrastructure.DrawString 30 (Infrastructure.STR_WHITE_STRING_rail 0);
      Infrastructure.DrawString
        40 Infrastructure.STR_COMPANY_INFRASTRUCTURE_VIEW_SIGNALS ]
    [ Infrastructure.DrawString 30 (Infrastructure.STR_WHITE_COMMA 40);
      Infrastructure.DrawString 40 (Infrastructure.STR_WHITE_COMMA 3) ].
Proof.
  assert (H : Infrastructure.is_desc Infrastructure.WID_CI_RAIL_DESC = true)
    by reflexivity.
  split; [exact H|].
  exact (infrastructure_counts_aligned infrastructure_env
           infrastructure_window infrastructure_company 20
           Infrastructure.WID_CI_RAIL_DESC H).
Defined.

Lemma nth_error_cons_app_last {A} (x : A) l z k d :
  nth_error (x :: l ++ [z]) k = Some d ->
  (k = 0%nat /\ d = x) \/
  (exists j, k = S j /\ nth_error l j = Some d) \/
  (k = S (List.length l) /\ d = z).
Proof.
  destruct k as [|k]; cbn [nth_error].
  - intro H. left. split; [reflexivity | congruence].
  - intro H. right. destruct (Nat.lt_ge_cases k (List.length l)) as [Hk|Hk].
    + rewrite nth_error_app1 in H by exact Hk. left. exists k. auto.
    + rewrite nth_error_app2 in H by exact Hk.
      destruct (k - List.length l)%nat as [|m] eqn:Em.
      * right. split; [f_equal; lia | cbn in H; congruence].
      * destruct m; discriminate.
Qed.

(** X19 -- the lines of a description of the rail, road or tram section
    follow each other a line height apart from the top of the widget, and
    the height UpdateWidgetSize leaves the widget, starting from room for
    two lines, holds all of them.  [lines] is the number of lines drawn,
    but for a rail section with no valid rail type, where the line
    "None" is the second of the two. *)
Theorem infrastructure_lines_fit e w c top widget n size_height :
  Infrastructure.lines e w widget = Some n ->
  0 <= Infrastructure.FONT_HEIGHT_NORMAL e < 2 ^ 16 ->
  Z.of_nat (List.length (Infrastructure._sorted_railtypes e)) < 2 ^ 15 ->
  Z.of_nat (List.length (Infrastructure._sorted_roadtypes e)) < 2 ^ 15 ->
  2 * Infrastructure.FONT_HEIGHT_NORMAL e <= size_height ->
  let drawn := Infrastructure.DrawWidget e w c top widget in
  (forall k d, nth_error drawn k = Some d ->
     exists s,
       d = Infrastructure.DrawString
             (top + Z.of_nat k * Infrastructure.FONT_HEIGHT_NORMAL e) s) /\
  Z.of_nat (List.length drawn)
  = (if match widget with
        | Infrastructure.WID_CI_RAIL_DESC =>
            Infrastructure.railtypes w =? Infrastructure.RAILTYPES_NONE
        | _ => false
        end
     then 2 else n) /\
  Z.of_nat (List.length drawn) * Infrastructure.FONT_HEIGHT_NORMAL e
  <= Infrastructure.UpdateWidgetSize_height e w widget size_height.
Proof.
  intros Hn HF Hrail Hroad Hmin drawn. subst drawn.
  unfold Infrastructure.UpdateWidgetSize_height. rewrite Hn.
  assert (P15 : 2 ^ 15 = 32768) by reflexivity.
  assert (P16 : 2 ^ 16 = 65536) by reflexivity.
  assert (P32 : 2 ^ 32 = 4294967296) by reflexivity.
  assert (Hroads : forall keep title total,
            Some (Infrastructure.lines_loop keep
                    (Infrastructure._sorted_roadtypes e)) = Some n ->
            let drawn :=
              Infrastructure.DrawString top title
                :: fst (Infrastructure.names_loop
                          e keep Infrastructure.STR_WHITE_STRING_road
                          (Infrastructure._sorted_roadtypes e) top) in
            total = uint32 (n * Infrastructure.FONT_HEIGHT_NORMAL e) ->
            (forall k d, nth_error drawn k = Some d ->
               exists s,
                 d = Infrastructure.DrawString
                       (top + Z.of_nat k * Infrastructure.FONT_HEIGHT_NORMAL e)
                       s) /\
            Z.of_nat (List.length drawn) = n /\
            Z.of_nat (List.length drawn) * Infrastructure.FONT_HEIGHT_NORMAL e
            <= Z.max size_height total).
  { intros keep title total Hl drawn Ht. subst drawn.
    injection Hl as Hl. unfold Infrastructure.lines_loop in Hl.
    rewrite lines_loop_count in Hl by lia.
    destruct (names_loop_lines e keep Infrastructure.STR_WHITE_STRING_road
                (Infrastructure._sorted_roadtypes e) top) as (_ & L2 & L3).
    pose proof (filter_length_le keep (Infrastructure._sorted_roadtypes e))
      as Hfl.
    split; [|split].
    - intros [|k] d Hd.
      + injection Hd as <-. eexists. f_equal. lia.
      + cbn [nth_error] in Hd. destruct (L3 k d Hd) as [s ->].
        exists s. f_equal. lia.
    - cbn [List.length]. rewrite L2. lia.
    - cbn [List.length]. rewrite L2.
      assert (Hu : uint32 (n * Infrastructure.FONT_HEIGHT_NORMAL e)
                   = n * Infrastructure.FONT_HEIGHT_NORMAL e)
        by (unfold uint32; apply Z.mod_small; nia).
      rewrite Ht, Hu. nia. }
  destruct widget; try discriminate Hn; unfold Infrastructure.lines in Hn;
    unfold Infrastructure.DrawWidget.
  - injection Hn as Hn. unfold Infrastructure.lines_loop in Hn.
    rewrite lines_loop_count in Hn by lia.
    destruct (names_loop_lines e (HasBit (Infrastructure.railtypes w))
                Infrastructure.STR_WHITE_STRING_rail
                (Infrastructure._sorted_railtypes e) top) as (L1 & L2 & L3).
    pose proof (filter_length_le (HasBit (Infrastructure.railtypes w))
                  (Infrastructure._sorted_railtypes e)) as Hfl.
    destruct (Z.eqb_spec (Infrastructure.railtypes w)
                         Infrastructure.RAILTYPES_NONE) as [E|E];
      cbn [negb] in *.
    + split; [|split].
      * intros [|[|k]] d Hd; cbn [nth_error] in Hd.
        -- injection Hd as <-. eexists. f_equal. lia.
        -- injection Hd as <-. eexists. f_equal. lia.
        -- destruct k; discriminate.
      * reflexivity.
      * cbn [List.length]. lia.
    + destruct (Infrastructure.names_loop _ _ _ _ _) as [names y1].
      cbn [fst snd] in *.
      assert (Hn' : n = 1 + Z.of_nat (List.length names) + 1).
      { rewrite <- Hn. unfold uint32. rewrite Z.mod_small by lia. lia. }
      split; [|split].
      * intros k d Hd. apply nth_error_cons_app_last in Hd.
        destruct Hd as [[-> ->]|[(j & -> & Hj)|[-> ->]]].
        -- eexists. f_equal. lia.
        -- destruct (L3 j d Hj) as [s ->]. exists s. f_equal. lia.
        -- eexists. f_equal. lia.
      * cbn [List.length]. rewrite length_app. cbn [List.length]. lia.
      * cbn [List.length]. rewrite length_app. cbn [List.length].
        assert (Hu : uint32 (n * Infrastructure.FONT_HEIGHT_NORMAL e)
                     = n * Infrastructure.FONT_HEIGHT_NORMAL e)
          by (unfold uint32; apply Z.mod_small; nia).
        rewrite Hu. nia.
  - apply Hroads; [exact Hn | reflexivity].
  - apply Hroads; [exact Hn | reflexivity].
Qed.

Lemma infrastructure_lines_fit_witness :
  Infrastructure.lines infrastructure_env infrastructure_window
                       Infrastructure.WID_CI_RAIL_DESC = Some 3 /\
  0 <= Infrastructure.FONT_HEIGHT_NORMAL infrastructure_env < 2 ^ 16 /\
  Z.of_nat (List.length (Infrastructure._sorted_railtypes infrastructure_env))
  < 2 ^ 15 /\
  Z.of_nat (List.length (Infrastructure._sorted_roadtypes infrastructure_env))
  < 2 ^ 15 /\
  2 * Infrastructure.FONT_HEIGHT_NORMAL infrastructure_env <= 20 /\
  Z.of_nat (List.length
              (Infrastructure.DrawWidget infrastructure_env
                 infrastructure_window infrastructure_company 20
                 Infrastructure.WID_CI_RAIL_DESC)) = 3.
Proof.
  assert (H1 : Infrastructure.lines infrastructure_env infrastructure_window
                 Infrastructure.WID_CI_RAIL_DESC = Some 3) by reflexivity.
  assert (H2 : 0 <= Infrastructure.FONT_HEIGHT_NORMAL infrastructure_env
               < 2 ^ 16) by (vm_compute; split; congruence).
  assert (H3 : Z.of_nat (List.length (Infrastructure._sorted_railtypes
                                        infrastructure_env)) < 2 ^ 15)
    by reflexivity.
  assert (H4 : Z.of_nat (List.length (Infrastructure._sorted_roadtypes
                                        infrastructure_env)) < 2 ^ 15)
    by reflexivity.
  assert (H5 : 2 * Infrastructure.FONT_HEIGHT_NORMAL infrastructure_env <= 20)
    by (vm_compute; congruence).
  split; [exact H1|]. split; [exact H2|]. split; [exact H3|].
  split; [exact H4|]. split; [exact H5|].
  exact (proj1 (proj2 (infrastructure_lines_fit infrastructure_env
                         infrastructure_window infrastructure_company 20
                         Infrastructure.WID_CI_RAIL_DESC 3 20
                         H1 H2 H3 H4 H5))).
Defined.

(** * The summaries of the company window *)

Lemma add_pieces_sum : forall l p,
  0 <= p -> Forall (fun n => 0 <= n) l ->
  p + fold_right Z.add 0 l < 2 ^ 32 ->
  CompanyView.add_pieces p l = p + fold_right Z.add 0 l.
Proof.
  unfold CompanyView.add_pieces.
  induction l as [|n l IH]; intros p Hp Hl Hb; cbn [fold_left fold_right].
  - lia.
  - inversion Hl as [|? ? Hn Hl']; subst. cbn [fold_right] in Hb.
    assert (Hs : 0 <= fold_right Z.add 0 l).
    { clear -Hl'. induction Hl'; cbn [fold_right]; lia. }
    replace (uint32 (p + n)) with (p + n)
      by (unfold uint32; rewrite Z.mod_small by lia; reflexivity).
    rewrite IH by (try assumption; lia). lia.
Qed.

Ltac summary_lines :=
  cbn [negb andb app filter map CompanyView.shown];
  repeat match goal with |- _ /\ _ => split end;
  try discriminate; try reflexivity;
  try (match goal with
       | |- forall k d, nth_error _ k = Some d -> _ =>
           let k := fresh "k" in
           let d := fresh "d" in
           let Hd := fresh "Hd" in
           intros k d Hd;
           repeat (destruct k as [|k]; cbn [nth_error] in Hd;
                   [injection Hd as <-; cbn [CompanyView.top_of]; lia|]);
           destruct k; discriminate
       end);
  try (match goal with
       | |- In _ _ <-> _ =>
           let H := fresh "H" in
           split;
           [ intro H; repeat split; try assumption; exfalso;
             repeat (destruct H as [H|H]; [discriminate H|]); exact H
           | intro H; decompose [and] H; try contradiction;
             left; reflexivity ]
       | |- (exists y, In _ _) <-> _ =>
           let H := fresh "H" in
           let y := fresh "y" in
           split;
           [ intros [y H]; try assumption; exfalso;
             repeat (destruct H as [H|H]; [discriminate H|]); exact H
           | intro H; try contradiction; eexists;
             repeat (first [left; reflexivity | right]) ]
       end).

(** X20 -- the vehicle summary of the company window, for amounts below
    2^30.  A company without vehicles gets the one line "None"; any other
    company gets a line for each vehicle type it has vehicles of, with
    their number, in the order trains, road vehicles, ships, aircraft,
    and no line for a type it has none of.  The summary is never empty,
    and its lines follow each other a line height apart from the top of
    the widget. *)
Theorem company_vehicle_counts FONT_HEIGHT_NORMAL c top :
  0 <= CompanyView.num_trains c < 2 ^ 30 ->
  0 <= CompanyView.num_road_vehicles c < 2 ^ 30 ->
  0 <= CompanyView.num_ships c < 2 ^ 30 ->
  0 <= CompanyView.num_aircraft c < 2 ^ 30 ->
  let drawn :=
    CompanyView.DrawWidget_vehicle_counts FONT_HEIGHT_NORMAL c top in
  drawn <> [] /\
  (forall k d, nth_error drawn k = Some d ->
     CompanyView.top_of d = top + Z.of_nat k * FONT_HEIGHT_NORMAL) /\
  (In (CompanyView.DrawString top CompanyView.STR_COMPANY_VIEW_VEHICLES_NONE)
      drawn <->
   CompanyView.num_trains c = 0 /\ CompanyView.num_road_vehicles c = 0 /\
   CompanyView.num_ships c = 0 /\ CompanyView.num_aircraft c = 0) /\
  map CompanyView.shown
      (filter (fun d => match CompanyView.shown d with
                        | Some _ => true
                        | None => false
                        end) drawn)
  = map Some (filter (fun n => negb (n =? 0))
                     [ CompanyView.num_trains c;
                       CompanyView.num_road_vehicles c;
                       CompanyView.num_ships c;
                       CompanyView.num_aircraft c ]) /\
  ((exists y, In (CompanyView.DrawString
                    y (CompanyView.STR_COMPANY_VIEW_TRAINS
                         (CompanyView.num_trains c))) drawn) <->
   CompanyView.num_trains c <> 0) /\
  ((exists y, In (CompanyView.DrawString
                    y (CompanyView.STR_COMPANY_VIEW_ROAD_VEHICLES
                         (CompanyView.num_road_vehicles c))) drawn) <->
   CompanyView.num_road_vehicles c <> 0) /\
  ((exists y, In (CompanyView.DrawString
                    y (CompanyView.STR_COMPANY_VIEW_SHIPS
                         (CompanyView.num_ships c))) drawn) <->
   CompanyView.num_ships c <> 0) /\
  ((exists y, In (CompanyView.DrawString
                    y (CompanyView.STR_COMPANY_VIEW_AIRCRAFT
                         (CompanyView.num_aircraft c))) drawn) <->
   CompanyView.num_aircraft c <> 0).
Proof.
  intros H0 H1 H2 H3 drawn. subst drawn.
  unfold CompanyView.DrawWidget_vehicle_counts.
  assert (P30 : 2 ^ 30 = 1073741824) by reflexivity.
  assert (P32 : 2 ^ 32 = 4294967296) by reflexivity.
  rewrite P30 in *.
  replace (uint32 (CompanyView.num_trains c + CompanyView.num_road_vehicles c
                   + CompanyView.num_ships c + CompanyView.num_aircraft c))
    with (CompanyView.num_trains c + CompanyView.num_road_vehicles c
          + CompanyView.num_ships c + CompanyView.num_aircraft c)
    by (unfold uint32; rewrite Z.mod_small by lia; reflexivity).
  unfold CompanyView._company_view_vehicle_count_strings.
  cbn [combine CompanyView.vehicle_counts_loop filter].
  destruct (Z.eqb_spec (CompanyView.num_trains c) 0) as [E0|E0];
    destruct (Z.eqb_spec (CompanyView.num_road_vehicles c) 0) as [E1|E1];
    destruct (Z.eqb_spec (CompanyView.num_ships c) 0) as [E2|E2];
    destruct (Z.eqb_spec (CompanyView.num_aircraft c) 0) as [E3|E3];
    destruct (Z.eqb_spec (CompanyView.num_trains c
                          + CompanyView.num_road_vehicles c
                          + CompanyView.num_ships c
                          + CompanyView.num_aircraft c) 0) as [Es|Es];
    try (exfalso; lia); summary_lines.
Qed.

Lemma company_vehicle_counts_witness :
  0 <= CompanyView.num_trains company_view_sample < 2 ^ 30 /\
  0 <= CompanyView.num_road_vehicles company_view_sample < 2 ^ 30 /\
  0 <= CompanyView.num_ships company_view_sample < 2 ^ 30 /\
  0 <= CompanyView.num_aircraft company_view_sample < 2 ^ 30 /\
  CompanyView.DrawWidget_vehicle_counts 10 company_view_sample 20
  = [ CompanyView.DrawString 20 (CompanyView.STR_COMPANY_VIEW_TRAINS 3);
      CompanyView.DrawString 30 (CompanyView.STR_COMPANY_VIEW_SHIPS 1) ] /\
  CompanyView.DrawWidget_vehicle_counts 10 company_view_sample 20 <> [].
Proof.
  assert (H0 : 0 <= CompanyView.num_trains company_view_sample < 2 ^ 30)
    by (vm_compute; split; congruence).
  assert (H1 : 0 <= CompanyView.num_road_vehicles company_view_sample
               < 2 ^ 30) by (vm_compute; split; congruence).
  assert (H2 : 0 <= CompanyView.num_ships company_view_sample < 2 ^ 30)
    by (vm_compute; split; congruence).
  assert (H3 : 0 <= CompanyView.num_aircraft company_view_sample < 2 ^ 30)
    by (vm_compute; split; congruence).
  split; [exact H0|]. split; [exact H1|]. split; [exact H2|].
  split; [exact H3|]. split; [reflexivity|].
  exact (proj1 (company_vehicle_counts 10 company_view_sample 20
                  H0 H1 H2 H3)).
Defined.

(** X21 -- the infrastructure summary of the company window, for counts
    that do not overflow 32 bits.  The rail line shows the pieces of rail
    of all types plus the signals, the road line the pieces of road of
    all types.  A company with nothing of any kind gets the one line
    "None"; any other company gets a line for each kind it has something
    of, in the order rail, road, water, stations, airports.  The summary
    is never empty, and its lines follow each other a line height
    apart. *)
Theorem company_infrastructure_counts FONT_HEIGHT_NORMAL c top :
  0 <= CompanyView.signal c ->
  Forall (fun n => 0 <= n) (CompanyView.rail c) ->
  CompanyView.signal c + fold_right Z.add 0 (CompanyView.rail c) < 2 ^ 32 ->
  Forall (fun n => 0 <= n) (CompanyView.road c) ->
  fold_right Z.add 0 (CompanyView.road c) < 2 ^ 32 ->
  let rail_pieces :=
    CompanyView.signal c + fold_right Z.add 0 (CompanyView.rail c) in
  let road_pieces := fold_right Z.add 0 (CompanyView.road c) in
  let drawn :=
    CompanyView.DrawWidget_infrastructure_counts FONT_HEIGHT_NORMAL c top in
  drawn <> [] /\
  (forall k d, nth_error drawn k = Some d ->
     CompanyView.top_of d = top + Z.of_nat k * FONT_HEIGHT_NORMAL) /\
  (In (CompanyView.DrawString
         top CompanyView.STR_COMPANY_VIEW_INFRASTRUCTURE_NONE) drawn <->
   rail_pieces = 0 /\ road_pieces = 0 /\ CompanyView.water c = 0 /\
   CompanyView.station c = 0 /\ CompanyView.airport c = 0) /\
  map CompanyView.shown
      (filter (fun d => match CompanyView.shown d with
                        | Some _ => true
                        | None => false
                        end) drawn)
  = map Some (filter (fun n => negb (n =? 0))
                     [ rail_pieces; road_pieces; CompanyView.water c;
                       CompanyView.station c; CompanyView.airport c ]) /\
  ((exists y, In (CompanyView.DrawString
                    y (CompanyView.STR_COMPANY_VIEW_INFRASTRUCTURE_RAIL
                         rail_pieces)) drawn) <->
   rail_pieces <> 0) /\
  ((exists y, In (CompanyView.DrawString
                    y (CompanyView.STR_COMPANY_VIEW_INFRASTRUCTURE_ROAD
                         road_pieces)) drawn) <->
   road_pieces <> 0).
Proof.
  intros Hs Hr Hrb Hd Hdb rail_pieces road_pieces drawn.
  subst drawn. unfold CompanyView.DrawWidget_infrastructure_counts.
  rewrite (add_pieces_sum (CompanyView.rail c) (CompanyView.signal c))
    by assumption.
  rewrite (add_pieces_sum (CompanyView.road c) 0) by (try assumption; lia).
  change (0 + fold_right Z.add 0 (CompanyView.road c)) with road_pieces.
  fold rail_pieces.
  clearbody rail_pieces road_pieces.
  cbn [filter].
  destruct (Z.eqb_spec rail_pieces 0) as [E0|E0];
    destruct (Z.eqb_spec road_pieces 0) as [E1|E1];
    destruct (Z.eqb_spec (CompanyView.water c) 0) as [E2|E2];
    destruct (Z.eqb_spec (CompanyView.station c) 0) as [E3|E3];
    destruct (Z.eqb_spec (CompanyView.airport c) 0) as [E4|E4];
    summary_lines.
Qed.

Lemma company_infrastructure_counts_witness :
  0 <= CompanyView.signal company_view_sample /\
  Forall (fun n => 0 <= n) (CompanyView.rail company_view_sample) /\
  CompanyView.signal company_view_sample
  + fold_right Z.add 0 (CompanyView.rail company_view_sample) < 2 ^ 32 /\
  Forall (fun n => 0 <= n) (CompanyView.road company_view_sample) /\
  fold_right Z.add 0 (CompanyView.road company_view_sample) < 2 ^ 32 /\
  CompanyView.DrawWidget_infrastructure_counts 10 company_view_sample 20
  = [ CompanyView.DrawString
        20 (CompanyView.STR_COMPANY_VIEW_INFRASTRUCTURE_RAIL 42);
      CompanyView.DrawString
        30 (CompanyView.STR_COMPANY_VIEW_INFRASTRUCTURE_STATION 1) ] /\
  CompanyView.DrawWidget_infrastructure_counts 10 company_view_sample 20
  <> [].
Proof.
  assert (H0 : 0 <= CompanyView.signal company_view_sample)
    by (vm_compute; congruence).
  assert (H1 : Forall (fun n => 0 <= n) (CompanyView.rail company_view_sample))
    by (repeat constructor; vm_compute; congruence).
  assert (H2 : CompanyView.signal company_view_sample
               + fold_right Z.add 0 (CompanyView.rail company_view_sample)
               < 2 ^ 32) by reflexivity.
  assert (H3 : Forall (fun n => 0 <= n) (CompanyView.road company_view_sample))
    by (repeat constructor; vm_compute; congruence).
  assert (H4 : fold_right Z.add 0 (CompanyView.road company_view_sample)
               < 2 ^ 32) by reflexivity.
  split; [exact H0|]. split; [exact H1|]. split; [exact H2|].
  split; [exact H3|]. split; [exact H4|]. split; [reflexivity|].
  exact (proj1 (company_infrastructure_counts 10 company_view_sample 20
                  H0 H1 H2 H3 H4)).
Defined.
